(* ===== verification/_CoqProject ===== *)
-Q . S2P
Prelude.v
GoCodec.v
GoHash.v
GoUrl.v
GoUrlParse.v
GoJson.v
GoJsonSpec.v
Api.v
SchemaJson.v
GraphSpec.v
Sql.v
StoreAlpha.v
StoreAlphaSpec.v
KeysAlpha.v
QueryAlpha.v
SearchAlpha.v
TrackAlpha.v
Topology.v
Concurrent.v
TrackAlphaProofs.v
StoreBeta.v
StoreBetaSpec.v
TraverseBeta.v
ManifestBeta.v
ManifestBetaSpec.v
Remotes.v
Consumer.v
Instances.v
TrackInvariant.v
ConcurrentTrack.v
ConcurrentFailures.v
Indexing.v
ConcurrentBeta.v
CallTree.v
ConcurrentManifest.v
ConcurrentStore.v
ConcurrentEnds.v
QuerySpec.v
SearchSpec.v
TopologySpec.v
ClientConfig.v
Mux.v
Services.v
Gateway.v
IndexerConfig.v
Mains.v
DepsClient.v
DepsCli.v
DepsMain.v
Demo.v
StoreThms.v
StoreBetaThms.v
KeysThms.v
TrackThms.v
ConcurrentThms.v
QueryThms.v
SearchThms.v
ManifestThms.v
ConcurrentStoreThms.v
TraverseThms.v
TopologyThms.v
RemotesThms.v
ConsumerThms.v
GatewayThms.v
ServersThms.v
CliThms.v
IndexingThms.v
EndToEnd.v
