(* ===== verification/Prelude.v ===== *)
(** * deps.cloud: verification development (root)

    deps.cloud tells how software projects depend on one another.  The
    repository holds five programs around one graph:

    - the _tracker_ (src/tracker) keeps the graph in a SQL database, behind two
      store interfaces, v1alpha and v1beta, and serves queries, searches and
      the tracking of sources over it;
    - the _gateway_ (src/gateway) relays the services to callers, over gRPC
      and REST;
    - the _indexer_ (src/indexer) asks hosting services for repositories,
      clones them, has their manifests extracted and reports to the tracker;
    - _deps_ (src/deps) is the command line client;
    - the _extractor_ (src/extractor, TypeScript) parses manifests; the Go
      programs only call it, and here it is a parameter.

    The development translates the Go code into executable definitions and
    proves what makes each part correct, then composes the parts.  The graph
    is what they share: a node is a source or a module, an edge says that a
    source manages a module or that a module depends on another, and carries
    in its third key the source that declared it.

    ** The files and what they model

    Shared:
    - Prelude.v (this file): Go strings and byte slices, integers of a width
      and their wrap-around ([swrap]), errors, [outcome] (a result, an error or
      a panic) and the state monad [M W] over a world [W], the order of map
      iteration ([MapRange]), generic lemmas and tactics.
    - GoCodec.v, GoHash.v, GoUrl.v: base64, base32, big-endian integers, CRC32,
      SHA-256, query escaping and [%d], written out, with round trips and
      published test vectors.  GoUrlParse.v: [url.Parse], as far as scheme and
      host.  GoJson.v: encoding/json and the UTF-8 it rests on, writing and
      reading structs of strings and lists of strings; GoJsonSpec.v reads back
      what was written.
    - Api.v: the messages of the API module, as records of the fields used;
      SchemaJson.v: their JSON, by their struct tags ([SchemaTags]).

    Tracker, v1alpha:
    - Sql.v: databases, transactions, failures of the engine at any call.
    - StoreAlpha.v (graphstore/v1alpha: statements.go, server.go, base64.go):
      the table, the six statements in three dialects, and [Put], [Delete],
      [List], [FindUpstream], [FindDownstream].  GraphSpec.v is the interface
      the services use ([GraphStoreOps]) and its contract ([GraphStoreSpec]) on
      an abstract store, a finite map from item keys to live items;
      StoreAlphaSpec.v proves that the SQL store meets it.
    - KeysAlpha.v (services/v1alpha: keys.go, encode.go, decode.go,
      types/types.go), QueryAlpha.v (service_dependency.go, service_module.go,
      listing of service_source.go), TrackAlpha.v ([Track] of
      service_source.go), SearchAlpha.v (service_search.go).
    - Concurrent.v: handlers that run at the same time over one store, as the
      goroutines of the gRPC server do.  A handler is replayed on the answers
      its calls have had; a step lets one of them make its next call.
      ConcurrentTrack.v has the invariant of several [Track]s, and
      ConcurrentFailures.v the one that is left when calls of the store fail.

    Tracker, v1beta:
    - StoreBeta.v (graphstore/v1beta): rows, statements, driver, server;
      StoreBetaSpec.v has its contract ([BetaStoreSpec]) and the proof that the
      server over the SQL driver meets it.
    - TraverseBeta.v: the two goroutines of [Traverse], as a step relation
      built from executable steps.
    - ManifestBeta.v (services/v1beta): keys, [GetProposed], [GetStored] over a
      Traverse stream, [Store].
    - ConcurrentBeta.v: several handlers over one store, each with a stream that
      is answered at any time, and rules for what a handler does on a trace of
      its calls; ConcurrentManifest.v: what a [Store] reads and does while
      others write; ConcurrentStore.v: the invariant of several [Store]s;
      CallTree.v: a handler as the finite tree of its calls, and what a stream
      owes it; ConcurrentEnds.v: why runs of [Store]s end.

    Indexer:
    - Remotes.v (internal/remotes, internal/set): the five remotes, the
      composite, the choice by configuration.
    - IndexerConfig.v (internal/config/config.go): loading the configuration.
    - Consumer.v (internal/consumer, worker pool of main.go): one repository
      against an oracle of the outside; the pool as a step relation.
    - Indexing.v: the workers of the pool over the handlers of the tracker: a
      worker waits for the [Track] of its repository while others go on.

    Between the programs:
    - Services.v: the services as records; what the tracker registers.
    - Gateway.v (gateway/internal/proxies): unary proxies, and the two loops of
      [process] that relay a search, as executable steps under any scheduler.
    - ClientConfig.v (internal/client), Mux.v (internal/mux): flags, TLS in
      both directions, dialing, health, routes, the version document, the
      chain of interceptors, the handlers of [Serve] around each other,
      listeners, signals.
    - Mains.v: flags, defaults, commands and actions of tracker, gateway and
      indexer; the health checks of tracker and gateway.

    Command line:
    - Topology.v (cmds/get/topology.go, common.go): reading a search into a
      graph, peeling it into tiers, names; DepsClient.v (internal/client): the
      choice between gRPC and REST and the REST clients; DepsCli.v: the other
      commands; DepsMain.v (main.go): the program.

    Proofs and instances: TrackAlphaProofs.v, TrackInvariant.v, QuerySpec.v,
    SearchSpec.v, TopologySpec.v and ManifestBetaSpec.v carry the lemmas of
    their component; Instances.v and Demo.v give concrete engines, codecs and
    runs; the files ending in Thms, and EndToEnd.v, state the results.

    ** What the theorems show

    - StoreThms.v, StoreBetaThms.v: refinement of the abstract stores ([List],
      which is not part of the v1alpha one, has its own clause), what is left
      and answered at every failure, opening, where the dialects differ.
      Paging: no listing statement has an ORDER BY, so every page is cut from
      an order of its own.  What holds for any orders is that a listing ends,
      answers rows of the kind only, and as many as there are; that it answers
      each once is proved for a single page and for an engine that keeps to
      one order, and an example shows a listing that repeats one row and
      misses another.
    - KeysThms.v, TrackThms.v, QueryThms.v, SearchThms.v: items encode and
      decode, down to the JSON text, and what a damaged row decodes to; [Track] leaves exactly what a source declares, touches nothing
      else, keeps the invariant of the graph, returns, and answers its errors;
      queries answer the edges of the graph; a breadth-first search answers
      every request reachable from its root once, by distance.
    - ConcurrentThms.v: [Track]s of different sources that run at the same time
      leave a graph that some sequence of them leaves, and all return; and
      whatever calls of the store fail, they come to rest and have changed
      nothing but what they propose and the stale edges of their sources.
    - ManifestThms.v, TraverseThms.v: the same for the v1beta service, with the
      call that each error belongs to; in every interleaving Traverse answers
      what it is sent in order and, while the connection holds, returns only
      for a cancellation or an error of the store.
    - ConcurrentStoreThms.v: at any moment of several [Store]s of different
      sources that interleave, none reporting another's source as an origin,
      the graph is one that storing some of them in an order leaves, up to
      edges still to be removed; all runs end, and where nothing fails all
      requests return.  (Two [Store]s of one source that interleave may leave
      the edges of both: this is outside of what is claimed.)
    - RemotesThms.v, ConsumerThms.v: remotes list what the services hold; a
      walk finds every file and symbolic link once; a repository is tracked when and as it
      should be; the pool consumes every repository once and ends.
    - IndexingThms.v: the pool over the tracker's handlers comes to rest over
      any store; from the configuration of an indexer to the graph it leaves.
    - GatewayThms.v: relayed messages keep order and content, the proxy does
      bounded work, a session is transparent in every interleaving, a search
      through it has a bounded number of steps and ends with the whole answer.
    - ServersThms.v: configuration, TLS, health, what every server answers,
      starting tracker and indexer.
    - CliThms.v, TopologyThms.v: what listings print (as for paging above), REST
      answers what the tracker answers and fails where it fails, though with
      another error, since the status of a response is ignored; the address
      dialed for a base URL, the version a server is asked for, how the
      program ends, the topology's tiers.
    - EndToEnd.v: the topology command, the gateway, the breadth-first search
      and the store together print the reachable modules of the graph that do
      not wait for a cycle: all of them where no cycle is reachable.

    ** Fuel and bounds

    A loop that is not structural runs on fuel and answers [None] (or [false])
    when it is spent.  Theorems give enough: searches need more fuel than the
    graph has keys, the topology's own fuel is the number of modules plus two
    and always enough, listings need one page more than there are full pages,
    remotes as many steps as their service has pages.  Streams, pools and
    proxies are step relations or runs of steps; their theorems bound the
    number of steps.  Page arithmetic is at 32 and 64 bits with wrap-around;
    other integers that cannot reach their bound are [Z] or [nat].

    ** Parameters

    What is not in the repository's Go code is an argument: the SQL engine
    ([SqlEngine]: which addresses open, failures, the order of the rows of each
    query, another one for every call, cuts of a result set), the struct tags of the API's messages ([SchemaTags]; the
    theorems on services are for any codec with the laws of [JsonCodecOk], which
    that of the Go library meets), the protobuf codecs and the formats of a
    configuration ([ProtoCodec], [ConfigFormats], [Rest]), the order of map
    iteration ([MapRange]), hosting services ([Hosting]), file system, git and
    extractor (the oracle of Consumer.v), certificates ([TlsFiles]), listening
    ([Network]), the libraries' interceptors and handlers, parsing of flags,
    contexts and transports of streams.  Their laws, where a
    theorem needs one, are classes or hypotheses (a codec decodes what it
    encoded, a service's pages make up its list), met by Instances.v.

    ** What is not modelled, and why

    - The inside of metrics, logging, interceptors, CORS and h2c handlers,
      gRPC's transport and generated code: they measure or carry, and are not
      the program's.
    - Splitting arguments into a command and its flags, usage texts and the
      generators of completion scripts: urfave/cli's and cobra's.
    - Loading statements from a YAML file (statements of the v1alpha store):
      file input nothing calls.  The unused resource interface of deps.
    - The extractor, which is not Go.

    Readings of the code a user of the theorems should know:
    - Comparison of columns is exact: a case-insensitive collation of MySQL,
      the 64 characters of a key column and non-UTF-8 keys are left out.
    - The fields of a message are written and read in the order of its record in
      Api.v; JSON may nest without limit (Go refuses more than 10000 levels).
    - Handlers of the tracker that run at the same time end alone: one that
      panics is answered with an error by the recovery interceptor.  The server
      of the stores has no such interceptor: with a panic of a store the
      program ends.
    - One time stamp is read per call where the code reads the clock per item.
    - [errors.Wrap] keeps the new text and drops the old.
    - Clone strategies other than HTTP are SSH, as in the code's switch.
    - A symbolic link of a clone stands for what the operating system reads
      through it, whatever that is; the walk lists it as a file.
    - The REST handlers of the gateway are generated: their part is a hypothesis
      ([RestServer]: which call a GET makes, and that a result or an error is
      written into the body), and so is jsonpb ([JsonpbReads]: it reads a
      result back and refuses the body of an error).
    - [ToLower] and [ToUpper] act on ASCII, which the prefixes are.
    - Routes are of paths net/http does not redirect.
    - A call between two programs either does what the method does or fails; a
      message is not lost or duplicated.  A method of a store is atomic: a query
      or a transaction of the database.  A handler is atomic for the world it
      acts on except where the model has its steps: [Track] and [Store] over the
      shared store, the goroutines of Traverse, of the worker pool and of the proxies,
      and the streams of a search. *)

From Stdlib Require Export ZArith Lia List.
From Stdlib Require Export Strings.Byte String.
From stdpp Require Export base tactics list gmap strings sorting.

Set Default Goal Selector "!".

(** ** Go values *)

(** A Go [string] is a sequence of bytes: the type [string] of the Standard
    Library ([ascii] is an 8-bit byte).  A Go [[]byte] is a list of bytes;
    the code never distinguishes a nil slice from an empty one. *)
Notation byte := Byte.byte.
Notation bytes := (list Byte.byte).

#[export] Instance byte_eq_dec : EqDecision byte := Byte.byte_eq_dec.

#[export] Program Instance byte_countable : Countable byte :=
  inj_countable Byte.to_N (fun n => Byte.of_N n) _.
Next Obligation. intros b. apply Byte.of_to_N. Qed.

(** The conversions [[]byte(s)] and [string(b)]. *)
Definition to_bytes (s : string) : bytes := String.list_byte_of_string s.
Definition of_bytes (b : bytes) : string := String.string_of_list_byte b.

Lemma of_to_bytes s : of_bytes (to_bytes s) = s.
Proof. apply String.string_of_list_byte_of_string. Qed.

Lemma to_of_bytes b : to_bytes (of_bytes b) = b.
Proof. apply String.list_byte_of_string_of_list_byte. Qed.

#[export] Instance to_bytes_inj : Inj (=) (=) to_bytes.
Proof. intros s1 s2 H. by rewrite <- (of_to_bytes s1), H, of_to_bytes. Qed.

#[export] Instance of_bytes_inj : Inj (=) (=) of_bytes.
Proof. intros s1 s2 H. by rewrite <- (to_of_bytes s1), H, to_of_bytes. Qed.

(** A byte as an integer in [0, 256), and an integer truncated to a byte. *)
Definition byte_val (b : byte) : Z := Z.of_N (Byte.to_N b).
Definition byte_of (z : Z) : byte :=
  match Byte.of_N (Z.to_N (z mod 256)) with Some b => b | None => Byte.x00 end.

Lemma byte_val_bound b : (0 <= byte_val b < 256)%Z.
Proof.
  unfold byte_val. pose proof (Byte.to_N_bounded b). lia.
Qed.

Lemma byte_of_val b : byte_of (byte_val b) = b.
Proof.
  unfold byte_of. rewrite Z.mod_small by apply byte_val_bound.
  unfold byte_val. by rewrite N2Z.id, Byte.of_to_N.
Qed.

Lemma byte_val_of z : byte_val (byte_of z) = (z mod 256)%Z.
Proof.
  unfold byte_of, byte_val.
  pose proof (Z.mod_pos_bound z 256 ltac:(lia)) as Hz.
  destruct (Byte.of_N (Z.to_N (z mod 256))) as [b|] eqn:Hb.
  - apply Byte.to_of_N in Hb. rewrite Hb. lia.
  - apply Byte.of_N_None_iff in Hb. lia.
Qed.

#[export] Instance byte_val_inj : Inj (=) (=) byte_val.
Proof. intros a b H. by rewrite <- (byte_of_val a), H, byte_of_val. Qed.

(** Machine integers: the signed value of a [w]-bit two's complement word. *)
Definition swrap (w : Z) (z : Z) : Z := (z + 2 ^ (w - 1)) mod 2 ^ w - 2 ^ (w - 1).
Definition int32 (z : Z) : Z := swrap 32 z.
Definition int64 (z : Z) : Z := swrap 64 z.

Lemma swrap_bounds w z : (0 < w)%Z -> (- 2 ^ (w - 1) <= swrap w z < 2 ^ (w - 1))%Z.
Proof.
  intros Hw. unfold swrap.
  assert (2 ^ w = 2 * 2 ^ (w - 1))%Z as Hp.
  { rewrite <- Z.pow_succ_r by lia. f_equal. lia. }
  pose proof (Z.pow_pos_nonneg 2 (w - 1) ltac:(lia) ltac:(lia)).
  pose proof (Z.mod_pos_bound (z + 2 ^ (w - 1)) (2 ^ w) ltac:(lia)). lia.
Qed.

Lemma swrap_small w z :
  (0 < w)%Z -> (- 2 ^ (w - 1) <= z < 2 ^ (w - 1))%Z -> swrap w z = z.
Proof.
  intros Hw Hz. unfold swrap.
  assert (2 ^ w = 2 * 2 ^ (w - 1))%Z as Hp.
  { rewrite <- Z.pow_succ_r by lia. f_equal. lia. }
  rewrite Z.mod_small; lia.
Qed.

(** ** Errors and outcomes *)

(** The error values the code creates or compares; [ErrBackend] stands for an
    error handed up from a library (database driver, transport, codec). *)
Inductive error : Type :=
| ErrUnsupported
| ErrUnimplemented
| ErrModuleNotFound
| ErrPartialInsertion
| ErrPartialDeletion
| ErrInvalidArgument (msg : string)
| ErrInternal (msg : string)
| ErrText (msg : string)
| ErrBackend (code : Z).

#[export] Instance error_eq_dec : EqDecision error.
Proof. solve_decision. Defined.

(** What a call that returns [(value, error)] can do: return a value with a
    nil error, return a non-nil error, or panic. *)
Inductive outcome (A : Type) : Type :=
| Ret (a : A)
| Fail (e : error)
| Panic (why : string).
Arguments Ret {A} a.
Arguments Fail {A} e.
Arguments Panic {A} why.

Definition obind {A B} (m : outcome A) (f : A -> outcome B) : outcome B :=
  match m with Ret a => f a | Fail e => Fail e | Panic s => Panic s end.

(** A computation that reads and writes a world [W]. *)
Definition M (W A : Type) : Type := W -> outcome A * W.

Definition ret {W A} (a : A) : M W A := fun w => (Ret a, w).
Definition fail {W A} (e : error) : M W A := fun w => (Fail e, w).
Definition panic {W A} (s : string) : M W A := fun w => (Panic s, w).
Definition lift {W A} (o : outcome A) : M W A := fun w => (o, w).
Definition bind {W A B} (m : M W A) (f : A -> M W B) : M W B :=
  fun w => match m w with
           | (Ret a, w') => f a w'
           | (Fail e, w') => (Fail e, w')
           | (Panic s, w') => (Panic s, w')
           end.
(** [if err != nil { return nil, g(err) }]: run [m], replacing its error. *)
Definition on_error {W A} (m : M W A) (g : error -> error) : M W A :=
  fun w => match m w with
           | (Fail e, w') => (Fail (g e), w')
           | r => r
           end.

Declare Scope go_scope.
Delimit Scope go_scope with go.
Notation "'let!' x ':=' m 'in' k" := (bind m (fun x => k))
  (at level 200, x pattern, m at level 100, k at level 200, right associativity) : go_scope.
Notation "'let?' x ':=' m 'in' k" := (obind m (fun x => k))
  (at level 200, x pattern, m at level 100, k at level 200, right associativity) : go_scope.
Open Scope go_scope.

(** [for _, x := range l { r = append(r, f(x)) }] where [f] may fail or panic. *)
Fixpoint omap_list {A B} (f : A -> outcome B) (l : list A) : outcome (list B) :=
  match l with
  | [] => Ret []
  | x :: l' => let? y := f x in let? ys := omap_list f l' in Ret (y :: ys)
  end.

Fixpoint mfold {W A B} (f : B -> A -> M W B) (b : B) (l : list A) : M W B :=
  match l with
  | [] => ret b
  | x :: l' => let! b' := f b x in mfold f b' l'
  end.

(** ** Automation *)

Create HintDb deps discriminated.
#[export] Hint Resolve byte_val_bound : deps.
#[export] Hint Rewrite of_to_bytes to_of_bytes byte_of_val byte_val_of : deps.

(** Split every [match] of the goal or of the context, keeping the equations. *)
Ltac case_all :=
  repeat match goal with
         | H : context [match ?x with _ => _ end] |- _ => destruct x eqn:?; simplify_eq
         | |- context [match ?x with _ => _ end] => destruct x eqn:?; simplify_eq
         end.

(** Invert the run of a bound computation in a hypothesis. *)
Ltac run_bind H :=
  unfold bind in H;
  match type of H with
  | context [match ?m ?w with _ => _ end] =>
      let o := fresh "o" in let w' := fresh "w" in let E := fresh "Hrun" in
      destruct (m w) as [o w'] eqn:E; destruct o; simplify_eq
  end.

(** ** Generic lemmas *)

Lemma omap_list_Ret {A B} (f : A -> outcome B) l ys :
  omap_list f l = Ret ys <-> Forall2 (fun x y => f x = Ret y) l ys.
Proof.
  revert ys. induction l as [|x l IH]; intros ys; simpl.
  - split; [intros [= <-]; constructor | inversion 1; done].
  - unfold obind. split.
    + intros H. destruct (f x) as [y| |] eqn:Hx; simplify_eq.
      destruct (omap_list f l) as [ys'| |] eqn:Hl; simplify_eq.
      constructor; [done | by apply IH].
    + inversion 1 as [|? y ? ys' Hx Hl]; subst. rewrite Hx.
      apply IH in Hl. by rewrite Hl.
Qed.

Lemma omap_list_map {A B} (f : A -> outcome B) (g : A -> B) l :
  (forall x, x ∈ l -> f x = Ret (g x)) -> omap_list f l = Ret (map g l).
Proof.
  intros H. apply omap_list_Ret. induction l as [|x l IH]; constructor.
  - apply H. by left.
  - apply IH. intros y Hy. apply H. by right.
Qed.

Lemma omap_list_no_fail {A B} (f : A -> outcome B) l e :
  (forall x e, f x <> Fail e) -> omap_list f l <> Fail e.
Proof.
  intros H. induction l as [|x l IH]; simpl; [done|].
  unfold obind. destruct (f x) eqn:Hx; [|by apply H in Hx|done].
  by destruct (omap_list f l).
Qed.

(** The rows of a join. *)
Lemma elem_of_list_prod {A B} (l1 : list A) (l2 : list B) a b :
  (a, b) ∈ list_prod l1 l2 <-> a ∈ l1 /\ b ∈ l2.
Proof. by rewrite !list_elem_of_In, in_prod_iff. Qed.

Lemma NoDup_list_prod {A B} (l1 : list A) (l2 : list B) :
  NoDup l1 -> NoDup l2 -> NoDup (list_prod l1 l2).
Proof.
  intros H1 H2. induction H1 as [|a l1 Ha _ IH]; simpl; [constructor|].
  apply NoDup_app. split_and!.
  - apply NoDup_fmap_2; [|done]. by intros b b' [= ->].
  - intros [a' b] (b' & [= -> ->] & Hb)%list_elem_of_fmap. rewrite elem_of_list_prod. tauto.
  - done.
Qed.

(** ** Go maps and loops *)

(** [for k, v := range m] visits the entries of a map in an unspecified order. *)
Class MapRange := {
  range_map : forall {V : Type}, gmap string V -> list (string * V);
  range_perm : forall V (m : gmap string V), range_map m ≡ₚ map_to_list m }.

(** A loop whose body may return early with an error or panic. *)
Fixpoint ofold {A B} (f : B -> A -> outcome B) (b : B) (l : list A) : outcome B :=
  match l with
  | [] => Ret b
  | x :: l' => let? b' := f b x in ofold f b' l'
  end.

(** An invariant of a loop that reached its end. *)
Lemma ofold_ind {A B} (P : list A -> B -> Prop) (f : B -> A -> outcome B) b l b' :
  P [] b -> (forall done x b b', P done b -> x ∈ l -> f b x = Ret b' -> P (done ++ [x]) b') ->
  ofold f b l = Ret b' -> P l b'.
Proof.
  intros H0 Hstep. assert (forall pre b, P pre b -> ofold f b l = Ret b' -> P (pre ++ l) b') as H.
  { clear H0 b. induction l as [|x l IH]; intros pre b Hb; simpl.
    - intros [= <-]. by rewrite app_nil_r.
    - unfold obind. destruct (f b x) as [b1| |] eqn:Hx; [|done..]. intros Hrun.
      replace (pre ++ x :: l) with ((pre ++ [x]) ++ l) by (by rewrite <- app_assoc).
      apply (IH) with b1; [|by apply (Hstep _ _ b); [|left|]|done].
      intros. eapply Hstep; [done|by right|done]. }
  by apply (H [] b).
Qed.

Lemma mfold_ind {W A B} (Inv : W -> Prop) (P : list A -> B -> Prop) (f : B -> A -> M W B) b l w b' w' :
  Inv w -> P [] b ->
  (forall pre x b w b' w', Inv w -> P pre b -> x ∈ l -> f b x w = (Ret b', w') ->
     Inv w' /\ P (pre ++ [x]) b') ->
  mfold f b l w = (Ret b', w') -> Inv w' /\ P l b'.
Proof.
  intros Hw H0 Hstep.
  assert (forall pre b w, Inv w -> P pre b -> mfold f b l w = (Ret b', w') ->
    Inv w' /\ P (pre ++ l) b') as H.
  { clear Hw H0 b w. induction l as [|x l IH]; intros pre b w Hw Hb; simpl.
    - intros [= <- <-]. by rewrite app_nil_r.
    - unfold bind. destruct (f b x w) as [[b1| |] w1] eqn:Hx; [|done..]. intros Hrun.
      replace (pre ++ x :: l) with ((pre ++ [x]) ++ l) by (by rewrite <- app_assoc).
      destruct (Hstep pre x b w b1 w1 Hw Hb ltac:(by left) Hx) as [Hw1 Hb1].
      apply (IH) with b1 w1; [|done..]. intros. eapply Hstep; [done|done|by right|done]. }
  by apply (H [] b w).
Qed.

Lemma elem_of_concat_map {A B} (f : A -> list B) l y :
  y ∈ concat (map f l) <-> exists x, x ∈ l /\ y ∈ f x.
Proof.
  rewrite list_elem_of_In, <- flat_map_concat_map, in_flat_map.
  by setoid_rewrite list_elem_of_In.
Qed.

Lemma elem_of_concat {A} (ls : list (list A)) x : x ∈ concat ls <-> exists l, x ∈ l /\ l ∈ ls.
Proof. rewrite list_elem_of_In, in_concat. setoid_rewrite list_elem_of_In. naive_solver. Qed.

(** A computation that preserves a property of the world, however it ends. *)
Definition keeps {W A} (Inv : W -> Prop) (m : M W A) : Prop :=
  forall w o w', Inv w -> m w = (o, w') -> Inv w'.

Lemma keeps_ret {W A} (Inv : W -> Prop) (a : A) : keeps Inv (ret a).
Proof. by intros w o w' Hw [= _ <-]. Qed.

Lemma keeps_fail {W A} (Inv : W -> Prop) e : keeps Inv (fail (A := A) e).
Proof. by intros w o w' Hw [= _ <-]. Qed.

Lemma keeps_panic {W A} (Inv : W -> Prop) s : keeps Inv (panic (A := A) s).
Proof. by intros w o w' Hw [= _ <-]. Qed.

Lemma keeps_lift {W A} (Inv : W -> Prop) (o : outcome A) : keeps Inv (lift o).
Proof. by intros w o' w' Hw [= _ <-]. Qed.

Lemma keeps_bind {W A B} (Inv : W -> Prop) (m : M W A) (f : A -> M W B) :
  keeps Inv m -> (forall a, keeps Inv (f a)) -> keeps Inv (bind m f).
Proof.
  intros Hm Hf w o w' Hw. unfold bind. destruct (m w) as [[a|e|s] w1] eqn:Hrun.
  - intros Hrun'. eapply (Hf a w1); [by eapply Hm|done].
  - intros [= _ <-]. by eapply Hm.
  - intros [= _ <-]. by eapply Hm.
Qed.

Lemma keeps_on_error {W A} (Inv : W -> Prop) (m : M W A) g : keeps Inv m -> keeps Inv (on_error m g).
Proof.
  intros Hm w o w' Hw. unfold on_error. destruct (m w) as [[a|e|s] w1] eqn:Hrun; intros [= _ <-]; by eapply Hm.
Qed.

Lemma keeps_mfold {W A B} (Inv : W -> Prop) (f : B -> A -> M W B) l : forall b,
  (forall b x, keeps Inv (f b x)) -> keeps Inv (mfold f b l).
Proof.
  induction l as [|x l IH]; intros b Hf; simpl; [apply keeps_ret|].
  apply keeps_bind; [apply Hf|]. intros b'. by apply IH.
Qed.

#[export] Hint Resolve keeps_ret keeps_fail keeps_panic keeps_lift keeps_bind keeps_on_error
  keeps_mfold : deps.

(** ** Elements in an order of their positions *)

Definition in_order {A} (l : list A) (order : list nat) : list A := omap (fun i => l !! i) order.

Lemma elem_of_in_order {A} (l : list A) order x : x ∈ in_order l order <-> exists i, i ∈ order /\ l !! i = Some x.
Proof. unfold in_order. by rewrite list_elem_of_omap. Qed.

Lemma in_order_snoc {A} (l : list A) order i x : l !! i = Some x -> in_order l (order ++ [i]) = in_order l order ++ [x].
Proof. intros Hi. unfold in_order. rewrite omap_app. simpl. by rewrite Hi. Qed.

Lemma in_order_all {A} (l : list A) order :
  NoDup order -> (forall i, i ∈ order <-> i < length l) -> in_order l order ≡ₚ l.
Proof.
  intros Hnd Hall. assert (order ≡ₚ seq 0 (length l)) as Hp.
  { apply NoDup_Permutation; [done|apply NoDup_seq|]. intros i. rewrite Hall, elem_of_seq. lia. }
  unfold in_order. rewrite Hp. clear. induction l as [|x l IH] using rev_ind; [done|].
  rewrite length_app, Nat.add_1_r, seq_S, omap_app. cbn [omap list_omap].
  rewrite lookup_app_r, Nat.sub_diag by done. simpl. f_equiv. rewrite <- IH at 2.
  erewrite list_omap_ext; [done|]. apply Forall2_same_length_lookup. split; [done|].
  intros i j k Hj Hk. rewrite Hj in Hk. simplify_eq. apply lookup_seq in Hj as [-> Hlt].
  by rewrite lookup_app_l by lia.
Qed.

(** ** Step relations *)

(** An invariant of the steps holds after any run. *)
Lemma rtc_preserve {A} (P : A -> Prop) (R : relation A) x y :
  (forall x y, R x y -> P x -> P y) -> P x -> rtc R x y -> P y.
Proof. intros Hstep Hx. induction 1 as [|x z y Hxz _ IH]; [done|]. apply IH. by eapply Hstep. Qed.

(** A run of parts is a run of each of them. *)
Lemma rtc_project {A B} (f : A -> B) (R : relation A) (S : relation B) x y :
  (forall x y, R x y -> S (f x) (f y) \/ f x = f y) -> rtc R x y -> rtc S (f x) (f y).
Proof.
  intros Hstep. induction 1 as [|x z y Hxz _ IH]; [done|].
  destruct (Hstep _ _ Hxz) as [Hs|Heq]; [by eapply rtc_l|by rewrite Heq].
Qed.

(** Two parts of which one moves at a time come to an end if each does. *)
Lemma sn_interleave {A B} (R : relation A) (S : relation B) (T : relation (A * B)) a b :
  (forall p q, T p q -> R p.1 q.1 /\ p.2 = q.2 \/ p.1 = q.1 /\ S p.2 q.2) ->
  sn R a -> sn S b -> sn T (a, b).
Proof.
  intros Hstep Ha. revert b. induction Ha as [a _ IHa]. intros b Hb. pose proof Hb as Hall.
  induction Hb as [b _ IHb]. constructor. intros [a' b'] Hab.
  destruct (Hstep _ _ Hab) as [[Hr Heq]|[Heq Hs]]; simpl in *; subst.
  - by apply IHa.
  - by apply IHb, Hall.
Qed.

(** Steps that another relation follows come to an end with it. *)
Lemma sn_simulate {A B} (R : relation A) (S : relation B) (link : A -> B -> Prop) a b :
  (forall a a' b, link a b -> R a a' -> exists b', link a' b' /\ S b b') -> sn S b -> link a b -> sn R a.
Proof.
  intros Hstep Hb. revert a. induction Hb as [b _ IH]. intros a Hab. constructor. intros a' Ha.
  destruct (Hstep _ _ _ Hab Ha) as (b' & Hab' & Hs). by eapply IH.
Qed.

(** Many parts of which one moves at a time. *)
Definition one_moves {A} (R : relation A) (l l' : list A) : Prop :=
  exists i x y, l !! i = Some x /\ R x y /\ l' = <[i := y]> l.

Lemma sn_one_moves {A} (R : relation A) (l : list A) : Forall (sn R) l -> sn (one_moves R) l.
Proof.
  induction 1 as [|a l Ha _ IH].
  - constructor. intros l' (i & x & y & Hi & _). by rewrite lookup_nil in Hi.
  - apply (sn_simulate _ (fun p q => R p.1 q.1 /\ p.2 = q.2 \/ p.1 = q.1 /\ one_moves R p.2 q.2)
      (fun l p => l = p.1 :: p.2) _ (a, l)); [|by apply (sn_interleave R (one_moves R))|done].
    intros l1 l2 [b k] -> ([|i] & x & y & Hi & Hxy & ->); simpl in *.
    + injection Hi as ->. exists (y, k). split; [done|]. by left.
    + exists (b, <[i := y]> k). split; [done|]. right. split; [done|]. by exists i, x, y.
Qed.

(** ** Paging

    What a client that asks for one page after the other has got, when the list
    behind the pages may be in another order each time: [ls p] is the list as
    page [p] is cut from it. *)

Fixpoint paged {A} (size : nat) (ls : nat -> list A) (p n : nat) : list A :=
  match n with
  | O => []
  | S n' => take size (drop (p * size) (ls p)) ++ paged size ls (S p) n'
  end.

Lemma paged_concat {A} size (ls : nat -> list A) p n :
  paged size ls p n = concat (map (fun k => take size (drop (k * size) (ls k))) (seq p n)).
Proof. revert p. induction n as [|n IH]; intros p; [done|]. simpl. by rewrite IH. Qed.

Section Paged.
Context {A : Type} (size : nat) (ls : nat -> list A) (all : list A).
Hypothesis Hls : forall p, ls p ≡ₚ all.

(** There is nothing after the end. *)
Lemma paged_end p n : length all <= p * size -> paged size ls p n = [].
Proof using Hls.
revert p. induction n as [|n IH]; intros p Hp; [done|]. simpl.
rewrite drop_ge by (by rewrite Hls). rewrite take_nil, IH; [done|lia].
Qed.

(** As many as there are. *)
Lemma paged_length p n : length all <= (p + n) * size -> length (paged size ls p n) = length all - p * size.
Proof using Hls.
revert p. induction n as [|n IH]; intros p Hp; simpl; [lia|].
rewrite length_app, length_take, length_drop, IH by lia. rewrite (Permutation_length (Hls p)). lia.
Qed.

(** None that is not there. *)
Lemma paged_elem p n x : x ∈ paged size ls p n -> x ∈ all.
Proof using Hls.
revert p. induction n as [|n IH]; intros p; simpl; [by rewrite elem_of_nil|]. rewrite elem_of_app. intros [Hx|Hx]; [|by eapply IH].
rewrite <- (Hls p). by eapply subseteq_drop, subseteq_take.
Qed.

(** All, once, when the order stays or one page is enough. *)
Lemma paged_same l p n : (forall k, p <= k -> ls k = l) -> length all <= (p + n) * size -> paged size ls p n = drop (p * size) l.
Proof using Hls.
intros Hl. revert p Hl. induction n as [|n IH]; intros p Hl Hp; simpl; (assert (length l = length all) as Hlen by (by rewrite <- (Hl p), Hls)).
- rewrite drop_ge; [done|lia].
- rewrite (Hl p), (IH (S p)) by (done || lia || (intros; apply Hl; lia)).
  rewrite <- (take_drop size (drop (p * size) l)) at 2. rewrite drop_drop. do 2 f_equal. lia.
Qed.

Lemma paged_all n : 0 < n -> length all <= n * size ->
length all <= size \/ (forall p, ls p = ls 0) -> paged size ls 0 n ≡ₚ all.
Proof using Hls.
intros Hn Hlen [Hone|Hsame].
- destruct n as [|n]; [lia|]. simpl. rewrite paged_end, app_nil_r, drop_0, take_ge by (rewrite ?(Permutation_length (Hls 0)); lia). apply Hls.
- rewrite (paged_same (ls 0)) by auto. apply Hls.
Qed.
End Paged.
