(* ===== verification/GoCodec.v ===== *)
(** * Encodings of the Go standard library used by the code

    [encoding/base64] (raw and padded), [encoding/base32] (padded) and
    [encoding/binary.BigEndian], as executable functions, all built from one
    pair of positional-notation functions [digits] and [undigits], with the
    round trips the stores and the page tokens rely on. *)

From S2P Require Import Prelude.

Local Open Scope Z_scope.

(** ** Positional notation, most significant digit first *)

Fixpoint digits (b : Z) (n : nat) (v : Z) : list Z :=
  match n with
  | O => []
  | S n' => digits b n' (v / b) ++ [v mod b]
  end.

Definition undigits (b : Z) (l : list Z) : Z := fold_left (fun acc d => acc * b + d) l 0.

Lemma undigits_snoc b l d : undigits b (l ++ [d]) = undigits b l * b + d.
Proof. unfold undigits. by rewrite fold_left_app. Qed.

Lemma length_digits b n v : length (digits b n v) = n.
Proof.
  revert v. induction n as [|n IH]; intros v; simpl; [done|].
  rewrite length_app, IH. simpl. lia.
Qed.

Lemma digits_bound b n v : 0 < b -> Forall (fun d => 0 <= d < b) (digits b n v).
Proof.
  intros Hb. revert v. induction n as [|n IH]; intros v; simpl; [constructor|].
  apply Forall_app. split; [apply IH|]. constructor; [|constructor].
  apply Z.mod_pos_bound. lia.
Qed.

Lemma undigits_digits b n v : 0 < b -> undigits b (digits b n v) = v mod b ^ Z.of_nat n.
Proof.
  intros Hb. revert v. induction n as [|n IH]; intros v.
  - simpl. unfold undigits. simpl. by rewrite Z.mod_1_r.
  - cbn [digits]. rewrite undigits_snoc, IH, Nat2Z.inj_succ, Z.pow_succ_r by lia.
    rewrite (Z.rem_mul_r v b) by lia. lia.
Qed.

Lemma undigits_bound b l :
  0 < b -> Forall (fun d => 0 <= d < b) l -> 0 <= undigits b l < b ^ Z.of_nat (length l).
Proof.
  intros Hb. induction l as [|d l IH] using rev_ind; intros Hl.
  - unfold undigits. simpl. lia.
  - apply Forall_app in Hl as [Hl Hd]. inversion Hd as [|? ? Hd' _]; subst.
    rewrite undigits_snoc, length_app, Nat2Z.inj_add. simpl (Z.of_nat (length [d])).
    rewrite Z.pow_add_r by lia. specialize (IH Hl). rewrite Z.pow_1_r. nia.
Qed.

Lemma digits_undigits b l :
  0 < b -> Forall (fun d => 0 <= d < b) l -> digits b (length l) (undigits b l) = l.
Proof.
  intros Hb. induction l as [|d l IH] using rev_ind; intros Hl; [done|].
  apply Forall_app in Hl as [Hl Hd]. inversion Hd as [|? ? Hd' _]; subst.
  rewrite undigits_snoc, length_app. simpl (length [d]).
  rewrite Nat.add_1_r. cbn [digits].
  rewrite Z.div_add_l, Z.div_small, Z.add_0_r by lia.
  rewrite IH by done. f_equal. f_equal.
  rewrite Z.add_comm, Z.mod_add, Z.mod_small; lia.
Qed.

(** A value whose [j] low digits are zero keeps only its high digits. *)
Lemma digits_low_zero b n j v :
  0 < b -> v mod b ^ Z.of_nat j = 0 ->
  take n (digits b (n + j) v) ++ repeat 0 j = digits b (n + j) v.
Proof.
  intros Hb. revert v. induction j as [|j IH]; intros v Hv.
  - rewrite Nat.add_0_r, app_nil_r, take_ge; [done|]. by rewrite length_digits.
  - rewrite Nat.add_succ_r. cbn [digits].
    rewrite Nat2Z.inj_succ, Z.pow_succ_r, Z.rem_mul_r in Hv by lia.
    pose proof (Z.mod_pos_bound v b Hb).
    pose proof (Z.mod_pos_bound (v / b) (b ^ Z.of_nat j) ltac:(lia)).
    assert (v mod b = 0 /\ (v / b) mod b ^ Z.of_nat j = 0) as [Hm Hd] by nia.
    rewrite Hm, take_app_le by (rewrite length_digits; lia).
    assert (repeat 0 (S j) = repeat 0 j ++ [0]) as ->.
    { clear. induction j as [|j IH]; [done|]. simpl. f_equal. exact IH. }
    by rewrite app_assoc, IH.
Qed.

(** ** Bytes as base-256 digits; [binary.BigEndian] *)

Definition byte_vals (l : bytes) : list Z := map byte_val l.
Definition vals_bytes (l : list Z) : bytes := map byte_of l.

Lemma byte_vals_bound l : Forall (fun d => 0 <= d < 256) (byte_vals l).
Proof. apply Forall_map, Forall_true. intros. apply byte_val_bound. Qed.

Lemma vals_byte_vals l : vals_bytes (byte_vals l) = l.
Proof.
  unfold vals_bytes, byte_vals. rewrite map_map. rewrite <- (map_id l) at 2.
  apply map_ext. apply byte_of_val.
Qed.

(** [PutUintN] on an [n]-byte buffer and [UintN] of one. *)
Definition put_be (n : nat) (v : Z) : bytes := vals_bytes (digits 256 n v).
Definition get_be (l : bytes) : Z := undigits 256 (byte_vals l).

Lemma length_put_be n v : length (put_be n v) = n.
Proof. unfold put_be, vals_bytes. by rewrite length_map, length_digits. Qed.

Lemma byte_vals_of l : Forall (fun d => 0 <= d < 256) l -> byte_vals (vals_bytes l) = l.
Proof.
  intros Hl. unfold byte_vals, vals_bytes. rewrite map_map.
  induction Hl as [|d l Hd _ IH]; [done|]. simpl.
  rewrite byte_val_of, Z.mod_small by done. by rewrite IH.
Qed.

Lemma get_put_be n v : get_be (put_be n v) = v mod 256 ^ Z.of_nat n.
Proof.
  unfold get_be, put_be. rewrite byte_vals_of by (apply digits_bound; lia).
  apply undigits_digits. lia.
Qed.

Lemma put_get_be l : put_be (length l) (get_be l) = l.
Proof.
  unfold put_be, get_be.
  replace (length l) with (length (byte_vals l)) by (unfold byte_vals; by rewrite length_map).
  rewrite digits_undigits by (try lia; apply byte_vals_bound). apply vals_byte_vals.
Qed.

(** ** Alphabets *)

Definition pad_char : byte := Byte.x3d.  (* '=' *)

Definition alphabet64 : bytes :=
  to_bytes "ABCDEFGHIJKLMNOPQRSTUVWXYZabcdefghijklmnopqrstuvwxyz0123456789+/".
Definition alphabet32 : bytes := to_bytes "ABCDEFGHIJKLMNOPQRSTUVWXYZ234567".

(** [encode[d]] and [decodeMap[c]] for an alphabet. *)
Definition enc_char (abc : bytes) (d : Z) : byte := nth (Z.to_nat d) abc Byte.x00.
Definition dec_char (abc : bytes) (c : byte) : option Z :=
  option_map (fun '(i, _) => Z.of_nat i) (list_find (fun x => c = x) abc).

Definition is_newline (c : byte) : bool := bool_decide (c = Byte.x0a \/ c = Byte.x0d).
Definition strip_newlines (l : bytes) : bytes := List.filter (fun c => negb (is_newline c)) l.

Definition alphabet_ok (abc : bytes) (b : nat) : bool :=
  forallb (fun i => bool_decide (dec_char abc (enc_char abc (Z.of_nat i)) = Some (Z.of_nat i))
                    && negb (is_newline (enc_char abc (Z.of_nat i)))
                    && negb (bool_decide (enc_char abc (Z.of_nat i) = pad_char)))
          (List.seq 0 b).

Lemma alphabet_ok_spec abc b d :
  alphabet_ok abc b = true -> 0 <= d < Z.of_nat b ->
  dec_char abc (enc_char abc d) = Some d /\ is_newline (enc_char abc d) = false /\
  enc_char abc d <> pad_char.
Proof.
  intros Hok Hd. unfold alphabet_ok in Hok. rewrite forallb_forall in Hok.
  specialize (Hok (Z.to_nat d)). rewrite in_seq, Z2Nat.id in Hok by lia.
  specialize (Hok ltac:(lia)).
  rewrite !andb_true_iff, !negb_true_iff, bool_decide_eq_true, bool_decide_eq_false in Hok.
  destruct Hok as [[? ?] ?]. auto.
Qed.

Lemma alphabet64_ok : alphabet_ok alphabet64 64 = true.
Proof. vm_compute. reflexivity. Qed.
Lemma alphabet32_ok : alphabet_ok alphabet32 32 = true.
Proof. vm_compute. reflexivity. Qed.

Lemma dec_char_list abc b ds :
  alphabet_ok abc b = true -> Forall (fun d => 0 <= d < Z.of_nat b) ds ->
  Forall2 (fun c d => dec_char abc c = Some d /\ is_newline c = false /\ c <> pad_char)
          (map (enc_char abc) ds) ds.
Proof. intros Hok. induction 1; simpl; constructor; eauto using alphabet_ok_spec. Qed.

(** No encoded text contains a newline, so decoding strips nothing. *)
Lemma strip_newlines_id l : Forall (fun c => is_newline c = false) l -> strip_newlines l = l.
Proof. induction 1 as [|c l Hc _ IH]; simpl; [done|]. rewrite Hc. simpl. by rewrite IH. Qed.

Lemma undigits_zeros c l j : undigits c (l ++ repeat 0 j) = undigits c l * c ^ Z.of_nat j.
Proof.
  induction j as [|j IH]; [simpl; rewrite app_nil_r; lia|].
  assert (repeat 0 (S j) = repeat 0 j ++ [0]) as ->.
  { clear. induction j as [|j IH]; [done|]. simpl. f_equal. exact IH. }
  rewrite app_assoc, undigits_snoc, IH, Nat2Z.inj_succ, Z.pow_succ_r; lia.
Qed.

Lemma group_padded_bound (B : nat) g :
  Forall (fun d => 0 <= d < 256) (byte_vals g ++ repeat 0 (B - length g)).
Proof.
  apply Forall_app. split; [apply byte_vals_bound|].
  apply List.Forall_forall. intros x Hx%repeat_spec. lia.
Qed.

Lemma length_group_padded (B : nat) g :
  (length g <= B)%nat -> length (byte_vals g ++ repeat 0 (B - length g)) = B.
Proof. intros. unfold byte_vals. rewrite length_app, length_map, repeat_length. lia. Qed.

(** ** Groups of bytes as groups of characters

    Both encodings cut the input in groups of [B] bytes, written as [C]
    characters of base [b]; a short last group of [n] bytes is padded with
    zero bits and written with its first [m] characters. *)
Section Groups.
Context (b : Z) (B C : nat).
Hypothesis Hb : 0 < b.
Hypothesis HBC : 256 ^ Z.of_nat B = b ^ Z.of_nat C.

Definition group_value (g : bytes) : Z :=
undigits 256 (byte_vals g ++ repeat 0 (B - length g)).
Definition group_digits (m : nat) (g : bytes) : list Z := take m (digits b C (group_value g)).
Definition ungroup (n : nat) (ds : list Z) : bytes :=
take n (vals_bytes (digits 256 B (undigits b (ds ++ repeat 0 (C - length ds))))).

Lemma group_value_bound g : (length g <= B)%nat -> 0 <= group_value g < b ^ Z.of_nat C.
Proof.
intros Hg. rewrite <- HBC.
pose proof (undigits_bound 256 _ ltac:(lia) (group_padded_bound B g)) as H.
by rewrite length_group_padded in H.
Qed.

Lemma ungroup_group m g :
(length g <= B)%nat -> (m <= C)%nat ->
(b ^ Z.of_nat (C - m) | 256 ^ Z.of_nat (B - length g)) ->
ungroup (length g) (group_digits m g) = g.
Proof.
intros Hg Hm Hdiv. unfold ungroup, group_digits.
rewrite length_take, length_digits, Nat.min_l by done.
assert (take m (digits b C (group_value g)) ++ repeat 0 (C - m) =
        digits b C (group_value g)) as ->.
{ replace C with (m + (C - m))%nat at 1 3 by lia. apply digits_low_zero; [done|].
  unfold group_value. rewrite undigits_zeros.
  apply Z.mod_divide; [apply Z.pow_nonzero; lia|].
  by apply Z.divide_mul_r. }
rewrite undigits_digits, Z.mod_small by (auto using group_value_bound).
unfold group_value. pose proof (length_group_padded B g Hg) as Hlen.
rewrite <- Hlen at 1.
rewrite digits_undigits by (try lia; apply group_padded_bound).
unfold vals_bytes. rewrite map_app. fold (vals_bytes (byte_vals g)).
rewrite vals_byte_vals, take_app_length. done.
Qed.
End Groups.

(** ** encoding/base64: [RawStdEncoding] ([pad = false]) and [StdEncoding] *)

Fixpoint b64_encode (pad : bool) (l : bytes) : bytes :=
  match l with
  | [] => []
  | [b0] =>
      map (enc_char alphabet64) (group_digits 64 3 4 2 [b0]) ++ (if pad then [pad_char; pad_char] else [])
  | [b0; b1] =>
      map (enc_char alphabet64) (group_digits 64 3 4 3 [b0; b1]) ++ (if pad then [pad_char] else [])
  | b0 :: b1 :: b2 :: l' =>
      map (enc_char alphabet64) (group_digits 64 3 4 4 [b0; b1; b2]) ++ b64_encode pad l'
  end.

(** [DecodeString] returns the bytes decoded before an error with the error
    ([false]): callers that drop the error keep those bytes. *)
Fixpoint b64_decode_aux (pad : bool) (l : bytes) : bytes * bool :=
  match l with
  | [] => ([], true)
  | [c0] => ([], false)
  | [c0; c1] =>
      match dec_char alphabet64 c0, dec_char alphabet64 c1 with
      | Some d0, Some d1 => if pad then ([], false) else (ungroup 64 3 4 1 [d0; d1], true)
      | _, _ => ([], false)
      end
  | [c0; c1; c2] =>
      match dec_char alphabet64 c0, dec_char alphabet64 c1, dec_char alphabet64 c2 with
      | Some d0, Some d1, Some d2 =>
          if pad then ([], false) else (ungroup 64 3 4 2 [d0; d1; d2], true)
      | _, _, _ => ([], false)
      end
  | c0 :: c1 :: c2 :: c3 :: l' =>
      match dec_char alphabet64 c0, dec_char alphabet64 c1 with
      | Some d0, Some d1 =>
          match dec_char alphabet64 c2, dec_char alphabet64 c3 with
          | Some d2, Some d3 =>
              let '(r, ok) := b64_decode_aux pad l' in (ungroup 64 3 4 3 [d0; d1; d2; d3] ++ r, ok)
          | Some d2, None =>
              if pad && bool_decide (c3 = pad_char)
              then (ungroup 64 3 4 2 [d0; d1; d2], bool_decide (l' = []))
              else ([], false)
          | None, _ =>
              if pad && bool_decide (c2 = pad_char /\ c3 = pad_char)
              then (ungroup 64 3 4 1 [d0; d1], bool_decide (l' = []))
              else ([], false)
          end
      | _, _ => ([], false)
      end
  end.

Definition b64_decode (pad : bool) (l : bytes) : bytes * bool :=
  b64_decode_aux pad (strip_newlines l).

(** Induction by groups of three bytes. *)
Lemma triple_ind (P : bytes -> Prop) :
  P [] -> (forall a, P [a]) -> (forall a b, P [a; b]) ->
  (forall a b c l, P l -> P (a :: b :: c :: l)) -> forall l, P l.
Proof.
  intros H0 H1 H2 H3. refine (fix go l := _).
  destruct l as [|a [|b [|c l]]]; [exact H0|apply H1|apply H2|apply H3, go].
Qed.

(** What a group of base64 characters decodes to. *)
Lemma b64_group_spec q m g :
  (length g <= 3)%nat -> (m <= 4)%nat -> 256 ^ Z.of_nat (3 - length g) = q * 64 ^ Z.of_nat (4 - m) ->
  let ds := group_digits 64 3 4 m g in
  length ds = m /\ ungroup 64 3 4 (length g) ds = g /\
  Forall (fun d => dec_char alphabet64 (enc_char alphabet64 d) = Some d /\
                   is_newline (enc_char alphabet64 d) = false) ds.
Proof.
  intros Hg Hm Hq ds. unfold ds. split_and!.
  - unfold group_digits. rewrite length_take, length_digits. lia.
  - apply ungroup_group; [lia|done|done|done|]. by exists q.
  - apply (Forall_impl (fun d => 0 <= d < 64)); [apply Forall_take, digits_bound; lia|].
    intros d Hd. pose proof (alphabet_ok_spec _ 64 d alphabet64_ok Hd) as (? & ? & _). auto.
Qed.

(** Name the digits of the group [g], with what decoding each of them gives. *)
Ltac b64_group q m g :=
  let Hl := fresh "Hlen" in let Hun := fresh "Hun" in let HF := fresh "HF" in
  destruct (b64_group_spec q m g ltac:(simpl; lia) ltac:(lia) eq_refl) as (Hl & Hun & HF);
  revert Hl Hun HF; generalize (group_digits 64 3 4 m g);
  intros ds Hl Hun HF;
  repeat (destruct ds as [|? ds]; simpl in Hl; try discriminate Hl);
  repeat match goal with
         | H : Forall _ (_ :: _) |- _ =>
             let H1 := fresh "Hd" in let H2 := fresh "Hn" in
             apply Forall_cons in H as [[H1 H2] H]
         end;
  cbn [map app length] in *.

Lemma b64_encode_no_newline pad l : Forall (fun c => is_newline c = false) (b64_encode pad l).
Proof.
  induction l as [|a|a b|a b c l IH] using triple_ind; cbn [b64_encode].
  - constructor.
  - b64_group 16 2%nat [a]. destruct pad; repeat constructor; done.
  - b64_group 4 3%nat [a; b]. destruct pad; repeat constructor; done.
  - b64_group 1 4%nat [a; b; c]. repeat constructor; done.
Qed.

Lemma b64_roundtrip pad l : b64_decode pad (b64_encode pad l) = (l, true).
Proof.
  unfold b64_decode. rewrite strip_newlines_id by apply b64_encode_no_newline.
  assert (dec_char alphabet64 pad_char = None) as Hpad by done.
  induction l as [|a|a b|a b c l IH] using triple_ind; cbn [b64_encode].
  - done.
  - b64_group 16 2%nat [a]. destruct pad; cbn [app b64_decode_aux]; simplify_option_eq.
    all: by rewrite Hun.
  - b64_group 4 3%nat [a; b]. destruct pad; cbn [app b64_decode_aux]; simplify_option_eq.
    all: by rewrite Hun.
  - b64_group 1 4%nat [a; b; c]. cbn [b64_decode_aux].
    repeat match goal with H : dec_char _ _ = Some _ |- _ => rewrite H; clear H end.
    by rewrite IH, Hun.
Qed.

#[export] Instance b64_encode_inj pad : Inj (=) (=) (b64_encode pad).
Proof.
  intros l1 l2 H. pose proof (b64_roundtrip pad l1) as H1.
  rewrite H, b64_roundtrip in H1. congruence.
Qed.

(** ** encoding/base32: [StdEncoding] *)

Definition b32_chars (n : nat) : nat :=
  match n with 0 => 0 | 1 => 2 | 2 => 4 | 3 => 5 | 4 => 7 | _ => 8 end%nat.

Definition b32_group (g : bytes) : bytes :=
  let m := b32_chars (length g) in
  map (enc_char alphabet32) (group_digits 32 5 8 m g) ++ repeat pad_char (8 - m).

Fixpoint b32_encode (l : bytes) : bytes :=
  match l with
  | b0 :: b1 :: b2 :: b3 :: b4 :: l' => b32_group [b0; b1; b2; b3; b4] ++ b32_encode l'
  | [] => []
  | g => b32_group g
  end.

(** One quantum: the digits read, whether padding ended the input, the rest. *)
Fixpoint b32_quantum (j : nat) (acc : list Z) (src : bytes) : option (list Z * bool * bytes) :=
  if decide (j = 8%nat) then Some (acc, false, src) else
  match src with
  | [] => None
  | c :: src' =>
      if bool_decide (c = pad_char /\ 2 <= j /\ length src' < 8)%nat then
        if bool_decide (length src' + j < 7)%nat then None
        else if bool_decide (Forall (fun x => x = pad_char) (take (7 - j) src')) then
          if bool_decide (j = 3 \/ j = 6)%nat then None else Some (acc, true, src')
        else None
      else match dec_char alphabet32 c with
           | None => None
           | Some d => b32_quantum (S j) (acc ++ [d]) src'
           end
  end.

Definition b32_bytes (m : nat) : nat :=
  match m with 2 => 1 | 4 => 2 | 5 => 3 | 7 => 4 | 8 => 5 | _ => 0 end%nat.

Fixpoint b32_decode_aux (fuel : nat) (src : bytes) : bytes * bool :=
  match fuel, src with
  | _, [] => ([], true)
  | O, _ => ([], false)
  | S fuel', _ =>
      match b32_quantum 0 [] src with
      | None => ([], false)
      | Some (ds, fin, rest) =>
          let out := ungroup 32 5 8 (b32_bytes (length ds)) ds in
          if fin : bool then (out, true)
          else let '(r, ok) := b32_decode_aux fuel' rest in (out ++ r, ok)
      end
  end.

(** Each quantum consumes at least one byte, so the length is enough fuel. *)
Definition b32_decode (l : bytes) : bytes * bool :=
  let src := strip_newlines l in b32_decode_aux (length src) src.

Example b32_encode_ex : of_bytes (b32_encode (put_be 8 2)) = "AAAAAAAAAAAAE==="%string.
Proof. vm_compute. reflexivity. Qed.
Example b32_decode_ex :
  b32_decode (to_bytes "AAAAAAAAAAAAE===") = (put_be 8 2, true).
Proof. vm_compute. reflexivity. Qed.
Example b64_encode_ex : of_bytes (b64_encode true (to_bytes "data")) = "ZGF0YQ=="%string.
Proof. vm_compute. reflexivity. Qed.

Lemma b32_digit_ok m g :
  Forall (fun d => dec_char alphabet32 (enc_char alphabet32 d) = Some d /\
                   is_newline (enc_char alphabet32 d) = false /\
                   enc_char alphabet32 d <> pad_char) (group_digits 32 5 8 m g).
Proof.
  apply (Forall_impl (fun d => 0 <= d < 32)); [apply Forall_take, digits_bound; lia|].
  intros d Hd. exact (alphabet_ok_spec _ 32 d alphabet32_ok Hd).
Qed.

(** Reading valid characters only accumulates their digits. *)
Lemma b32_quantum_digits ds j acc src :
  (j + length ds <= 8)%nat ->
  Forall (fun d => dec_char alphabet32 (enc_char alphabet32 d) = Some d /\
                   is_newline (enc_char alphabet32 d) = false /\
                   enc_char alphabet32 d <> pad_char) ds ->
  b32_quantum j acc (map (enc_char alphabet32) ds ++ src) =
  b32_quantum (j + length ds) (acc ++ ds) src.
Proof.
  intros Hj HF. revert j acc Hj. induction HF as [|d ds (Hd & _ & Hp) _ IH]; intros j acc Hj.
  - simpl. by rewrite Nat.add_0_r, app_nil_r.
  - cbn [map app b32_quantum]. simpl in Hj. rewrite decide_False by lia.
    rewrite bool_decide_eq_false_2 by tauto. rewrite Hd, IH by lia.
    simpl. by rewrite <- app_assoc, Nat.add_succ_r.
Qed.

Lemma b32_quantum_full acc src : b32_quantum 8 acc src = Some (acc, false, src).
Proof. by destruct src. Qed.

Lemma b32_quantum_padded m acc :
  m = 2%nat \/ m = 4%nat \/ m = 5%nat \/ m = 7%nat ->
  exists rest, b32_quantum m acc (repeat pad_char (8 - m)) = Some (acc, true, rest).
Proof. intros [-> | [-> | [-> | ->]]]; eexists; reflexivity. Qed.

Lemma b32_group_no_newline g : Forall (fun c => is_newline c = false) (b32_group g).
Proof.
  unfold b32_group. apply Forall_app. split.
  - apply Forall_map. eapply Forall_impl; [apply b32_digit_ok|]. simpl. tauto.
  - apply List.Forall_forall. by intros x ->%repeat_spec.
Qed.

(** Induction by groups of five bytes. *)
Lemma five_ind (P : bytes -> Prop) :
  P [] -> (forall g, (0 < length g < 5)%nat -> P g) ->
  (forall a b c d e l, P l -> P (a :: b :: c :: d :: e :: l)) -> forall l, P l.
Proof.
  intros H0 Hg H5. refine (fix go l := _).
  destruct l as [|a [|b [|c [|d [|e l]]]]];
    [exact H0|apply Hg; simpl; lia..|apply H5, go].
Qed.

Lemma b32_encode_short g : (0 < length g < 5)%nat -> b32_encode g = b32_group g.
Proof. intros H. destruct g as [|a [|b [|c [|d [|e g]]]]]; try done; simpl in H; lia. Qed.

Lemma b32_encode_no_newline l : Forall (fun c => is_newline c = false) (b32_encode l).
Proof.
  induction l as [|g Hg|a b c d e l IH] using five_ind.
  - constructor.
  - rewrite b32_encode_short by done. apply b32_group_no_newline.
  - cbn [b32_encode]. apply Forall_app. split; [apply b32_group_no_newline|done].
Qed.

Lemma b32_ungroup_group g :
  (0 < length g <= 5)%nat ->
  let ds := group_digits 32 5 8 (b32_chars (length g)) g in
  length ds = b32_chars (length g) /\ ungroup 32 5 8 (b32_bytes (length ds)) ds = g.
Proof.
  intros Hg ds. assert (b32_chars (length g) <= 8)%nat as Hm.
  { destruct (length g) as [|[|[|[|[|[|]]]]]]; simpl; lia. }
  assert (length ds = b32_chars (length g)) as Hl.
  { unfold ds, group_digits. rewrite length_take, length_digits. lia. }
  split; [done|]. rewrite Hl.
  replace (b32_bytes (b32_chars (length g))) with (length g)
    by (destruct (length g) as [|[|[|[|[|[|]]]]]]; simpl; lia).
  apply ungroup_group; [lia|done|lia|done|].
  destruct (length g) as [|[|[|[|[|[|]]]]]]; simpl; try lia;
    [exists 4|exists 16|exists 2|exists 8|exists 1]; done.
Qed.

Lemma b32_decode_aux_encode l fuel :
  (length l <= fuel)%nat -> b32_decode_aux fuel (b32_encode l) = (l, true).
Proof.
  revert fuel. induction l as [|g Hg|a b c d e l IH] using five_ind; intros fuel Hf.
  - by destruct fuel.
  - rewrite b32_encode_short by done.
    pose proof (b32_ungroup_group g ltac:(lia)) as [Hl Hun].
    destruct fuel as [|fuel]; [lia|]. unfold b32_group.
    set (src := _ ++ _). destruct src as [|c0 src'] eqn:Hsrc.
    { apply (f_equal length) in Hsrc. unfold src in Hsrc.
      rewrite length_app, length_map, Hl in Hsrc.
      destruct (length g) as [|[|[|[|[|[|]]]]]]; simpl in *; lia. }
    cbn [b32_decode_aux]. rewrite <- Hsrc. unfold src.
    rewrite b32_quantum_digits by (try apply b32_digit_ok; rewrite Hl;
      destruct (length g) as [|[|[|[|[|[|]]]]]]; simpl; lia).
    rewrite Hl. simpl (0 + _)%nat. simpl ([] ++ _).
    destruct (b32_quantum_padded (b32_chars (length g))
      (group_digits 32 5 8 (b32_chars (length g)) g)) as [rest Hrest].
    { destruct (length g) as [|[|[|[|[|[|]]]]]]; simpl; lia. }
    rewrite Hrest. by rewrite Hun.
  - simpl in Hf. destruct fuel as [|fuel]; [lia|]. cbn [b32_encode].
    pose proof (b32_ungroup_group [a; b; c; d; e] ltac:(simpl; lia)) as [Hl Hun].
    unfold b32_group. simpl (b32_chars _) in *. simpl (repeat _ _). rewrite app_nil_r.
    set (src := _ ++ _). destruct src as [|c0 src'] eqn:Hsrc.
    { apply (f_equal length) in Hsrc. unfold src in Hsrc.
      rewrite length_app, length_map, Hl in Hsrc. simpl in Hsrc. lia. }
    cbn [b32_decode_aux]. rewrite <- Hsrc. unfold src.
    rewrite b32_quantum_digits by (try apply b32_digit_ok; rewrite Hl; lia).
    rewrite Hl. simpl (0 + _)%nat. simpl ([] ++ _).
    rewrite b32_quantum_full, IH by lia. by rewrite Hun.
Qed.

Lemma length_b32_encode l : (length l <= length (b32_encode l))%nat.
Proof.
  induction l as [|g Hg|a b c d e l IH] using five_ind; [simpl; lia| |].
  - rewrite b32_encode_short by done. unfold b32_group, group_digits.
    rewrite length_app, length_map, length_take, length_digits, repeat_length. lia.
  - cbn [b32_encode]. unfold b32_group, group_digits.
    rewrite !length_app, length_map, length_take, length_digits, repeat_length. simpl. lia.
Qed.

Lemma b32_roundtrip l : b32_decode (b32_encode l) = (l, true).
Proof.
  unfold b32_decode. rewrite strip_newlines_id by apply b32_encode_no_newline.
  apply b32_decode_aux_encode, length_b32_encode.
Qed.

#[export] Hint Rewrite b64_roundtrip b32_roundtrip get_put_be length_put_be : deps.
