(* ===== verification/GoHash.v ===== *)
(** * Checksums of the Go standard library used by the code

    [crc32.ChecksumIEEE] and [sha256.Sum256], executable on [Z] words, with
    published test vectors and the digest length. *)

From S2P Require Import Prelude GoCodec.

Local Open Scope Z_scope.

(** ** hash/crc32, IEEE polynomial, reflected *)

Definition crc_bit (c : Z) : Z :=
  if Z.testbit c 0 then Z.lxor (Z.shiftr c 1) 0xEDB88320 else Z.shiftr c 1.

Definition crc_byte (c : Z) (b : byte) : Z := Nat.iter 8 crc_bit (Z.lxor c (byte_val b)).

Definition crc32_update (c : Z) (data : bytes) : Z := fold_left crc_byte data c.

Definition crc32_ieee (data : bytes) : Z :=
  Z.lxor (crc32_update 0xFFFFFFFF data) 0xFFFFFFFF.

Example crc32_check : crc32_ieee (to_bytes "123456789") = 0xCBF43926.
Proof. vm_compute. reflexivity. Qed.

(** ** crypto/sha256 *)

Definition w32 (z : Z) : Z := Z.land z 0xFFFFFFFF.
Definition rotr (n x : Z) : Z := Z.lor (Z.shiftr x n) (w32 (Z.shiftl x (32 - n))).
Definition ssig0 (x : Z) : Z := Z.lxor (Z.lxor (rotr 7 x) (rotr 18 x)) (Z.shiftr x 3).
Definition ssig1 (x : Z) : Z := Z.lxor (Z.lxor (rotr 17 x) (rotr 19 x)) (Z.shiftr x 10).
Definition bsig0 (x : Z) : Z := Z.lxor (Z.lxor (rotr 2 x) (rotr 13 x)) (rotr 22 x).
Definition bsig1 (x : Z) : Z := Z.lxor (Z.lxor (rotr 6 x) (rotr 11 x)) (rotr 25 x).
Definition choose (x y z : Z) : Z := Z.lxor (Z.land x y) (Z.land (Z.lxor x 0xFFFFFFFF) z).
Definition majority (x y z : Z) : Z :=
  Z.lxor (Z.lxor (Z.land x y) (Z.land x z)) (Z.land y z).

(** The 64 round constants, as one hexadecimal number cut in 32-bit words. *)
Definition round_constants : list Z :=
  Eval vm_compute in digits (2 ^ 32) 64
    0x428a2f9871374491b5c0fbcfe9b5dba53956c25b59f111f1923f82a4ab1c5ed5d807aa9812835b01243185be550c7dc372be5d7480deb1fe9bdc06a7c19bf174e49b69c1efbe47860fc19dc6240ca1cc2de92c6f4a7484aa5cb0a9dc76f988da983e5152a831c66db00327c8bf597fc7c6e00bf3d5a7914706ca63511429296727b70a852e1b21384d2c6dfc53380d13650a7354766a0abb81c2c92e92722c85a2bfe8a1a81a664bc24b8b70c76c51a3d192e819d6990624f40e3585106aa07019a4c1161e376c082748774c34b0bcb5391c0cb34ed8aa4a5b9cca4f682e6ff3748f82ee78a5636f84c878148cc7020890befffaa4506cebbef9a3f7c67178f2.

Record sha_state := Sha { sA : Z; sB : Z; sC : Z; sD : Z; sE : Z; sF : Z; sG : Z; sH : Z }.

Definition sha_init : sha_state :=
  Sha 0x6a09e667 0xbb67ae85 0x3c6ef372 0xa54ff53a 0x510e527f 0x9b05688c 0x1f83d9ab 0x5be0cd19.

(** Message padding: 0x80, zeros up to 56 modulo 64, the bit length. *)
Definition sha_pad (msg : bytes) : bytes :=
  let len := Z.of_nat (length msg) in
  msg ++ [Byte.x80] ++ repeat Byte.x00 (Z.to_nat ((55 - len) mod 64)) ++ put_be 8 (8 * len).

(** The message schedule; the list holds the words computed so far, the
    latest first. *)
Definition schedule_next (ws : list Z) : list Z :=
  let at_ (k : nat) := nth (k - 1) ws 0 in
  w32 (ssig1 (at_ 2%nat) + at_ 7%nat + ssig0 (at_ 15%nat) + at_ 16%nat) :: ws.

Fixpoint words (n : nat) (block : bytes) : list Z :=
  match n with
  | O => []
  | S n' => get_be (take 4 block) :: words n' (drop 4 block)
  end.

Definition schedule (block : bytes) : list Z :=
  rev (Nat.iter 48 schedule_next (rev (words 16 block))).

Definition sha_round (s : sha_state) (kw : Z * Z) : sha_state :=
  let t1 := sH s + bsig1 (sE s) + choose (sE s) (sF s) (sG s) + fst kw + snd kw in
  let t2 := bsig0 (sA s) + majority (sA s) (sB s) (sC s) in
  Sha (w32 (t1 + t2)) (sA s) (sB s) (sC s) (w32 (sD s + t1)) (sE s) (sF s) (sG s).

Definition sha_add (s t : sha_state) : sha_state :=
  Sha (w32 (sA s + sA t)) (w32 (sB s + sB t)) (w32 (sC s + sC t)) (w32 (sD s + sD t))
      (w32 (sE s + sE t)) (w32 (sF s + sF t)) (w32 (sG s + sG t)) (w32 (sH s + sH t)).

Definition sha_block (s : sha_state) (block : bytes) : sha_state :=
  sha_add s (fold_left sha_round (combine round_constants (schedule block)) s).

Fixpoint sha_blocks (n : nat) (s : sha_state) (l : bytes) : sha_state :=
  match n with
  | O => s
  | S n' => sha_blocks n' (sha_block s (take 64 l)) (drop 64 l)
  end.

Definition sha_digest (s : sha_state) : bytes :=
  concat (map (put_be 4) [sA s; sB s; sC s; sD s; sE s; sF s; sG s; sH s]).

Definition sha256 (msg : bytes) : bytes :=
  let l := sha_pad msg in sha_digest (sha_blocks (length l / 64) sha_init l).

Example sha256_abc :
  get_be (sha256 (to_bytes "abc")) =
  0xba7816bf8f01cfea414140de5dae2223b00361a396177a9cb410ff61f20015ad.
Proof. vm_compute. reflexivity. Qed.

Example sha256_two_blocks :
  get_be (sha256 (to_bytes "abcdbcdecdefdefgefghfghighijhijkijkljklmklmnlmnomnopnopq")) =
  0x248d6a61d20638b8e5c026930c3e6039a33ce45964ff2167f6ecedd419db06c1.
Proof. vm_compute. reflexivity. Qed.

Lemma length_sha256 msg : length (sha256 msg) = 32%nat.
Proof. unfold sha256, sha_digest. cbn [map concat]. by rewrite !length_app, !length_put_be. Qed.

#[export] Hint Rewrite length_sha256 : deps.
#[global] Opaque sha256 crc32_ieee.
