(* ===== verification/GoUrl.v ===== *)
(** * URLs and numbers in text: [net/url] and [fmt] of the Go standard library

    [url.QueryEscape], which the HTTP client of the command line writes its
    URIs with, its two inverses ([url.QueryUnescape], [url.PathUnescape]),
    [url.ParseQuery] and the [%d] verb, with the round trips. *)

From Stdlib Require Import Ascii DecimalString DecimalZ Decimal.
From S2P Require Import Prelude.

(** ** Numbers *)

(** [%d] *)
Definition decimal (z : Z) : string := NilZero.string_of_int (Z.to_int z).

(** [strconv.Atoi] on what [%d] writes. *)
Definition parse_decimal (s : string) : option Z := Z.of_int <$> NilZero.int_of_string s.

Lemma parse_decimal_of z : parse_decimal (decimal z) = Some z.
Proof.
  assert (forall p, Pos.to_uint p <> Nil) as Hnil by exact DecimalPos.Unsigned.to_uint_nonnil.
  unfold parse_decimal, decimal. rewrite NilZero.isi.
  - simpl. by rewrite DecimalZ.of_to.
  - destruct z as [|p|p]; simpl; [done|intros [= Hn]; by apply (Hnil p)|done].
  - destruct z as [|p|p]; simpl; [done|done|intros [= Hn]; by apply (Hnil p)].
Qed.

#[export] Instance decimal_inj : Inj (=) (=) decimal.
Proof. intros a b Hab. apply (f_equal parse_decimal) in Hab. rewrite !parse_decimal_of in Hab. by injection Hab. Qed.

(** ** Escaping *)

Local Open Scope char_scope.

(** Letters, digits and [-_.~]. *)
Definition unreserved (a : ascii) : bool :=
  let n := N_of_ascii a in
  ((48 <=? n) && (n <=? 57) || (65 <=? n) && (n <=? 90) || (97 <=? n) && (n <=? 122))%N ||
  bool_decide (a ∈ ["-"; "_"; "."; "~"]).

Definition upperhex : list ascii := list_ascii_of_string "0123456789ABCDEF".
Definition hex (n : N) : ascii := nth (N.to_nat n) upperhex "0".
Definition unhex (a : ascii) : option N :=
  let n := N_of_ascii a in
  if ((48 <=? n) && (n <=? 57))%N then Some (n - 48)%N
  else if ((65 <=? n) && (n <=? 70))%N then Some (n - 55)%N
  else if ((97 <=? n) && (n <=? 102))%N then Some (n - 87)%N
  else None.

Definition escape_char (a : ascii) : string :=
  if decide (a = " ") then "+"
  else if unreserved a then String a ""
  else String "%" (String (hex (N_of_ascii a / 16)) (String (hex (N_of_ascii a mod 16)) "")).

Fixpoint QueryEscape (s : string) : string :=
  match s with
  | EmptyString => EmptyString
  | String a s' => escape_char a +:+ QueryEscape s'
  end.

(** [unescape]; [plus] is the mode of a query component, where a plus sign is
    a space.  [None] is the error of an escape that is cut or not hexadecimal. *)
Fixpoint unescape (plus : bool) (s : string) : option string :=
  match s with
  | EmptyString => Some EmptyString
  | String "%" s' =>
      match s' with
      | String h (String l s'') =>
          match unhex h, unhex l with
          | Some h, Some l => String (ascii_of_N (16 * h + l)) <$> unescape plus s''
          | _, _ => None
          end
      | _ => None
      end
  | String a s' => String (if plus && bool_decide (a = "+") then " " else a) <$> unescape plus s'
  end.
Definition QueryUnescape : string -> option string := unescape true.
Definition PathUnescape : string -> option string := unescape false.

(** [strings.Split], cut at the first separator. *)
Fixpoint cut (c : ascii) (s : string) : option (string * string) :=
  match s with
  | EmptyString => None
  | String a s' =>
      if decide (a = c) then Some (EmptyString, s')
      else match cut c s' with Some (x, y) => Some (String a x, y) | None => None end
  end.

Definition key_value (s : string) : option (string * string) :=
  match cut "=" s with
  | Some (k, v) => k ← QueryUnescape k; v ← QueryUnescape v; Some (k, v)
  | None => k ← QueryUnescape s; Some (k, EmptyString)
  end.

(** [url.ParseQuery], in the order of the query; it fails on an escape that
    does not parse. *)
Fixpoint parse_query (fuel : nat) (s : string) : option (list (string * string)) :=
  match fuel, cut "&" s with
  | S fuel', Some (x, y) => kv ← key_value x; rest ← parse_query fuel' y; Some (kv :: rest)
  | _, _ => kv ← key_value s; Some [kv]
  end.
Definition ParseQuery (s : string) : option (list (string * string)) := parse_query (String.length s) s.

(** ** Round trips *)

Lemma unescape_char plus a s :
  unescape plus (escape_char a +:+ s) =
  String (if plus then a else if decide (a = " ") then "+" else a) <$> unescape plus s.
Proof. destruct plus; destruct a as [[] [] [] [] [] [] [] []]; reflexivity. Qed.

(** A space becomes a plus sign, which only a query reads back. *)
Definition plus_for_space (s : string) : string :=
  string_of_list_ascii (map (fun a => if decide (a = " ") then "+" else a) (list_ascii_of_string s)).

Lemma QueryUnescape_escape s : QueryUnescape (QueryEscape s) = Some s.
Proof.
  unfold QueryUnescape. induction s as [|a s IH]; [done|].
  cbn [QueryEscape]. by rewrite unescape_char, IH.
Qed.

Lemma PathUnescape_escape s : PathUnescape (QueryEscape s) = Some (plus_for_space s).
Proof.
  unfold PathUnescape. induction s as [|a s IH]; [done|].
  cbn [QueryEscape]. by rewrite unescape_char, IH.
Qed.

#[export] Instance QueryEscape_inj : Inj (=) (=) QueryEscape.
Proof.
  intros s t Hst. apply (f_equal QueryUnescape) in Hst. rewrite !QueryUnescape_escape in Hst. by injection Hst.
Qed.

(** ** Delimiters *)

Definition free_of (c : ascii) (s : string) : Prop := Forall (fun a => a <> c) (list_ascii_of_string s).

Lemma list_ascii_app s t :
  list_ascii_of_string (s +:+ t) = list_ascii_of_string s ++ list_ascii_of_string t.
Proof. induction s as [|a s IH]; [done|]. simpl. by rewrite IH. Qed.

Lemma free_of_app c s t : free_of c (s +:+ t) <-> free_of c s /\ free_of c t.
Proof. unfold free_of. by rewrite list_ascii_app, Forall_app. Qed.

Lemma cut_free c s t : free_of c s -> cut c (s +:+ String c t) = Some (s, t).
Proof.
  intros Hs. induction s as [|a s IH]; simpl.
  - by rewrite decide_True.
  - inversion Hs as [|? ? Ha Hs']; subst. rewrite decide_False by done. by rewrite IH.
Qed.

Lemma cut_none c s : free_of c s -> cut c s = None.
Proof.
  induction s as [|a s IH]; intros Hs; [done|]. inversion Hs as [|? ? Ha Hs']; subst. simpl.
  rewrite decide_False by done. by rewrite IH.
Qed.

Lemma plus_for_space_free s : free_of " " s -> plus_for_space s = s.
Proof.
  unfold plus_for_space, free_of. intros Hs.
  assert (map (fun a => if decide (a = " ") then "+" else a) (list_ascii_of_string s) = list_ascii_of_string s) as ->;
    [|apply string_of_list_ascii_of_string].
  induction Hs as [|a l Ha _ IH]; [done|]. cbn [map]. by rewrite decide_False, IH.
Qed.

(** What escaping never writes. *)
Definition delimiter (c : ascii) : bool := negb (unreserved c) && negb (bool_decide (c ∈ ["+"; "%"])).

Lemma escape_char_free c a : delimiter c = true -> free_of c (escape_char a).
Proof.
  intros Hc. unfold escape_char. case_decide; [by repeat constructor; intros <-|].
  destruct (unreserved a) eqn:Ha.
  - repeat constructor. intros <-. unfold delimiter in Hc. by rewrite Ha in Hc.
  - assert (delimiter "%" = false) as Hp by done.
    repeat constructor; [by intros <-|..]; intros <-; revert Hc; clear; destruct a as [[] [] [] [] [] [] [] []]; done.
Qed.

Lemma QueryEscape_free c s : delimiter c = true -> free_of c (QueryEscape s).
Proof.
  intros Hc. induction s as [|a s IH]; [constructor|]. cbn [QueryEscape]. apply free_of_app.
  split; [by apply escape_char_free|done].
Qed.

Lemma free_string c s : bool_decide (free_of c s) = true -> free_of c s.
Proof. apply bool_decide_eq_true_1. Qed.

(** ** Queries *)

(** A parameter as the client writes it: the name is a literal. *)
Definition param (k v : string) : string := k +:+ String "=" (QueryEscape v).

Lemma string_app_assoc (s t u : string) : (s +:+ t) +:+ u = s +:+ (t +:+ u).
Proof. induction s as [|a s IH]; [done|]. exact (f_equal (String a) IH). Qed.

Lemma string_app_nil_r (s : string) : s +:+ "" = s.
Proof. induction s as [|a s IH]; [done|]. exact (f_equal (String a) IH). Qed.

Lemma key_value_param k v : QueryEscape k = k -> key_value (param k v) = Some (k, v).
Proof.
  intros Hk. unfold key_value, param. rewrite cut_free.
  - rewrite <- Hk at 1. by rewrite !QueryUnescape_escape.
  - rewrite <- Hk. by apply QueryEscape_free.
Qed.

Lemma param_free k v : QueryEscape k = k -> free_of "&" (param k v).
Proof.
  intros Hk. unfold param. apply free_of_app. split.
  - rewrite <- Hk. by apply QueryEscape_free.
  - constructor; [done|]. by apply QueryEscape_free.
Qed.

Lemma parse_query_cons fuel k v q :
  QueryEscape k = k -> parse_query (S fuel) (param k v +:+ String "&" q) =
  rest ← parse_query fuel q; Some ((k, v) :: rest).
Proof. intros Hk. cbn [parse_query]. rewrite cut_free by (by apply param_free). by rewrite key_value_param. Qed.

Lemma parse_query_one fuel k v : QueryEscape k = k -> parse_query fuel (param k v) = Some [(k, v)].
Proof.
  intros Hk. destruct fuel; cbn [parse_query]; rewrite ?cut_none by (by apply param_free); by rewrite key_value_param.
Qed.

Fixpoint query (params : list (string * string)) : string :=
  match params with
  | [] => EmptyString
  | [(k, v)] => param k v
  | (k, v) :: params' => param k v +:+ String "&" (query params')
  end.

Lemma parse_query_params params fuel :
  params <> [] -> length params <= S fuel -> Forall (fun kv => QueryEscape kv.1 = kv.1) params ->
  parse_query fuel (query params) = Some params.
Proof.
  intros Hne Hl Hk. revert fuel Hl Hne. induction Hk as [|[k v] params Hk Hks IH]; intros fuel Hl Hne; [done|].
  destruct params as [|kv params]; [by apply parse_query_one|].
  destruct fuel as [|fuel]; [simpl in Hl; lia|]. cbn [query].
  change (query (kv :: params)) with (query (kv :: params)).
  rewrite parse_query_cons by done. rewrite IH; [done|simpl in *; lia|done].
Qed.

Lemma length_string_app s t : String.length (s +:+ t) = String.length s + String.length t.
Proof. induction s as [|a s IH]; [done|]. simpl. by rewrite IH. Qed.

Lemma length_query params : length params <= S (String.length (query params)).
Proof.
  induction params as [|[k v] params IH]; [simpl; lia|]. destruct params as [|kv params]; [simpl; lia|].
  cbn [query]. rewrite length_string_app. simpl in *. lia.
Qed.

(** Parsing reads back what was written under names that need no escape. *)
Lemma ParseQuery_query params :
  params <> [] -> Forall (fun kv => QueryEscape kv.1 = kv.1) params -> ParseQuery (query params) = Some params.
Proof. intros Hne Hk. apply parse_query_params; [done|apply length_query|done]. Qed.

(** Decimal numbers need no escape. *)
Lemma digits_plain u : QueryEscape (NilEmpty.string_of_uint u) = NilEmpty.string_of_uint u.
Proof. induction u as [|u IH|u IH|u IH|u IH|u IH|u IH|u IH|u IH|u IH|u IH]; [done|..]; exact (f_equal _ IH). Qed.

Lemma decimal_plain z : QueryEscape (decimal z) = decimal z.
Proof.
  unfold decimal. destruct (Z.to_int z) as [u|u]; simpl.
  - destruct u; [done|..]; apply digits_plain.
  - assert (QueryEscape (NilZero.string_of_uint u) = NilZero.string_of_uint u) as Hu
      by (destruct u; [done|..]; apply digits_plain).
    exact (f_equal (String "-") Hu).
Qed.
