(* ===== verification/GoUrlParse.v ===== *)
(** * [url.Parse] of the Go standard library

    The scheme and the host (with its port, if it has one) of a URL, and the
    URLs that are refused, as in release 1.15; the client of the command line
    uses no other part. *)

From Stdlib Require Import Ascii.
From S2P Require Import Prelude GoUrl.

Local Open Scope char_scope.

Notation text := (list ascii).

(** ** strings *)

Fixpoint split_first (c : ascii) (cut_c : bool) (s : text) : text * text :=
  match s with
  | [] => ([], [])
  | a :: s' => if decide (a = c) then ([], if cut_c then s' else s)
               else let '(x, y) := split_first c cut_c s' in (a :: x, y)
  end.

(** What is before and what is after the last occurrence, if there is one. *)
Fixpoint split_last (c : ascii) (s : text) : option (text * text) :=
  match s with
  | [] => None
  | a :: s' => match split_last c s' with
               | Some (x, y) => Some (a :: x, y)
               | None => if decide (a = c) then Some ([], s') else None
               end
  end.

Definition in_chars (cs : string) (a : ascii) : bool := bool_decide (a ∈ list_ascii_of_string cs).
Definition code_between (lo hi : N) (a : ascii) : bool := ((lo <=? N_of_ascii a) && (N_of_ascii a <=? hi))%N.
Definition is_lower : ascii -> bool := code_between 97 122.
Definition is_upper : ascii -> bool := code_between 65 90.
Definition is_num : ascii -> bool := code_between 48 57.
Definition is_alnum (a : ascii) : bool := is_lower a || is_upper a || is_num a.
Definition lower (a : ascii) : ascii := if is_upper a then ascii_of_N (N_of_ascii a + 32) else a.

(** ** Escapes *)

Inductive encoding := EncodePath | EncodeUserPassword | EncodeHost | EncodeZone | EncodeFragment.

Definition host_mode (mode : encoding) : bool := match mode with EncodeHost | EncodeZone => true | _ => false end.

(** [shouldEscape] for a host. *)
Definition should_escape_host (a : ascii) : bool :=
  negb (is_alnum a || in_chars "!$&'()*+,;=:[]<>" a || bool_decide (N_of_ascii a = 34%N) || in_chars "-_.~" a).

(** [unescape]: [None] is an error. *)
Fixpoint unescape_url (mode : encoding) (s : text) : option text :=
  match s with
  | [] => Some []
  | "%" :: a :: b :: s' =>
      match unhex a, unhex b with
      | Some x, Some y =>
          let v := ascii_of_N (x * 16 + y) in
          let percent := bool_decide (a = "2" /\ b = "5") in
          let refused := match mode with
                         | EncodeHost => (x <? 8)%N && negb percent
                         | EncodeZone => negb percent && negb (bool_decide (v = " ")) && should_escape_host v
                         | _ => false
                         end in
          if refused then None else (cons v) <$> unescape_url mode s'
      | _, _ => None
      end
  | "%" :: _ => None
  | a :: s' =>
      if host_mode mode && (N_of_ascii a <? 128)%N && should_escape_host a then None
      else (cons a) <$> unescape_url mode s'
  end.

(** ** Authority *)

Definition validOptionalPort (port : text) : bool :=
  match port with [] => true | a :: digits => bool_decide (a = ":") && forallb is_num digits end.

Definition validUserinfo (s : text) : bool := forallb (fun a => is_alnum a || in_chars "-._:~!$&'()*+,;=%@" a) s.

(** The text before and from the first [%25]. *)
Fixpoint split_zone (s : text) : option (text * text) :=
  match s with
  | [] => None
  | a :: s' => if bool_decide (take 3 s = ["%"; "2"; "5"]) then Some ([], s)
               else match split_zone s' with Some (x, y) => Some (a :: x, y) | None => None end
  end.

Definition parseHost (host : text) : option text :=
  match host with
  | "[" :: _ =>
      match split_last "]" host with
      | None => None
      | Some (inside, colonPort) =>
          if validOptionalPort colonPort then
            match split_zone inside with
            | Some (host1, zone) =>
                match unescape_url EncodeHost host1, unescape_url EncodeZone zone,
                      unescape_url EncodeHost ("]" :: colonPort) with
                | Some h1, Some h2, Some h3 => Some (h1 ++ h2 ++ h3)
                | _, _, _ => None
                end
            | None => unescape_url EncodeHost host
            end
          else None
      end
  | _ =>
      match split_last ":" host with
      | Some (_, port) => if validOptionalPort (":" :: port) then unescape_url EncodeHost host else None
      | None => unescape_url EncodeHost host
      end
  end.

(** The host; the user information must be well formed. *)
Definition parseAuthority (authority : text) : option text :=
  match split_last "@" authority with
  | None => parseHost authority
  | Some (userinfo, host) =>
      match parseHost host with
      | None => None
      | Some h =>
          let '(user, password) := split_first ":" true userinfo in
          if validUserinfo userinfo then
            match unescape_url EncodeUserPassword user, unescape_url EncodeUserPassword password with
            | Some _, Some _ => Some h
            | _, _ => None
            end
          else None
      end
  end.

(** ** Parse *)

(** [None]: the scheme is missing before a colon. *)
Fixpoint getscheme_from (i : nat) (s : text) : option (option (text * text)) :=
  match s with
  | [] => Some None
  | a :: s' =>
      if is_lower a || is_upper a then
        match getscheme_from (S i) s' with
        | Some (Some (x, y)) => Some (Some (a :: x, y))
        | r => r
        end
      else if is_num a || in_chars "+-." a then
        if decide (i = 0) then Some None
        else match getscheme_from (S i) s' with
             | Some (Some (x, y)) => Some (Some (a :: x, y))
             | r => r
             end
      else if decide (a = ":") then if decide (i = 0) then None else Some (Some ([], s'))
      else Some None
  end.

(** [getscheme]: the scheme and the rest, no scheme being empty. *)
Definition getscheme (s : text) : option (text * text) :=
  match getscheme_from 0 s with
  | None => None
  | Some None => Some ([], s)
  | Some (Some r) => Some r
  end.

Definition has_ctl (s : text) : bool := existsb (fun a => code_between 0 31 a || bool_decide (N_of_ascii a = 127%N)) s.

Definition starts (p s : text) : bool := bool_decide (take (length p) s = p).

(** The first of the two characters in [s] is a colon. *)
Definition colon_in_first_segment (s : text) : bool :=
  let '(segment, _) := split_first "/" true s in bool_decide (":" ∈ segment).

(** Scheme and host. *)
Definition parse_url (rawurl : text) : option (text * text) :=
  if has_ctl rawurl then None
  else if decide (rawurl = ["*"]) then Some ([], [])
  else match getscheme rawurl with
       | None => None
       | Some (scheme, rest) =>
           let scheme := map lower scheme in
           let '(rest, _) := split_first "?" true rest in
           let no_scheme := bool_decide (scheme = []) in
           if negb (starts ["/"] rest) && negb no_scheme then Some (scheme, [])
           else if negb (starts ["/"] rest) && colon_in_first_segment rest then None
           else
             let has_authority := (negb no_scheme || negb (starts ["/"; "/"; "/"] rest)) && starts ["/"; "/"] rest in
             let '(authority, path) := if has_authority then split_first "/" false (drop 2 rest) else ([], rest) in
             match (if has_authority then parseAuthority authority else Some []), unescape_url EncodePath path with
             | Some host, Some _ => Some (scheme, host)
             | _, _ => None
             end
       end.

(** [url.Parse] *)
Definition url_Parse (rawurl : string) : option (string * string) :=
  let '(u, fragment) := split_first "#" true (list_ascii_of_string rawurl) in
  match parse_url u, unescape_url EncodeFragment fragment with
  | Some (scheme, host), Some _ => Some (string_of_list_ascii scheme, string_of_list_ascii host)
  | _, _ => None
  end.

(** ** Plain URLs *)

(** A scheme and a host with nothing special in them, and a port. *)
Definition plain_char (a : ascii) : bool := is_alnum a || in_chars "-_.~" a.
Definition letter (a : ascii) : bool := is_lower a || is_upper a.

Lemma ascii_cases (P : ascii -> bool) : forallb P (map ascii_of_nat (seq 0 256)) = true -> forall a, P a = true.
Proof.
  rewrite forallb_forall. intros Hall a. apply Hall. rewrite <- (ascii_nat_embedding a). apply in_map, in_seq.
  pose proof (nat_ascii_bounded a). lia.
Qed.

(** What the parser asks of a character of a host. *)
Definition host_char_ok (a : ascii) : bool :=
  implb (plain_char a) (negb (code_between 0 31 a || bool_decide (N_of_ascii a = 127%N)) &&
    negb (should_escape_host a) && negb (in_chars "#?/@:[]%*" a)).
Lemma host_char a : host_char_ok a = true.
Proof. revert a. apply ascii_cases. vm_compute. reflexivity. Qed.

Lemma letter_plain a : implb (letter a) (plain_char a) = true.
Proof. revert a. apply ascii_cases. vm_compute. reflexivity. Qed.

Lemma digit_plain a : implb (is_num a) (plain_char a) = true.
Proof. revert a. apply ascii_cases. vm_compute. reflexivity. Qed.

Lemma plain_facts a : plain_char a = true ->
  (code_between 0 31 a || bool_decide (N_of_ascii a = 127%N)) = false /\ should_escape_host a = false /\
  a ∉ list_ascii_of_string "#?/@:[]%*".
Proof.
  intros Ha. pose proof (host_char a) as Hc. unfold host_char_ok in Hc. rewrite Ha in Hc. cbn [implb] in Hc.
  apply andb_true_iff in Hc as [[H1 H2]%andb_true_iff H3]. apply negb_true_iff in H1, H2, H3.
  split_and!; [done|done|]. unfold in_chars in H3. by apply bool_decide_eq_false in H3.
Qed.

Lemma plain_ne a c : plain_char a = true -> c ∈ list_ascii_of_string "#?/@:[]%*" -> a <> c.
Proof. intros Ha Hc ->. by destruct (plain_facts _ Ha) as (_ & _ & Hn). Qed.

Lemma split_first_none c b s : c ∉ s -> split_first c b s = (s, []).
Proof.
  induction s as [|a s IH]; [done|]. rewrite not_elem_of_cons. intros [Ha Hs]. cbn.
  rewrite decide_False by congruence. by rewrite IH.
Qed.

Lemma split_last_none c s : c ∉ s -> split_last c s = None.
Proof.
  induction s as [|a s IH]; [done|]. rewrite not_elem_of_cons. intros [Ha Hs]. cbn. rewrite IH by done.
  by rewrite decide_False by congruence.
Qed.

Lemma split_last_app c s1 s2 : c ∉ s2 -> split_last c (s1 ++ c :: s2) = Some (s1, s2).
Proof.
  intros Hs. induction s1 as [|a s1 IH]; cbn; [|by rewrite IH]. by rewrite split_last_none, decide_True.
Qed.

Lemma unescape_plain mode s : Forall (fun a => a <> "%" /\ should_escape_host a = false) s -> unescape_url mode s = Some s.
Proof.
  induction 1 as [|a s [Ha Hs] _ IH]; [done|]. cbn [unescape_url]. rewrite IH, Hs, andb_false_r. cbn.
  destruct a as [[] [] [] [] [] [] [] []]; try reflexivity. by destruct Ha.
Qed.

(** A host, or a host and a port. *)
Inductive plain_host : text -> Prop :=
| plain_host_only h : Forall (fun a => plain_char a = true) h -> plain_host h
| plain_host_port h p : Forall (fun a => plain_char a = true) h -> Forall (fun a => is_num a = true) p ->
    plain_host (h ++ ":" :: p).

Lemma plain_host_chars h : plain_host h -> Forall (fun a => plain_char a = true \/ a = ":") h.
Proof.
  intros [h' Hh|h' p Hh Hp]; [eapply Forall_impl; [exact Hh|]; auto|]. rewrite Forall_app, Forall_cons. split_and!.
  - eapply Forall_impl; [exact Hh|]. auto.
  - by right.
  - eapply Forall_impl; [exact Hp|]. intros a Ha. left. pose proof (digit_plain a) as Hd. by rewrite Ha in Hd.
Qed.

Lemma plain_host_no h c : plain_host h -> c ∈ list_ascii_of_string "#?/@[]%*" -> c ∉ h.
Proof.
  intros Hh Hc Hin. apply plain_host_chars in Hh. rewrite Forall_forall in Hh.
  destruct (Hh _ Hin) as [Hp| ->]; [|revert Hc; apply (bool_decide_unpack _); vm_compute; exact I].
  eapply (plain_ne c c Hp); [|done]. revert Hc. cbn. rewrite !elem_of_cons. tauto.
Qed.

Lemma parse_plain_host h : plain_host h -> parseHost h = Some h.
Proof.
  intros Hh. assert (forall mode, unescape_url mode h = Some h) as Hu.
  { intros mode. apply unescape_plain. eapply Forall_impl; [by apply plain_host_chars|].
    intros a [Ha| ->]; [|by split]. split; [|by apply plain_facts]. apply (plain_ne _ _ Ha).
    apply (bool_decide_unpack _). vm_compute. exact I. }
  assert (match split_last ":" h with
          | Some (_, port) => if validOptionalPort (":" :: port) then unescape_url EncodeHost h else None
          | None => unescape_url EncodeHost h end = Some h) as Hgo.
  { destruct Hh as [h Hh|h p Hh Hp].
    - rewrite split_last_none; [apply Hu|]. intros Hin. rewrite Forall_forall in Hh.
      apply (plain_ne _ ":" (Hh _ Hin)); [|done]. apply (bool_decide_unpack _). vm_compute. exact I.
    - rewrite split_last_app.
      + cbn [validOptionalPort]. rewrite bool_decide_true by done. cbn [andb].
        assert (forallb is_num p = true) as ->; [|apply Hu]. apply forallb_forall. intros a Ha.
        rewrite Forall_forall in Hp. by apply Hp, list_elem_of_In.
      + intros Hin. rewrite Forall_forall in Hp. specialize (Hp _ Hin). by vm_compute in Hp. }
  unfold parseHost. destruct h as [|a h]; [exact Hgo|]. destruct (decide (a = "[")) as [->|Ha].
  - exfalso. eapply (plain_host_no _ "[" Hh); [apply (bool_decide_unpack _); vm_compute; exact I|by left].
  - destruct a as [[] [] [] [] [] [] [] []]; try exact Hgo. by destruct Ha.
Qed.

Lemma getscheme_plain scheme rest : scheme <> [] -> Forall (fun a => letter a = true) scheme ->
  getscheme (scheme ++ ":" :: rest) = Some (scheme, rest).
Proof.
  intros Hne Hl. unfold getscheme.
  assert (forall i, (i = 0 -> scheme <> []) -> getscheme_from i (scheme ++ ":" :: rest) = Some (Some (scheme, rest))) as ->;
    [|done|done].
  clear Hne. induction Hl as [|a s Ha _ IH]; intros i Hi; cbn.
  - destruct (decide (i = 0)) as [->|Hne]; [by destruct (Hi eq_refl)|done].
  - unfold letter in Ha. rewrite Ha, IH; [done|done].
Qed.

(** A scheme of letters, and a plain host with or without a port. *)
Lemma url_Parse_plain (scheme host : text) : scheme <> [] -> Forall (fun a => letter a = true) scheme -> plain_host host ->
  url_Parse (string_of_list_ascii (scheme ++ ":" :: "/" :: "/" :: host)) =
    Some (string_of_list_ascii (map lower scheme), string_of_list_ascii host).
Proof.
  intros Hne Hl Hh. unfold url_Parse. rewrite list_ascii_of_string_of_list_ascii.
  assert (Forall (fun a => plain_char a = true) scheme) as Hs.
  { eapply Forall_impl; [exact Hl|]. intros a Ha. pose proof (letter_plain a) as Hp. by rewrite Ha in Hp. }
  set (u := scheme ++ ":" :: "/" :: "/" :: host).
  assert (forall c, c ∈ list_ascii_of_string "#?" -> c ∉ u) as Hno.
  { intros c Hc Hin. unfold u in Hin. rewrite elem_of_app, !elem_of_cons in Hin.
    assert (c ∈ list_ascii_of_string "#?/@:[]%*" /\ c ∈ list_ascii_of_string "#?/@[]%*" /\ c <> ":" /\ c <> "/") as (H1 & H2 & H3 & H4).
    { cbn in *. rewrite !elem_of_cons, elem_of_nil in *. destruct Hc as [->|[->|[]]]; split_and!; tauto || done. }
    rewrite Forall_forall in Hs. destruct Hin as [Hin|[?|[?|[?|Hin]]]]; try done.
    - by apply (plain_ne c c (Hs _ Hin)).
    - by apply (plain_host_no host c). }
  rewrite split_first_none by (apply Hno; left). unfold parse_url.
  assert (has_ctl u = false) as ->.
  { apply not_true_iff_false. unfold has_ctl. rewrite existsb_exists. intros (a & Hin%list_elem_of_In & Ha).
    assert (plain_char a = true \/ a = ":" \/ a = "/") as [Hp|[-> | ->]]; [|by destruct (plain_facts _ Hp); congruence|done..].
    unfold u in Hin. rewrite elem_of_app, !elem_of_cons in Hin. rewrite Forall_forall in Hs.
    pose proof (plain_host_chars _ Hh) as Hhc. rewrite Forall_forall in Hhc.
    destruct Hin as [Hin|[?|[?|[?|Hin]]]]; [left; by apply Hs|auto..|]. destruct (Hhc _ Hin); auto. }
  rewrite decide_False.
  2: { unfold u. destruct scheme as [|a [|b s]]; [done|discriminate..]. }
  unfold u at 1. rewrite getscheme_plain by done. cbv beta iota.
  rewrite (split_first_none "?"); [|intros Hin; apply (Hno "?"); [right; left|unfold u; rewrite elem_of_app, elem_of_cons; auto]].
  assert (bool_decide (map lower scheme = []) = false) as -> by (apply bool_decide_false; by destruct scheme).
  change (starts ["/"] ("/" :: "/" :: host)) with true. change (starts ["/"; "/"] ("/" :: "/" :: host)) with true.
  cbn [negb andb orb drop]. rewrite (split_first_none "/"); [|apply (plain_host_no _ _ Hh); cbn; set_solver].
  rewrite drop_0. assert (parseAuthority host = Some host) as ->; [|done].
  unfold parseAuthority. rewrite split_last_none; [by apply parse_plain_host|].
  apply (plain_host_no _ _ Hh). cbn. set_solver.
Qed.
