(* ===== verification/GoJson.v ===== *)
(** * Go's unicode/utf8 and encoding/json

    What encode.go and decode.go use of the Go standard library (release
    1.15): runes, [json.Marshal] of a struct of strings and slices of strings
    whose tags say [omitempty], and [json.Unmarshal] into such a struct.  The
    text is escaped as [json.Marshal] escapes it; the parser accepts all of
    JSON, keys are matched exactly and then up to case, unknown keys are
    skipped, and a value of the wrong type is an error that does not stop the
    other fields. *)

From S2P Require Import Prelude.

Local Open Scope Z_scope.

(** ** unicode/utf8 *)

Definition RuneError : Z := 65533.

Definition in_range (lo hi : Z) (b : byte) : bool := (lo <=? byte_val b) && (byte_val b <=? hi).
Definition is_cont : byte -> bool := in_range 128 191.
Definition low6 (b : byte) : Z := byte_val b - 128.

(** The first rune and its width; an invalid byte is [RuneError] of width 1. *)
Definition DecodeRune (l : bytes) : Z * nat :=
  match l with
  | [] => (RuneError, 0%nat)
  | b0 :: l1 =>
      let c0 := byte_val b0 in
      if c0 <? 128 then (c0, 1%nat)
      else if in_range 194 223 b0 then
        match l1 with
        | b1 :: _ => if is_cont b1 then ((c0 - 192) * 64 + low6 b1, 2%nat) else (RuneError, 1%nat)
        | _ => (RuneError, 1%nat)
        end
      else if in_range 224 239 b0 then
        match l1 with
        | b1 :: b2 :: _ =>
            if in_range (if c0 =? 224 then 160 else 128) (if c0 =? 237 then 159 else 191) b1 && is_cont b2
            then ((c0 - 224) * 4096 + low6 b1 * 64 + low6 b2, 3%nat) else (RuneError, 1%nat)
        | _ => (RuneError, 1%nat)
        end
      else if in_range 240 244 b0 then
        match l1 with
        | b1 :: b2 :: b3 :: _ =>
            if in_range (if c0 =? 240 then 144 else 128) (if c0 =? 244 then 143 else 191) b1 &&
               is_cont b2 && is_cont b3
            then ((c0 - 240) * 262144 + low6 b1 * 4096 + low6 b2 * 64 + low6 b3, 4%nat) else (RuneError, 1%nat)
        | _ => (RuneError, 1%nat)
        end
      else (RuneError, 1%nat)
  end.

Definition tail_byte (z : Z) : byte := byte_of (128 + z mod 64).

Definition three_bytes (r : Z) : bytes := [byte_of (224 + r / 4096); tail_byte (r / 64); tail_byte r].

(** A surrogate or a value beyond the last rune is written as [RuneError]. *)
Definition EncodeRune (r : Z) : bytes :=
  if r <? 128 then [byte_of r]
  else if r <? 2048 then [byte_of (192 + r / 64); tail_byte r]
  else if ((55296 <=? r) && (r <? 57344)) || (1114111 <? r) then three_bytes RuneError
  else if r <? 65536 then three_bytes r
  else [byte_of (240 + r / 262144); tail_byte (r / 4096); tail_byte (r / 64); tail_byte r].

Definition invalid_rune (d : Z * nat) : bool := (d.1 =? RuneError) && (d.2 =? 1)%nat.

(** [utf8.Valid] *)
Fixpoint valid_utf8 (fuel : nat) (s : bytes) : bool :=
  match s, fuel with
  | [], _ => true
  | _, O => false
  | _, S fuel' => negb (invalid_rune (DecodeRune s)) && valid_utf8 fuel' (drop (DecodeRune s).2 s)
  end.

Definition Valid (s : bytes) : bool := valid_utf8 (length s) s.

(** ** encoding/json: writing *)

Definition quote : byte := Byte.x22.
Definition backslash : byte := Byte.x5c.

Definition hex_digits : bytes := to_bytes "0123456789abcdef".
Definition hex_digit (z : Z) : byte := nth (Z.to_nat (z mod 16)) hex_digits Byte.x30.

(** [htmlSafeSet] *)
Definition html_safe (b : byte) : bool :=
  (32 <=? byte_val b) && (byte_val b <? 128) &&
  negb (bool_decide (b ∈ [quote; backslash; Byte.x3c; Byte.x3e; Byte.x26])).

Definition escape_ascii (b : byte) : bytes :=
  if bool_decide (b = quote \/ b = backslash) then [backslash; b]
  else if bool_decide (b = Byte.x0a) then [backslash; Byte.x6e]
  else if bool_decide (b = Byte.x0d) then [backslash; Byte.x72]
  else if bool_decide (b = Byte.x09) then [backslash; Byte.x74]
  else [backslash; Byte.x75; Byte.x30; Byte.x30; hex_digit (byte_val b / 16); hex_digit (byte_val b)].

(** [encodeState.string], between the quotes. *)
Fixpoint write_runes (fuel : nat) (s : bytes) : bytes :=
  match s, fuel with
  | b :: rest, S fuel' =>
      if byte_val b <? 128 then
        (if html_safe b then [b] else escape_ascii b) ++ write_runes fuel' rest
      else
        let '(c, size) := DecodeRune s in
        if invalid_rune (c, size) then backslash :: to_bytes "ufffd" ++ write_runes fuel' (drop size s)
        else if (c =? 8232) || (c =? 8233) then
          (backslash :: to_bytes "u202" ++ [hex_digit c]) ++ write_runes fuel' (drop size s)
        else take size s ++ write_runes fuel' (drop size s)
  | _, _ => []
  end.

Definition write_string (s : bytes) : bytes := quote :: write_runes (length s) s ++ [quote].

(** A field of a struct the code stores. *)
Inductive field := FString (s : string) | FStrings (l : list string).

Definition empty_field (f : field) : bool :=
  match f with FString s => bool_decide (s = ""%string) | FStrings l => bool_decide (l = []) end.

Fixpoint separated {A} (show : A -> bytes) (l : list A) : bytes :=
  match l with
  | [] => []
  | [x] => show x
  | x :: l' => show x ++ Byte.x2c :: separated show l'
  end.

Definition write_text (s : string) : bytes := write_string (to_bytes s).

Definition write_field (f : field) : bytes :=
  match f with
  | FString s => write_text s
  | FStrings l => Byte.x5b :: separated write_text l ++ [Byte.x5d]
  end.

Definition write_member (m : string * field) : bytes := write_text m.1 ++ Byte.x3a :: write_field m.2.

Definition write_object (members : list (string * field)) : bytes :=
  Byte.x7b :: separated write_member members ++ [Byte.x7d].

(** [omitempty] leaves out what is empty. *)
Definition written (members : list (string * field)) : list (string * field) :=
  List.filter (fun m => negb (empty_field m.2)) members.

Definition write_struct (members : list (string * field)) : bytes := write_object (written members).

(** ** encoding/json: reading *)

Inductive json :=
| JNull
| JBool (b : bool)
| JNumber (text : bytes)
| JString (s : bytes)
| JArray (l : list json)
| JObject (l : list (bytes * json)).

Definition is_space (b : byte) : bool := bool_decide (b ∈ [Byte.x20; Byte.x09; Byte.x0d; Byte.x0a]).
Fixpoint skip_space (l : bytes) : bytes :=
  match l with b :: l' => if is_space b then skip_space l' else l | [] => [] end.

Definition unhex_digit (b : byte) : option Z :=
  let c := byte_val b in
  if (48 <=? c) && (c <=? 57) then Some (c - 48)
  else if (97 <=? c) && (c <=? 102) then Some (c - 87)
  else if (65 <=? c) && (c <=? 70) then Some (c - 55)
  else None.

(** Four hexadecimal digits. *)
Definition get_u4 (l : bytes) : option (Z * bytes) :=
  match l with
  | a :: b :: c :: d :: rest =>
      match unhex_digit a, unhex_digit b, unhex_digit c, unhex_digit d with
      | Some a, Some b, Some c, Some d => Some (((a * 16 + b) * 16 + c) * 16 + d, rest)
      | _, _, _, _ => None
      end
  | _ => None
  end.

Definition is_surrogate (r : Z) : bool := (55296 <=? r) && (r <? 57344).

(** [utf16.DecodeRune] *)
Definition surrogate_pair (r1 r2 : Z) : Z :=
  if (55296 <=? r1) && (r1 <? 56320) && (56320 <=? r2) && (r2 <? 57344)
  then (r1 - 55296) * 1024 + (r2 - 56320) + 65536 else RuneError.

(** The rune of an escape, given the digits read and what follows: a surrogate
    takes the next escape with it if they make a pair. *)
Definition unescape_rune (r : Z) (rest : bytes) : Z * bytes :=
  if is_surrogate r then
    match rest with
    | b1 :: b2 :: rest' =>
        if bool_decide (b1 = backslash /\ b2 = Byte.x75) then
          match get_u4 rest' with
          | Some (r2, rest2) =>
              if surrogate_pair r r2 =? RuneError then (RuneError, rest) else (surrogate_pair r r2, rest2)
          | None => (RuneError, rest)
          end
        else (RuneError, rest)
    | _ => (RuneError, rest)
    end
  else (r, rest).

Definition simple_escape (b : byte) : option byte :=
  match b with
  | Byte.x22 => Some Byte.x22 | Byte.x5c => Some Byte.x5c | Byte.x2f => Some Byte.x2f
  | Byte.x62 => Some Byte.x08 | Byte.x66 => Some Byte.x0c | Byte.x6e => Some Byte.x0a
  | Byte.x72 => Some Byte.x0d | Byte.x74 => Some Byte.x09
  | _ => None
  end.

(** The rest of a string after its quote, unquoted, and what follows it. *)
Fixpoint read_string (fuel : nat) (l : bytes) : option (bytes * bytes) :=
  match l, fuel with
  | b :: rest, S fuel' =>
      let add s := match s with (text, next) =>
                     match read_string fuel' next with
                     | Some (more, next') => Some (text ++ more, next')
                     | None => None
                     end
                   end in
      if bool_decide (b = quote) then Some ([], rest)
      else if bool_decide (b = backslash) then
        match rest with
        | e :: rest' =>
            if bool_decide (e = Byte.x75) then
              match get_u4 rest' with
              | Some (r, rest2) => let '(r, rest3) := unescape_rune r rest2 in add (EncodeRune r, rest3)
              | None => None
              end
            else match simple_escape e with Some c => add ([c], rest') | None => None end
        | [] => None
        end
      else if byte_val b <? 32 then None
      else if byte_val b <? 128 then add ([b], rest)
      else let '(r, size) := DecodeRune l in add (EncodeRune r, drop size l)
  | _, _ => None
  end.

Definition is_digit (b : byte) : bool := in_range 48 57 b.
Fixpoint digits_of (l : bytes) : bytes * bytes :=
  match l with
  | b :: l' => if is_digit b then let '(ds, rest) := digits_of l' in (b :: ds, rest) else ([], l)
  | [] => ([], [])
  end.

(** One of the given bytes, if it is next. *)
Definition optional (bs : list byte) (l : bytes) : bytes * bytes :=
  match l with b :: l' => if bool_decide (b ∈ bs) then ([b], l') else ([], l) | [] => ([], []) end.

Definition read_number (l : bytes) : option (bytes * bytes) :=
  let '(sign, l) := optional [Byte.x2d] l in
  let '(whole, l) := match l with Byte.x30 :: l' => ([Byte.x30], l') | _ => digits_of l end in
  if bool_decide (whole = []) then None else
  let '(point, l) := optional [Byte.x2e] l in
  let '(fraction, l) := if bool_decide (point = []) then ([], l) else digits_of l in
  if bool_decide (point <> [] /\ fraction = []) then None else
  let '(e, l) := optional [Byte.x65; Byte.x45] l in
  let '(esign, l) := if bool_decide (e = []) then ([], l) else optional [Byte.x2b; Byte.x2d] l in
  let '(exponent, l) := if bool_decide (e = []) then ([], l) else digits_of l in
  if bool_decide (e <> [] /\ exponent = []) then None else
  Some (sign ++ whole ++ point ++ fraction ++ e ++ esign ++ exponent, l).

(** What is left after a literal. *)
Definition after (text : string) (l : bytes) : option bytes :=
  let n := length (to_bytes text) in
  if bool_decide (take n l = to_bytes text) then Some (drop n l) else None.

Definition read_key (l : bytes) : option (bytes * bytes) :=
  match skip_space l with
  | b :: rest => if bool_decide (b = quote) then read_string (length rest) rest else None
  | [] => None
  end.

Fixpoint read_value (fuel : nat) (l : bytes) : option (json * bytes) :=
  match fuel with
  | O => None
  | S fuel' =>
      match skip_space l with
      | Byte.x7b :: rest =>
          match skip_space rest with
          | Byte.x7d :: rest' => Some (JObject [], rest')
          | _ => match read_members fuel' rest with Some (ms, rest') => Some (JObject ms, rest') | None => None end
          end
      | Byte.x5b :: rest =>
          match skip_space rest with
          | Byte.x5d :: rest' => Some (JArray [], rest')
          | _ => match read_elements fuel' rest with Some (vs, rest') => Some (JArray vs, rest') | None => None end
          end
      | Byte.x22 :: rest =>
          match read_string (length rest) rest with Some (s, rest') => Some (JString s, rest') | None => None end
      | Byte.x74 :: _ => (fun r => (JBool true, r)) <$> after "true" (skip_space l)
      | Byte.x66 :: _ => (fun r => (JBool false, r)) <$> after "false" (skip_space l)
      | Byte.x6e :: _ => (fun r => (JNull, r)) <$> after "null" (skip_space l)
      | other => match read_number other with Some (t, rest') => Some (JNumber t, rest') | None => None end
      end
  end
with read_members (fuel : nat) (l : bytes) : option (list (bytes * json) * bytes) :=
  match fuel with
  | O => None
  | S fuel' =>
      match read_key l with
      | None => None
      | Some (key, rest) =>
          match skip_space rest with
          | Byte.x3a :: rest =>
              match read_value fuel' rest with
              | None => None
              | Some (v, rest) =>
                  match skip_space rest with
                  | Byte.x7d :: rest' => Some ([(key, v)], rest')
                  | Byte.x2c :: rest' =>
                      match read_members fuel' rest' with
                      | Some (ms, rest2) => Some ((key, v) :: ms, rest2)
                      | None => None
                      end
                  | _ => None
                  end
              end
          | _ => None
          end
      end
  end
with read_elements (fuel : nat) (l : bytes) : option (list json * bytes) :=
  match fuel with
  | O => None
  | S fuel' =>
      match read_value fuel' l with
      | None => None
      | Some (v, rest) =>
          match skip_space rest with
          | Byte.x5d :: rest' => Some ([v], rest')
          | Byte.x2c :: rest' =>
              match read_elements fuel' rest' with
              | Some (vs, rest2) => Some (v :: vs, rest2)
              | None => None
              end
          | _ => None
          end
      end
  end.

(** [checkValid] and the value: nothing but space may follow it. *)
Definition parse_json (data : bytes) : option json :=
  match read_value (S (length data)) data with
  | Some (v, rest) => if bool_decide (skip_space rest = []) then Some v else None
  | None => None
  end.

(** ** encoding/json: into a struct *)

(** [equalFoldRight]: a tag against a key of the text.  Letters match up to
    case, and k and s also match the Kelvin sign and the long s. *)
Definition upper (b : byte) : Z := Z.land (byte_val b) 223.
Definition is_letter (b : byte) : bool := (65 <=? upper b) && (upper b <=? 90).

Fixpoint equal_fold (tag : bytes) (key : bytes) : bool :=
  match tag, key with
  | [], [] => true
  | sb :: tag', tb :: key' =>
      if byte_val tb <? 128 then
        (bool_decide (sb = tb) || (is_letter sb && (upper sb =? upper tb))) && equal_fold tag' key'
      else
        let '(r, size) := DecodeRune key in
        (((upper sb =? 83) && (r =? 383)) || ((upper sb =? 75) && (r =? 8490))) && equal_fold tag' (drop size key)
  | _, _ => false
  end.

(** The field a key names: exactly, or else the first up to case. *)
Definition field_index (tags : list string) (key : bytes) : option nat :=
  match list_find (fun tag => to_bytes tag = key) tags with
  | Some (i, _) => Some i
  | None => fst <$> list_find (fun tag => equal_fold (to_bytes tag) key = true) tags
  end.

(** A string field keeps its value on [null] and on a value of another type,
    which is an error. *)
Definition store_string (old : string) (v : json) : string * bool :=
  match v with
  | JString s => (of_bytes s, true)
  | JNull => (old, true)
  | _ => (old, false)
  end.

(** The elements are stored over those the slice has. *)
Fixpoint store_strings (old : list string) (vs : list json) : list string * bool :=
  match vs with
  | [] => ([], true)
  | v :: vs' =>
      let '(s, ok) := store_string (default ""%string (head old)) v in
      let '(l, ok') := store_strings (tail old) vs' in (s :: l, ok && ok')
  end.

Definition store_field (f : field) (v : json) : field * bool :=
  match f, v with
  | FString old, _ => let '(s, ok) := store_string old v in (FString s, ok)
  | FStrings old, JNull => (FStrings [], true)
  | FStrings old, JArray vs => let '(l, ok) := store_strings old vs in (FStrings l, ok)
  | FStrings old, _ => (f, false)
  end.

Definition store_member (tags : list string) (acc : list field * bool) (m : bytes * json) : list field * bool :=
  match field_index tags m.1 with
  | None => acc
  | Some i =>
      match acc.1 !! i with
      | None => acc
      | Some f => let '(f', ok) := store_field f m.2 in (<[i := f']> acc.1, acc.2 && ok)
      end
  end.

(** A value into a struct: the fields as far as they were filled in, and
    whether there was no error. *)
Definition store_struct (tags : list string) (fields : list field) (v : json) : list field * bool :=
  match v with
  | JNull => (fields, true)
  | JObject ms => fold_left (store_member tags) ms (fields, true)
  | _ => (fields, false)
  end.

(** [json.Unmarshal] *)
Definition read_struct (tags : list string) (fields : list field) (data : bytes) : list field * bool :=
  match parse_json data with
  | None => (fields, false)
  | Some v => store_struct tags fields v
  end.

(** [Decoder.Decode]: the first value of a stream, whatever follows it. *)
Definition decode_struct (tags : list string) (fields : list field) (data : bytes) : list field * bool :=
  match read_value (S (length data)) data with
  | None => (fields, false)
  | Some (v, _) => store_struct tags fields v
  end.
