(* ===== verification/GoJsonSpec.v ===== *)
(** * What is written as JSON is read back

    Runes that are valid are encoded to the bytes they were decoded from; a
    string of valid UTF-8 is unquoted to itself; a struct is read back field
    by field. *)

From S2P Require Import Prelude GoJson.

Local Open Scope Z_scope.

(** ** Runes *)

Lemma in_range_spec lo hi b : in_range lo hi b = true <-> lo <= byte_val b <= hi.
Proof. unfold in_range. rewrite andb_true_iff, !Z.leb_le. done. Qed.

Lemma byte_of_eq z b : z = byte_val b -> byte_of z = b.
Proof. intros ->. apply byte_of_val. Qed.

Lemma tail_byte_eq z b : 128 <= byte_val b <= 191 -> z mod 64 = low6 b -> tail_byte z = b.
Proof. unfold tail_byte, low6. intros Hb ->. apply byte_of_eq. lia. Qed.

(** What [DecodeRune] answers, by the number of bytes. *)
Inductive decoded : bytes -> Z -> nat -> Prop :=
| decoded_one b0 l : byte_val b0 < 128 -> decoded (b0 :: l) (byte_val b0) 1
| decoded_two b0 b1 l : 194 <= byte_val b0 <= 223 -> 128 <= byte_val b1 <= 191 ->
    decoded (b0 :: b1 :: l) ((byte_val b0 - 192) * 64 + low6 b1) 2
| decoded_three b0 b1 b2 l : 224 <= byte_val b0 <= 239 -> 128 <= byte_val b1 <= 191 -> 128 <= byte_val b2 <= 191 ->
    (byte_val b0 = 224 -> 160 <= byte_val b1) -> (byte_val b0 = 237 -> byte_val b1 <= 159) ->
    decoded (b0 :: b1 :: b2 :: l) ((byte_val b0 - 224) * 4096 + low6 b1 * 64 + low6 b2) 3
| decoded_four b0 b1 b2 b3 l : 240 <= byte_val b0 <= 244 -> 128 <= byte_val b1 <= 191 ->
    128 <= byte_val b2 <= 191 -> 128 <= byte_val b3 <= 191 ->
    (byte_val b0 = 240 -> 144 <= byte_val b1) -> (byte_val b0 = 244 -> byte_val b1 <= 143) ->
    decoded (b0 :: b1 :: b2 :: b3 :: l)
      ((byte_val b0 - 240) * 262144 + low6 b1 * 4096 + low6 b2 * 64 + low6 b3) 4.

Ltac range_facts :=
  repeat match goal with
  | H : _ && _ = true |- _ => apply andb_true_iff in H as [? ?]
  | H : is_cont _ = true |- _ => apply in_range_spec in H
  | H : in_range _ _ _ = true |- _ => apply in_range_spec in H
  end.

Lemma DecodeRune_decoded s : s <> [] -> invalid_rune (DecodeRune s) = false ->
  decoded s (DecodeRune s).1 (DecodeRune s).2.
Proof.
  destruct s as [|b0 l]; [done|]. intros _. unfold DecodeRune.
  destruct (byte_val b0 <? 128) eqn:H1; [intros _; constructor; lia|].
  destruct (in_range 194 223 b0) eqn:H2.
  { destruct l as [|b1 l]; [done|]. destruct (is_cont b1) eqn:Hb1; [|done]. intros _. range_facts. by constructor. }
  destruct (in_range 224 239 b0) eqn:H3.
  { destruct l as [|b1 [|b2 l]]; [done..|].
    destruct (in_range _ _ b1 && is_cont b2) eqn:Hb; [|done]. intros _. range_facts.
    destruct (byte_val b0 =? 224) eqn:?, (byte_val b0 =? 237) eqn:?; constructor; lia. }
  destruct (in_range 240 244 b0) eqn:H4; [|done].
  destruct l as [|b1 [|b2 [|b3 l]]]; [done..|].
  destruct (in_range _ _ b1 && is_cont b2 && is_cont b3) eqn:Hb; [|done]. intros _. range_facts.
  destruct (byte_val b0 =? 240) eqn:?, (byte_val b0 =? 244) eqn:?; constructor; lia.
Qed.

Lemma in_range_true lo hi b : lo <= byte_val b <= hi -> in_range lo hi b = true.
Proof. apply in_range_spec. Qed.
Lemma in_range_false lo hi b : byte_val b < lo \/ hi < byte_val b -> in_range lo hi b = false.
Proof. intros Hb. apply not_true_iff_false. rewrite in_range_spec. lia. Qed.

(** It looks at no other bytes. *)
Lemma decoded_run s c n tail : decoded s c n -> DecodeRune (take n s ++ tail) = (c, n) /\ (0 < n <= length s)%nat.
Proof.
  intros []; simpl; (split; [|lia]); unfold is_cont.
  - by replace (byte_val b0 <? 128) with true by lia.
  - replace (byte_val b0 <? 128) with false by lia. by rewrite !in_range_true.
  - replace (byte_val b0 <? 128) with false by lia.
    rewrite (in_range_false 194 223), (in_range_true 224 239), (in_range_true 128 191 b2) by lia.
    rewrite in_range_true; [done|]. destruct (byte_val b0 =? 224) eqn:?, (byte_val b0 =? 237) eqn:?; lia.
  - replace (byte_val b0 <? 128) with false by lia.
    rewrite (in_range_false 194 223), (in_range_false 224 239), (in_range_true 240 244), (in_range_true 128 191 b2),
      (in_range_true 128 191 b3) by lia.
    rewrite in_range_true; [done|]. destruct (byte_val b0 =? 240) eqn:?, (byte_val b0 =? 244) eqn:?; lia.
Qed.

Ltac divmod := unfold low6 in *; Z.to_euclidean_division_equations; lia.

Lemma decoded_encode s c n : decoded s c n -> EncodeRune c = take n s.
Proof.
  intros [b0 l Hb|b0 b1 l H0 H1|b0 b1 b2 l H0 H1 H2 Ha Hc|b0 b1 b2 b3 l H0 H1 H2 H3 Ha Hc]; unfold EncodeRune; simpl.
  - replace (byte_val b0 <? 128) with true by lia. by rewrite byte_of_val.
  - set (r := _ + low6 b1). assert (128 <= r < 2048) as Hr by (unfold r, low6; lia).
    replace (r <? 128) with false by lia. replace (r <? 2048) with true by lia.
    rewrite (byte_of_eq _ b0), (tail_byte_eq r b1); [done|done|unfold r; divmod|unfold r; divmod].
  - set (r := _ + low6 b2). assert (2048 <= r < 65536 /\ (r < 55296 \/ 57344 <= r)) as [Hr Hs] by (unfold r, low6; lia).
    replace (r <? 128) with false by lia. replace (r <? 2048) with false by lia.
    replace (_ || _) with false by lia. replace (r <? 65536) with true by lia. unfold three_bytes.
    rewrite (byte_of_eq _ b0), (tail_byte_eq (r / 64) b1), (tail_byte_eq r b2); [done|done|..]; unfold r; try done; divmod.
  - set (r := _ + low6 b3). assert (65536 <= r <= 1114111) as Hr by (unfold r, low6; lia).
    replace (r <? 128) with false by lia. replace (r <? 2048) with false by lia.
    replace (_ || _) with false by lia. replace (r <? 65536) with false by lia.
    rewrite (byte_of_eq _ b0), (tail_byte_eq (r / 4096) b1), (tail_byte_eq (r / 64) b2), (tail_byte_eq r b3);
      [done|done|..]; unfold r; try done; divmod.
Qed.

(** ** Strings *)

(** What a step of [read_string] makes of what follows. *)
Definition added (text : bytes) (o : option (bytes * bytes)) : option (bytes * bytes) :=
  match o with Some (more, next) => Some (text ++ more, next) | None => None end.

Lemma read_plain b g l : html_safe b = true -> read_string (S g) (b :: l) = added [b] (read_string g l).
Proof. destruct b; intros Hb; try discriminate Hb; reflexivity. Qed.

Lemma read_escape b g l : byte_val b < 128 -> html_safe b = false ->
  read_string (S g) (escape_ascii b ++ l) = added [b] (read_string g l).
Proof. intros Hlt. destruct b; intros Hb; try discriminate Hb; try reflexivity; exfalso; revert Hlt; vm_compute; done. Qed.

Lemma read_separator c g l : (c = 8232 \/ c = 8233) ->
  read_string (S g) ((backslash :: to_bytes "u202" ++ [hex_digit c]) ++ l) = added (EncodeRune c) (read_string g l).
Proof. by intros [->| ->]. Qed.

Lemma read_wide s c n g l : decoded s c n -> 128 <= byte_val (default Byte.x00 (head s)) ->
  read_string (S g) (take n s ++ l) = added (take n s) (read_string g l).
Proof.
  intros Hd Hb. pose proof (decoded_run _ _ _ l Hd) as [Hrun Hn]. pose proof (decoded_encode _ _ _ Hd) as He.
  destruct s as [|b s]; [simpl in Hn; lia|]. destruct n as [|n]; [lia|]. cbn [default head from_option id] in Hb. cbn [take app] in Hrun.
  cbn [take app]. unfold read_string; fold read_string.
  assert (b <> quote) by (intros ->; revert Hb; vm_compute; done).
  assert (b <> backslash) by (intros ->; revert Hb; vm_compute; done).
  rewrite !bool_decide_eq_false_2 by done.
  replace (byte_val b <? 32) with false by lia. replace (byte_val b <? 128) with false by lia.
  rewrite Hrun, He. cbn [drop take]. rewrite drop_app_length' by (rewrite length_take; simpl in Hn; lia). reflexivity.
Qed.

Lemma read_written f : forall s rest g,
  valid_utf8 f s = true -> (length (write_runes f s) < g)%nat ->
  read_string g (write_runes f s ++ quote :: rest) = Some (s, rest).
Proof.
  induction f as [|f IH]; intros s rest [|g]; try lia.
  - destruct s; [done|done].
  - destruct s as [|b s]; [done|]. intros [Hv Hvs]%andb_true_iff. apply negb_true_iff in Hv.
    pose proof (DecodeRune_decoded (b :: s) ltac:(done) Hv) as Hd. cbn [write_runes].
    destruct (byte_val b <? 128) eqn:Hb.
    + assert (DecodeRune (b :: s) = (byte_val b, 1%nat)) as Hr by (cbn; by rewrite Hb). rewrite Hr in Hvs. cbn in Hvs.
      rewrite drop_0 in Hvs. rewrite <- app_assoc. intros Hlen. rewrite length_app in Hlen.
      destruct (html_safe b) eqn:Hs.
      * cbn [app length] in *. rewrite read_plain, IH by (done || lia). done.
      * rewrite read_escape, IH; [done|done| |lia|done].
        assert (0 < length (escape_ascii b))%nat by (unfold escape_ascii; repeat case_bool_decide; simpl; lia). lia.
    + destruct (DecodeRune (b :: s)) as [c n] eqn:Hr. rewrite Hv. cbn [fst snd] in Hd, Hvs.
      pose proof (decoded_run _ _ _ [] Hd) as [_ Hn]. pose proof (take_drop n (b :: s)) as Htd.
      destruct ((c =? 8232) || (c =? 8233)) eqn:Hsep.
      * rewrite <- app_assoc, length_app. intros Hlen. rewrite read_separator by lia. rewrite IH; [|done|].
        { cbn [added]. by rewrite (decoded_encode _ _ _ Hd), Htd. }
        simpl in Hlen. lia.
      * rewrite <- app_assoc, length_app. intros Hlen.
        rewrite (read_wide _ c) by (done || (simpl; lia)). rewrite IH; [|done|].
        { cbn [added]. by rewrite Htd. }
        rewrite length_take in Hlen. lia.
Qed.

(** A quoted string, where a value or a key is read. *)
Lemma read_quoted s rest g : Valid s = true -> (length (write_runes (length s) s) < g)%nat ->
  read_string g (write_runes (length s) s ++ quote :: rest) = Some (s, rest).
Proof. apply read_written. Qed.

(** ** Fields *)

Definition field_json (f : field) : json :=
  match f with
  | FString s => JString (to_bytes s)
  | FStrings l => JArray (map (fun s => JString (to_bytes s)) l)
  end.

Definition field_strings (f : field) : list string := match f with FString s => [s] | FStrings l => l end.

Definition valid_string (s : string) : Prop := Valid (to_bytes s) = true.

Lemma read_key_quote l : read_key (quote :: l) = read_string (length l) l.
Proof. reflexivity. Qed.

Lemma read_value_quote g l : read_value (S g) (quote :: l) =
  match read_string (length l) l with Some (s, rest) => Some (JString s, rest) | None => None end.
Proof. reflexivity. Qed.

Lemma read_key_text s rest : valid_string s -> read_key (write_text s ++ rest) = Some (to_bytes s, rest).
Proof.
  intros Hs. unfold write_text, write_string. cbn [app]. rewrite <- app_assoc, read_key_quote.
  apply read_quoted; [done|]. rewrite !length_app. simpl. lia.
Qed.

Lemma read_value_text g s rest : valid_string s -> read_value (S g) (write_text s ++ rest) = Some (JString (to_bytes s), rest).
Proof.
  intros Hs. unfold write_text, write_string. cbn [app]. rewrite <- app_assoc, read_value_quote. cbn [app].
  rewrite read_quoted; [done|done|]. rewrite !length_app. simpl. lia.
Qed.

Lemma length_text s : (2 <= length (write_text s))%nat.
Proof. unfold write_text, write_string. simpl. rewrite length_app. simpl. lia. Qed.

(** A text starts with its quote, so no space or bracket is taken for it. *)
Lemma text_head s rest : exists l, write_text s ++ rest = quote :: l.
Proof. unfold write_text, write_string. eexists. reflexivity. Qed.

Lemma length_texts s l : (2 <= length (separated write_text (s :: l)))%nat.
Proof. pose proof (length_text s). destruct l; cbn [separated]; [done|]. rewrite length_app. lia. Qed.

Lemma read_elements_step g s rest : valid_string s ->
  read_elements (S (S g)) (write_text s ++ rest) =
    match skip_space rest with
    | Byte.x5d :: rest' => Some ([JString (to_bytes s)], rest')
    | Byte.x2c :: rest' =>
        match read_elements (S g) rest' with
        | Some (vs, rest2) => Some (JString (to_bytes s) :: vs, rest2)
        | None => None
        end
    | _ => None
    end.
Proof.
  intros Hs. assert (forall g l, read_elements (S g) l = match read_value g l with
    | None => None
    | Some (v, rest) => match skip_space rest with
        | Byte.x5d :: rest' => Some ([v], rest')
        | Byte.x2c :: rest' =>
            match read_elements g rest' with Some (vs, rest2) => Some (v :: vs, rest2) | None => None end
        | _ => None
        end end) as -> by reflexivity.
  by rewrite read_value_text.
Qed.

Lemma read_elements_texts l : forall g rest, l <> [] -> Forall valid_string l ->
  (length (separated write_text l) <= g)%nat ->
  read_elements g (separated write_text l ++ Byte.x5d :: rest) =
    Some (map (fun s => JString (to_bytes s)) l, rest).
Proof.
  induction l as [|s l IH]; [done|]. intros g rest _ [Hs Hl]%Forall_cons Hlen.
  pose proof (length_texts s l). destruct g as [|[|g]]; [lia..|].
  destruct l as [|s' l].
  - cbn [separated]. by rewrite read_elements_step.
  - change (separated write_text (s :: s' :: l)) with
      (write_text s ++ Byte.x2c :: separated write_text (s' :: l)) in *. rewrite length_app in Hlen.
    rewrite <- app_assoc, read_elements_step by done. cbn [length] in Hlen. pose proof (length_text s).
    change (skip_space ((Byte.x2c :: ?x) ++ ?y)) with (Byte.x2c :: (x ++ y)). cbv beta iota.
    rewrite IH by (done || lia). reflexivity.
Qed.

Lemma read_value_field g f rest : Forall valid_string (field_strings f) -> (length (write_field f) <= g)%nat ->
  read_value (S g) (write_field f ++ rest) = Some (field_json f, rest).
Proof.
  destruct f as [s|l]; cbn [field_strings write_field field_json].
  - intros Hs _. apply read_value_text. by apply Forall_inv in Hs.
  - intros Hl Hlen. cbn [app]. rewrite <- app_assoc. cbn [app]. cbn [read_value].
    change (skip_space (Byte.x5b :: ?x)) with (Byte.x5b :: x). cbn iota.
    destruct l as [|s l]; [reflexivity|]. cbn [length] in Hlen. rewrite length_app in Hlen.
    assert (exists l', separated write_text (s :: l) ++ Byte.x5d :: rest = quote :: l') as [l' Hl'].
    { destruct l as [|s' l]; cbn [separated]; [apply text_head|]. rewrite <- app_assoc. apply text_head. }
    rewrite Hl'. change (skip_space (quote :: l')) with (quote :: l'). unfold quote at 1. cbn iota.
    rewrite <- Hl', read_elements_texts; [done|done|done|lia].
Qed.

Lemma elem_of_written members m : m ∈ written members <-> m ∈ members /\ empty_field m.2 = false.
Proof. unfold written. rewrite !list_elem_of_In, filter_In. by rewrite negb_true_iff. Qed.

Definition member_json (m : string * field) : bytes * json := (to_bytes m.1, field_json m.2).

Definition valid_member (m : string * field) : Prop := valid_string m.1 /\ Forall valid_string (field_strings m.2).

Lemma length_field f : (1 <= length (write_field f))%nat.
Proof. destruct f as [s|l]; simpl; [pose proof (length_text s)|]; lia. Qed.

Lemma length_member m : (length (write_member m) = length (write_text m.1) + 1 + length (write_field m.2))%nat.
Proof. unfold write_member. rewrite length_app. simpl. lia. Qed.

Lemma read_members_step g m rest : valid_member m -> (length (write_member m) <= g)%nat ->
  read_members (S g) (write_member m ++ rest) =
    match skip_space rest with
    | Byte.x7d :: rest' => Some ([member_json m], rest')
    | Byte.x2c :: rest' =>
        match read_members g rest' with Some (ms, rest2) => Some (member_json m :: ms, rest2) | None => None end
    | _ => None
    end.
Proof.
  intros [Hk Hf] Hlen. rewrite length_member in Hlen. pose proof (length_text m.1). pose proof (length_field m.2).
  unfold write_member. rewrite <- app_assoc. cbn [app read_members]. rewrite read_key_text by done.
  change (skip_space (Byte.x3a :: ?x)) with (Byte.x3a :: x). cbn iota.
  destruct g as [|g]; [lia|]. rewrite read_value_field by (done || lia). reflexivity.
Qed.

Lemma read_members_written ms : forall g rest, ms <> [] -> Forall valid_member ms ->
  (length (separated write_member ms) < g)%nat ->
  read_members g (separated write_member ms ++ Byte.x7d :: rest) = Some (map member_json ms, rest).
Proof.
  induction ms as [|m ms IH]; [done|]. intros [|g] rest _ [Hm Hms]%Forall_cons Hlen; [lia|].
  destruct ms as [|m' ms].
  - cbn [separated] in *. rewrite read_members_step by (done || lia). reflexivity.
  - change (separated write_member (m :: m' :: ms)) with
      (write_member m ++ Byte.x2c :: separated write_member (m' :: ms)) in *.
    rewrite length_app in Hlen. cbn [length] in Hlen. rewrite <- app_assoc.
    rewrite read_members_step by (done || lia).
    change (skip_space ((Byte.x2c :: ?x) ++ ?y)) with (Byte.x2c :: (x ++ y)). cbn iota.
    rewrite IH by (done || lia). reflexivity.
Qed.

Lemma read_object ms rest : Forall valid_member ms ->
  read_value (S (length (write_object ms ++ rest))) (write_object ms ++ rest) = Some (JObject (map member_json ms), rest).
Proof.
  unfold write_object. destruct ms as [|m ms]; [reflexivity|]. intros Hv. cbn [app]. rewrite <- app_assoc. cbn [app].
  assert (forall g l, read_value (S g) (Byte.x7b :: quote :: l) =
    match read_members g (quote :: l) with Some (ms, rest) => Some (JObject ms, rest) | None => None end) as Hstep
    by reflexivity.
  assert (exists l', separated write_member (m :: ms) ++ Byte.x7d :: rest = quote :: l') as [l' Hl'].
  { unfold write_member. destruct ms; cbn [separated]; rewrite <- ?app_assoc; apply text_head. }
  rewrite Hl', Hstep, <- Hl', read_members_written; [done|done|done|]. cbn [length]. rewrite length_app. simpl. lia.
Qed.

Lemma parse_object ms : Forall valid_member ms -> parse_json (write_object ms) = Some (JObject (map member_json ms)).
Proof.
  intros Hv. unfold parse_json. pose proof (read_object ms [] Hv) as Hr. rewrite app_nil_r in Hr. by rewrite Hr.
Qed.

(** ** Structs *)

Definition zero_field (f : field) : field := match f with FString _ => FString "" | FStrings _ => FStrings [] end.

Lemma store_strings_texts l : store_strings [] (map (fun s => JString (to_bytes s)) l) = (l, true).
Proof. induction l as [|s l IH]; [done|]. cbn. by rewrite IH, of_to_bytes. Qed.

Lemma store_field_written f : store_field (zero_field f) (field_json f) = (f, true).
Proof. destruct f as [s|l]; cbn; [by rewrite of_to_bytes|]. by rewrite store_strings_texts. Qed.

Lemma empty_zero f : empty_field f = true -> zero_field f = f.
Proof. destruct f; cbn; intros ->%bool_decide_eq_true; done. Qed.

Lemma field_index_exact tags1 tag tags2 : NoDup (tags1 ++ tag :: tags2) ->
  field_index (tags1 ++ tag :: tags2) (to_bytes tag) = Some (length tags1).
Proof.
  intros Hnd. unfold field_index. assert (list_find (fun t => to_bytes t = to_bytes tag) (tags1 ++ tag :: tags2) =
    Some (length tags1, tag)) as ->; [|done].
  apply list_find_Some. split_and!; [by rewrite list_lookup_middle|done|].
  intros j t Hj Hlt Heq%(inj to_bytes). subst t. rewrite lookup_app_l in Hj by done.
  apply NoDup_app in Hnd as (_ & Hdis & _). apply (Hdis tag); [by eapply list_elem_of_lookup_2|by left].
Qed.

(** The members fill the fields in, one after the other, also where those that
    are empty are left out. *)
Lemma store_members (keep : string * field -> bool) tags2 fields2 : forall tags1 fields1,
  (forall m, keep m = false -> empty_field m.2 = true) ->
  NoDup (tags1 ++ tags2) -> length tags1 = length fields1 -> length tags2 = length fields2 ->
  fold_left (store_member (tags1 ++ tags2)) (map member_json (List.filter keep (zip tags2 fields2)))
    (fields1 ++ map zero_field fields2, true) = (fields1 ++ fields2, true).
Proof.
  revert fields2. induction tags2 as [|tag tags2 IH]; intros [|f fields2] tags1 fields1 Hkeep Hnd Hlen1 Hlen2; try done.
  cbn [zip map List.filter zip_with]. specialize (IH fields2 (tags1 ++ [tag]) (fields1 ++ [f]) Hkeep).
  rewrite <- !app_assoc, !length_app in IH. cbn [app length] in IH.
  specialize (IH Hnd ltac:(lia) ltac:(by injection Hlen2)).
  destruct (keep (tag, f)) eqn:Hf.
  - cbn [map fold_left]. unfold store_member at 2. cbn [member_json fst snd].
    rewrite (field_index_exact _ _ _ Hnd), Hlen1, list_lookup_middle by done.
    rewrite store_field_written, insert_app_r_alt, Nat.sub_diag by done. exact IH.
  - rewrite (empty_zero f) by apply (Hkeep _ Hf). exact IH.
Qed.

Lemma valid_members (tags : list string) (fields : list field) : Forall valid_string tags ->
  Forall (fun f => Forall valid_string (field_strings f)) fields -> Forall valid_member (zip tags fields).
Proof.
  rewrite !Forall_forall. intros Ht Hf [t f] Hin.
  split; [by eapply Ht, elem_of_zip_l|by eapply Hf, elem_of_zip_r].
Qed.

(** [json.Unmarshal] undoes [json.Marshal] on a struct whose strings are valid. *)
Lemma read_written_struct tags fields :
  NoDup tags -> length tags = length fields -> Forall valid_string tags ->
  Forall (fun f => Forall valid_string (field_strings f)) fields ->
  read_struct tags (map zero_field fields) (write_struct (zip tags fields)) = (fields, true).
Proof.
  intros Hnd Hlen Ht Hf. unfold read_struct, write_struct. rewrite parse_object.
  - apply (store_members (fun m => negb (empty_field m.2)) tags fields [] []); [|done..].
    intros m. by destruct (empty_field m.2).
  - apply Forall_forall. intros m [Hin _]%elem_of_written. revert m Hin. apply Forall_forall. by apply valid_members.
Qed.

(** A decoder undoes it where nothing is left out, whatever follows. *)
Lemma decode_written_struct tags fields rest :
  NoDup tags -> length tags = length fields -> Forall valid_string tags ->
  Forall (fun f => Forall valid_string (field_strings f)) fields ->
  decode_struct tags (map zero_field fields) (write_object (zip tags fields) ++ rest) = (fields, true).
Proof.
  intros Hnd Hlen Ht Hf. unfold decode_struct. rewrite read_object by (by apply valid_members).
  pose proof (store_members (fun _ => true) tags fields [] []) as Hs. cbn [app] in Hs.
  assert (List.filter (fun _ => true) (zip tags fields) = zip tags fields) as Hall.
  { clear. induction (zip tags fields) as [|m l IH]; [done|]. cbn. by rewrite IH. }
  rewrite Hall in Hs. by apply Hs.
Qed.
