(* ===== verification/Api.v ===== *)
(** * Messages of the v1alpha API

    The protobuf messages the code exchanges are declared in the separate
    [github.com/depscloud/api] module.  Each is a record of the fields the code
    reads or writes; a pointer that may be nil is an [option], and the
    generated getters return the zero value on nil.  The JSON codec
    ([encoding/json] driven by the struct tags of those messages) is the class
    [JsonCodec]; [JsonCodecOk] states what the code relies on.  SchemaJson.v has
    the codec of the Go library, for any struct tags, and meets it. *)

From S2P Require Import Prelude.

(** ** schema *)

Record Source := mkSource { Source_Url : string; Source_Kind : string; Source_Ref : string }.
Record Manages := mkManages
  { Manages_Language : string; Manages_System : string; Manages_Version : string }.
Record Module_ := mkModule
  { Module_Language : string; Module_Organization : string; Module_Module : string;
    Module_Name : string }.
Record Depends := mkDepends
  { Depends_Language : string; Depends_VersionConstraint : string;
    Depends_Scopes : list string; Depends_Ref : string }.

#[export] Instance Source_eq_dec : EqDecision Source.
Proof. solve_decision. Defined.
#[export] Instance Manages_eq_dec : EqDecision Manages.
Proof. solve_decision. Defined.
#[export] Instance Module_eq_dec : EqDecision Module_.
Proof. solve_decision. Defined.
#[export] Instance Depends_eq_dec : EqDecision Depends.
Proof. solve_decision. Defined.

(** [*schema.Source] getters, nil-safe. *)
Definition GetUrl (s : option Source) : string := from_option Source_Url ""%string s.

(** ** extractor and tracker requests *)

Record ManifestDependency := mkDependency
  { Dep_Organization : string; Dep_Module : string; Dep_Name : string;
    Dep_VersionConstraint : string; Dep_Scopes : list string }.
Record ManagementFile := mkManagementFile
  { MF_Language : string; MF_System : string; MF_Organization : string; MF_Module : string;
    MF_Name : string; MF_Version : string; MF_SourceUrl : string;
    MF_Dependencies : list ManifestDependency }.
Record SourceRequest := mkSourceRequest
  { SR_Source : option Source; SR_ManagementFiles : list ManagementFile }.
Record DependencyRequest := mkDependencyRequest
  { DR_Language : string; DR_Organization : string; DR_Module : string; DR_Name : string }.
Record PageRequest := mkPageRequest { PR_Page : Z; PR_Count : Z }.

(** ** store *)

(** The encoding enumeration of the store API: the code only tests for JSON. *)
Inductive GraphItemEncoding := GraphItemEncoding_JSON | GraphItemEncoding_Other (n : Z).

#[export] Instance GraphItemEncoding_eq_dec : EqDecision GraphItemEncoding.
Proof. solve_decision. Defined.

Record GraphItem := mkGraphItem
  { GraphItemType : string; K1 : bytes; K2 : bytes; K3 : bytes;
    Encoding : GraphItemEncoding; GraphItemData : bytes }.

#[export] Instance GraphItem_eq_dec : EqDecision GraphItem.
Proof. solve_decision. Defined.

Record GraphItemPair := mkPair { Pair_Edge : GraphItem; Pair_Node : GraphItem }.

Record FindRequest := mkFindRequest
  { FR_Keys : list bytes; FR_EdgeTypes : list string; FR_NodeTypes : list string }.
Record ListRequest := mkListRequest { LR_Page : Z; LR_Count : Z; LR_Type : string }.

(** ** JSON *)

(** The four message types the graph stores, by pointer. *)
Inductive schema_kind := KSource | KManages | KModule | KDepends.
Inductive schema_msg :=
| VSource (s : Source) | VManages (m : Manages) | VModule (m : Module_) | VDepends (d : Depends).

Definition kind_of (m : schema_msg) : schema_kind :=
  match m with VSource _ => KSource | VManages _ => KManages
             | VModule _ => KModule | VDepends _ => KDepends end.

(** [&schema.T{}] *)
Definition zero_msg (k : schema_kind) : schema_msg :=
  match k with
  | KSource => VSource (mkSource "" "" "")
  | KManages => VManages (mkManages "" "" "")
  | KModule => VModule (mkModule "" "" "" "")
  | KDepends => VDepends (mkDepends "" "" [] "")
  end.

(** An [interface{}] argument: a nil pointer of one of the types, a value, or
    some other type. *)
Inductive iface := INil (k : schema_kind) | IVal (m : schema_msg) | IOther.

Definition msg_strings (m : schema_msg) : list string :=
  match m with
  | VSource s => [Source_Url s; Source_Kind s; Source_Ref s]
  | VManages m => [Manages_Language m; Manages_System m; Manages_Version m]
  | VModule m => [Module_Language m; Module_Organization m; Module_Module m; Module_Name m]
  | VDepends d => Depends_Language d :: Depends_VersionConstraint d :: Depends_Ref d :: Depends_Scopes d
  end.

(** [json.Marshal] of a pointer, and [json.Unmarshal] into a fresh value: the
    value as far as it was filled in, and whether the error was nil. *)
Class JsonCodec := {
  json_marshal : iface -> option bytes;
  json_unmarshal : schema_kind -> bytes -> schema_msg * bool;
  (** valid UTF-8: what protobuf accepts in a string field, and what
      [encoding/json] writes without replacement *)
  valid_text : string -> Prop }.

Class JsonCodecOk `{JsonCodec} := {
  json_marshal_total : forall m, is_Some (json_marshal (IVal m));
  json_marshal_null : forall k, is_Some (json_marshal (INil k));
  json_roundtrip : forall m data,
    Forall valid_text (msg_strings m) -> json_marshal (IVal m) = Some data ->
    json_unmarshal (kind_of m) data = (m, true);
  json_null : forall k data,
    json_marshal (INil k) = Some data -> json_unmarshal k data = (zero_msg k, true);
  json_unmarshal_kind : forall k data, kind_of (fst (json_unmarshal k data)) = k }.
