(* ===== verification/SchemaJson.v ===== *)
(** * The JSON of the graph's messages

    [json.Marshal] and [json.Unmarshal] on the four message types of the
    graph, by GoJson.v.  The struct tags are part of the API module; what the
    code relies on is that they are distinct valid text, one for each field.
    The fields are taken in the order of the records of Api.v. *)

From S2P Require Import Prelude Api GoJson GoJsonSpec.

Class SchemaTags := {
  tags : schema_kind -> list string;
  tags_distinct : forall k, NoDup (tags k);
  tags_valid : forall k, Forall valid_string (tags k);
  tags_length : forall k, length (tags k) = match k with KSource | KManages => 3 | KModule | KDepends => 4 end }.

Definition msg_fields (m : schema_msg) : list field :=
  match m with
  | VSource s => [FString (Source_Url s); FString (Source_Kind s); FString (Source_Ref s)]
  | VManages m => [FString (Manages_Language m); FString (Manages_System m); FString (Manages_Version m)]
  | VModule m => [FString (Module_Language m); FString (Module_Organization m); FString (Module_Module m);
                  FString (Module_Name m)]
  | VDepends d => [FString (Depends_Language d); FString (Depends_VersionConstraint d);
                   FStrings (Depends_Scopes d); FString (Depends_Ref d)]
  end.

Definition msg_of_fields (k : schema_kind) (fields : list field) : schema_msg :=
  match k, fields with
  | KSource, [FString u; FString k'; FString r] => VSource (mkSource u k' r)
  | KManages, [FString l; FString s; FString v] => VManages (mkManages l s v)
  | KModule, [FString l; FString o; FString m; FString n] => VModule (mkModule l o m n)
  | KDepends, [FString l; FString v; FStrings s; FString r] => VDepends (mkDepends l v s r)
  | _, _ => zero_msg k
  end.

Lemma msg_of_msg_fields m : msg_of_fields (kind_of m) (msg_fields m) = m.
Proof. by destruct m as [[]|[]|[]|[]]. Qed.

Lemma zero_msg_fields m : map zero_field (msg_fields m) = msg_fields (zero_msg (kind_of m)).
Proof. by destruct m. Qed.

Lemma length_msg_fields m : length (msg_fields m) = match kind_of m with KSource | KManages => 3 | KModule | KDepends => 4 end.
Proof. by destruct m. Qed.

Lemma msg_fields_valid m : Forall valid_string (msg_strings m) ->
  Forall (fun f => Forall valid_string (field_strings f)) (msg_fields m).
Proof.
  destruct m; cbn; rewrite ?Forall_cons; intros Hv; repeat constructor; try tauto.
Qed.

Section Codec.
Context `{SchemaTags}.

Definition Marshal (msg : iface) : option bytes :=
match msg with
| INil _ => Some (to_bytes "null")
| IVal m => Some (write_struct (zip (tags (kind_of m)) (msg_fields m)))
| IOther => None
end.

Definition Unmarshal (k : schema_kind) (data : bytes) : schema_msg * bool :=
let '(fields, ok) := read_struct (tags k) (msg_fields (zero_msg k)) data in (msg_of_fields k fields, ok).

Definition go_json : JsonCodec :=
{| json_marshal := Marshal; json_unmarshal := Unmarshal; valid_text := valid_string |}.

Lemma Marshal_Unmarshal m : Forall valid_string (msg_strings m) ->
Unmarshal (kind_of m) (write_struct (zip (tags (kind_of m)) (msg_fields m))) = (m, true).
Proof.
intros Hv. unfold Unmarshal. rewrite <- zero_msg_fields, read_written_struct.
- by rewrite msg_of_msg_fields.
- apply tags_distinct.
- by rewrite tags_length, length_msg_fields.
- apply tags_valid.
- by apply msg_fields_valid.
Qed.

Lemma msg_of_fields_kind k fields : kind_of (msg_of_fields k fields) = k.
Proof. destruct k; cbn; repeat (case_match; try done). Qed.

Definition go_json_ok : @JsonCodecOk go_json.
Proof.
split; cbn.
- intros m. by eexists.
- intros k. by eexists.
- intros m data Hv [= <-]. by apply Marshal_Unmarshal.
- intros k data [= <-]. by destruct k.
- intros k data. unfold Unmarshal. destruct (read_struct _ _ _). apply msg_of_fields_kind.
Qed.
End Codec.

(** The tags protoc-gen-go writes: the names of the fields. *)
Definition proto_tags (k : schema_kind) : list string :=
  match k with
  | KSource => ["url"; "kind"; "ref"]
  | KManages => ["language"; "system"; "version"]
  | KModule => ["language"; "organization"; "module"; "name"]
  | KDepends => ["language"; "version_constraint"; "scopes"; "ref"]
  end%string.

Definition proto_schema_tags : SchemaTags.
Proof.
  refine {| tags := proto_tags |}.
  - intros []; cbn; apply (bool_decide_unpack _); vm_compute; exact I.
  - intros []; repeat constructor.
  - by intros [].
Defined.
