(* ===== verification/GraphSpec.v ===== *)
(** * What a v1alpha graph store promises

    The services of the tracker talk to the store through
    [store.GraphStoreClient].  [GraphStoreOps] is that interface;
    [GraphStoreSpec] is its contract, stated on an abstract store: a finite map
    from item keys to the encoding and data of the live items.  Theorems about
    the services are proved against the contract; StoreAlphaSpec.v proves that
    the SQL store meets it. *)

From S2P Require Import Prelude Api.

(** ** The interface *)

Class GraphStoreOps (W : Type) := {
  gs_Put : list GraphItem -> M W unit;
  gs_Delete : list GraphItem -> M W unit;
  gs_List : ListRequest -> M W (list GraphItem);
  gs_FindUpstream : FindRequest -> M W (list GraphItemPair);
  gs_FindDownstream : FindRequest -> M W (list GraphItemPair) }.

(** ** Abstract stores *)

Notation ikey := (string * bytes * bytes * bytes)%type.
Notation ival := (GraphItemEncoding * bytes)%type.
Notation entry := (ikey * ival)%type.

#[export] Program Instance GraphItemEncoding_countable : Countable GraphItemEncoding :=
  inj_countable' (fun e => match e with GraphItemEncoding_JSON => inl tt
                                      | GraphItemEncoding_Other n => inr n end)
                 (fun s => match s with inl _ => GraphItemEncoding_JSON
                                      | inr n => GraphItemEncoding_Other n end) _.
Next Obligation. by intros []. Qed.

Notation astore := (gmap ikey ival).

Definition item_key (i : GraphItem) : ikey := (GraphItemType i, K1 i, K2 i, K3 i).
Definition item_val (i : GraphItem) : ival := (Encoding i, GraphItemData i).

Definition e_type (e : entry) : string := e.1.1.1.1.
Definition e_k1 (e : entry) : bytes := e.1.1.1.2.
Definition e_k2 (e : entry) : bytes := e.1.1.2.
Definition e_k3 (e : entry) : bytes := e.1.2.

(** An entry as an edge, and as a node: nodes come back without their [K3]. *)
Definition edge_item (e : entry) : GraphItem :=
  mkGraphItem (e_type e) (e_k1 e) (e_k2 e) (e_k3 e) e.2.1 e.2.2.
Definition node_item (e : entry) : GraphItem :=
  mkGraphItem (e_type e) (e_k1 e) (e_k2 e) [] e.2.1 e.2.2.

Definition spec_put (items : list GraphItem) (v : astore) : astore :=
  fold_left (fun v i => <[item_key i := item_val i]> v) items v.
Definition spec_delete (items : list GraphItem) (v : astore) : astore :=
  fold_left (fun v i => delete (item_key i) v) items v.

Definition edge_cond (req : FindRequest) (n e : entry) : Prop :=
  e_type e ∈ FR_EdgeTypes req /\ e_k1 e <> e_k2 e /\
  e_type n ∈ FR_NodeTypes req /\ e_k1 n = e_k2 n.
Definition upstream_cond (req : FindRequest) (g : entry * entry) : Prop :=
  e_k1 g.1 = e_k2 g.2 /\ e_k1 g.2 ∈ FR_Keys req /\ edge_cond req g.1 g.2.
Definition downstream_cond (req : FindRequest) (g : entry * entry) : Prop :=
  e_k2 g.1 = e_k1 g.2 /\ e_k2 g.2 ∈ FR_Keys req /\ edge_cond req g.1 g.2.

#[export] Instance upstream_cond_dec req g : Decision (upstream_cond req g).
Proof. unfold upstream_cond, edge_cond. apply _. Defined.
#[export] Instance downstream_cond_dec req g : Decision (downstream_cond req g).
Proof. unfold downstream_cond, edge_cond. apply _. Defined.

Definition pair_of (g : entry * entry) : GraphItemPair := mkPair (edge_item g.2) (node_item g.1).

Definition spec_upstream (req : FindRequest) (v : astore) : list GraphItemPair :=
  map pair_of (filter (upstream_cond req) (list_prod (map_to_list v) (map_to_list v))).
Definition spec_downstream (req : FindRequest) (v : astore) : list GraphItemPair :=
  map pair_of (filter (downstream_cond req) (list_prod (map_to_list v) (map_to_list v))).

(** ** The contract *)

Class GraphStoreSpec (W : Type) `{GraphStoreOps W} := {
  rep : W -> astore -> Prop;
  put_spec : forall w v items w',
    rep w v -> gs_Put items w = (Ret tt, w') -> rep w' (spec_put items v);
  delete_spec : forall w v items w',
    rep w v -> gs_Delete items w = (Ret tt, w') -> rep w' (spec_delete items v);
  find_up_frame : forall w v req o w',
    rep w v -> gs_FindUpstream req w = (o, w') -> rep w' v;
  find_up_spec : forall w v req ps w',
    rep w v -> gs_FindUpstream req w = (Ret ps, w') -> ps ≡ₚ spec_upstream req v;
  find_down_frame : forall w v req o w',
    rep w v -> gs_FindDownstream req w = (o, w') -> rep w' v;
  find_down_spec : forall w v req ps w',
    rep w v -> gs_FindDownstream req w = (Ret ps, w') -> ps ≡ₚ spec_downstream req v }.

(** A store on which a write that fails has done its work for some of the
    items, and nothing else. *)
Class GraphStorePartial (W : Type) `{GraphStoreSpec W} := {
  put_partial : forall w v items o w', rep w v -> gs_Put items w = (o, w') ->
    exists l, (forall i, i ∈ l -> i ∈ items) /\ rep w' (spec_put l v);
  delete_partial : forall w v items o w', rep w v -> gs_Delete items w = (o, w') ->
    exists l, (forall i, i ∈ l -> i ∈ items) /\ rep w' (spec_delete l v) }.

(** A store whose calls succeed. *)
Class GraphStoreTotal (W : Type) `{GraphStoreSpec W} := {
  put_total : forall w v items, rep w v -> exists w', gs_Put items w = (Ret tt, w');
  delete_total : forall w v items, rep w v -> exists w', gs_Delete items w = (Ret tt, w');
  find_up_total : forall w v req,
    rep w v -> FR_Keys req <> [] -> FR_EdgeTypes req <> [] -> FR_NodeTypes req <> [] ->
    exists ps w', gs_FindUpstream req w = (Ret ps, w');
  find_down_total : forall w v req,
    rep w v -> FR_Keys req <> [] -> FR_EdgeTypes req <> [] -> FR_NodeTypes req <> [] ->
    exists ps w', gs_FindDownstream req w = (Ret ps, w') }.

(** ** Lemmas on abstract stores *)

Lemma entry_of_item i : edge_item (item_key i, item_val i) = i.
Proof. by destruct i. Qed.

Lemma item_key_edge e : item_key (edge_item e) = e.1.
Proof. by destruct e as [[[[? ?] ?] ?] [? ?]]. Qed.

Lemma item_val_edge e : item_val (edge_item e) = e.2.
Proof. by destruct e as [[[[? ?] ?] ?] [? ?]]. Qed.

Lemma edge_item_inj e1 e2 : edge_item e1 = edge_item e2 -> e1 = e2.
Proof.
  destruct e1 as [[[[? ?] ?] ?] [? ?]], e2 as [[[[? ?] ?] ?] [? ?]].
  unfold edge_item, e_type, e_k1, e_k2, e_k3. simpl. congruence.
Qed.

Lemma elem_of_join (P : entry * entry -> Prop) `{!forall g, Decision (P g)} (v : astore) p :
  p ∈ map pair_of (filter P (list_prod (map_to_list v) (map_to_list v))) <->
  exists n e, p = pair_of (n, e) /\ v !! n.1 = Some n.2 /\ v !! e.1 = Some e.2 /\ P (n, e).
Proof.
  rewrite list_elem_of_fmap. setoid_rewrite list_elem_of_filter. split.
  - intros ([n e] & -> & Hc & Hin). apply elem_of_list_prod in Hin as [Hn He]. destruct n as [kn cn], e as [ke ce].
    apply elem_of_map_to_list in Hn, He. by exists (kn, cn), (ke, ce).
  - intros (n & e & -> & Hn & He & Hc). exists (n, e). split_and!; [done|done|].
    apply elem_of_list_prod. destruct n, e. by rewrite !elem_of_map_to_list.
Qed.

Lemma elem_of_upstream req v p :
  p ∈ spec_upstream req v <->
  exists n e, p = pair_of (n, e) /\ v !! n.1 = Some n.2 /\ v !! e.1 = Some e.2 /\
              upstream_cond req (n, e).
Proof. apply (elem_of_join (upstream_cond req)). Qed.

Lemma elem_of_downstream req v p :
  p ∈ spec_downstream req v <->
  exists n e, p = pair_of (n, e) /\ v !! n.1 = Some n.2 /\ v !! e.1 = Some e.2 /\
              downstream_cond req (n, e).
Proof. apply (elem_of_join (downstream_cond req)). Qed.

(** Putting and deleting, one key at a time. *)
Lemma spec_delete_lookup items v k :
  spec_delete items v !! k = if decide (k ∈ map item_key items) then None else v !! k.
Proof.
  revert v. induction items as [|i items IH]; intros v; simpl; [done|].
  change (fold_left _ items ?v) with (spec_delete items v). rewrite IH.
  destruct (decide (k = item_key i)) as [->|Hne].
  - rewrite lookup_delete_eq. repeat case_decide; set_solver.
  - rewrite lookup_delete_ne by done. repeat case_decide; set_solver.
Qed.

(** The item that decides the value of a key after a put: the last one. *)
Definition last_item (k : ikey) (items : list GraphItem) : option GraphItem :=
  fold_left (fun o i => if decide (item_key i = k) then Some i else o) items None.

Lemma last_item_snoc k items i :
  last_item k (items ++ [i]) = if decide (item_key i = k) then Some i else last_item k items.
Proof. unfold last_item. by rewrite fold_left_app. Qed.

Lemma last_item_None k items : k ∉ map item_key items -> last_item k items = None.
Proof.
  induction items as [|i items IH] using rev_ind; intros Hk; [done|].
  rewrite last_item_snoc. rewrite map_app in Hk. case_decide; set_solver.
Qed.

Lemma last_item_Some k items i : last_item k items = Some i -> i ∈ items /\ item_key i = k.
Proof.
  induction items as [|j items IH] using rev_ind; [done|].
  rewrite last_item_snoc. case_decide; intros; simplify_eq; set_solver.
Qed.

Lemma last_item_is_Some k items : k ∈ map item_key items -> is_Some (last_item k items).
Proof.
  induction items as [|j items IH] using rev_ind; [by intros ?%elem_of_nil|].
  rewrite last_item_snoc, map_app. intros Hk. case_decide; [done|]. set_solver.
Qed.

Lemma spec_put_lookup items v k :
  spec_put items v !! k = match last_item k items with
                          | Some i => Some (item_val i)
                          | None => v !! k
                          end.
Proof.
  induction items as [|i items IH] using rev_ind; [done|].
  unfold spec_put in *. rewrite fold_left_app, last_item_snoc. simpl.
  case_decide as Hk; [by rewrite <- Hk, lookup_insert_eq|]. by rewrite lookup_insert_ne.
Qed.

Lemma spec_put_idem items v : spec_put items (spec_put items v) = spec_put items v.
Proof. apply map_eq. intros k. rewrite !spec_put_lookup. by destruct (last_item k items). Qed.

Lemma spec_delete_idem items v : spec_delete items (spec_delete items v) = spec_delete items v.
Proof. apply map_eq. intros k. rewrite !spec_delete_lookup. by repeat case_decide. Qed.

(** With one item per key, every item put is the value of its key, and the
    order of the items does not matter. *)
Lemma last_item_NoDup items i :
  NoDup (map item_key items) -> i ∈ items -> last_item (item_key i) items = Some i.
Proof.
  induction items as [|j items IH] using rev_ind; intros Hnd Hi; [by apply elem_of_nil in Hi|].
  rewrite last_item_snoc. rewrite map_app in Hnd. simpl in Hnd.
  apply NoDup_app in Hnd as (Hnd & Hdis & _).
  apply elem_of_app in Hi as [Hi|Hi%list_elem_of_singleton].
  - case_decide as Hk; [|by apply IH]. exfalso. apply (Hdis (item_key i)).
    + apply list_elem_of_fmap. eauto.
    + rewrite Hk. by left.
  - subst. by rewrite decide_True.
Qed.

Lemma spec_put_perm items1 items2 v :
  NoDup (map item_key items1) -> items1 ≡ₚ items2 -> spec_put items1 v = spec_put items2 v.
Proof.
  intros Hnd Hp. apply map_eq. intros k. rewrite !spec_put_lookup.
  assert (NoDup (map item_key items2)) as Hnd2 by (by rewrite <- Hp).
  destruct (last_item k items1) as [i|] eqn:H1.
  - apply last_item_Some in H1 as [Hi <-]. by rewrite last_item_NoDup by (rewrite <- ?Hp; done).
  - rewrite last_item_None; [done|]. rewrite <- Hp. intros Hin.
    apply last_item_is_Some in Hin as [? ?]. congruence.
Qed.

Lemma spec_delete_perm items1 items2 v :
  items1 ≡ₚ items2 -> spec_delete items1 v = spec_delete items2 v.
Proof.
  intros Hp. apply map_eq. intros k. rewrite !spec_delete_lookup.
  repeat case_decide; [done| | |done]; rewrite Hp in *; done.
Qed.
