(* ===== verification/Sql.v ===== *)
(** * Databases, transactions and queries

    Both graph stores of the tracker drive a SQL database through sqlx.  The
    statements are part of the program; the engine is not.  A world is the
    contents of every database plus a counter of the calls made so far; the
    engine's failures are an oracle indexed by that counter, and so is the order
    of a result set, which SQL leaves open. *)

From S2P Require Import Prelude.

(** The dialects with statements of their own. *)
Inductive dialect := MySQL | SQLite | Postgres.

#[export] Instance dialect_eq_dec : EqDecision dialect.
Proof. solve_decision. Defined.

(** What may go wrong during one call: opening a transaction, executing its
    [i]-th statement, committing it, sending a query, scanning its [i]-th row;
    [f_cut] is an error in the middle of a result set, after which [rows.Next]
    returns false. *)
Record Faults := mkFaults {
  f_begin : option error;
  f_exec : nat -> option error;
  f_commit : option error;
  f_query : option error;
  f_scan : nat -> option error;
  f_cut : option nat }.

Definition no_faults : Faults := mkFaults None (fun _ => None) None None (fun _ => None) None.

Class SqlEngine := {
  (** the order in which the engine returns a result set: no statement of the
      program has an ORDER BY, so it may be another one in each call *)
  arrange : nat -> forall {A : Type}, list A -> list A;
  arrange_perm : forall call A (l : list A), arrange call l ≡ₚ l;
  (** [sqlx.In]: expanding the bound slices of a query *)
  sqlx_In : list (list string) -> option error;
  sqlx_In_spec : forall args, sqlx_In args = None <-> [] ∉ args;
  (** [sql.Open] of a driver and an address: the database it denotes *)
  sql_open : string -> string -> outcome string;
  (** the clock and the failures, by call *)
  now : nat -> Z;
  faults : nat -> Faults }.

(** [T] is the contents of the one table of a database; a database without the
    table is absent. *)
Record World (T : Type) := mkWorld { dbs : gmap string T; ticks : nat }.
Arguments mkWorld {T} dbs ticks.
Arguments dbs {T} w.
Arguments ticks {T} w.

Definition err_no_table : error := ErrBackend 1.

Section Transactions.
Context `{SqlEngine} {T : Type}.
Notation SQL := (M (World T)).

(** The time and the failures of the next call. *)
Definition tick : SQL (Z * Faults) :=
fun w => (Ret (now (ticks w), faults (ticks w)), mkWorld (dbs w) (S (ticks w))).

(** [Beginx]: a transaction works on a copy of the table. *)
Definition begin_tx (db : string) (fl : Faults) : SQL (option T) :=
fun w => match f_begin fl with
         | Some e => (Fail e, w)
         | None => (Ret (dbs w !! db), w)
         end.

(** [Commit]; an error leaves the database as it was. *)
Definition commit_tx (db : string) (fl : Faults) (tx : option T) : SQL unit :=
fun w => match f_commit fl with
         | Some e => (Fail e, w)
         | None => (Ret tt, mkWorld (partial_alter (fun _ => tx) db (dbs w)) (ticks w))
         end.

(** One [NamedExec] of a transaction, the [i]-th. *)
Definition exec_stmt (fl : Faults) (i : nat) (stmt : T -> outcome T) (tx : option T) :
  outcome (option T) :=
match f_exec fl i, tx with
| Some e, _ => Fail e
| None, None => Fail err_no_table
| None, Some t => let? t' := stmt t in Ret (Some t')
end.

(** A query outside a transaction, on the table of [db]; the number of the call
  decides on the order of the rows. *)
Definition run_query {R} (db : string) (fl : Faults) (select : nat -> T -> outcome (list R)) : SQL (list R) :=
fun w => match f_query fl, dbs w !! db with
         | Some e, _ => (Fail e, w)
         | None, None => (Fail err_no_table, w)
         | None, Some t => (select (ticks w) t, w)
         end.

(** [for rows.Next() { if err := rows.Scan(..); err != nil { return err } .. }]:
  an error of the iteration itself ([rows.Err]) is not looked at, so the
  loop sees the rows received before it. *)
Definition fetched {R} (fl : Faults) (rows : list R) : list R :=
match f_cut fl with Some n => take n rows | None => rows end.

Fixpoint scan_rows {R A} (fl : Faults) (i : nat) (f : R -> A) (rows : list R) : outcome (list A) :=
match rows with
| [] => Ret []
| r :: rows' =>
    match f_scan fl i with
    | Some e => Fail e
    | None => let? l := scan_rows fl (S i) f rows' in Ret (f r :: l)
    end
end.

Definition read_rows {R A} (fl : Faults) (f : R -> A) (rows : list R) : outcome (list A) :=
scan_rows fl 0 f (fetched fl rows).

Lemma scan_rows_Ret {R A} fl i (f : R -> A) rows l :
scan_rows fl i f rows = Ret l -> l = map f rows.
Proof.
revert i l. induction rows as [|r rows IH]; intros i l; simpl; [by intros [= <-]|].
destruct (f_scan fl i); [done|]. unfold obind.
destruct (scan_rows fl (S i) f rows) as [l'| |] eqn:Hl; intros; simplify_eq.
by rewrite <- (IH _ _ Hl).
Qed.

Lemma scan_rows_ok {R A} fl i (f : R -> A) rows :
(forall j, f_scan fl j = None) -> scan_rows fl i f rows = Ret (map f rows).
Proof.
intros Hs. revert i. induction rows as [|r rows IH]; intros i; simpl; [done|].
by rewrite Hs, IH.
Qed.
End Transactions.

(** No call fails. *)
Class NoFaults `{SqlEngine} := no_faults_all : forall n, faults n = no_faults.

(** Result sets are read to their end. *)
Class NoCut `{SqlEngine} := no_cut_all : forall n, f_cut (faults n) = None.

#[export] Instance no_faults_no_cut `{NoFaults} : NoCut.
Proof. intros n. by rewrite no_faults_all. Qed.
