(* ===== verification/StoreAlpha.v ===== *)
(** * tracker/internal/graphstore/v1alpha: the SQL graph store

    [base64.go], [statements.go] and [server.go].  A table is a finite map from
    the primary key (graph_item_type, k1, k2, k3) to the other columns; each
    SQL statement is a function on tables; each method of [graphStore] is a
    computation on the world of databases. *)

From S2P Require Import Prelude GoCodec Api Sql.

Local Open Scope Z_scope.

(** ** base64.go *)

Definition Base64encode (body : bytes) : string := of_bytes (b64_encode false body).

(** The decoded bytes and whether the error is nil. *)
Definition Base64decode (body : string) : bytes * bool := b64_decode false (to_bytes body).

Lemma Base64decode_encode b : Base64decode (Base64encode b) = (b, true).
Proof. unfold Base64decode, Base64encode. by rewrite to_of_bytes, b64_roundtrip. Qed.

#[export] Instance Base64encode_inj : Inj (=) (=) Base64encode.
Proof. intros a b H. unfold Base64encode in H. by apply (inj of_bytes), (inj (b64_encode false)) in H. Qed.

#[export] Hint Rewrite Base64decode_encode : deps.

(** ** statements.go: the table and the statements *)

Notation gkey := (string * string * string * string)%type.

(** The columns that are not in the primary key. *)
Record GraphCell := mkCell {
  encoding : GraphItemEncoding;
  graph_item_data : string;
  last_modified : Z;
  date_deleted : option Z }.

Notation table := (gmap gkey GraphCell).
Notation row := (gkey * GraphCell)%type.

Definition g_type (r : row) : string := r.1.1.1.1.
Definition g_k1 (r : row) : string := r.1.1.1.2.
Definition g_k2 (r : row) : string := r.1.1.2.
Definition g_k3 (r : row) : string := r.1.2.
Definition live (c : GraphCell) : bool := bool_decide (date_deleted c = None).

Definition createGraphDataTable (t : option table) : table := default ∅ t.

(** REPLACE: delete the row with this key, if any, and insert. *)
Definition sqlite_insertGraphData (k : gkey) (enc : GraphItemEncoding) (data : string)
    (modified : Z) (t : table) : table :=
  <[k := mkCell enc data modified None]> (delete k t).

(** INSERT ... ON DUPLICATE KEY UPDATE encoding, graph_item_data,
    last_modified, date_deleted = NULL. *)
Definition mysql_insertGraphData (k : gkey) (enc : GraphItemEncoding) (data : string)
    (modified : Z) (t : table) : table :=
  match t !! k with
  | None => <[k := mkCell enc data modified None]> t
  | Some _ => <[k := mkCell enc data modified None]> t
  end.

(** INSERT ... ON CONFLICT DO UPDATE SET graph_item_data, encoding,
    last_modified: [date_deleted] keeps its value. *)
Definition postgres_insertGraphData (k : gkey) (enc : GraphItemEncoding) (data : string)
    (modified : Z) (t : table) : table :=
  match t !! k with
  | None => <[k := mkCell enc data modified None]> t
  | Some c => <[k := mkCell enc data modified (date_deleted c)]> t
  end.

(** UPDATE ... SET date_deleted WHERE the key matches. *)
Definition set_deleted (stamp : Z) (c : GraphCell) : GraphCell :=
  mkCell (encoding c) (graph_item_data c) (last_modified c) (Some stamp).
Definition deleteGraphData (stamp : Z) (k : gkey) (t : table) : table := alter (set_deleted stamp) k t.

(** WHERE and LIMIT .. OFFSET ..: SQLite reads a negative offset as 0, the
    others refuse it. *)
Definition list_where (ty : string) (r : row) : Prop := g_type r = ty.
#[export] Instance list_where_dec ty r : Decision (list_where ty r).
Proof. unfold list_where. apply _. Defined.

Definition window {A} (limit offset : Z) (l : list A) : list A :=
  take (Z.to_nat limit) (drop (Z.to_nat offset) l).

Definition listGraphData `{SqlEngine} (d : dialect) (call : nat) (ty : string) (limit offset : Z) (t : table) :
    outcome (list row) :=
  if bool_decide (offset < 0) && negb (bool_decide (d = SQLite)) then Fail (ErrBackend 2)
  else Ret (window limit offset (arrange call (filter (list_where ty) (map_to_list t)))).

(** The self-join of the table and its WHERE clauses: [g1] is a node row, [g2]
    an edge row. *)
Definition join_where (edge_types node_types : list string) (g1 g2 : row) : Prop :=
  g_type g2 ∈ edge_types /\ g_k1 g2 <> g_k2 g2 /\ date_deleted g2.2 = None /\
  g_type g1 ∈ node_types /\ g_k1 g1 = g_k2 g1 /\ date_deleted g1.2 = None.

Definition upstream_where (keys edge_types node_types : list string) (g : row * row) : Prop :=
  g_k1 g.1 = g_k2 g.2 /\ g_k1 g.2 ∈ keys /\ join_where edge_types node_types g.1 g.2.
Definition downstream_where (keys edge_types node_types : list string) (g : row * row) : Prop :=
  g_k2 g.1 = g_k1 g.2 /\ g_k2 g.2 ∈ keys /\ join_where edge_types node_types g.1 g.2.

#[export] Instance upstream_where_dec ks es ns g : Decision (upstream_where ks es ns g).
Proof. unfold upstream_where, join_where. apply _. Defined.
#[export] Instance downstream_where_dec ks es ns g : Decision (downstream_where ks es ns g).
Proof. unfold downstream_where, join_where. apply _. Defined.

Definition selectUpstream `{SqlEngine} (call : nat) (keys edge_types node_types : list string) (t : table) :
    list (row * row) :=
  arrange call (filter (upstream_where keys edge_types node_types)
                  (list_prod (map_to_list t) (map_to_list t))).
Definition selectDownstream `{SqlEngine} (call : nat) (keys edge_types node_types : list string) (t : table) :
    list (row * row) :=
  arrange call (filter (downstream_where keys edge_types node_types)
                  (list_prod (map_to_list t) (map_to_list t))).

(** The record of the six statements, and its three values. *)
Record Statements := mkStatements {
  CreateGraphDataTable : option table -> table;
  InsertGraphData : gkey -> GraphItemEncoding -> string -> Z -> table -> table;
  DeleteGraphData : Z -> gkey -> table -> table;
  ListGraphData : nat -> string -> Z -> Z -> table -> outcome (list row);
  SelectGraphDataUpstreamDependencies :
    nat -> list string -> list string -> list string -> table -> list (row * row);
  SelectGraphDataDownstreamDependencies :
    nat -> list string -> list string -> list string -> table -> list (row * row) }.

Definition sqliteStatements `{SqlEngine} : Statements :=
  mkStatements createGraphDataTable sqlite_insertGraphData deleteGraphData
    (listGraphData SQLite) selectUpstream selectDownstream.
Definition mysqlStatements `{SqlEngine} : Statements :=
  mkStatements createGraphDataTable mysql_insertGraphData deleteGraphData
    (listGraphData MySQL) selectUpstream selectDownstream.
Definition postgresStatements `{SqlEngine} : Statements :=
  mkStatements createGraphDataTable postgres_insertGraphData deleteGraphData
    (listGraphData Postgres) selectUpstream selectDownstream.

(** The driver names of server.go. *)
Definition mysql : string := "mysql".
Definition sqlite : string := "sqlite3".
Definition postgres : string := "pgx".

(** [DefaultStatementsFor]: an unknown driver parses the empty document, which
    yields empty statements and no error; [None] stands for those. *)
Definition DefaultStatementsFor `{SqlEngine} (driver : string) : option Statements :=
  if decide (driver = postgres) then Some postgresStatements
  else if decide (driver = mysql) then Some mysqlStatements
  else if decide (driver = sqlite) then Some sqliteStatements
  else None.

(** ** server.go: construction *)

Definition ResolveDriverName (dbmsName : string) : outcome string :=
  if decide (dbmsName = "mysql"%string) then Ret mysql
  else if decide (dbmsName = "sqlite"%string) then Ret sqlite
  else if decide (dbmsName = "postgres"%string) then Ret postgres
  else Fail (ErrText (dbmsName +:+
         " not supported, specify one of the supported systems; mysql/postgres/sqlite")).

(** [*sqlx.DB] handles are the databases they are open on; nil is [None]. *)
Record graphStore := mkGraphStore {
  rwdb : option string; rodb : option string; statements : Statements }.

Section Server.
Context `{SqlEngine}.
Notation SQL := (M (World table)).

(** [NewSQLGraphStore]: CREATE TABLE IF NOT EXISTS on the read-write handle. *)
Definition NewSQLGraphStore (rw ro : option string) (st : Statements) : SQL graphStore :=
let! _ := match rw with
          | None => ret tt
          | Some db =>
              let! (_, fl) := tick in
              let! _ := lift (match f_query fl with Some e => Fail e | None => Ret tt end) in
              fun w => (Ret tt, mkWorld (partial_alter (fun t => Some (CreateGraphDataTable st t))
                                                       db (dbs w)) (ticks w))
          end in
ret (mkGraphStore rw ro st).

Definition NewGraphStoreFor (storageDriver storageAddress storageReadOnlyAddress : string) :
  SQL graphStore :=
let! driver := lift (ResolveDriverName storageDriver) in
let! rw := if decide (storageAddress = ""%string) then ret None
           else let! db := lift (sql_open driver storageAddress) in ret (Some db) in
let! ro := if decide (storageReadOnlyAddress = ""%string) then ret rw
           else let! db := lift (sql_open driver storageReadOnlyAddress) in ret (Some db) in
match ro, rw with
| None, None =>
    fail (ErrText "either a storage-address or storage-readonly-address must be provided")
| _, _ =>
    match DefaultStatementsFor driver with
    | None => panic "unreachable: ResolveDriverName answers known drivers"
    | Some st => NewSQLGraphStore rw ro st
    end
end.

(** ** server.go: writes *)

Definition row_key (item : GraphItem) : gkey :=
(GraphItemType item, Base64encode (K1 item), Base64encode (K2 item), Base64encode (K3 item)).

Definition insert_item (gs : graphStore) (timestamp : Z) (item : GraphItem) (t : table) :
  outcome table :=
Ret (InsertGraphData (statements gs) (row_key item) (Encoding item)
       (of_bytes (GraphItemData item)) timestamp t).

Definition delete_item (gs : graphStore) (timestamp : Z) (item : GraphItem) (t : table) :
  outcome table :=
Ret (DeleteGraphData (statements gs) timestamp (row_key item) t).

(** [for _, item := range items { _, err := tx.NamedExec(..); if err != nil {
  errors = append(errors, err) } }] *)
Fixpoint exec_items (fl : Faults) (stmt : GraphItem -> table -> outcome table) (i : nat)
  (items : list GraphItem) (tx : option table) : option table * list error :=
match items with
| [] => (tx, [])
| item :: items' =>
    match exec_stmt fl i (stmt item) tx with
    | Fail e =>
        let '(tx', errors) := exec_items fl stmt (S i) items' tx in (tx', e :: errors)
    | Ret tx1 => exec_items fl stmt (S i) items' tx1
    | Panic _ => exec_items fl stmt (S i) items' tx
    end
end.

Definition Put (gs : graphStore) (items : list GraphItem) : SQL unit :=
match rwdb gs with
| None => fail ErrUnsupported
| Some db =>
    if decide (items = []) then ret tt else
    let! (timestamp, fl) := tick in
    let! tx := begin_tx db fl in
    let '(tx', errors) := exec_items fl (insert_item gs timestamp) 0 items tx in
    let! _ := commit_tx db fl tx' in
    if decide (errors = []) then ret tt else fail ErrPartialInsertion
end.

Definition Delete (gs : graphStore) (items : list GraphItem) : SQL unit :=
match rwdb gs with
| None => fail ErrUnsupported
| Some db =>
    if decide (items = []) then ret tt else
    let! (timestamp, fl) := tick in
    let! tx := begin_tx db fl in
    let '(tx', errors) := exec_items fl (delete_item gs timestamp) 0 items tx in
    let! _ := commit_tx db fl tx' in
    if decide (errors = []) then ret tt else fail ErrPartialDeletion
end.

(** ** server.go: reads *)

Definition max (a b : Z) : Z := if bool_decide (a > b) then a else b.
Definition min (a b : Z) : Z := if bool_decide (a < b) then a else b.

(** Reading a row: [K3] of a listed item and of a node is not selected. *)
Definition row_item (r : row) : GraphItem :=
mkGraphItem (g_type r) (Base64decode (g_k1 r)).1 (Base64decode (g_k2 r)).1 []
  (encoding r.2) (to_bytes (graph_item_data r.2)).
Definition row_edge (r : row) : GraphItem :=
mkGraphItem (g_type r) (Base64decode (g_k1 r)).1 (Base64decode (g_k2 r)).1
  (Base64decode (g_k3 r)).1 (encoding r.2) (to_bytes (graph_item_data r.2)).

Definition readGraphItems (fl : Faults) (rows : list row) : outcome (list GraphItem) :=
read_rows fl row_item rows.
Definition readGraphItemPairs (fl : Faults) (rows : list (row * row)) :
  outcome (list GraphItemPair) :=
read_rows fl (fun g => mkPair (row_edge g.2) (row_item g.1)) rows.

(** A method call on a nil [*sqlx.DB] dereferences it. *)
Definition handle (db : option string) : SQL string :=
match db with Some d => ret d | None => panic "nil *sqlx.DB" end.

(** The page window: 32-bit arithmetic. *)
Definition list_limit (req : ListRequest) : Z := max (min (LR_Count req) 100) 10.
Definition list_offset (req : ListRequest) : Z :=
let page := max (LR_Page req) 1 in swrap 32 (swrap 32 (page - 1) * list_limit req).

Definition List (gs : graphStore) (req : ListRequest) : SQL (list GraphItem) :=
let graphItemType := LR_Type req in
let limit := list_limit req in
let offset := list_offset req in
let! db := handle (rodb gs) in
let! (_, fl) := tick in
let! rows := run_query db fl (fun call => ListGraphData (statements gs) call graphItemType limit offset) in
lift (readGraphItems fl rows).

Definition FindUpstream (gs : graphStore) (req : FindRequest) : SQL (list GraphItemPair) :=
let keys := map Base64encode (FR_Keys req) in
let! _ := lift (match sqlx_In [keys; FR_EdgeTypes req; FR_NodeTypes req] with
                | Some e => Fail e | None => Ret tt end) in
let! db := handle (rodb gs) in
let! (_, fl) := tick in
let! rows := run_query db fl (fun call t => Ret (SelectGraphDataUpstreamDependencies (statements gs) call
                                keys (FR_EdgeTypes req) (FR_NodeTypes req) t)) in
lift (readGraphItemPairs fl rows).

Definition FindDownstream (gs : graphStore) (req : FindRequest) : SQL (list GraphItemPair) :=
let keys := map Base64encode (FR_Keys req) in
let! _ := lift (match sqlx_In [keys; FR_EdgeTypes req; FR_NodeTypes req] with
                | Some e => Fail e | None => Ret tt end) in
let! db := handle (rodb gs) in
let! (_, fl) := tick in
let! rows := run_query db fl (fun call t => Ret (SelectGraphDataDownstreamDependencies (statements gs) call
                                keys (FR_EdgeTypes req) (FR_NodeTypes req) t)) in
lift (readGraphItemPairs fl rows).
End Server.
