(* ===== verification/StoreAlphaSpec.v ===== *)
(** * The SQL graph store meets the graph store contract

    A table represents an abstract store when its keys are base64 texts and its
    live rows are the store's entries.  With the SQLite or MySQL statements,
    every method of [graphStore] implements the abstract operation. *)

From S2P Require Import Prelude GoCodec Api GraphSpec Sql StoreAlpha.

(** ** The representation *)

Definition enc_key (k : ikey) : gkey :=
  let '(ty, k1, k2, k3) := k in (ty, Base64encode k1, Base64encode k2, Base64encode k3).

Definition live_val (c : GraphCell) : option ival :=
  if live c then Some (encoding c, to_bytes (graph_item_data c)) else None.

(** The entry a row stands for. *)
Definition row_entry (r : row) : entry :=
  ((g_type r, (Base64decode (g_k1 r)).1, (Base64decode (g_k2 r)).1, (Base64decode (g_k3 r)).1),
   (encoding r.2, to_bytes (graph_item_data r.2))).

Record table_rep (t : table) (v : astore) : Prop := mkTableRep {
  rep_canonical : forall k c, t !! k = Some c -> exists ik, k = enc_key ik;
  rep_lookup : forall ik, v !! ik = t !! enc_key ik ≫= live_val }.

Lemma row_key_enc i : row_key i = enc_key (item_key i).
Proof. done. Qed.

#[export] Instance enc_key_inj : Inj (=) (=) enc_key.
Proof. intros [[[? ?] ?] ?] [[[? ?] ?] ?]. simpl. intros. simplify_eq. done. Qed.

Lemma row_entry_enc ik c : row_entry (enc_key ik, c) = (ik, (encoding c, to_bytes (graph_item_data c))).
Proof.
  destruct ik as [[[ty k1] k2] k3]. unfold row_entry, g_type, g_k1, g_k2, g_k3. simpl.
  by rewrite !Base64decode_encode.
Qed.

Lemma table_rep_empty : table_rep ∅ ∅.
Proof. split; intros *; [by rewrite lookup_empty|]. by rewrite !lookup_empty. Qed.

(** ** Statements *)

(** SQLite and MySQL insert the same way: they write the whole row, alive. *)
Definition reviving (st : Statements) : Prop :=
  forall k enc data modified t,
    InsertGraphData st k enc data modified t = <[k := mkCell enc data modified None]> t.

Lemma sqlite_reviving `{SqlEngine} : reviving sqliteStatements.
Proof. intros k enc data m t. apply insert_delete_eq. Qed.

Lemma mysql_reviving `{SqlEngine} : reviving mysqlStatements.
Proof. intros k enc data m t. simpl. unfold mysql_insertGraphData. by case_match. Qed.

Lemma insert_rep t v i m :
  table_rep t v ->
  table_rep (<[row_key i := mkCell (Encoding i) (of_bytes (GraphItemData i)) m None]> t)
            (<[item_key i := item_val i]> v).
Proof.
  intros [Hc Hl]. rewrite row_key_enc. split.
  - intros k c [[<- _]|[_ Hk]]%lookup_insert_Some; eauto.
  - intros ik. destruct (decide (ik = item_key i)) as [->|Hne].
    + rewrite !lookup_insert_eq. simpl. unfold live_val, item_val. simpl. by rewrite to_of_bytes.
    + rewrite lookup_insert_ne by done. rewrite lookup_insert_ne; [apply Hl|].
      intros Heq%(inj enc_key). by symmetry in Heq.
Qed.

Lemma delete_rep t v i stamp :
  table_rep t v ->
  table_rep (deleteGraphData stamp (row_key i) t) (delete (item_key i) v).
Proof.
  intros [Hc Hl]. rewrite row_key_enc. unfold deleteGraphData. split.
  - intros k c. rewrite lookup_alter. case_decide as Hk.
    + intros _. exists (item_key i). by symmetry.
    + apply Hc.
  - intros ik. destruct (decide (ik = item_key i)) as [->|Hne].
    + rewrite lookup_delete_eq, lookup_alter_eq. by destruct (t !! enc_key (item_key i)).
    + rewrite lookup_delete_ne by done. rewrite lookup_alter_ne; [apply Hl|].
      intros Heq%(inj enc_key). by symmetry in Heq.
Qed.

(** ** Queries *)

Section Join.
Context (t : table) (v : astore) (Hrep : table_rep t v).

Lemma live_row_entry r :
r ∈ map_to_list t -> date_deleted r.2 = None ->
r.1 = enc_key (row_entry r).1 /\ v !! (row_entry r).1 = Some (row_entry r).2.
Proof.
destruct r as [k c]. rewrite elem_of_map_to_list. intros Hk Hd. simpl in Hd.
destruct (rep_canonical _ _ Hrep _ _ Hk) as [ik ->]. rewrite row_entry_enc. simpl.
split; [done|]. rewrite (rep_lookup _ _ Hrep), Hk. simpl. unfold live_val, live.
by rewrite bool_decide_eq_true_2.
Qed.

Lemma entry_live_row (e : entry) :
v !! e.1 = Some e.2 ->
exists r, r ∈ map_to_list t /\ date_deleted r.2 = None /\ row_entry r = e.
Proof.
destruct e as [ik [en da]]. simpl. rewrite (rep_lookup _ _ Hrep).
destruct (t !! enc_key ik) as [c|] eqn:Hc; simpl; [|done].
unfold live_val, live. case_bool_decide as Hd; [|done]. intros [= <- <-].
exists (enc_key ik, c). rewrite elem_of_map_to_list. split_and!; [done|done|].
by rewrite row_entry_enc.
Qed.

(** A filtered self-join of the table is the join of the entries, when the
  row filter only keeps live rows and agrees with the entry filter. *)
Context (P : row * row -> Prop) `{!forall g, Decision (P g)}.
Context (Q : entry * entry -> Prop) `{!forall g, Decision (Q g)}.
Hypothesis P_live : forall g, P g -> date_deleted g.1.2 = None /\ date_deleted g.2.2 = None.
Hypothesis P_Q : forall r1 r2,
r1.1 = enc_key (row_entry r1).1 -> r2.1 = enc_key (row_entry r2).1 ->
date_deleted r1.2 = None -> date_deleted r2.2 = None ->
P (r1, r2) <-> Q (row_entry r1, row_entry r2).

Definition both (g : row * row) : entry * entry := (row_entry g.1, row_entry g.2).

Lemma join_entries :
map both (filter P (list_prod (map_to_list t) (map_to_list t))) ≡ₚ
filter Q (list_prod (map_to_list v) (map_to_list v)).
Proof.
apply NoDup_Permutation.
- apply NoDup_fmap_2_strong.
  + intros [r1 r2] [r1' r2'] H1 H2 Heq. unfold both in Heq. simpl in Heq.
    apply list_elem_of_filter in H1 as [HP1 H1], H2 as [HP2 H2].
    apply elem_of_list_prod in H1 as [H1a H1b], H2 as [H2a H2b].
    destruct (P_live _ HP1) as [? ?], (P_live _ HP2) as [? ?].
    assert (forall r r', r ∈ map_to_list t -> r' ∈ map_to_list t ->
      date_deleted r.2 = None -> date_deleted r'.2 = None ->
      row_entry r = row_entry r' -> r = r') as Hinj.
    { intros r r' Hr Hr' Hd Hd' He.
      destruct (live_row_entry r Hr Hd) as [Hk _], (live_row_entry r' Hr' Hd') as [Hk' _].
      rewrite He, <- Hk' in Hk. destruct r as [k c], r' as [k' c']. simpl in Hk. subst.
      apply elem_of_map_to_list in Hr, Hr'. congruence. }
    pose proof (f_equal fst Heq) as He1. pose proof (f_equal snd Heq) as He2.
    simpl in He1, He2. by rewrite (Hinj _ _ H1a H2a), (Hinj _ _ H1b H2b).
  + apply NoDup_filter, NoDup_list_prod; apply NoDup_map_to_list.
- apply NoDup_filter, NoDup_list_prod; apply NoDup_map_to_list.
- intros [n e]. rewrite list_elem_of_fmap, list_elem_of_filter.
  setoid_rewrite list_elem_of_filter. split.
  + intros ([r1 r2] & Heq & HP & Hin). unfold both in Heq. simpl in Heq.
    pose proof (f_equal fst Heq) as He1. pose proof (f_equal snd Heq) as He2.
    simpl in He1, He2. subst n e. clear Heq.
    apply elem_of_list_prod in Hin as [Ha Hb]. destruct (P_live _ HP) as [Hd1 Hd2].
    destruct (live_row_entry _ Ha Hd1) as [Hk1 Hv1], (live_row_entry _ Hb Hd2) as [Hk2 Hv2].
    split; [by apply P_Q|]. apply elem_of_list_prod.
    destruct (row_entry r1), (row_entry r2). by rewrite !elem_of_map_to_list.
  + intros [HQ Hin]. apply elem_of_list_prod in Hin as [Ha Hb]. destruct n as [kn cn], e as [ke ce].
    apply elem_of_map_to_list in Ha, Hb.
    destruct (entry_live_row (kn, cn) Ha) as (r1 & Hr1 & Hd1 & He1).
    destruct (entry_live_row (ke, ce) Hb) as (r2 & Hr2 & Hd2 & He2).
    destruct (live_row_entry _ Hr1 Hd1) as [Hk1 _], (live_row_entry _ Hr2 Hd2) as [Hk2 _].
    exists (r1, r2). unfold both. simpl. split_and!; [congruence| |].
    * apply P_Q; [done..|]. congruence.
    * by apply elem_of_list_prod.
Qed.
End Join.

(** The columns of a canonical row, in terms of its entry. *)
Lemma canonical_columns r :
  r.1 = enc_key (row_entry r).1 ->
  g_type r = e_type (row_entry r) /\ g_k1 r = Base64encode (e_k1 (row_entry r)) /\
  g_k2 r = Base64encode (e_k2 (row_entry r)).
Proof.
  unfold g_type, g_k1, g_k2, e_type, e_k1, e_k2. intros Hk.
  destruct (row_entry r) as [[[[ty k1] k2] k3] c]. simpl in *. by rewrite Hk.
Qed.

Lemma elem_of_encoded k (l : list bytes) : Base64encode k ∈ map Base64encode l <-> k ∈ l.
Proof. apply list_elem_of_fmap_inj, _. Qed.

Lemma pair_both g : mkPair (row_edge g.2) (row_item g.1) = pair_of (both g).
Proof. done. Qed.

Lemma selectUpstream_rep `{SqlEngine} call t v req :
  table_rep t v ->
  map (fun g => mkPair (row_edge g.2) (row_item g.1))
      (selectUpstream call (map Base64encode (FR_Keys req)) (FR_EdgeTypes req) (FR_NodeTypes req) t)
  ≡ₚ spec_upstream req v.
Proof.
  intros Hrep. unfold selectUpstream, spec_upstream. rewrite arrange_perm.
  rewrite (map_ext _ (fun g => pair_of (both g)) pair_both), <- map_map.
  apply Permutation_map, join_entries; [done|unfold upstream_where, join_where; tauto|].
  intros r1 r2 H1%canonical_columns H2%canonical_columns Hd1 Hd2.
  destruct H1 as (Ht1 & Ha1 & Hb1), H2 as (Ht2 & Ha2 & Hb2).
  unfold upstream_where, join_where, upstream_cond, edge_cond. simpl.
  rewrite Ht1, Ha1, Hb1, Ht2, Ha2, Hb2, elem_of_encoded, !(inj_iff Base64encode). tauto.
Qed.

Lemma selectDownstream_rep `{SqlEngine} call t v req :
  table_rep t v ->
  map (fun g => mkPair (row_edge g.2) (row_item g.1))
      (selectDownstream call (map Base64encode (FR_Keys req)) (FR_EdgeTypes req) (FR_NodeTypes req) t)
  ≡ₚ spec_downstream req v.
Proof.
  intros Hrep. unfold selectDownstream, spec_downstream. rewrite arrange_perm.
  rewrite (map_ext _ (fun g => pair_of (both g)) pair_both), <- map_map.
  apply Permutation_map, join_entries; [done|unfold downstream_where, join_where; tauto|].
  intros r1 r2 H1%canonical_columns H2%canonical_columns Hd1 Hd2.
  destruct H1 as (Ht1 & Ha1 & Hb1), H2 as (Ht2 & Ha2 & Hb2).
  unfold downstream_where, join_where, downstream_cond, edge_cond. simpl.
  rewrite Ht1, Ha1, Hb1, Ht2, Ha2, Hb2, elem_of_encoded, !(inj_iff Base64encode). tauto.
Qed.

(** ** Methods *)

Lemma exec_items_no_errors (fl : Faults) (stmt : GraphItem -> table -> outcome table) (f : GraphItem -> table -> table)
    (items : list GraphItem) :
  (forall i t, stmt i t = Ret (f i t)) -> forall (i : nat) (t : table) (tx' : option table),
  exec_items fl stmt i items (Some t) = (tx', []) ->
  tx' = Some (fold_left (fun t x => f x t) items t).
Proof.
  intros Hs. induction items as [|x items IH]; intros i t tx'; simpl; [congruence|].
  unfold exec_stmt. rewrite Hs. destruct (f_exec fl i); simpl.
  - by destruct (exec_items fl stmt (S i) items (Some t)).
  - apply IH.
Qed.

Lemma exec_items_ok (fl : Faults) (stmt : GraphItem -> table -> outcome table) (f : GraphItem -> table -> table)
    (items : list GraphItem) :
  (forall i t, stmt i t = Ret (f i t)) -> (forall i, f_exec fl i = None) -> forall (i : nat) (t : table),
  exec_items fl stmt i items (Some t) = (Some (fold_left (fun t x => f x t) items t), []).
Proof.
  intros Hs Hf. induction items as [|x items IH]; intros i t; simpl; [done|].
  unfold exec_stmt. rewrite Hs, Hf. simpl. apply IH.
Qed.

(** The items whose statement the engine executes. *)
Fixpoint executed (fl : Faults) (i : nat) (items : list GraphItem) : list GraphItem :=
  match items with
  | [] => []
  | x :: items' => match f_exec fl i with
                   | Some _ => executed fl (S i) items'
                   | None => x :: executed fl (S i) items'
                   end
  end.

Lemma exec_items_executed (fl : Faults) (stmt : GraphItem -> table -> table) (items : list GraphItem) :
  forall (i : nat) (t : table),
  exists errors, exec_items fl (fun x t => Ret (stmt x t)) i items (Some t) =
    (Some (fold_left (fun t x => stmt x t) (executed fl i items) t), errors) /\
    (errors = [] <-> executed fl i items = items).
Proof.
  assert (forall items i, (length (executed fl i items) <= length items)%nat) as Hlen.
  { intros l. induction l as [|x l IH]; intros i; simpl; [lia|].
    destruct (f_exec fl i); simpl; specialize (IH (S i)); lia. }
  induction items as [|x items IH]; intros i t; simpl; [by exists []|].
  unfold exec_stmt. destruct (f_exec fl i) as [e|]; simpl.
  - destruct (IH (S i) t) as (errors & -> & _). exists (e :: errors). split; [done|].
    split; [done|]. intros Hx. specialize (Hlen items (S i)). rewrite Hx in Hlen. simpl in Hlen. lia.
  - destruct (IH (S i) (stmt x t)) as (errors & -> & Herr). exists errors. split; [done|].
    rewrite Herr. split; [by intros ->|congruence].
Qed.

Lemma executed_elem fl items : forall i x, x ∈ executed fl i items -> x ∈ items.
Proof.
  induction items as [|y items IH]; intros i x; simpl; [done|].
  destruct (f_exec fl i); rewrite ?elem_of_cons; naive_solver.
Qed.

Lemma fold_rep (f : GraphItem -> table -> table) (g : astore -> GraphItem -> astore) items :
  (forall t v i, table_rep t v -> table_rep (f i t) (g v i)) -> forall t v,
  table_rep t v -> table_rep (fold_left (fun t x => f x t) items t) (fold_left g items v).
Proof. intros Hf. induction items as [|x items IH]; simpl; auto. Qed.

(** Statements that agree with the ones above on everything but the result of
    a query on rows of a deleted key: what SQLite and MySQL share. *)
Record standard `{SqlEngine} (st : Statements) : Prop := mkStandard {
  std_insert : reviving st;
  std_delete : DeleteGraphData st = deleteGraphData;
  std_up : SelectGraphDataUpstreamDependencies st = selectUpstream;
  std_down : SelectGraphDataDownstreamDependencies st = selectDownstream }.

Lemma sqlite_standard `{SqlEngine} : standard sqliteStatements.
Proof. split; [apply sqlite_reviving|done..]. Qed.
Lemma mysql_standard `{SqlEngine} : standard mysqlStatements.
Proof. split; [apply mysql_reviving|done..]. Qed.

Section Refinement.
Context `{SqlEngine} (db : string) (st : Statements) (Hst : standard st).
Let gs : graphStore := mkGraphStore (Some db) (Some db) st.

Definition sql_rep (w : World table) (v : astore) : Prop :=
exists t, dbs w !! db = Some t /\ table_rep t v.

Lemma sql_rep_write w t v n :
table_rep t v -> sql_rep (mkWorld (partial_alter (fun _ => Some t) db (dbs w)) n) v.
Proof. intros Hr. exists t. simpl. by rewrite lookup_partial_alter_eq. Qed.

Lemma sql_rep_ticks w v n : sql_rep w v -> sql_rep (mkWorld (dbs w) n) v.
Proof. done. Qed.

Lemma insert_items_rep timestamp t v items :
table_rep t v ->
table_rep (fold_left (fun t i => InsertGraphData st (row_key i) (Encoding i)
             (of_bytes (GraphItemData i)) timestamp t) items t) (spec_put items v).
Proof.
apply (fold_rep (fun i t => InsertGraphData st (row_key i) (Encoding i)
  (of_bytes (GraphItemData i)) timestamp t)).
intros. rewrite (std_insert _ Hst). by apply insert_rep.
Qed.

Lemma delete_items_rep timestamp t v items :
table_rep t v ->
table_rep (fold_left (fun t i => DeleteGraphData st timestamp (row_key i) t) items t)
          (spec_delete items v).
Proof.
apply (fold_rep (fun i t => DeleteGraphData st timestamp (row_key i) t)).
intros. rewrite (std_delete _ Hst). by apply delete_rep.
Qed.

(** [Put] and [Delete] are one transaction shape, with a statement each. *)
Definition write_tx (stmt : Z -> GraphItem -> table -> table) (e : error)
  (items : list GraphItem) : M (World table) unit :=
if decide (items = []) then ret tt else
let! (timestamp, fl) := tick in
let! tx := begin_tx db fl in
let '(tx', errors) := exec_items fl (fun i t => Ret (stmt timestamp i t)) 0 items tx in
let! _ := commit_tx db fl tx' in
if decide (errors = []) then ret tt else fail e.

Definition put_stmt (timestamp : Z) (i : GraphItem) (t : table) : table :=
InsertGraphData st (row_key i) (Encoding i) (of_bytes (GraphItemData i)) timestamp t.
Definition delete_stmt (timestamp : Z) (i : GraphItem) (t : table) : table :=
DeleteGraphData st timestamp (row_key i) t.

Lemma Put_write items : Put gs items = write_tx put_stmt ErrPartialInsertion items.
Proof using. done. Qed.
Lemma Delete_write items : Delete gs items = write_tx delete_stmt ErrPartialDeletion items.
Proof using. done. Qed.

(** A write that returns without an error was begun, executed, committed. *)
Lemma write_tx_Ret stmt e items w w' :
write_tx stmt e items w = (Ret tt, w') -> items <> [] ->
exists t, dbs w !! db = Some t /\
  w' = mkWorld (partial_alter (fun _ => Some (fold_left (fun t i =>
         stmt (now (ticks w)) i t) items t)) db (dbs w)) (S (ticks w)).
Proof using.
unfold write_tx, bind, tick, begin_tx, commit_tx, ret, fail. simpl. intros Hrun Hne.
rewrite decide_False in Hrun by done. simpl in Hrun.
destruct (f_begin _); [done|]. destruct (dbs w !! db) as [t|] eqn:Ht.
- destruct (exec_items _ _ 0 items (Some t)) as [tx' errors] eqn:He.
  destruct (f_commit _); [done|]. case_decide; simplify_eq.
  eapply exec_items_no_errors in He; [|done]. subst. by exists t.
- destruct items as [|i items]; [done|]. simpl in Hrun. unfold exec_stmt in Hrun at 1.
  destruct (f_exec _ 0); destruct (exec_items _ _ 1 items None), (f_commit _); try done.
  all: by case_decide.
Qed.

Lemma write_tx_ok `{!NoFaults} stmt e items w t :
dbs w !! db = Some t -> exists w', write_tx stmt e items w = (Ret tt, w').
Proof using.
intros Ht. unfold write_tx, bind, tick, begin_tx, commit_tx, ret, fail. simpl.
case_decide; [eauto|]. rewrite no_faults_all. simpl. rewrite Ht.
rewrite exec_items_ok with (f := fun i t => stmt (now (ticks w)) i t) by done.
rewrite decide_True by done. eauto.
Qed.

Lemma Put_rep w v items w' :
sql_rep w v -> Put gs items w = (Ret tt, w') -> sql_rep w' (spec_put items v).
Proof.
intros (t & Ht & Hr). rewrite Put_write. intros Hrun.
destruct (decide (items = [])) as [->|Hne].
- unfold write_tx, ret in Hrun. simpl in Hrun. simplify_eq. by exists t.
- apply write_tx_Ret in Hrun as (t' & Ht' & ->); [|done]. simplify_eq.
  by apply sql_rep_write, insert_items_rep.
Qed.

Lemma Delete_rep w v items w' :
sql_rep w v -> Delete gs items w = (Ret tt, w') -> sql_rep w' (spec_delete items v).
Proof.
intros (t & Ht & Hr). rewrite Delete_write. intros Hrun.
destruct (decide (items = [])) as [->|Hne].
- unfold write_tx, ret in Hrun. simpl in Hrun. simplify_eq. by exists t.
- apply write_tx_Ret in Hrun as (t' & Ht' & ->); [|done]. simplify_eq.
  by apply sql_rep_write, delete_items_rep.
Qed.

(** Whatever a write answers, it has executed the statements of some of the
  items, and no other. *)
Lemma write_tx_some stmt e items w t o w' :
dbs w !! db = Some t -> write_tx stmt e items w = (o, w') -> exists l,
  (forall i, i ∈ l -> i ∈ items) /\
  dbs w' !! db = Some (fold_left (fun t i => stmt (now (ticks w)) i t) l t).
Proof using.
intros Ht. unfold write_tx, bind, tick, begin_tx, commit_tx, ret, fail. simpl.
case_decide as Hne; [intros [= <- <-]; by exists []; split; [intros i Hi%elem_of_nil|]|].
destruct (f_begin _) as [e'|]; [intros [= <- <-]; by exists []; split; [intros i Hi%elem_of_nil|]|]. rewrite Ht.
destruct (exec_items_executed (faults (ticks w)) (fun i t => stmt (now (ticks w)) i t) items 0 t) as (errors & -> & _).
destruct (f_commit _) as [e'|]; [intros [= <- <-]; by exists []; split; [intros i Hi%elem_of_nil|]|].
intros Hrun. exists (executed (faults (ticks w)) 0 items). split; [intros i; apply executed_elem|].
case_decide; simplify_eq/=; by rewrite lookup_partial_alter_eq.
Qed.

Lemma Put_some items w v o w' :
sql_rep w v -> Put gs items w = (o, w') ->
exists l, (forall i, i ∈ l -> i ∈ items) /\ sql_rep w' (spec_put l v).
Proof.
intros (t & Ht & Hr). rewrite Put_write. intros Hrun. eapply write_tx_some in Hrun as (l & Hl & Ht'); [|done].
exists l. split; [done|]. eexists. split; [exact Ht'|]. by apply insert_items_rep.
Qed.

Lemma Delete_some items w v o w' :
sql_rep w v -> Delete gs items w = (o, w') ->
exists l, (forall i, i ∈ l -> i ∈ items) /\ sql_rep w' (spec_delete l v).
Proof.
intros (t & Ht & Hr). rewrite Delete_write. intros Hrun. eapply write_tx_some in Hrun as (l & Hl & Ht'); [|done].
exists l. split; [done|]. eexists. split; [exact Ht'|]. by apply delete_items_rep.
Qed.

(** Both finds are one query shape. *)
Definition find_query (select : nat -> list string -> list string -> list string -> table ->
  list (row * row)) (req : FindRequest) : M (World table) (list GraphItemPair) :=
let keys := map Base64encode (FR_Keys req) in
let! _ := lift (match sqlx_In [keys; FR_EdgeTypes req; FR_NodeTypes req] with
                | Some e => Fail e | None => Ret tt end) in
let! db := handle (Some db) in
let! (_, fl) := tick in
let! rows := run_query db fl (fun call t => Ret (select call keys (FR_EdgeTypes req) (FR_NodeTypes req) t)) in
lift (readGraphItemPairs fl rows).

Lemma find_query_frame select req w o w' :
find_query select req w = (o, w') -> dbs w' = dbs w.
Proof using.
unfold find_query, bind, lift, handle, tick, run_query, ret. simpl.
destruct (sqlx_In _); [congruence|]. simpl.
destruct (f_query _); [by intros [= _ <-]|]. destruct (dbs w !! db); by intros [= _ <-].
Qed.

Lemma find_query_Ret `{!NoCut} select req w ps w' t :
dbs w !! db = Some t -> find_query select req w = (Ret ps, w') ->
ps = map (fun g => mkPair (row_edge g.2) (row_item g.1))
         (select (S (ticks w)) (map Base64encode (FR_Keys req)) (FR_EdgeTypes req) (FR_NodeTypes req) t).
Proof using.
unfold find_query, bind, lift, handle, tick, run_query, ret. simpl. intros Ht.
destruct (sqlx_In _); [done|]. simpl. rewrite Ht.
destruct (f_query _); [done|]. intros [= Hps _].
apply scan_rows_Ret in Hps. unfold fetched in Hps. by rewrite no_cut_all in Hps.
Qed.

Lemma find_query_ok `{!NoFaults} select req w t :
dbs w !! db = Some t -> FR_Keys req <> [] -> FR_EdgeTypes req <> [] -> FR_NodeTypes req <> [] ->
exists ps w', find_query select req w = (Ret ps, w').
Proof using.
intros Ht Hk He Hn. unfold find_query, bind, lift, handle, tick, run_query, ret. simpl.
rewrite (proj2 (sqlx_In_spec _)).
- simpl. rewrite no_faults_all, Ht. simpl. unfold readGraphItemPairs, read_rows.
  rewrite scan_rows_ok by done. eauto.
- rewrite !elem_of_cons, elem_of_nil. intros [Heq|[Heq|[Heq|[]]]]; try congruence.
  symmetry in Heq. by apply fmap_nil_inv in Heq.
Qed.

Lemma FindUpstream_query req :
FindUpstream gs req = find_query (SelectGraphDataUpstreamDependencies st) req.
Proof using. done. Qed.
Lemma FindDownstream_query req :
FindDownstream gs req = find_query (SelectGraphDataDownstreamDependencies st) req.
Proof using. done. Qed.

Lemma find_frame_rep select w v req o w' :
sql_rep w v -> find_query select req w = (o, w') -> sql_rep w' v.
Proof using. intros (t & Ht & Hr) Hrun%find_query_frame. exists t. by rewrite Hrun. Qed.
End Refinement.

(** The store of [NewGraphStoreFor] on one read-write address, as an instance
    of the interface. *)
#[export] Instance sql_ops `{SqlEngine} (gs : graphStore) : GraphStoreOps (World table) | 10 := {
  gs_Put := Put gs; gs_Delete := Delete gs; gs_List := List gs;
  gs_FindUpstream := FindUpstream gs; gs_FindDownstream := FindDownstream gs }.

Definition sql_store (db : string) (st : Statements) : graphStore :=
  mkGraphStore (Some db) (Some db) st.

Definition sql_spec `{SqlEngine, !NoCut} (db : string) (st : Statements) (Hst : standard st) :
  @GraphStoreSpec (World table) (sql_ops (sql_store db st)).
Proof.
  refine {| rep := sql_rep db |}.
  - apply Put_rep, Hst.
  - apply Delete_rep, Hst.
  - intros w v req o w' Hr Hrun.
    exact (find_frame_rep db (SelectGraphDataUpstreamDependencies st) w v req o w' Hr Hrun).
  - intros w v req ps w' (t & Ht & Hr) Hrun. simpl in Hrun. unfold sql_store in Hrun.
    rewrite FindUpstream_query in Hrun.
    rewrite (find_query_Ret db _ _ _ _ _ _ Ht Hrun), (std_up _ Hst). by apply selectUpstream_rep.
  - intros w v req o w' Hr Hrun.
    exact (find_frame_rep db (SelectGraphDataDownstreamDependencies st) w v req o w' Hr Hrun).
  - intros w v req ps w' (t & Ht & Hr) Hrun. simpl in Hrun. unfold sql_store in Hrun.
    rewrite FindDownstream_query in Hrun.
    rewrite (find_query_Ret db _ _ _ _ _ _ Ht Hrun), (std_down _ Hst). by apply selectDownstream_rep.
Defined.

Definition sql_partial `{SqlEngine, !NoCut} (db : string) (st : Statements) (Hst : standard st) :
  @GraphStorePartial (World table) (sql_ops (sql_store db st)) (sql_spec db st Hst).
Proof.
  split.
  - intros w v items o w'. by apply Put_some.
  - intros w v items o w'. by apply Delete_some.
Qed.

Definition sql_total `{SqlEngine, !NoFaults} (db : string) (st : Statements) (Hst : standard st) :
  @GraphStoreTotal (World table) (sql_ops (sql_store db st)) (sql_spec db st Hst).
Proof.
  split.
  - intros w v items (t & Ht & _). by eapply write_tx_ok.
  - intros w v items (t & Ht & _). by eapply write_tx_ok.
  - intros w v req (t & Ht & _). by eapply find_query_ok.
  - intros w v req (t & Ht & _). by eapply find_query_ok.
Qed.
