(* ===== verification/KeysAlpha.v ===== *)
(** * tracker/internal/services/v1alpha: keys, encoding and decoding

    [keys.go], [encode.go], [decode.go] and [types.go]: how a source, a module
    or an edge becomes a graph item and back. *)

From S2P Require Import Prelude GoCodec GoHash Api GraphSpec StoreAlpha.

Local Open Scope Z_scope.

(** ** types.go *)

Definition SourceType : string := "source".
Definition ManagesType : string := "manages".
Definition ModuleType : string := "module".
Definition DependsType : string := "depends".

(** ** keys.go *)

Definition sep : string := "---".
Definition sepData : bytes := to_bytes sep.

(** What one variable writes to the hash: separator, checksum, data. *)
Definition key_frame (val : string) : bytes :=
  let data := to_bytes val in sepData ++ put_be 4 (crc32_ieee data) ++ data.

Definition key_preimage (vars : list string) : bytes := concat (map key_frame vars).

Definition key (vars : list string) : bytes := sha256 (key_preimage vars).

Definition keyForSource (source : option Source) : bytes := key [GetUrl source].

Definition keyForModule (m : Module_) : bytes :=
  key [Module_Language m; Module_Organization m; Module_Module m].

Definition readableKey (item : GraphItem) : string :=
  String.concat sep [GraphItemType item; Base64encode (K1 item); Base64encode (K2 item);
                     Base64encode (K3 item)].

(** service_dependency.go: the request's [Name] takes no part in the key. *)
Definition keyForDependencyRequest (req : DependencyRequest) : bytes :=
  keyForModule (mkModule (DR_Language req) (DR_Organization req) (DR_Module req) "").

(** ** encode.go *)

Section Codec.
Context `{JsonCodec}.

(** The type tag and the keys an [Encode] argument gets. *)
Definition encode_keys (msg : iface) : option (string * bytes) :=
match msg with
| INil KSource => Some (SourceType, keyForSource None)
| IVal (VSource s) => Some (SourceType, keyForSource (Some s))
| INil KManages | IVal (VManages _) => Some (ManagesType, [])
| INil KModule => Some (ModuleType, keyForModule (mkModule "" "" "" ""))
| IVal (VModule m) => Some (ModuleType, keyForModule m)
| INil KDepends | IVal (VDepends _) => Some (DependsType, [])
| IOther => None
end.

Definition Encode (msg : iface) : outcome GraphItem :=
match encode_keys msg with
| None => Fail (ErrText "unrecognized type")
| Some (graphItemType, k) =>
    match json_marshal msg with
    | None => Fail (ErrText "marshal failure")
    | Some data => Ret (mkGraphItem graphItemType k k [] GraphItemEncoding_JSON data)
    end
end.

(** ** decode.go *)

Definition kind_of_type (itemType : string) : option schema_kind :=
if decide (itemType = SourceType) then Some KSource
else if decide (itemType = ManagesType) then Some KManages
else if decide (itemType = ModuleType) then Some KModule
else if decide (itemType = DependsType) then Some KDepends
else None.

(** The returned [interface{}] (nil is [None]) and error; a failed
  [json.Unmarshal] returns the partly filled value with its error. *)
Definition Decode (item : GraphItem) : option schema_msg * option error :=
match kind_of_type (GraphItemType item) with
| None => (None, Some (ErrText "unrecognized node type"))
| Some k =>
    if decide (Encoding item = GraphItemEncoding_JSON) then
      let '(v, ok) := json_unmarshal k (GraphItemData item) in
      (Some v, if ok : bool then None else Some (ErrBackend 3))
    else (None, Some (ErrText "unrecognized encoding"))
end.

(** [x, _ := Decode(item); x.(T)] with [T] a schema pointer: the error is dropped and the type
  assertion panics on nil or on another type. *)
Definition as_source (item : GraphItem) : outcome Source :=
match Decode item with
| (Some (VSource s), _) => Ret s | _ => Panic "interface conversion" end.
Definition as_manages (item : GraphItem) : outcome Manages :=
match Decode item with
| (Some (VManages m), _) => Ret m | _ => Panic "interface conversion" end.
Definition as_module (item : GraphItem) : outcome Module_ :=
match Decode item with
| (Some (VModule m), _) => Ret m | _ => Panic "interface conversion" end.
Definition as_depends (item : GraphItem) : outcome Depends :=
match Decode item with
| (Some (VDepends d), _) => Ret d | _ => Panic "interface conversion" end.
End Codec.

(** ** Frames *)

(** A name the framing cannot confuse: it holds no separator and does not end
    with a dash that could run into the next separator. *)
Fixpoint has_sep (l : bytes) : bool :=
  match l with
  | [] => false
  | _ :: l' => bool_decide (take 3 l = sepData) || has_sep l'
  end.

Definition plain_name (s : string) : Prop := has_sep (to_bytes s ++ [Byte.x2d; Byte.x2d]) = false.

Lemma length_crc c : length (put_be 4 c) = 4%nat.
Proof. apply length_put_be. Qed.

(** The first separator after [d] is the one written after it. *)
Lemma plain_split (d1 d2 r1 r2 : bytes) :
  has_sep (d1 ++ [Byte.x2d; Byte.x2d]) = false ->
  has_sep (d2 ++ [Byte.x2d; Byte.x2d]) = false ->
  (r1 = [] \/ exists r, r1 = sepData ++ r) -> (r2 = [] \/ exists r, r2 = sepData ++ r) ->
  d1 ++ r1 = d2 ++ r2 -> d1 = d2 /\ r1 = r2.
Proof.
  revert d2. induction d1 as [|b1 d1 IH]; intros d2 H1 H2 Hr1 Hr2 Heq.
  - destruct d2 as [|b2 d2]; [done|]. exfalso. simpl in Heq.
    destruct Hr1 as [->|[r ->]]; [done|].
    assert (take 3 (b2 :: d2 ++ [Byte.x2d; Byte.x2d]) = sepData) as Hs.
    { unfold sepData in *. simpl in Heq |- *. injection Heq as <- Heq.
      destruct d2 as [|b3 d2]; [done|]. simpl in Heq. injection Heq as <- Heq.
      destruct d2 as [|b4 d2]; [done|]. simpl in Heq. injection Heq as <- Heq. done. }
    cbn [has_sep app] in H2. rewrite bool_decide_eq_true_2 in H2 by done. done.
  - destruct d2 as [|b2 d2].
    + exfalso. simpl in Heq. destruct Hr2 as [->|[r ->]]; [done|].
      assert (take 3 (b1 :: d1 ++ [Byte.x2d; Byte.x2d]) = sepData) as Hs.
      { unfold sepData in *. simpl in Heq |- *. injection Heq as -> Heq.
        destruct d1 as [|b3 d1]; [done|]. simpl in Heq. injection Heq as -> Heq.
        destruct d1 as [|b4 d1]; [done|]. simpl in Heq. injection Heq as -> Heq. done. }
      cbn [has_sep app] in H1. rewrite bool_decide_eq_true_2 in H1 by done. done.
    + simpl in Heq. injection Heq as <- Heq. cbn [has_sep app] in H1, H2.
      apply orb_false_iff in H1 as [_ H1], H2 as [_ H2].
      destruct (IH d2 H1 H2 Hr1 Hr2 Heq) as [-> ->]. done.
Qed.

Lemma key_preimage_start vars :
  key_preimage vars = [] \/ exists r, key_preimage vars = sepData ++ r.
Proof.
  destruct vars as [|v vars]; [by left|right]. unfold key_preimage, key_frame.
  cbn [map concat]. rewrite <- !app_assoc. eauto.
Qed.

(** Framing is injective on plain names. *)
Lemma key_preimage_inj vars1 vars2 :
  Forall plain_name vars1 -> Forall plain_name vars2 ->
  key_preimage vars1 = key_preimage vars2 -> vars1 = vars2.
Proof.
  intros H1. revert vars2. induction H1 as [|v1 vars1 Hv1 _ IH]; intros vars2 H2 Heq.
  - destruct vars2 as [|v2 vars2]; [done|]. unfold key_preimage, key_frame in Heq. done.
  - destruct H2 as [|v2 vars2 Hv2 H2]; [unfold key_preimage, key_frame in Heq; done|].
    unfold key_preimage in Heq. cbn [map concat] in Heq.
    fold (key_preimage vars1) (key_preimage vars2) in Heq. unfold key_frame in Heq.
    rewrite <- !app_assoc in Heq. apply app_inv_head in Heq.
    apply app_inj_1 in Heq as [_ Heq]; [|by rewrite !length_crc].
    apply plain_split in Heq as [Hv Hr]; [|done|done|apply key_preimage_start..].
    apply (inj to_bytes) in Hv. subst. f_equal. by apply IH.
Qed.

(** ** Readable keys *)

(** base64 texts hold no dash, so [---] splits a readable key back. *)
Definition no_dash (l : bytes) : Prop := Forall (fun b => b <> Byte.x2d) l.

Lemma enc_char64_no_dash d : 0 <= d < 64 -> enc_char alphabet64 d <> Byte.x2d.
Proof.
  intros Hd. assert (no_dash alphabet64) as Ha by (repeat constructor; done).
  unfold enc_char. unfold no_dash in Ha. rewrite List.Forall_forall in Ha. apply Ha.
  apply nth_In. change (length alphabet64) with 64%nat. lia.
Qed.

Lemma group_no_dash m g : no_dash (map (enc_char alphabet64) (group_digits 64 3 4 m g)).
Proof.
  apply Forall_map. apply (Forall_impl (fun d => 0 <= d < 64)).
  - apply Forall_take, digits_bound. lia.
  - apply enc_char64_no_dash.
Qed.

Lemma Base64encode_no_dash b : no_dash (to_bytes (Base64encode b)).
Proof.
  unfold Base64encode. rewrite to_of_bytes.
  induction b as [|x|x y|x y z b IH] using triple_ind; cbn [b64_encode];
    unfold no_dash in *; repeat apply Forall_app_2.
  all: first [apply group_no_dash | assumption | constructor].
Qed.

Lemma no_dash_split (d1 d2 r1 r2 : bytes) :
  no_dash d1 -> no_dash d2 ->
  (r1 = [] \/ exists r, r1 = Byte.x2d :: r) -> (r2 = [] \/ exists r, r2 = Byte.x2d :: r) ->
  d1 ++ r1 = d2 ++ r2 -> d1 = d2 /\ r1 = r2.
Proof.
  intros H1. revert d2. induction H1 as [|b1 d1 Hb1 H1 IH]; intros d2 H2 Hr1 Hr2 Heq.
  - destruct H2 as [|b2 d2 Hb2 _]; [done|]. exfalso.
    destruct Hr1 as [->|[r ->]]; simplify_eq/=.
  - destruct H2 as [|b2 d2 Hb2 H2].
    + exfalso. destruct Hr2 as [->|[r ->]]; simplify_eq/=.
    + simpl in Heq. injection Heq as <- Heq. by destruct (IH d2 H2 Hr1 Hr2 Heq) as [-> ->].
Qed.

Lemma to_bytes_app s t : to_bytes (s ++ t)%string = to_bytes s ++ to_bytes t.
Proof.
  unfold to_bytes, String.list_byte_of_string.
  induction s as [|a s IH]; [done|]. simpl. f_equal. exact IH.
Qed.

Lemma readableKey_bytes i :
  to_bytes (readableKey i) =
  to_bytes (GraphItemType i) ++ Byte.x2d :: [Byte.x2d; Byte.x2d] ++
  to_bytes (Base64encode (K1 i)) ++ Byte.x2d :: [Byte.x2d; Byte.x2d] ++
  to_bytes (Base64encode (K2 i)) ++ Byte.x2d :: [Byte.x2d; Byte.x2d] ++
  to_bytes (Base64encode (K3 i)).
Proof.
  unfold readableKey. cbn [String.concat]. rewrite !to_bytes_app. done.
Qed.

Lemma readableKey_inj i1 i2 :
  no_dash (to_bytes (GraphItemType i1)) -> no_dash (to_bytes (GraphItemType i2)) ->
  readableKey i1 = readableKey i2 <-> item_key i1 = item_key i2.
Proof.
  intros Hd1 Hd2. split.
  - intros Heq. apply (f_equal to_bytes) in Heq. rewrite !readableKey_bytes in Heq.
    apply no_dash_split in Heq as [H0 Heq]; [|eauto using Base64encode_no_dash..].
    injection Heq as Heq.
    apply no_dash_split in Heq as [H1 Heq]; [|eauto using Base64encode_no_dash..].
    injection Heq as Heq.
    apply no_dash_split in Heq as [H2 Heq]; [|eauto using Base64encode_no_dash..].
    injection Heq as H3. apply (inj to_bytes) in H0, H1, H2, H3.
    apply (inj Base64encode) in H1, H2, H3. unfold item_key. congruence.
  - unfold item_key, readableKey. intros [= -> -> -> ->]. done.
Qed.
