(* ===== verification/QueryAlpha.v ===== *)
(** * tracker/internal/services/v1alpha: the query services

    service_dependency.go, service_module.go and the listing of
    service_source.go: each call is one call of the graph store and a decoding
    of what it found. *)

From S2P Require Import Prelude GoCodec GoHash Api GraphSpec StoreAlpha KeysAlpha.

(** ** tracker messages *)

Record Dependency := mkDep { Dependency_Module : Module_; Dependency_Depends : Depends }.
Record ManagedSource := mkManagedSource { MS_Source : Source; MS_Manages : Manages }.
Record ManagedModule := mkManagedModule { MM_Module : Module_; MM_Manages : Manages }.

Record ListSourceResponse := mkListSourceResponse
  { LSR_Page : Z; LSR_Count : Z; LSR_Sources : list Source }.
Record ListModuleResponse := mkListModuleResponse
  { LMR_Page : Z; LMR_Count : Z; LMR_Modules : list Module_ }.

Section Services.
Context `{JsonCodec} {W : Type} `{GraphStoreOps W}.

(** ** service_dependency.go *)

Definition read_dependency (pair : GraphItemPair) : outcome Dependency :=
let? a := as_module (Pair_Node pair) in
let? b := as_depends (Pair_Edge pair) in
Ret (mkDep a b).

Definition ListDependents (req : DependencyRequest) : M W (list Dependency) :=
let key := keyForDependencyRequest req in
let! response := on_error (gs_FindDownstream (mkFindRequest [key] [DependsType] [ModuleType]))
                          (fun _ => ErrModuleNotFound) in
lift (omap_list read_dependency response).

Definition ListDependencies (req : DependencyRequest) : M W (list Dependency) :=
let key := keyForDependencyRequest req in
let! response := on_error (gs_FindUpstream (mkFindRequest [key] [DependsType] [ModuleType]))
                          (fun _ => ErrModuleNotFound) in
lift (omap_list read_dependency response).

(** ** service_module.go *)

Definition moduleService_List (req : PageRequest) : M W ListModuleResponse :=
let! items := gs_List (mkListRequest (PR_Page req) (PR_Count req) ModuleType) in
let! modules := lift (omap_list as_module items) in
ret (mkListModuleResponse (PR_Page req) (PR_Count req) modules).

Definition read_source (pair : GraphItemPair) : outcome ManagedSource :=
let? a := as_source (Pair_Node pair) in
let? b := as_manages (Pair_Edge pair) in
Ret (mkManagedSource a b).

Definition ListSources (req : Module_) : M W (list ManagedSource) :=
let key := keyForModule req in
let! response := on_error (gs_FindDownstream (mkFindRequest [key] [ManagesType] [SourceType]))
                          (fun _ => ErrModuleNotFound) in
lift (omap_list read_source response).

Definition read_module (pair : GraphItemPair) : outcome ManagedModule :=
let? a := as_module (Pair_Node pair) in
let? b := as_manages (Pair_Edge pair) in
Ret (mkManagedModule a b).

Definition ListManaged (req : option Source) : M W (list ManagedModule) :=
let key := keyForSource req in
let! response := on_error (gs_FindUpstream (mkFindRequest [key] [ManagesType] [ModuleType]))
                          (fun _ => ErrModuleNotFound) in
lift (omap_list read_module response).

(** ** service_source.go *)

Definition sourceService_List (req : PageRequest) : M W ListSourceResponse :=
let! items := gs_List (mkListRequest (PR_Page req) (PR_Count req) SourceType) in
let! sources := lift (omap_list as_source items) in
ret (mkListSourceResponse (PR_Page req) (PR_Count req) sources).
End Services.

(** ** Graphs whose items decode *)

(** What the services rely on: an item holds the JSON of a message of its
    type, and a node's keys are those of the message. *)
Definition decodable_at `{JsonCodec} (k : ikey) (c : ival) : Prop :=
  let i := edge_item (k, c) in
  (GraphItemType i = SourceType ->
     exists s, as_source i = Ret s /\ k = (SourceType, keyForSource (Some s), keyForSource (Some s), [])) /\
  (GraphItemType i = ModuleType ->
     exists m, as_module i = Ret m /\ k = (ModuleType, keyForModule m, keyForModule m, [])) /\
  (GraphItemType i = ManagesType -> exists m, as_manages i = Ret m) /\
  (GraphItemType i = DependsType -> exists d, as_depends i = Ret d).

Definition decodable `{JsonCodec} (v : astore) : Prop :=
  forall k c, v !! k = Some c -> decodable_at k c.

(** The message an item stands for, when it has one. *)
Definition module_at `{JsonCodec} (v : astore) (k : bytes) (m : Module_) : Prop :=
  exists c, v !! (ModuleType, k, k, []) = Some c /\
            as_module (edge_item ((ModuleType, k, k, []), c)) = Ret m.
Definition source_at `{JsonCodec} (v : astore) (k : bytes) (s : Source) : Prop :=
  exists c, v !! (SourceType, k, k, []) = Some c /\
            as_source (edge_item ((SourceType, k, k, []), c)) = Ret s.
Definition depends_at `{JsonCodec} (v : astore) (a b k3 : bytes) (d : Depends) : Prop :=
  exists c, v !! (DependsType, a, b, k3) = Some c /\
            as_depends (edge_item ((DependsType, a, b, k3), c)) = Ret d.
Definition manages_at `{JsonCodec} (v : astore) (a b k3 : bytes) (m : Manages) : Prop :=
  exists c, v !! (ManagesType, a, b, k3) = Some c /\
            as_manages (edge_item ((ManagesType, a, b, k3), c)) = Ret m.

Lemma omap_list_total {A B} (f : A -> outcome B) l :
  (forall x, x ∈ l -> exists y, f x = Ret y) -> exists ys, omap_list f l = Ret ys.
Proof.
  induction l as [|x l IH]; intros Hf; simpl; [eauto|].
  destruct (Hf x) as [y ->]; [by left|]. destruct IH as [ys ->]; [|simpl; eauto].
  intros z Hz. apply Hf. by right.
Qed.

Lemma omap_list_elem {A B} (f : A -> outcome B) l ys y :
  omap_list f l = Ret ys -> y ∈ ys <-> exists x, x ∈ l /\ f x = Ret y.
Proof.
  rewrite omap_list_Ret. induction 1 as [|x z l ys Hx _ IH].
  - setoid_rewrite elem_of_nil. naive_solver.
  - setoid_rewrite elem_of_cons. rewrite IH. split.
    + intros [->|(a & ? & ?)]; eauto.
    + intros (a & [->|Ha] & Hfa); [left; congruence|eauto].
Qed.

(** Reading does not depend on the keys of an item. *)
Lemma as_module_node `{JsonCodec} e : as_module (node_item e) = as_module (edge_item e).
Proof. done. Qed.
Lemma as_source_node `{JsonCodec} e : as_source (node_item e) = as_source (edge_item e).
Proof. done. Qed.

Section Decoded.
Context `{JsonCodec} (v : astore) (Hdec : decodable v).

Lemma decodable_module (k : bytes) (n : entry) :
v !! n.1 = Some n.2 -> e_type n = ModuleType -> e_k1 n = k ->
exists m, as_module (node_item n) = Ret m /\ module_at v k m /\ k = keyForModule m.
Proof using Hdec.
intros Hn Ht <-. destruct (Hdec _ _ Hn) as (_ & Hm & _). destruct n as [kn cn]. simpl in *.
destruct (Hm Ht) as (m & Hread & ->). exists m. rewrite as_module_node.
split_and!; [done| |done]. exists cn. done.
Qed.

Lemma decodable_source (k : bytes) (n : entry) :
v !! n.1 = Some n.2 -> e_type n = SourceType -> e_k1 n = k ->
exists s, as_source (node_item n) = Ret s /\ source_at v k s /\ k = keyForSource (Some s).
Proof using Hdec.
intros Hn Ht <-. destruct (Hdec _ _ Hn) as (Hm & _). destruct n as [kn cn]. simpl in *.
destruct (Hm Ht) as (m & Hread & ->). exists m. rewrite as_source_node.
split_and!; [done| |done]. exists cn. done.
Qed.

Lemma decodable_depends a b k3 c :
v !! (DependsType, a, b, k3) = Some c ->
exists d, as_depends (edge_item ((DependsType, a, b, k3), c)) = Ret d /\ depends_at v a b k3 d.
Proof using Hdec.
intros He. destruct (Hdec _ _ He) as (_ & _ & _ & Hd). destruct (Hd eq_refl) as [d Hr].
exists d. split; [done|]. by exists c.
Qed.

Lemma decodable_manages a b k3 c :
v !! (ManagesType, a, b, k3) = Some c ->
exists d, as_manages (edge_item ((ManagesType, a, b, k3), c)) = Ret d /\ manages_at v a b k3 d.
Proof using Hdec.
intros He. destruct (Hdec _ _ He) as (_ & _ & Hd & _). destruct (Hd eq_refl) as [d Hr].
exists d. split; [done|]. by exists c.
Qed.
End Decoded.
