(* ===== verification/SearchAlpha.v ===== *)
(** * tracker/internal/services/v1alpha/service_search.go: searches

    A search is a bidirectional stream: requests come in, one response per
    visited node goes out.  The world of a search is the store's world and
    what was sent; receiving, the context and the transport are an
    environment. *)

From S2P Require Import Prelude GoCodec GoHash Api GraphSpec StoreAlpha KeysAlpha QueryAlpha.

(** ** tracker messages *)

Record SearchRequest := mkSearchRequest
  { Cancel : bool; DependentsOf : option DependencyRequest; DependenciesOf : option DependencyRequest;
    SourcesFor : option Module_; ModulesFor : option Source }.

(** The four result fields are slices that may be nil. *)
Record SearchResponse := mkSearchResponse
  { Request : SearchRequest; Dependents : option (list Dependency);
    Dependencies : option (list Dependency); Sources : option (list ManagedSource);
    Modules : option (list ManagedModule) }.

Definition dependencies_request (d : DependencyRequest) : SearchRequest :=
  mkSearchRequest false None (Some d) None None.
Definition dependents_request (d : DependencyRequest) : SearchRequest :=
  mkSearchRequest false (Some d) None None None.

(** ** The stream *)

(** [env_recv n] is the [n]-th [Recv] (an error is [None]), [env_done n]
    whether the context is done when it is looked at for the [n]-th time,
    [env_send n] the error of the [n]-th [Send]. *)
Record SearchEnv := mkEnv
  { env_recv : nat -> option SearchRequest; env_done : nat -> bool; env_send : nat -> option error }.

Record SearchWorld (W : Type) := mkSearchWorld
  { store_world : W; sent : list SearchResponse; polls : nat }.
Arguments mkSearchWorld {W} store_world sent polls.
Arguments store_world {W} s.
Arguments sent {W} s.
Arguments polls {W} s.

(** How a handler ends: it returned, it waits for a message that never comes,
    or the loop is still running when the fuel is spent. *)
Inductive handled := Returned | Blocked | Running.

(** [consumeStream]: what ever comes through the channel.  The goroutine looks
    at the context once and receives once. *)
Definition consumeStream (env : SearchEnv) : list SearchRequest :=
  if env_done env 0 then []
  else match env_recv env 0 with
       | Some req => [req]
       | None => []
       end.

(** ** Requests and responses *)

Definition dependency_request_of (dependency : Dependency) : DependencyRequest :=
  let m := Dependency_Module dependency in
  mkDependencyRequest (Module_Language m) (Module_Organization m) (Module_Module m) (Module_Name m).

Definition transformResponse (response : SearchResponse) : outcome (list SearchRequest) :=
  match Dependencies response with
  | Some dependencies =>
      Ret (map (fun d => dependencies_request (dependency_request_of d)) dependencies)
  | None =>
      match Dependents response with
      | Some dependents =>
          Ret (map (fun d => dependents_request (dependency_request_of d)) dependents)
      | None => Fail ErrUnimplemented
      end
  end.

Definition keyFor (request : SearchRequest) : string :=
  match DependenciesOf request, DependentsOf request, SourcesFor request, ModulesFor request with
  | Some d, _, _, _ => Base64encode (keyForDependencyRequest d)
  | None, Some d, _, _ => Base64encode (keyForDependencyRequest d)
  | None, None, Some m, _ => Base64encode (keyForModule m)
  | None, None, None, Some s => Base64encode (keyForSource (Some s))
  | None, None, None, None => ""
  end.

(** [for _, item := range nextBatch]: keep the requests whose key is new. *)
Definition add_new (st : gset string * list SearchRequest) (item : SearchRequest) :
    gset string * list SearchRequest :=
  let '(seen, next) := st in
  if decide (keyFor item ∈ seen) then (seen, next) else ({[ keyFor item ]} ∪ seen, next ++ [item]).

Section Search.
Context `{JsonCodec} {W : Type} `{GraphStoreOps W} (env : SearchEnv).
Notation SW := (M (SearchWorld W)).

Definition on_store {A} (m : M W A) : SW A :=
fun s => let '(o, w) := m (store_world s) in (o, mkSearchWorld w (sent s) (polls s)).

Definition Send (response : SearchResponse) : SW unit :=
fun s => match env_send env (length (sent s)) with
         | Some e => (Fail e, s)
         | None => (Ret tt, mkSearchWorld (store_world s) (sent s ++ [response]) (polls s))
         end.

(** [select { case <-done: .. default: .. }] *)
Definition poll_done : SW bool :=
fun s => (Ret (env_done env (S (polls s))), mkSearchWorld (store_world s) (sent s) (S (polls s))).

Definition processRequest (request : SearchRequest) : M W SearchResponse :=
match DependenciesOf request, DependentsOf request, SourcesFor request, ModulesFor request with
| Some d, _, _, _ =>
    let! result := ListDependencies d in
    ret (mkSearchResponse request None (Some result) None None)
| None, Some d, _, _ =>
    let! result := ListDependents d in
    ret (mkSearchResponse request (Some result) None None None)
| None, None, Some m, _ =>
    let! result := ListSources m in
    ret (mkSearchResponse request None None (Some result) None)
| None, None, None, Some s =>
    let! result := ListManaged (Some s) in
    ret (mkSearchResponse request None None None (Some result))
| None, None, None, None => fail ErrUnimplemented
end.

(** [Search]: one request, one response.  When a request is there and the
  context is done, [select] takes either branch: [first] says which. *)
Definition Search (first : bool) : SW handled :=
let stream := consumeStream env in
let! done := poll_done in
match stream with
| [] => if done : bool then ret Returned else ret Blocked
| request :: _ =>
    if (done && first)%bool then ret Returned else
    if Cancel request then ret Returned else
    let! response := on_store (processRequest request) in
    let! _ := Send response in
    ret Returned
end.

(** [s.processRequest] and [transformResponse] of one request of the tier. *)
Definition process_one (st : gset string * list SearchRequest * list SearchResponse)
  (request : SearchRequest) : M W (gset string * list SearchRequest * list SearchResponse) :=
let '(seen, next, toSend) := st in
let! response := processRequest request in
let! nextBatch := lift (transformResponse response) in
let '(seen', next') := fold_left add_new nextBatch (seen, next) in
ret (seen', next', toSend ++ [response]).

Definition send_all (toSend : list SearchResponse) : SW unit :=
mfold (fun _ response => Send response) tt toSend.

(** What [select] finds after a round: [None] is the default branch.  Both
  channels are never ready: nothing follows the first message. *)
Definition after_round (stream : list SearchRequest) : SW (option handled) :=
let! done := poll_done in
if done : bool then ret (Some Returned) else
match stream with
| [] => ret None
| req :: _ => if Cancel req then ret (Some Returned)
              else fail (ErrInvalidArgument "unexpected request body")
end.

Fixpoint bfs_loop (fuel : nat) (stream queue : list SearchRequest) (seen : gset string) : SW handled :=
match fuel, queue with
| _, [] => ret Returned
| O, _ :: _ => ret Running
| S fuel', _ :: _ =>
    let! (seen', next, toSend) := on_store (mfold process_one (seen, [], []) queue) in
    let! _ := send_all toSend in
    let! verdict := after_round stream in
    match verdict with
    | Some h => ret h
    | None => bfs_loop fuel' stream next seen'
    end
end.

Definition BreadthFirstSearch (fuel : nat) : SW handled :=
match consumeStream env with
| [] => ret Blocked
| root :: stream => bfs_loop fuel stream [root] {[ keyFor root ]}
end.

(** The stack is popped at its end and then replaced by the new requests. *)
Fixpoint dfs_loop (fuel : nat) (stream stack : list SearchRequest) (seen : gset string) : SW handled :=
match fuel, last stack with
| _, None => ret Returned
| O, Some _ => ret Running
| S fuel', Some node =>
    let! response := on_store (processRequest node) in
    let! nextBatch := lift (transformResponse response) in
    let '(seen', next) := fold_left add_new nextBatch (seen, []) in
    let! _ := Send response in
    let! verdict := after_round stream in
    match verdict with
    | Some h => ret h
    | None => dfs_loop fuel' stream next seen'
    end
end.

Definition DepthFirstSearch (fuel : nat) : SW handled :=
match consumeStream env with
| [] => ret Blocked
| root :: stream => dfs_loop fuel stream [root] {[ keyFor root ]}
end.
End Search.
