(* ===== verification/TrackAlpha.v ===== *)
(** * tracker/internal/services/v1alpha/service_source.go: tracking a source

    [Track] compares what the graph holds for a source with what its manifests
    declare, deletes the edges no longer declared and puts the rest. *)

From S2P Require Import Prelude GoCodec GoHash Api GraphSpec StoreAlpha KeysAlpha.

Section Track.
Context `{JsonCodec} {W : Type} `{GraphStoreOps W} `{MapRange}.

(** The [map[string]*store.GraphItem] of the code. *)
Notation itemset := (gmap string GraphItem).

(** [idx[readableKey(item)] = item] *)
Definition add_item (i : GraphItem) (idx : itemset) : itemset := <[readableKey i := i]> idx.

Definition source_iface (source : option Source) : iface :=
match source with Some s => IVal (VSource s) | None => INil KSource end.

(** ** getCurrent *)

(** Only the depends edges produced by this source, or by none. *)
Definition owned_edge (sourceKey : bytes) (edge : GraphItem) : bool :=
bool_decide (length (K3 edge) = 0) || bool_decide (K3 edge = sourceKey).

Definition add_depended (sourceKey : bytes) (idx : itemset) (depended : GraphItemPair) : itemset :=
if owned_edge sourceKey (Pair_Edge depended)
then add_item (Pair_Edge depended) (add_item (Pair_Node depended) idx)
else idx.

Definition add_managed (sourceKey : bytes) (idx : itemset) (managed : GraphItemPair) :
  M W itemset :=
let idx := add_item (Pair_Edge managed) (add_item (Pair_Node managed) idx) in
let! depends := gs_FindUpstream
  (mkFindRequest [K1 (Pair_Node managed)] [DependsType] [ModuleType]) in
ret (fold_left (add_depended sourceKey) depends idx).

Definition getCurrent (source : option Source) : M W itemset :=
let! item := lift (Encode (source_iface source)) in
let idx := add_item item ∅ in
let! manages := gs_FindUpstream
  (mkFindRequest [keyForSource source] [ManagesType] [ModuleType]) in
mfold (add_managed (K1 item)) idx manages.

(** ** getProposed *)

Definition set_keys (i : GraphItem) (k1 k2 k3 : bytes) : GraphItem :=
mkGraphItem (GraphItemType i) k1 k2 k3 (Encoding i) (GraphItemData i).

Definition propose_dependency (request : SourceRequest) (source managedModule : GraphItem)
  (mf : ManagementFile) (idx : itemset) (dependency : ManifestDependency) : outcome itemset :=
let? dependedModule := Encode (IVal (VModule (mkModule (MF_Language mf)
    (Dep_Organization dependency) (Dep_Module dependency) (Dep_Name dependency)))) in
let? ref := match SR_Source request with
            | Some s => Ret (Source_Ref s)
            | None => Panic "nil pointer dereference"
            end in
let? depends := Encode (IVal (VDepends (mkDepends (MF_Language mf)
    (Dep_VersionConstraint dependency) (Dep_Scopes dependency) ref))) in
let depends := set_keys depends (K1 managedModule) (K1 dependedModule) (K1 source) in
Ret (add_item depends (add_item dependedModule idx)).

Definition manages_of (mf : ManagementFile) : Manages :=
mkManages (MF_Language mf) (MF_System mf) (MF_Version mf).

Definition propose_discovered (managedModule : GraphItem) (mf : ManagementFile) (idx : itemset) :
  outcome itemset :=
if decide (MF_SourceUrl mf = ""%string) then Ret idx else
let? discoveredSource := Encode (IVal (VSource (mkSource (MF_SourceUrl mf) "repository" ""))) in
let? discoveredManages := Encode (IVal (VManages (manages_of mf))) in
let discoveredManages :=
  set_keys discoveredManages (K1 discoveredSource) (K1 managedModule) (K3 discoveredManages) in
Ret (add_item discoveredManages (add_item discoveredSource idx)).

Definition propose_file (request : SourceRequest) (source : GraphItem) (idx : itemset)
  (mf : ManagementFile) : outcome itemset :=
let? managedModule := Encode (IVal (VModule (mkModule (MF_Language mf)
    (MF_Organization mf) (MF_Module mf) (MF_Name mf)))) in
let? manages := Encode (IVal (VManages (manages_of mf))) in
let manages := set_keys manages (K1 source) (K1 managedModule) (K3 manages) in
let idx := add_item manages (add_item managedModule idx) in
let? idx := propose_discovered managedModule mf idx in
ofold (propose_dependency request source managedModule mf) idx (MF_Dependencies mf).

Definition getProposed (request : SourceRequest) : outcome itemset :=
let? source := Encode (source_iface (SR_Source request)) in
ofold (propose_file request source) (add_item source ∅) (SR_ManagementFiles request).

(** ** Track *)

(** Modules stay in the graph when the last edge to them goes. *)
Definition to_delete (currentSet proposedSet : itemset) : list GraphItem :=
filter (fun i => GraphItemType i <> ModuleType)
       (filter (fun p => proposedSet !! p.1 = None) (range_map currentSet)).*2.

Definition to_put (proposedSet : itemset) : list GraphItem := (range_map proposedSet).*2.

Definition Track (req : SourceRequest) : M W bool :=
let! currentSet := on_error (getCurrent (SR_Source req)) (fun _ => ErrModuleNotFound) in
let! proposedSet := on_error (lift (getProposed req)) (fun _ => ErrModuleNotFound) in
let toDelete := to_delete currentSet proposedSet in
let toPut := to_put proposedSet in
let! _ := on_error (gs_Delete toDelete) (fun _ => ErrPartialDeletion) in
let! _ := on_error (gs_Put toPut) (fun _ => ErrPartialInsertion) in
ret true.
End Track.
