(* ===== verification/Topology.v ===== *)
(** * deps/internal/cmds/get/topology.go: the topology of a module

    The command reads the responses of a breadth-first search into a graph and
    peels it tier by tier, a module leaving when its last parent has. *)

From Stdlib Require Import Ascii.
From S2P Require Import Prelude GoCodec Api GraphSpec StoreAlpha KeysAlpha QueryAlpha SearchAlpha.

(** ** Keys *)

Definition requestToModule (req : DependencyRequest) : Module_ :=
  mkModule (DR_Language req) (DR_Organization req) (DR_Module req) (DR_Name req).

(** [fmt.Sprintf("%s|%s|%s", ..)] *)
Definition topology_key (module : Module_) : string :=
  Module_Language module +:+ "|" +:+ Module_Organization module +:+ "|" +:+ Module_Module module.

Definition keyForRequest (req : DependencyRequest) : string :=
  DR_Language req +:+ "|" +:+ DR_Organization req +:+ "|" +:+ DR_Module req.

(** ** Reading the responses *)

(** [counter], [nodes] and [edges]; a [map[string]bool] is the set of its keys. *)
Record topo := mkTopo
  { counter : gmap string (gset string); nodes : gmap string Module_; edges : gmap string (list string) }.

Definition empty_topo : topo := mkTopo ∅ ∅ ∅.

(** [if _, ok := nodes[key]; !ok { nodes[key] = module; counter[key] = .. }] *)
Definition see (key : string) (module : Module_) (t : topo) : topo :=
  match nodes t !! key with
  | Some _ => t
  | None => mkTopo (<[key := ∅]> (counter t)) (<[key := module]> (nodes t)) (edges t)
  end.

(** One dependency of the module of a response. *)
Definition see_dependency (moduleKey : string) (t : topo) (dependency : Dependency) : topo :=
  let dependencyKey := topology_key (Dependency_Module dependency) in
  let t := see dependencyKey (Dependency_Module dependency) t in
  mkTopo (alter (fun parents => {[ moduleKey ]} ∪ parents) dependencyKey (counter t)) (nodes t) (edges t).

Definition source_of (resp : SearchResponse) : option (DependencyRequest * list Dependency) :=
  match DependentsOf (Request resp) with
  | Some source => Some (source, default [] (Dependents resp))
  | None =>
      match DependenciesOf (Request resp) with
      | Some source => Some (source, default [] (Dependencies resp))
      | None => None
      end
  end.

Definition receive (t : topo) (resp : SearchResponse) : outcome topo :=
  match source_of resp with
  | None => Fail (ErrText "source module not included")
  | Some (source, items) =>
      let module := requestToModule source in
      let moduleKey := topology_key module in
      let t := see moduleKey module t in
      let t := fold_left (see_dependency moduleKey) items t in
      Ret (mkTopo (counter t) (nodes t)
             (<[moduleKey := map (fun d => topology_key (Dependency_Module d)) items]> (edges t)))
  end.

(** ** Peeling *)

(** The state and the tier under construction: keys, and modules. *)
Notation peel_state := (topo * list string * list (option Module_))%type.

Definition peel_dependency (key : string) (st : peel_state) (dependencyKey : string) : peel_state :=
  let '(t, next, tier) := st in
  match counter t !! dependencyKey with
  | None => st
  | Some parents =>
      let parents := parents ∖ {[ key ]} in
      if decide (parents = ∅) then
        (mkTopo (delete dependencyKey (counter t)) (delete dependencyKey (nodes t)) (edges t),
         next ++ [dependencyKey], tier ++ [nodes t !! dependencyKey])
      else (mkTopo (<[dependencyKey := parents]> (counter t)) (nodes t) (edges t), next, tier)
  end.

Definition peel_module (st : peel_state) (key : string) : peel_state :=
  let '(t, next, tier) := st in
  let dependencyKeys := default [] (edges t !! key) in
  fold_left (peel_dependency key) dependencyKeys
    (mkTopo (counter t) (nodes t) (delete key (edges t)), next, tier).

(** The loop over the tiers; [None] when the fuel is spent. *)
Fixpoint peel_tiers (fuel : nat) (t : topo) (modules : list string)
    (result : list (list (option Module_))) : option (list (list (option Module_))) :=
  match modules, fuel with
  | [], _ => Some result
  | _, O => None
  | _, S fuel' =>
      let '(t, next, tier) := fold_left peel_module modules (t, [], []) in
      peel_tiers fuel' t next (match tier with [] => result | _ => result ++ [tier] end)
  end.

Definition root_key (request : SearchRequest) : outcome string :=
  match DependentsOf request, DependenciesOf request with
  | Some req, _ => Ret (keyForRequest req)
  | None, Some req => Ret (keyForRequest req)
  | None, None => Fail (ErrText "failed to determine root key for topological sort")
  end.

(** What the client gets from the service: opening the stream, sending the
    request, and the responses up to io.EOF or an error. *)
Record SearchClient := mkSearchClient
  { sc_open : option error; sc_send : option error;
    sc_responses : list SearchResponse; sc_end : option error }.

Definition refused (e : option error) : outcome unit :=
  match e with Some e => Fail e | None => Ret tt end.

(** The loop runs at most once per module and once more for the root. *)
Definition topology (client : SearchClient) (request : SearchRequest) :
    outcome (option (list (list (option Module_)))) :=
  let? _ := refused (sc_open client) in
  let? _ := refused (sc_send client) in
  let? t := ofold receive empty_topo (sc_responses client) in
  let? _ := refused (sc_end client) in
  let? rootKey := root_key request in
  Ret (peel_tiers (S (S (size (nodes t))))
         (mkTopo (delete rootKey (counter t)) (delete rootKey (nodes t)) (edges t))
         [rootKey] [[nodes t !! rootKey]]).

(** ** topologyCommand and its neighbours: which requests are sent *)

(** [strings.Split] and [strings.SplitN(.., 2)] on a one-byte separator. *)
Fixpoint split_at (c : Ascii.ascii) (s : string) : option (string * string) :=
  match s with
  | EmptyString => None
  | String a s' =>
      if decide (a = c) then Some (""%string, s')
      else match split_at c s' with Some (x, y) => Some (String a x, y) | None => None end
  end.
Definition split_two (c : Ascii.ascii) (s : string) : list string :=
  match split_at c s with Some (x, y) => [x; y] | None => [s] end.
Fixpoint split_all (fuel : nat) (c : Ascii.ascii) (s : string) : list string :=
  match fuel, split_at c s with
  | S fuel', Some (x, y) => x :: split_all fuel' c y
  | _, _ => [s]
  end.

(** [strings.Replace(name, "@", "", 1)] *)
Definition drop_at (s : string) : string :=
  match split_at "@"%char s with Some (x, y) => x +:+ y | None => s end.

Definition parseName (language name : string) : list string :=
  let split :=
    if decide (language = "java"%string) then split_all (String.length name) ":"%char name
    else if decide (language = "node"%string) then split_two "/"%char (drop_at name)
    else if decide (language = "js"%string) then split_two "/"%char (drop_at name)
    else split_two "/"%char name in
  match split with
  | [x] => ["_"%string; x]
  | _ => split
  end.

(** [orgAndModule[0]] and [orgAndModule[1]]; [parseName] returns at least two. *)
Definition parsed (language name : string) : string * string :=
  (nth 0 (parseName language name) ""%string, nth 1 (parseName language name) ""%string).

Definition setRequestFields (req : DependencyRequest) : DependencyRequest :=
  if decide (DR_Name req = ""%string) then req
  else let '(organization, module) := parsed (DR_Language req) (DR_Name req) in
       mkDependencyRequest (DR_Language req) organization module (DR_Name req).

Definition setModuleFields (module : Module_) : Module_ :=
  if decide (Module_Name module = ""%string) then module
  else let '(organization, name) := parsed (Module_Language module) (Module_Name module) in
       mkModule (Module_Language module) organization name (Module_Name module).

(** The guard of [dependencies], [dependents] and [topology]. *)
Definition refuses_request (req : DependencyRequest) : bool :=
  bool_decide (DR_Language req = ""%string) &&
  ((bool_decide (DR_Organization req = ""%string) || bool_decide (DR_Module req = ""%string)) ||
   bool_decide (DR_Name req = ""%string)).

Definition usage_error : error :=
  ErrText "language + name or language + organization + module must be provided".

Definition topology_run (client : SearchRequest -> SearchClient)
    (requestConverter : DependencyRequest -> SearchRequest) (req : DependencyRequest) :
    outcome (option (list (list (option Module_)))) :=
  let req := setRequestFields req in
  if refuses_request req then Fail usage_error
  else topology (client (requestConverter req)) (requestConverter req).
