(* ===== verification/Concurrent.v ===== *)
(** * Handlers that run at the same time

    A gRPC server runs every call in a goroutine of its own; what the handlers
    of the tracker share is the graph store, whose methods are atomic.  A
    handler here is the same definition the sequential theorems are about: it
    is run on a world that replays the answers its calls have had so far, and
    stops at the first call that has none.  A step of the server lets one
    handler make its next call. *)

From S2P Require Import Prelude Api GraphSpec.

(** ** Calls of the store *)

Inductive store_call :=
| CallPut (items : list GraphItem)
| CallDelete (items : list GraphItem)
| CallList (req : ListRequest)
| CallUpstream (req : FindRequest)
| CallDownstream (req : FindRequest).

Inductive store_reply :=
| Wrote
| Listed (items : list GraphItem)
| Found (pairs : list GraphItemPair).

Definition perform {W} `{GraphStoreOps W} (c : store_call) : M W store_reply :=
  match c with
  | CallPut items => let! _ := gs_Put items in ret Wrote
  | CallDelete items => let! _ := gs_Delete items in ret Wrote
  | CallList req => let! items := gs_List req in ret (Listed items)
  | CallUpstream req => let! pairs := gs_FindUpstream req in ret (Found pairs)
  | CallDownstream req => let! pairs := gs_FindDownstream req in ret (Found pairs)
  end.

(** ** Replaying a handler *)

Notation history := (list (outcome store_reply)).

Record replay := mkReplay { recorded : history; waiting : option store_call }.

Definition recall (c : store_call) : M replay store_reply := fun s =>
  match recorded s with
  | o :: rest => (o, mkReplay rest (waiting s))
  | [] => (Panic "suspended", mkReplay [] (Some c))
  end.

Definition wrote (r : store_reply) : M replay unit :=
  match r with Wrote => ret tt | _ => panic "not the reply of this call" end.
Definition listed (r : store_reply) : M replay (list GraphItem) :=
  match r with Listed items => ret items | _ => panic "not the reply of this call" end.
Definition found (r : store_reply) : M replay (list GraphItemPair) :=
  match r with Found pairs => ret pairs | _ => panic "not the reply of this call" end.

#[export] Instance replay_ops : GraphStoreOps replay := {|
  gs_Put items := let! r := recall (CallPut items) in wrote r;
  gs_Delete items := let! r := recall (CallDelete items) in wrote r;
  gs_List req := let! r := recall (CallList req) in listed r;
  gs_FindUpstream req := let! r := recall (CallUpstream req) in found r;
  gs_FindDownstream req := let! r := recall (CallDownstream req) in found r |}.

(** What a handler does after its calls have been answered by [h]: its next
    call, or how it returns. *)
Definition next_call {A} (handler : M replay A) (h : history) : store_call + outcome A :=
  match handler (mkReplay h None) with
  | (o, s) => match waiting s with Some c => inl c | None => inr o end
  end.

(** ** The server *)

Record served (W : Type) := mkServed { store_world : W; histories : list history }.
Arguments mkServed {W} store_world histories.
Arguments store_world {W} s.
Arguments histories {W} s.

Section Serve.
Context {W : Type} `{GraphStoreOps W} {A : Type} (handlers : list (M replay A)).

Definition serve_start (w : W) : served W := mkServed w (map (fun _ => []) handlers).

(** Handler [i] makes its next call. *)
Inductive serve_by (i : nat) : served W -> served W -> Prop :=
| serve_call handler h c o w w' hs :
    handlers !! i = Some handler -> hs !! i = Some h -> next_call handler h = inl c ->
    perform c w = (o, w') ->
    serve_by i (mkServed w hs) (mkServed w' (<[i := h ++ [o]]> hs)).

Definition serve_step (s s' : served W) : Prop := exists i, serve_by i s s'.

(** Every handler has returned, with [o]. *)
Definition all_returned (s : served W) (o : outcome A) : Prop :=
forall i handler h, handlers !! i = Some handler -> histories s !! i = Some h -> next_call handler h = inr o.

(** As many histories as handlers. *)
Lemma serve_length w s : rtc serve_step (serve_start w) s -> length (histories s) = length handlers.
Proof.
assert (forall s1 s2, rtc serve_step s1 s2 -> length (histories s2) = length (histories s1)) as Hall.
{ induction 1 as [|x y z Hxy _ IH]; [done|]. rewrite IH. destruct Hxy as [i []]. simpl. apply length_insert. }
intros Hs. rewrite (Hall _ _ Hs). simpl. apply length_map.
Qed.

(** Whether some handler has a call to make. *)
Definition pending (s : served W) : bool :=
existsb (fun p => match next_call p.1 p.2 with inl _ => true | inr _ => false end) (zip handlers (histories s)).

Lemma pending_red s : pending s = true <-> red serve_step s.
Proof.
unfold pending. rewrite existsb_exists. split.
- intros ([m h] & Hin%list_elem_of_In & Hc). apply list_elem_of_lookup in Hin as (i & Hi).
  apply lookup_zip_with_Some in Hi as (m' & h' & [= -> ->] & Hm & Hh). simpl in Hc.
  destruct (next_call m' h') as [c|] eqn:Hn; [|done].
  destruct s as [w hs], (perform c w) as [o w'] eqn:Hrun. eexists _, i. by eapply serve_call.
- intros [s' Hs]. destruct Hs as [i [m h c o w w' hs Hm Hh Hn Hrun]]. exists (m, h). split.
  + apply list_elem_of_In, list_elem_of_lookup. exists i. apply lookup_zip_with_Some. eauto.
  + simpl. by rewrite Hn.
Qed.

#[export] Instance serve_red_dec s : Decision (red serve_step s).
Proof.
destruct (pending s) eqn:Hp; [left|right]; rewrite <- pending_red; [done|by rewrite Hp].
Defined.
End Serve.
