(* ===== verification/TrackAlphaProofs.v ===== *)
(** * Correctness of tracking a source

    Against the graph store contract: what [getCurrent] and [getProposed]
    collect, what [Track] leaves in the graph, the invariant of the graph it
    preserves, and its idempotence. *)

From S2P Require Import Prelude GoCodec GoHash Api GraphSpec StoreAlpha KeysAlpha TrackAlpha.

(** ** Indexes by readable key *)

Notation itemset := (gmap string GraphItem).

Definition known_type (t : string) : Prop := t ∈ [SourceType; ManagesType; ModuleType; DependsType].

Lemma known_no_dash t : known_type t -> no_dash (to_bytes t).
Proof.
  unfold known_type. rewrite !elem_of_cons, elem_of_nil.
  intros [->|[->|[->|[->|[]]]]]; repeat constructor; done.
Qed.

Definition indexed (idx : itemset) : Prop :=
  forall rk i, idx !! rk = Some i -> rk = readableKey i /\ known_type (GraphItemType i).

(** The index holds an item with this key. *)
Definition has_key (idx : itemset) (k : ikey) : Prop :=
  exists i, idx !! readableKey i = Some i /\ item_key i = k.

Lemma readableKey_known i j :
  known_type (GraphItemType i) -> known_type (GraphItemType j) ->
  readableKey i = readableKey j <-> item_key i = item_key j.
Proof. intros. apply readableKey_inj; by apply known_no_dash. Qed.

Lemma indexed_empty : indexed ∅.
Proof. intros rk i. by rewrite lookup_empty. Qed.

Lemma has_key_empty k : ~ has_key ∅ k.
Proof. intros (i & Hi & _). by rewrite lookup_empty in Hi. Qed.

Lemma indexed_add i idx : known_type (GraphItemType i) -> indexed idx -> indexed (add_item i idx).
Proof. unfold add_item. intros Hi Hidx rk j [[<- <-]|[_ Hj]]%lookup_insert_Some; eauto. Qed.

Lemma has_key_add i idx k :
  known_type (GraphItemType i) -> indexed idx ->
  has_key (add_item i idx) k <-> k = item_key i \/ has_key idx k.
Proof.
  intros Hi Hidx. unfold has_key, add_item. split.
  - intros (j & Hj & <-). apply lookup_insert_Some in Hj as [[_ <-]|[_ Hj]]; eauto.
  - intros [->|(j & Hj & <-)].
    + exists i. by rewrite lookup_insert_eq.
    + destruct (decide (readableKey i = readableKey j)) as [He|Hne].
      * exists i. rewrite lookup_insert_eq. split; [done|].
        apply readableKey_known; [done| |done]. by apply Hidx in Hj as [_ ?].
      * exists j. by rewrite lookup_insert_ne.
Qed.

(** An item of an indexed set, and the lookup of a known item's key. *)
Lemma has_key_lookup idx i :
  indexed idx -> known_type (GraphItemType i) ->
  is_Some (idx !! readableKey i) <-> has_key idx (item_key i).
Proof.
  intros Hidx Hi. split.
  - intros [j Hj]. destruct (Hidx _ _ Hj) as [Hr Ht]. exists j. rewrite <- Hr. split; [done|].
    by apply readableKey_known.
  - intros (j & Hj & Hk). destruct (Hidx _ _ Hj) as [_ Ht].
    apply readableKey_known in Hk; [|done..]. rewrite <- Hk. by exists j.
Qed.

Lemma range_items `{MapRange} (idx : itemset) i :
  indexed idx -> i ∈ (range_map idx).*2 <-> idx !! readableKey i = Some i.
Proof.
  intros Hidx. rewrite range_perm, list_elem_of_fmap. split.
  - intros ([rk j] & -> & Hj%elem_of_map_to_list). simpl. by destruct (Hidx _ _ Hj) as [<- _].
  - intros Hi. exists (readableKey i, i). by rewrite elem_of_map_to_list.
Qed.

Lemma range_items_NoDup `{MapRange} (idx : itemset) :
  indexed idx -> NoDup (map item_key (range_map idx).*2).
Proof.
  intros Hidx. rewrite range_perm. rewrite <- list_fmap_compose.
  apply NoDup_fmap_2_strong; [|apply NoDup_map_to_list].
  intros [rk1 i1] [rk2 i2] H1%elem_of_map_to_list H2%elem_of_map_to_list Hk. simpl in Hk.
  destruct (Hidx _ _ H1) as [-> ?], (Hidx _ _ H2) as [-> ?].
  apply readableKey_known in Hk; [|done..]. rewrite Hk in H1 |- *. congruence.
Qed.

(** ** What a source owns in an abstract store *)

Section Owned.
Implicit Types (v : astore) (sk m n : bytes).

Definition key_type (k : ikey) : string := k.1.1.1.

Definition is_module v m : Prop := exists k3 : bytes, is_Some (v !! (ModuleType, m, m, k3)).

(** A live manages edge out of [sk] to a live module. *)
Definition manages_edge v sk m (k3 : bytes) : Prop :=
sk <> m /\ is_Some (v !! (ManagesType, sk, m, k3)) /\ is_module v m.

(** A live depends edge between modules. *)
Definition depends_edge v m n (k3 : bytes) : Prop :=
m <> n /\ is_Some (v !! (DependsType, m, n, k3)) /\ is_module v n.

Definition owned_manages v sk (k : ikey) : Prop :=
exists m (k3 : bytes), k = (ManagesType, sk, m, k3) /\ manages_edge v sk m k3.
Definition owned_depends v sk (k : ikey) : Prop :=
exists m n (k3 k3' : bytes), k = (DependsType, m, n, k3) /\ manages_edge v sk m k3' /\
               depends_edge v m n k3 /\ (k3 = [] \/ k3 = sk).

(** The edges of a source: to the modules it manages, and from them to what
  they depend on, for this source or for none. *)
Definition owned v sk (k : ikey) : Prop := owned_manages v sk k \/ owned_depends v sk k.
End Owned.

(** Finding upstream, in these terms. *)
Lemma upstream_pairs v q ety p :
  p ∈ spec_upstream (mkFindRequest [q] [ety] [ModuleType]) v <->
  exists n e, p = pair_of (n, e) /\ v !! n.1 = Some n.2 /\ v !! e.1 = Some e.2 /\
    e_type e = ety /\ e_k1 e = q /\ q <> e_k2 e /\
    e_type n = ModuleType /\ e_k1 n = e_k2 e /\ e_k2 n = e_k2 e.
Proof.
  rewrite elem_of_upstream. unfold upstream_cond, edge_cond. simpl.
  setoid_rewrite list_elem_of_singleton. split; intros (n & e & H); exists n, e; naive_solver congruence.
Qed.

Lemma pair_types v q ety p :
  known_type ety -> p ∈ spec_upstream (mkFindRequest [q] [ety] [ModuleType]) v ->
  known_type (GraphItemType (Pair_Edge p)) /\ known_type (GraphItemType (Pair_Node p)) /\
  GraphItemType (Pair_Edge p) = ety /\ GraphItemType (Pair_Node p) = ModuleType.
Proof.
  intros Hety (n & e & -> & _ & _ & He & _ & _ & Hn & _)%upstream_pairs. simpl.
  rewrite He, Hn. split_and!; try done. unfold known_type. set_solver.
Qed.

(** ** getProposed *)

(** The items a request declares, in the order the code builds them. *)
Section Proposed.
Context `{JsonCodec}.

Definition marshalled (m : schema_msg) : bytes := default [] (json_marshal (IVal m)).

Definition module_item (m : Module_) : GraphItem :=
mkGraphItem ModuleType (keyForModule m) (keyForModule m) [] GraphItemEncoding_JSON
  (marshalled (VModule m)).
Definition source_item (source : option Source) : GraphItem :=
mkGraphItem SourceType (keyForSource source) (keyForSource source) [] GraphItemEncoding_JSON
  (default [] (json_marshal (source_iface source))).
Definition manages_item (mf : ManagementFile) (from to : bytes) : GraphItem :=
mkGraphItem ManagesType from to [] GraphItemEncoding_JSON (marshalled (VManages (manages_of mf))).

Definition file_module (mf : ManagementFile) : Module_ :=
mkModule (MF_Language mf) (MF_Organization mf) (MF_Module mf) (MF_Name mf).
Definition dep_module (mf : ManagementFile) (d : ManifestDependency) : Module_ :=
mkModule (MF_Language mf) (Dep_Organization d) (Dep_Module d) (Dep_Name d).
Definition dep_depends (ref : string) (mf : ManagementFile) (d : ManifestDependency) : Depends :=
mkDepends (MF_Language mf) (Dep_VersionConstraint d) (Dep_Scopes d) ref.
Definition request_ref (req : SourceRequest) : string := from_option Source_Ref ""%string (SR_Source req).

Definition discovered (mf : ManagementFile) : option Source :=
Some (mkSource (MF_SourceUrl mf) "repository" "").

Definition depends_item (req : SourceRequest) (mf : ManagementFile) (d : ManifestDependency) :
  GraphItem :=
mkGraphItem DependsType (keyForModule (file_module mf)) (keyForModule (dep_module mf d))
  (keyForSource (SR_Source req)) GraphItemEncoding_JSON
  (marshalled (VDepends (dep_depends (request_ref req) mf d))).

Definition dep_items (req : SourceRequest) (mf : ManagementFile) (d : ManifestDependency) :
  list GraphItem :=
[ module_item (dep_module mf d); depends_item req mf d ].

Definition discovered_items (mf : ManagementFile) : list GraphItem :=
if decide (MF_SourceUrl mf = ""%string) then [] else
[ source_item (discovered mf);
  manages_item mf (keyForSource (discovered mf)) (keyForModule (file_module mf)) ].

Definition file_items (req : SourceRequest) (mf : ManagementFile) : list GraphItem :=
[ module_item (file_module mf);
  manages_item mf (keyForSource (SR_Source req)) (keyForModule (file_module mf)) ]
++ discovered_items mf ++ concat (map (dep_items req mf) (MF_Dependencies mf)).

Definition proposed_items (req : SourceRequest) : list GraphItem :=
source_item (SR_Source req) :: concat (map (file_items req) (SR_ManagementFiles req)).

(** A request the code does not panic on: [request.GetSource().Ref] reads a
  field of the source once per dependency. *)
Definition has_dependencies (req : SourceRequest) : bool :=
existsb (fun mf => negb (bool_decide (MF_Dependencies mf = []))) (SR_ManagementFiles req).
Definition safe_request (req : SourceRequest) : Prop :=
is_Some (SR_Source req) \/ has_dependencies req = false.

Definition add_all (items : list GraphItem) (idx : itemset) : itemset :=
fold_left (fun idx i => add_item i idx) items idx.

Lemma add_all_app l1 l2 idx : add_all (l1 ++ l2) idx = add_all l2 (add_all l1 idx).
Proof. unfold add_all. by rewrite fold_left_app. Qed.

(** Membership, spelled out. *)
Lemma elem_of_discovered mf i :
i ∈ discovered_items mf <->
MF_SourceUrl mf <> ""%string /\
(i = source_item (discovered mf) \/
 i = manages_item mf (keyForSource (discovered mf)) (keyForModule (file_module mf))).
Proof.
unfold discovered_items. case_decide; rewrite ?elem_of_cons, elem_of_nil; tauto.
Qed.

(** Membership, spelled out. *)
Lemma elem_of_proposed req i :
i ∈ proposed_items req <->
i = source_item (SR_Source req) \/
exists mf, mf ∈ SR_ManagementFiles req /\
  (i = module_item (file_module mf) \/
   i = manages_item mf (keyForSource (SR_Source req)) (keyForModule (file_module mf)) \/
   (MF_SourceUrl mf <> ""%string /\
    (i = source_item (discovered mf) \/
     i = manages_item mf (keyForSource (discovered mf)) (keyForModule (file_module mf)))) \/
   exists d, d ∈ MF_Dependencies mf /\
     (i = module_item (dep_module mf d) \/ i = depends_item req mf d)).
Proof.
unfold proposed_items. rewrite elem_of_cons. apply or_iff_compat_l.
rewrite elem_of_concat_map. f_equiv; intros mf. apply and_iff_compat_l.
unfold file_items. rewrite !elem_of_app, elem_of_concat_map, elem_of_discovered.
unfold dep_items. setoid_rewrite elem_of_cons. setoid_rewrite elem_of_cons.
setoid_rewrite elem_of_nil. split.
- intros [[?|[?|[]]]|[?|(d & ? & [?|[?|[]]])]]; eauto 10.
- intros [?|[?|[?|(d & ? & [?|?])]]]; eauto 10.
Qed.

Lemma proposed_known req i : i ∈ proposed_items req -> known_type (GraphItemType i).
Proof.
rewrite elem_of_proposed. unfold known_type.
intros [->|(mf & _ & [->|[->|[[_ [->| ->]]|(d & _ & [->| ->])]]])]; simpl; set_solver.
Qed.
Context `{!JsonCodecOk}.

Lemma marshal_Some m : json_marshal (IVal m) = Some (marshalled m).
Proof. unfold marshalled. by destruct (json_marshal_total m) as [d ->]. Qed.

Lemma Encode_val m :
Encode (IVal m) =
match m with
| VSource s => Ret (source_item (Some s))
| VModule x => Ret (module_item x)
| VManages _ => Ret (mkGraphItem ManagesType [] [] [] GraphItemEncoding_JSON (marshalled m))
| VDepends _ => Ret (mkGraphItem DependsType [] [] [] GraphItemEncoding_JSON (marshalled m))
end.
Proof.
unfold Encode, source_item, module_item. destruct m; simpl; rewrite ?marshal_Some; done.
Qed.

Lemma Encode_source_item source : Encode (source_iface source) = Ret (source_item source).
Proof.
unfold source_item. unfold Encode. destruct source as [s|]; simpl.
- by rewrite marshal_Some.
- by destruct (json_marshal_null KSource) as [d ->].
Qed.

Lemma propose_dependency_spec req mf d idx :
is_Some (SR_Source req) ->
propose_dependency req (source_item (SR_Source req)) (module_item (file_module mf)) mf idx d =
Ret (add_all (dep_items req mf d) idx).
Proof.
intros [s Hs]. unfold propose_dependency. rewrite Encode_val, Hs. cbn [obind].
rewrite Encode_val. cbn [obind].
unfold dep_items, depends_item, request_ref. by rewrite Hs.
Qed.

Lemma propose_dependencies_spec req mf deps idx :
is_Some (SR_Source req) \/ deps = [] ->
ofold (propose_dependency req (source_item (SR_Source req)) (module_item (file_module mf)) mf)
      idx deps =
Ret (add_all (concat (map (dep_items req mf) deps)) idx).
Proof.
intros [Hs| ->]; [|done]. revert idx. induction deps as [|d deps IH]; intros idx; [done|].
cbn [ofold map concat]. rewrite propose_dependency_spec, add_all_app by done. apply IH.
Qed.

Lemma propose_file_spec req mf idx :
is_Some (SR_Source req) \/ MF_Dependencies mf = [] ->
propose_file req (source_item (SR_Source req)) idx mf = Ret (add_all (file_items req mf) idx).
Proof.
intros Hs. unfold propose_file. rewrite !Encode_val. cbn [obind].
unfold file_items. rewrite !add_all_app. unfold propose_discovered, discovered_items.
case_decide; cbn [obind]; [by apply propose_dependencies_spec|].
rewrite !Encode_val. cbn [obind]. by apply propose_dependencies_spec.
Qed.

Lemma getProposed_spec req :
safe_request req -> getProposed req = Ret (add_all (proposed_items req) ∅).
Proof.
intros Hs. unfold getProposed. rewrite Encode_source_item. cbn [obind].
unfold proposed_items. change (add_all (?x :: ?l) ?i) with (add_all l (add_item x i)).
generalize (add_item (source_item (SR_Source req)) ∅). unfold safe_request, has_dependencies in Hs.
induction (SR_ManagementFiles req) as [|mf mfs IH]; intros idx; [done|].
cbn [ofold map concat]. simpl in Hs. rewrite orb_false_iff, negb_false_iff, bool_decide_eq_true in Hs.
rewrite propose_file_spec by tauto. cbn [obind]. rewrite IH by tauto. by rewrite add_all_app.
Qed.

Lemma getProposed_panic req :
~ safe_request req -> exists why, getProposed req = Panic why.
Proof.
unfold safe_request. intros Hn.
assert (SR_Source req = None) as Hs by (apply eq_None_not_Some; tauto).
assert (has_dependencies req = true) as Hd by (destruct (has_dependencies req); tauto). clear Hn.
unfold getProposed. rewrite Encode_source_item. cbn [obind].
generalize (add_item (source_item (SR_Source req)) ∅). unfold has_dependencies in Hd.
induction (SR_ManagementFiles req) as [|mf mfs IH]; intros idx; [done|].
simpl in Hd. cbn [ofold]. destruct (MF_Dependencies mf) as [|d deps] eqn:Hmf.
- rewrite propose_file_spec by tauto. cbn [obind]. by apply IH.
- unfold propose_file. rewrite !Encode_val. cbn [obind]. unfold propose_discovered.
  rewrite !Encode_val, Hmf. cbn [ofold].
  case_decide; cbn [obind]; unfold propose_dependency; rewrite !Encode_val, Hs; cbn [obind]; eauto.
Qed.

End Proposed.

(** ** getCurrent *)

(** A found pair added to an index: the node is a module, the edge is new. *)
Lemma has_key_add_pair p (idx : itemset) k :
  indexed idx -> known_type (GraphItemType (Pair_Edge p)) ->
  known_type (GraphItemType (Pair_Node p)) -> GraphItemType (Pair_Node p) = ModuleType ->
  key_type k <> ModuleType ->
  indexed (add_item (Pair_Edge p) (add_item (Pair_Node p) idx)) /\
  (has_key (add_item (Pair_Edge p) (add_item (Pair_Node p) idx)) k <->
   k = item_key (Pair_Edge p) \/ has_key idx k).
Proof.
  intros Hidx He Hn Hmod Hk. split; [by repeat apply indexed_add|].
  rewrite !has_key_add by (try apply indexed_add; done).
  assert (k <> item_key (Pair_Node p)) as Hne.
  { intros ->. by unfold key_type, item_key in Hk; simpl in Hk. }
  tauto.
Qed.

Lemma has_key_depended v q sk ds idx k :
  (forall p, p ∈ ds -> p ∈ spec_upstream (mkFindRequest [q] [DependsType] [ModuleType]) v) ->
  indexed idx -> key_type k <> ModuleType ->
  indexed (fold_left (add_depended sk) ds idx) /\
  (has_key (fold_left (add_depended sk) ds idx) k <->
   has_key idx k \/
   exists p, p ∈ ds /\ owned_edge sk (Pair_Edge p) = true /\ k = item_key (Pair_Edge p)).
Proof.
  intros Hds Hidx Hk. revert idx Hidx. induction ds as [|p ds IH]; intros idx Hidx; simpl.
  - split; [done|]. split; [by left|]. intros [?|(p & Hp & _)]; [done|by apply elem_of_nil in Hp].
  - destruct (pair_types v q DependsType p) as (He & Hn & _ & Hmod); [unfold known_type; set_solver| |].
    { apply Hds. by left. }
    destruct (has_key_add_pair p idx k Hidx He Hn Hmod Hk) as [Hidx' Hadd].
    destruct (IH ltac:(intros; apply Hds; by right)
                 (add_depended sk idx p)) as [Hi Hh].
    { unfold add_depended. by destruct (owned_edge sk (Pair_Edge p)). }
    split; [done|]. rewrite Hh. unfold add_depended.
    destruct (owned_edge sk (Pair_Edge p)) eqn:Ho; [rewrite Hadd|]; setoid_rewrite elem_of_cons;
      naive_solver congruence.
Qed.

Lemma owned_edge_true sk e : owned_edge sk e = true <-> K3 e = [] \/ K3 e = sk.
Proof.
  unfold owned_edge. rewrite orb_true_iff, !bool_decide_eq_true, length_zero_iff_nil. done.
Qed.

(** What a query finds, and that it finds every edge. *)
Lemma found_edge v q ety p :
  p ∈ spec_upstream (mkFindRequest [q] [ety] [ModuleType]) v ->
  item_key (Pair_Edge p) = (ety, q, K1 (Pair_Node p), K3 (Pair_Edge p)) /\
  q <> K1 (Pair_Node p) /\ is_Some (v !! (ety, q, K1 (Pair_Node p), K3 (Pair_Edge p))) /\
  is_module v (K1 (Pair_Node p)).
Proof.
  intros ([[[[tn n1] n2] n3] nv] & [[[[te k1] m] k3] ev] & -> & Hn & He & Ht & Hq & Hne & Htn & Hn1 & Hn2)%upstream_pairs.
  unfold e_type, e_k1, e_k2 in *. simpl in *. subst. split_and!; [done|done|by eexists|by exists n3, nv].
Qed.

Lemma edge_found v q ety m (k3 : bytes) :
  q <> m /\ is_Some (v !! (ety, q, m, k3)) /\ is_module v m ->
  exists p, p ∈ spec_upstream (mkFindRequest [q] [ety] [ModuleType]) v /\
    (ety, q, m, k3) = item_key (Pair_Edge p) /\ K1 (Pair_Node p) = m /\ K3 (Pair_Edge p) = k3.
Proof.
  intros (Hne & [ev He] & (n3 & nv & Hn)).
  exists (pair_of (((ModuleType, m, m, n3), nv), ((ety, q, m, k3), ev))). split_and!; [|done..].
  apply upstream_pairs. eexists _, _. split_and!; [done|done|done|done..].
Qed.

Lemma elem_of_zip_Forall2 {A B} (P : A -> B -> Prop) l k x y :
  Forall2 P l k -> (x, y) ∈ zip l k -> x ∈ l /\ P x y.
Proof.
  intros Hall. induction Hall as [|a b l k Hab _ IH]; [by intros ?%elem_of_nil|].
  cbn. intros [[= -> ->]|Hin]%elem_of_cons; [split; [by left|done]|].
  destruct (IH Hin). split; [by right|done].
Qed.

Lemma Forall2_zip_elem {A B} (P : A -> B -> Prop) l k x :
  Forall2 P l k -> x ∈ l -> exists y, (x, y) ∈ zip l k /\ P x y.
Proof.
  intros Hall. induction Hall as [|a b l k Hab _ IH]; [by intros ?%elem_of_nil|].
  cbn. intros [->|Hin]%elem_of_cons; [exists b; split; [by left|done]|].
  destruct (IH Hin) as (y & Hy & HP). exists y. split; [by right|done].
Qed.

(** What the code makes of a managed module and the edges found from it. *)
Definition read_managed (sk : bytes) (idx : itemset) (pd : GraphItemPair * list GraphItemPair) : itemset :=
  fold_left (add_depended sk) pd.2 (add_item (Pair_Edge pd.1) (add_item (Pair_Node pd.1) idx)).

(** Pairs a query for edges out of [q] has found, in some graph. *)
Definition found_in (q : bytes) (ety : string) (ps : list GraphItemPair) : Prop :=
  exists v, forall p, p ∈ ps -> p ∈ spec_upstream (mkFindRequest [q] [ety] [ModuleType]) v.

Lemma read_managed_keys sk pds idx :
  (forall p ds, (p, ds) ∈ pds -> found_in sk ManagesType [p] /\ found_in (K1 (Pair_Node p)) DependsType ds) ->
  indexed idx ->
  indexed (fold_left (read_managed sk) pds idx) /\
  forall k, key_type k <> ModuleType ->
    has_key (fold_left (read_managed sk) pds idx) k <->
    has_key idx k \/ exists p ds, (p, ds) ∈ pds /\
      (k = item_key (Pair_Edge p) \/
       exists d, d ∈ ds /\ owned_edge sk (Pair_Edge d) = true /\ k = item_key (Pair_Edge d)).
Proof.
  revert idx. induction pds as [|[p ds] pds IH]; intros idx Hfound Hidx; cbn [fold_left].
  - split; [done|]. intros k _. split; [by left|]. intros [?|(p & ds & Hp & _)]; [done|by apply elem_of_nil in Hp].
  - destruct (Hfound p ds ltac:(by left)) as [[v1 Hp] [v2 Hds]].
    destruct (pair_types v1 sk ManagesType p) as (He & Hn & _ & Hmod);
      [unfold known_type; set_solver|apply Hp; by left|].
    assert (forall k, key_type k <> ModuleType -> _) as Hall by
      (intros k Hk; exact (has_key_add_pair p idx k Hidx He Hn Hmod Hk)).
    destruct (IH (read_managed sk idx (p, ds))) as [Hi Hkeys].
    { intros p' ds' Hin. apply Hfound. by right. }
    { eapply (has_key_depended v2 _ sk ds _ (SourceType, [], [], []));
        [exact Hds| |done]. by apply (Hall (SourceType, [], [], [])). }
    split; [done|]. intros k Hk. rewrite (Hkeys k Hk). destruct (Hall k Hk) as [Hidx1 Hadd].
    destruct (has_key_depended v2 _ sk ds _ k Hds Hidx1 Hk) as [_ Hd].
    unfold read_managed at 1. cbn [fst snd]. rewrite Hd, Hadd. setoid_rewrite elem_of_cons. split.
    + intros [[[->|Hx]|Hx]|(p' & ds' & Hin & Hx)]; [right; exists p, ds; auto|by left|right; exists p, ds; auto|].
      right. exists p', ds'. auto.
    + intros [Hx|(p' & ds' & [[= -> ->]|Hin] & Hx)]; [auto| |right; exists p', ds'; auto].
      destruct Hx; auto.
Qed.

Section Current.
Context `{JsonCodec, !JsonCodecOk} {W : Type} `{GraphStoreSpec W} `{MapRange}.

Definition source_key_of (source : option Source) : ikey :=
(SourceType, keyForSource source, keyForSource source, []).

Definition current_of (source : option Source) (ps : list GraphItemPair) (dss : list (list GraphItemPair)) : itemset :=
fold_left (read_managed (keyForSource source)) (zip ps dss) (add_item (source_item source) ∅).

(** The reads of [getCurrent], and what it makes of them. *)
Lemma getCurrent_run source w v idx w' :
rep w v -> getCurrent source w = (Ret idx, w') ->
rep w' v /\ exists ps dss, idx = current_of source ps dss /\
  ps ≡ₚ spec_upstream (mkFindRequest [keyForSource source] [ManagesType] [ModuleType]) v /\
  Forall2 (fun p ds => ds ≡ₚ spec_upstream (mkFindRequest [K1 (Pair_Node p)] [DependsType] [ModuleType]) v) ps dss.
Proof.
intros Hr. unfold getCurrent, bind, lift. rewrite Encode_source_item.
destruct (gs_FindUpstream _ w) as [[ps| |] w1] eqn:Hf; [|done..].
pose proof (find_up_spec _ _ _ _ _ Hr Hf) as Hps.
pose proof (find_up_frame _ _ _ _ _ Hr Hf) as Hr1. intros Hrun.
eapply (mfold_ind (fun w => rep w v) (fun pre idx => exists dss, idx = current_of source pre dss /\
  Forall2 (fun p ds => ds ≡ₚ spec_upstream (mkFindRequest [K1 (Pair_Node p)] [DependsType] [ModuleType]) v) pre dss))
  in Hrun as [Hr2 (dss & -> & Hdss)]; [split; [done|by exists ps, dss]|done|by exists []|].
intros pre p idx0 w0 idx1 w2 Hr0 (dss & -> & Hdss) _. unfold add_managed, bind, ret.
destruct (gs_FindUpstream _ w0) as [[ds| |] w3] eqn:Hf3; [|done..]. intros [= <- <-].
split; [by eapply find_up_frame|]. exists (dss ++ [ds]). split.
- unfold current_of. rewrite zip_with_app by (by eapply Forall2_length). by rewrite fold_left_app.
- apply Forall2_app; [done|]. repeat constructor. by eapply find_up_spec.
Qed.

(** What the reads have collected. *)
Lemma current_keys source ps dss :
(forall p, p ∈ ps -> found_in (keyForSource source) ManagesType [p]) ->
Forall2 (fun p ds => found_in (K1 (Pair_Node p)) DependsType ds) ps dss ->
indexed (current_of source ps dss) /\
forall k, key_type k <> ModuleType ->
  has_key (current_of source ps dss) k <->
  k = source_key_of source \/ exists p ds, (p, ds) ∈ zip ps dss /\
    (k = item_key (Pair_Edge p) \/
     exists d, d ∈ ds /\ owned_edge (keyForSource source) (Pair_Edge d) = true /\ k = item_key (Pair_Edge d)).
Proof.
intros Hps Hdss. assert (known_type SourceType) as Hs by (unfold known_type; set_solver).
destruct (read_managed_keys (keyForSource source) (zip ps dss) (add_item (source_item source) ∅)) as [Hi Hk].
- intros p ds Hin. by destruct (elem_of_zip_Forall2 _ _ _ _ _ Hdss Hin); auto.
- by apply indexed_add, indexed_empty.
- split; [done|]. intros k Hkt. unfold current_of. rewrite (Hk k Hkt).
  apply or_iff_compat_r. rewrite has_key_add by (done || apply indexed_empty).
  split; [by intros [->|?%has_key_empty]|]. intros ->. by left.
Qed.

Lemma getCurrent_spec source w v idx w' :
rep w v -> getCurrent source w = (Ret idx, w') ->
rep w' v /\ indexed idx /\ forall k, key_type k <> ModuleType ->
  has_key idx k <-> k = source_key_of source \/ owned v (keyForSource source) k.
Proof.
intros Hr (Hr' & ps & dss & -> & Hps & Hdss)%(getCurrent_run _ _ v); [|done]. split; [done|].
destruct (current_keys source ps dss) as [Hi Hkeys].
{ intros p Hp. exists v. intros p' ->%list_elem_of_singleton. by rewrite <- Hps. }
{ eapply Forall2_impl; [exact Hdss|]. intros p ds Hds. exists v. intros d. by rewrite Hds. }
split; [done|]. intros k Hk. rewrite (Hkeys k Hk). apply or_iff_compat_l.
unfold owned, owned_manages, owned_depends. split.
- intros (p & ds & Hin & Hcase). destruct (elem_of_zip_Forall2 _ _ _ _ _ Hdss Hin) as [Hp Hds].
  rewrite Hps in Hp. apply found_edge in Hp as [Hkp Hm]. destruct Hcase as [->|(d & Hd & Ho & ->)]; [left; eauto|].
  right. rewrite Hds in Hd. apply found_edge in Hd as [Hkd Hd]. apply owned_edge_true in Ho. eauto 10.
- intros [(m & k3 & -> & Hm)|(m & n & k3 & k3' & -> & Hm & Hd & Ho)];
    destruct (edge_found _ _ _ _ _ Hm) as (p & Hp & Hkp & Hnp & _); rewrite <- Hps in Hp;
    destruct (Forall2_zip_elem _ _ _ _ Hdss Hp) as (ds & Hin & Hds); exists p, ds; (split; [done|]).
  + by left.
  + right. subst m. destruct (edge_found _ _ _ _ _ Hd) as (d & Hdin & Hkd & _ & Hk3). exists d.
    rewrite Hds. split_and!; [done|by apply owned_edge_true; rewrite Hk3|done].
Qed.
End Current.

(** ** The index of a list of items *)

Lemma add_all_lookup items i :
  (forall j, j ∈ items -> known_type (GraphItemType j)) -> known_type (GraphItemType i) ->
  add_all items ∅ !! readableKey i = last_item (item_key i) items.
Proof.
  intros Hk Hi. induction items as [|j items IH] using rev_ind; [apply lookup_empty|].
  rewrite add_all_app, last_item_snoc. simpl. unfold add_item.
  assert (known_type (GraphItemType j)) as Hj by (apply Hk; set_solver).
  case_decide as Hd.
  - apply readableKey_known in Hd; [|done..]. by rewrite Hd, lookup_insert_eq.
  - rewrite lookup_insert_ne by (by rewrite readableKey_known). apply IH. set_solver.
Qed.

Lemma add_all_indexed items :
  (forall j, j ∈ items -> known_type (GraphItemType j)) -> indexed (add_all items ∅).
Proof.
  intros Hk. induction items as [|j items IH] using rev_ind; [apply indexed_empty|].
  rewrite add_all_app. apply indexed_add; [apply Hk; set_solver|apply IH; set_solver].
Qed.

Lemma add_all_has_key items k :
  (forall j, j ∈ items -> known_type (GraphItemType j)) ->
  has_key (add_all items ∅) k <-> k ∈ map item_key items.
Proof.
  intros Hk. pose proof (add_all_indexed items Hk) as Hidx. split.
  - intros (i & Hi & <-). pose proof (Hidx _ _ Hi) as [_ Ht].
    rewrite add_all_lookup in Hi by done. apply last_item_Some in Hi as [Hi _].
    apply list_elem_of_fmap. eauto.
  - intros Hin. pose proof Hin as (i & -> & Hi)%list_elem_of_fmap.
    apply has_key_lookup; [done|by apply Hk|]. rewrite add_all_lookup by auto.
    by apply last_item_is_Some.
Qed.

(** Putting the values of the index is putting the list. *)
Lemma spec_put_range `{MapRange} items v :
  (forall j, j ∈ items -> known_type (GraphItemType j)) ->
  spec_put (range_map (add_all items ∅)).*2 v = spec_put items v.
Proof.
  intros Hk. pose proof (add_all_indexed items Hk) as Hidx.
  apply map_eq. intros k. rewrite !spec_put_lookup.
  assert (last_item k (range_map (add_all items ∅)).*2 = last_item k items) as ->; [|done].
  apply option_eq. intros i. split.
  - intros [Hi <-]%last_item_Some. apply range_items in Hi; [|done].
    rewrite <- add_all_lookup; [done|done|]. by apply Hidx in Hi as [_ ?].
  - intros Hl. pose proof (last_item_Some _ _ _ Hl) as [Hi <-].
    apply last_item_NoDup; [by apply range_items_NoDup|].
    apply range_items; [done|]. by rewrite add_all_lookup by auto.
Qed.

(** ** Track *)

(** The abstract effect of tracking: what a request declares is live with its
    data, what the source owned and no longer declares is gone, and nothing
    else changes. *)
Record tracked `{JsonCodec} (req : SourceRequest) (v v' : astore) : Prop := mkTracked {
  tracked_put : forall k i, last_item k (proposed_items req) = Some i -> v' !! k = Some (item_val i);
  tracked_stale : forall k, k ∉ map item_key (proposed_items req) ->
    owned v (keyForSource (SR_Source req)) k -> v' !! k = None;
  tracked_other : forall k, k ∉ map item_key (proposed_items req) ->
    ~ owned v (keyForSource (SR_Source req)) k -> v' !! k = v !! k }.

Lemma owned_not_module v sk k : owned v sk k -> key_type k <> ModuleType.
Proof. intros [(m & k3 & -> & _)|(m & n & k3 & k3' & -> & _)]; done. Qed.

Section TrackProofs.
Context `{JsonCodec, !JsonCodecOk} {W : Type} `{GraphStoreSpec W} `{MapRange}.

Lemma elem_of_to_delete (cur prop : itemset) i :
indexed cur ->
i ∈ to_delete cur prop <->
GraphItemType i <> ModuleType /\ cur !! readableKey i = Some i /\ prop !! readableKey i = None.
Proof.
intros Hcur. unfold to_delete. rewrite list_elem_of_filter, list_elem_of_fmap.
apply and_iff_compat_l. split.
- intros ([rk j] & -> & [Hnone Hj]%list_elem_of_filter). simpl in *.
  rewrite range_perm in Hj. apply elem_of_map_to_list in Hj.
  by destruct (Hcur _ _ Hj) as [<- _].
- intros [Hi Hn]. exists (readableKey i, i). split; [done|].
  apply list_elem_of_filter. split; [done|]. rewrite range_perm. by apply elem_of_map_to_list.
Qed.

Lemma add_all_None items i :
(forall j, j ∈ items -> known_type (GraphItemType j)) -> known_type (GraphItemType i) ->
add_all items ∅ !! readableKey i = None <-> item_key i ∉ map item_key items.
Proof.
intros Hk Hi. pose proof (add_all_indexed items Hk) as Hidx.
rewrite eq_None_not_Some, (has_key_lookup _ i Hidx Hi). by rewrite add_all_has_key.
Qed.

Lemma to_delete_keys (cur : itemset) items k :
indexed cur -> (forall i, i ∈ items -> known_type (GraphItemType i)) ->
k ∈ map item_key (to_delete cur (add_all items ∅)) <->
key_type k <> ModuleType /\ has_key cur k /\ k ∉ map item_key items.
Proof.
intros Hcur Hk. rewrite list_elem_of_fmap. split.
- intros (i & -> & (Ht & Hi & Hn)%elem_of_to_delete); [|done].
  pose proof (Hcur _ _ Hi) as [_ Hty]. apply add_all_None in Hn; [|done..].
  split_and!; [done|by exists i|done].
- intros (Ht & (i & Hi & <-) & Hnot). pose proof (Hcur _ _ Hi) as [_ Hty].
  exists i. split; [done|]. apply elem_of_to_delete; [done|]. by rewrite add_all_None.
Qed.

Lemma source_key_proposed req :
source_key_of (SR_Source req) ∈ map item_key (proposed_items req).
Proof. apply list_elem_of_fmap. exists (source_item (SR_Source req)). split; [done|]. by left. Qed.

(** A successful [Track], as abstract operations. *)
Lemma Track_run req w v w' b :
rep w v -> Track req w = (Ret b, w') ->
safe_request req /\ exists v', rep w' v' /\ tracked req v v'.
Proof.
intros Hr. unfold Track, on_error, bind, lift, ret.
destruct (getCurrent (SR_Source req) w) as [[cur| |] w1] eqn:Hcur; [|done..].
destruct (getCurrent_spec _ _ _ _ _ Hr Hcur) as (Hr1 & Hidx & Hkeys).
destruct (decide (has_dependencies req = false \/ is_Some (SR_Source req))) as [Hs|Hs]; cycle 1.
{ destruct (getProposed_panic req) as [why ->]; [unfold safe_request; tauto|done]. }
assert (safe_request req) as Hsafe by (unfold safe_request; tauto).
rewrite getProposed_spec by done. pose proof (proposed_known req) as Hkn.
set (items := proposed_items req) in *. set (del := to_delete cur (add_all items ∅)).
destruct (gs_Delete del w1) as [[[]| |] w2] eqn:Hd; [|done..].
destruct (gs_Put _ w2) as [[[]| |] w3] eqn:Hp; [|done..]. intros [= <- <-].
split; [done|]. exists (spec_put items (spec_delete del v)).
assert (forall k, k ∈ map item_key del <->
  key_type k <> ModuleType /\ k ∉ map item_key items /\ owned v (keyForSource (SR_Source req)) k) as Hdel.
{ intros k. unfold del. rewrite to_delete_keys by done. split.
  - intros (Ht & Hk & Hni). rewrite Hkeys in Hk by done. split_and!; [done..|].
    destruct Hk as [->|?]; [|done]. exfalso. apply Hni, source_key_proposed.
  - intros (Ht & Hni & Ho). rewrite Hkeys by done. tauto. }
split.
- unfold to_put in Hp. pose proof (put_spec _ _ _ _ (delete_spec _ _ _ _ Hr1 Hd) Hp) as Hr3.
  by rewrite spec_put_range in Hr3.
- split; intros k; rewrite spec_put_lookup; fold items.
  + by intros i ->.
  + intros Hk Ho. rewrite last_item_None, spec_delete_lookup by done.
    rewrite decide_True; [done|]. apply Hdel. split_and!; [|done|done]. by eapply owned_not_module.
  + intros Hk Ho. rewrite last_item_None, spec_delete_lookup by done.
    rewrite decide_False; [done|]. rewrite Hdel. tauto.
Qed.

Context `{!GraphStoreTotal W}.

Lemma mfold_total {A B} (Inv : W -> Prop) (f : B -> A -> M W B) l :
(forall x b w, Inv w -> exists b' w', f b x w = (Ret b', w') /\ Inv w') ->
forall b w, Inv w -> exists b' w', mfold f b l w = (Ret b', w') /\ Inv w'.
Proof using.
intros Hf. induction l as [|x l IH]; intros b w Hw; simpl; [unfold ret; eauto|].
unfold bind. destruct (Hf x b w Hw) as (b1 & w1 & -> & Hw1). by apply IH.
Qed.

Lemma getCurrent_total source w v :
rep w v -> exists idx w', getCurrent source w = (Ret idx, w').
Proof.
intros Hr. unfold getCurrent, bind, lift. rewrite Encode_source_item.
destruct (find_up_total w v (mkFindRequest [keyForSource source] [ManagesType] [ModuleType]) Hr)
  as (ps & w1 & Hf); [done..|]. rewrite Hf. change (K1 (source_item source)) with (keyForSource source).
destruct (mfold_total (fun w => rep w v) (add_managed (keyForSource source)) ps)
  with (b := add_item (source_item source) ∅) (w := w1) as (idx & w2 & -> & _); [| |eauto].
- intros p idx w0 Hr0. unfold add_managed, bind, ret.
  destruct (find_up_total w0 v (mkFindRequest [K1 (Pair_Node p)] [DependsType] [ModuleType]) Hr0)
    as (ds & w3 & Hf3); [done..|]. rewrite Hf3. eexists _, _. split; [done|].
  by eapply find_up_frame.
- by eapply find_up_frame.
Qed.

(** On a store that does not fail, tracking returns. *)
Lemma Track_total req w v :
rep w v -> safe_request req -> exists w', Track req w = (Ret true, w').
Proof.
intros Hr Hs. unfold Track, on_error, bind, lift, ret.
destruct (getCurrent_total (SR_Source req) w v Hr) as (cur & w1 & Hcur).
rewrite Hcur, getProposed_spec by done.
destruct (getCurrent_spec _ _ _ _ _ Hr Hcur) as (Hr1 & _).
destruct (delete_total w1 v (to_delete cur (add_all (proposed_items req) ∅)) Hr1) as [w2 Hd].
rewrite Hd. pose proof (delete_spec _ _ _ _ Hr1 Hd) as Hr2.
destruct (put_total w2 _ (to_put (add_all (proposed_items req) ∅)) Hr2) as [w3 Hp].
rewrite Hp. eauto.
Qed.
End TrackProofs.
