(* ===== verification/StoreBeta.v ===== *)
(** * tracker/internal/graphstore/v1beta: the generalized graph store

    [graphitem.go], [transforms.go], the statement files, [driver.go],
    [sqldriver.go] and [server.go].  The table [graph_data] is a finite map
    from the primary key (k1, k2, k3) to the other columns; the server talks to
    the table through the [Driver] interface. *)

From S2P Require Import Prelude GoCodec Sql.

Local Open Scope Z_scope.

(** ** The messages of the v1beta store API *)

Record Any := mkAny { TypeUrl : string; Value : bytes }.
Record Node := mkNode { Node_Key : bytes; Node_Body : option Any }.
Record Edge := mkEdge
  { Edge_FromKey : bytes; Edge_ToKey : bytes; Edge_Key : bytes; Edge_Body : option Any }.
Record Neighbor := mkNeighbor { Neighbor_Node : Node; Neighbor_Edges : list Edge }.
Record NeighborsRequest := mkNeighborsRequest
  { NR_Node : option Node; NR_To : option Node; NR_From : option Node }.
Record BetaListRequest := mkBetaListRequest
  { BLR_Kind : string; BLR_PageToken : string; BLR_PageSize : Z }.
Record BetaListResponse := mkBetaListResponse
  { NextPageToken : string; Nodes : list Node; Edges : list Edge }.

#[export] Instance Any_eq_dec : EqDecision Any.
Proof. solve_decision. Defined.
#[export] Instance Node_eq_dec : EqDecision Node.
Proof. solve_decision. Defined.
#[export] Instance Edge_eq_dec : EqDecision Edge.
Proof. solve_decision. Defined.

(** The nil-safe getters of a body. *)
Definition GetTypeUrl (body : option Any) : string := from_option TypeUrl ""%string body.
Definition GetValue (body : option Any) : bytes := from_option Value [] body.

(** ** graphitem.go *)

(** [Encoding = uint8] *)
Definition EncodingUnspecified : Z := 0.
Definition EncodingJSON : Z := 1.
Definition EncodingProtocolBuffers : Z := 2.

Definition defaultCollectionName : string := "graph_data".

Record GraphData := mkGraphData
  { CollectionName : string; GD_K1 : string; GD_K2 : string; GD_K3 : string; Kind : string;
    GD_Encoding : Z; Data : string; DateDeleted : option Z; LastModified : Z }.

Definition TableName (d : GraphData) : string :=
  if decide (CollectionName d = ""%string) then defaultCollectionName else CollectionName d.

(** ** transforms.go *)

Definition encode (data : bytes) (encoding : Z) : string :=
  if decide (encoding = EncodingProtocolBuffers) then of_bytes (b64_encode true data)
  else of_bytes data.

Definition decode (data : string) (encoding : Z) : outcome bytes :=
  if decide (encoding = EncodingProtocolBuffers) then
    let '(value, ok) := b64_decode true (to_bytes data) in
    if ok : bool then Ret value else Fail (ErrText "illegal base64 data")
  else Ret (to_bytes data).

Definition ConvertNode (now : Z) (node : Node) (encoding : Z) : GraphData :=
  mkGraphData "" (of_bytes (Node_Key node)) (of_bytes (Node_Key node)) "" (GetTypeUrl (Node_Body node))
    encoding (encode (GetValue (Node_Body node)) encoding) None now.

Definition ConvertEdge (now : Z) (edge : Edge) (encoding : Z) : GraphData :=
  mkGraphData "" (of_bytes (Edge_FromKey edge)) (of_bytes (Edge_ToKey edge)) (of_bytes (Edge_Key edge))
    (GetTypeUrl (Edge_Body edge)) encoding (encode (GetValue (Edge_Body edge)) encoding) None now.

(** A row whose two keys agree is a node, any other an edge. *)
Definition ConvertGraphData (item : GraphData) : outcome (Node + Edge) :=
  let? value := decode (Data item) (GD_Encoding item) in
  let body := Some (mkAny (Kind item) value) in
  if decide (GD_K1 item = GD_K2 item) then Ret (inl (mkNode (to_bytes (GD_K1 item)) body))
  else Ret (inr (mkEdge (to_bytes (GD_K1 item)) (to_bytes (GD_K2 item)) (to_bytes (GD_K3 item)) body)).

(** ** The statements *)

Notation bkey := (string * string * string)%type.
Record BetaCell := mkBetaCell
  { b_kind : string; b_encoding : Z; b_data : string; b_deleted : option Z; b_modified : Z }.
Notation btable := (gmap bkey BetaCell).
Notation brow := (bkey * BetaCell)%type.

Definition b_k1 (r : brow) : string := r.1.1.1.
Definition b_k2 (r : brow) : string := r.1.1.2.
Definition b_k3 (r : brow) : string := r.1.2.
Definition item_bkey (item : GraphData) : bkey := (GD_K1 item, GD_K2 item, GD_K3 item).
Definition item_cell (item : GraphData) : BetaCell :=
  mkBetaCell (Kind item) (GD_Encoding item) (Data item) None (LastModified item).

Definition sqliteInsertGraphData (item : GraphData) (t : btable) : outcome btable :=
  Ret (<[item_bkey item := item_cell item]> (delete (item_bkey item) t)).

(** It names the table and the columns of the v1alpha store: no parameter of
    that name is in [GraphData], and no such table in the database. *)
Definition mysqlInsertGraphData (item : GraphData) (t : btable) : outcome btable :=
  Fail (ErrText "could not find name graph_item_type").

(** [kind = EXCLUDED.graph_item_data] names a column that is not in the table. *)
Definition postgresqlInsertGraphData (item : GraphData) (t : btable) : outcome btable :=
  Fail (ErrText "column excluded.graph_item_data does not exist").

Definition mark_deleted (date : option Z) (c : BetaCell) : BetaCell :=
  mkBetaCell (b_kind c) (b_encoding c) (b_data c) date (b_modified c).
Definition sqliteDeleteGraphData (item : GraphData) (t : btable) : outcome btable :=
  Ret (alter (mark_deleted (DateDeleted item)) (item_bkey item) t).

Definition b_list_where (kind : string) (r : brow) : Prop := b_kind r.2 = kind /\ b_deleted r.2 = None.
#[export] Instance b_list_where_dec kind r : Decision (b_list_where kind r).
Proof. unfold b_list_where. apply _. Defined.

(** LIMIT and OFFSET: SQLite reads a negative limit as none and a negative
    offset as 0, the others refuse both. *)
Definition b_window {A} (limit offset : Z) (l : list A) : list A :=
  let rest := drop (Z.to_nat offset) l in
  if bool_decide (limit < 0) then rest else take (Z.to_nat limit) rest.

Definition sqliteListGraphData `{SqlEngine} (d : dialect) (call : nat) (kind : string) (limit offset : Z) (t : btable) :
    outcome (list brow) :=
  if (bool_decide (offset < 0) || bool_decide (limit < 0)) && negb (bool_decide (d = SQLite))
  then Fail (ErrBackend 2)
  else Ret (b_window limit offset (arrange call (filter (b_list_where kind) (map_to_list t)))).

(** [g1] is a node row, [g2] an edge row. *)
Definition b_join_where (g1 g2 : brow) : Prop :=
  b_k1 g2 <> b_k2 g2 /\ b_deleted g2.2 = None /\ b_k1 g1 = b_k2 g1 /\ b_deleted g1.2 = None.
Definition from_where (keys : list string) (g : brow * brow) : Prop :=
  b_k1 g.1 = b_k2 g.2 /\ b_k1 g.2 ∈ keys /\ b_join_where g.1 g.2.
Definition to_where (keys : list string) (g : brow * brow) : Prop :=
  b_k2 g.1 = b_k1 g.2 /\ b_k2 g.2 ∈ keys /\ b_join_where g.1 g.2.

#[export] Instance from_where_dec ks g : Decision (from_where ks g).
Proof. unfold from_where, b_join_where. apply _. Defined.
#[export] Instance to_where_dec ks g : Decision (to_where ks g).
Proof. unfold to_where, b_join_where. apply _. Defined.

Definition sqliteSelectFromNeighbor `{SqlEngine} (call : nat) (keys : list string) (t : btable) : list (brow * brow) :=
  arrange call (filter (from_where keys) (list_prod (map_to_list t) (map_to_list t))).
Definition sqliteSelectToNeighbor `{SqlEngine} (call : nat) (keys : list string) (t : btable) : list (brow * brow) :=
  arrange call (filter (to_where keys) (list_prod (map_to_list t) (map_to_list t))).

Record DriverStatements := mkDriverStatements {
  d_Insert : GraphData -> btable -> outcome btable;
  d_Delete : GraphData -> btable -> outcome btable;
  d_List : nat -> string -> Z -> Z -> btable -> outcome (list brow);
  d_SelectFrom : nat -> list string -> btable -> list (brow * brow);
  d_SelectTo : nat -> list string -> btable -> list (brow * brow) }.

Definition SQLiteStatements `{SqlEngine} : DriverStatements :=
  mkDriverStatements sqliteInsertGraphData sqliteDeleteGraphData (sqliteListGraphData SQLite)
    sqliteSelectFromNeighbor sqliteSelectToNeighbor.
Definition MySQLStatements `{SqlEngine} : DriverStatements :=
  mkDriverStatements mysqlInsertGraphData sqliteDeleteGraphData (sqliteListGraphData MySQL)
    sqliteSelectFromNeighbor sqliteSelectToNeighbor.
Definition PostgreSQLStatements `{SqlEngine} : DriverStatements :=
  mkDriverStatements postgresqlInsertGraphData sqliteDeleteGraphData (sqliteListGraphData Postgres)
    sqliteSelectFromNeighbor sqliteSelectToNeighbor.

(** ** The Driver interface *)

Class Driver (W : Type) := {
  Driver_Put : list GraphData -> M W unit;
  Driver_Delete : list GraphData -> M W unit;
  Driver_List : string -> Z -> Z -> M W (list GraphData * bool);
  Driver_NeighborsTo : list string -> M W (list GraphData);
  Driver_NeighborsFrom : list string -> M W (list GraphData) }.

(** ** sqldriver.go *)

(** A [*sqlx.DB]: nil, or a wrapper around a [*sql.DB] that may itself be nil. *)
Notation sqlx_db := (option (option string)).

Record sqlDriver := mkSqlDriver { d_rwdb : sqlx_db; d_rodb : sqlx_db; d_statements : DriverStatements }.

Definition nil_panic : string := "invalid memory address or nil pointer dereference".

Section SqlDriver.
Context `{SqlEngine}.
Notation SQL := (M (World btable)).

(** Using a handle: methods on a nil pointer panic. *)
Definition open_handle (db : sqlx_db) : SQL string :=
match db with Some (Some d) => ret d | _ => panic nil_panic end.

(** [for _, item := range items { if _, err := tx.NamedExecContext(..); err != nil
  { return err } }]: an early return rolls the transaction back. *)
Fixpoint exec_all (fl : Faults) (stmt : GraphData -> btable -> outcome btable) (i : nat)
  (items : list GraphData) (tx : option btable) : outcome (option btable) :=
match items with
| [] => Ret tx
| item :: items' => let? tx' := exec_stmt fl i (stmt item) tx in exec_all fl stmt (S i) items' tx'
end.

Definition sqlDriver_Put (s : sqlDriver) (items : list GraphData) : SQL unit :=
match d_rwdb s with
| None => fail ErrUnsupported
| Some _ =>
    let! db := open_handle (d_rwdb s) in
    let! (_, fl) := tick in
    let! tx := begin_tx db fl in
    let! tx' := lift (exec_all fl (d_Insert (d_statements s)) 0 items tx) in
    commit_tx db fl tx'
end.

Definition sqlDriver_Delete (s : sqlDriver) (items : list GraphData) : SQL unit :=
match d_rwdb s with
| None => fail ErrUnsupported
| Some _ =>
    let! db := open_handle (d_rwdb s) in
    let! (_, fl) := tick in
    let! tx := begin_tx db fl in
    let! tx' := lift (exec_all fl (d_Delete (d_statements s)) 0 items tx) in
    commit_tx db fl tx'
end.

(** [StructScan] into a fresh [GraphData]: the columns that are not selected
  keep their zero value. *)
Definition row_data (r : brow) : GraphData :=
mkGraphData "" (b_k1 r) (b_k2 r) (b_k3 r) (b_kind r.2) (b_encoding r.2) (b_data r.2) None 0.

Definition sqlDriver_List (s : sqlDriver) (kind : string) (offset limit : Z) :
  SQL (list GraphData * bool) :=
let! db := open_handle (d_rodb s) in
let! (_, fl) := tick in
let! rows := run_query db fl (fun call => d_List (d_statements s) call kind (swrap 64 (limit + 1)) offset) in
if decide (limit < 0) then panic "makeslice: cap out of range" else
let received := fetched fl rows in
let! results := lift (scan_rows fl 0 row_data (take (Z.to_nat limit) received)) in
ret (results, bool_decide (Z.to_nat limit < length received)%nat).

Definition neighbors (s : sqlDriver) (statement : nat -> list string -> btable -> list (brow * brow))
  (keys : list string) : SQL (list GraphData) :=
let! _ := lift (match sqlx_In [keys] with Some e => Fail e | None => Ret tt end) in
let! db := open_handle (d_rodb s) in
let! (_, fl) := tick in
let! rows := run_query db fl (fun call t => Ret (statement call keys t)) in
let! results := lift (read_rows fl (fun g => [row_data g.1; row_data g.2]) rows) in
ret (concat results).

Definition sqlDriver_NeighborsTo (s : sqlDriver) (toKeys : list string) : SQL (list GraphData) :=
neighbors s (d_SelectTo (d_statements s)) toKeys.
Definition sqlDriver_NeighborsFrom (s : sqlDriver) (fromKeys : list string) : SQL (list GraphData) :=
neighbors s (d_SelectFrom (d_statements s)) fromKeys.

(** ** driver.go *)

Definition driver_statements (driver : string) : outcome (string * DriverStatements) :=
if decide (driver = "mysql"%string) then Ret ("mysql"%string, MySQLStatements)
else if decide (driver ∈ ["sqlite"; "sqlite3"]%string) then Ret ("sqlite3"%string, SQLiteStatements)
else if decide (driver ∈ ["postgres"; "postgresql"; "pgx"]%string) then
  Ret ("postgres"%string, PostgreSQLStatements)
else Fail (ErrText ("failed to resolve driver: " +:+ driver)).

(** [AutoMigrate]: create the table unless it is there. *)
Definition auto_migrate (db : string) : SQL unit :=
let! (_, fl) := tick in
let! _ := lift (match f_query fl with Some e => Fail e | None => Ret tt end) in
fun w => (Ret tt, mkWorld (partial_alter (fun t => Some (default ∅ t)) db (dbs w)) (ticks w)).

(** [sqlx.NewDb] wraps whatever it is given, a nil [*sql.DB] too. *)
Definition NewDb (db : option string) : sqlx_db := Some db.

Definition Resolve (driver storageAddress storageReadOnlyAddress : string) : SQL sqlDriver :=
let! (name, statements) := lift (driver_statements driver) in
let! dbrw := if decide (storageAddress = ""%string) then ret None else
             let! db := lift (sql_open name storageAddress) in
             let! _ := auto_migrate db in
             ret (Some db) in
let! dbro := if decide (storageReadOnlyAddress = ""%string) then ret dbrw else
             let! db := lift (sql_open name storageReadOnlyAddress) in
             ret (Some db) in
match dbrw, dbro with
| None, None => fail (ErrText "must provide one storage address")
| _, _ => ret (mkSqlDriver (NewDb dbrw) (NewDb dbro) statements)
end.
End SqlDriver.

#[export] Instance sqlDriver_Driver `{SqlEngine} (s : sqlDriver) : Driver (World btable) | 10 := {
  Driver_Put := sqlDriver_Put s; Driver_Delete := sqlDriver_Delete s; Driver_List := sqlDriver_List s;
  Driver_NeighborsTo := sqlDriver_NeighborsTo s; Driver_NeighborsFrom := sqlDriver_NeighborsFrom s }.

(** ** server.go *)

(** [processNeighbors]: the results so far and the position of each node. *)
Definition add_neighbor (keyFn : Edge -> bytes) (st : list Neighbor * gmap bytes nat) (item : GraphData) :
    outcome (list Neighbor * gmap bytes nat) :=
  let '(results, index) := st in
  match ConvertGraphData item with
  | Fail _ => Ret (results, index)
  | Panic why => Panic why
  | Ret (inl node) =>
      match index !! Node_Key node with
      | Some _ => Ret (results, index)
      | None => Ret (results ++ [mkNeighbor node []], <[Node_Key node := length results]> index)
      end
  | Ret (inr edge) =>
      let pos := default 0%nat (index !! keyFn edge) in
      match results !! pos with
      | None => Panic "index out of range"
      | Some n => Ret (<[pos := mkNeighbor (Neighbor_Node n) (Neighbor_Edges n ++ [edge])]> results, index)
      end
  end.

Definition processNeighbors (neighborData : list GraphData) (keyFn : Edge -> bytes) :
    outcome (list Neighbor) :=
  let? (results, _) := ofold (add_neighbor keyFn) ([], ∅) neighborData in Ret results.

(** [paginate]: [offset], and the token of the next page. *)
Definition paginate (lastToken : string) (pageSize : Z) : outcome (Z * string) :=
  let next offset :=
    Ret (offset, of_bytes (b32_encode (put_be 8 (swrap 64 (offset + pageSize) mod 2 ^ 64)))) in
  if decide (lastToken = ""%string) then next 0 else
  let '(data, ok) := b32_decode (to_bytes lastToken) in
  if negb ok then Ret (0, ""%string)
  else if decide (length data < 8)%nat then Panic "index out of range"
  else next (swrap 64 (get_be (take 8 data))).

Definition server_of {A} (f : A -> outcome (Node + Edge)) (items : list A) : outcome (list Node * list Edge) :=
  ofold (fun acc item =>
    match f item with
    | Fail _ => Ret acc
    | Panic why => Panic why
    | Ret (inl node) => Ret (acc.1 ++ [node], acc.2)
    | Ret (inr edge) => Ret (acc.1, acc.2 ++ [edge])
    end) ([], []) items.

Section Server.
Context {W : Type} `{Driver W} (now : W -> Z).

(** [time.Now()] *)
Definition the_time : M W Z := fun w => (Ret (now w), w).

Definition Server_Put (nodes : list Node) (edges : list Edge) : M W unit :=
let! t := the_time in
Driver_Put (map (fun n => ConvertNode t n EncodingProtocolBuffers) nodes ++
            map (fun e => ConvertEdge t e EncodingProtocolBuffers) edges).

Definition with_deleted (date : Z) (i : GraphData) : GraphData :=
mkGraphData (CollectionName i) (GD_K1 i) (GD_K2 i) (GD_K3 i) (Kind i) (GD_Encoding i) (Data i)
  (Some date) (LastModified i).

Definition Server_Delete (nodes : list Node) (edges : list Edge) : M W unit :=
let! t := the_time in
Driver_Delete (map (fun e => with_deleted t (ConvertEdge t e EncodingProtocolBuffers)) edges ++
               map (fun n => with_deleted t (ConvertNode t n EncodingProtocolBuffers)) nodes).

Definition Server_List (request : BetaListRequest) : M W BetaListResponse :=
let limit := BLR_PageSize request in
let! (offset, nextPageToken) := lift (paginate (BLR_PageToken request) limit) in
let! (results, hasNext) := Driver_List (BLR_Kind request) offset limit in
let nextPageToken := if hasNext : bool then nextPageToken else ""%string in
let! (nodes, edges) := lift (server_of ConvertGraphData results) in
ret (mkBetaListResponse nextPageToken nodes edges).

Definition Server_Neighbors (request : NeighborsRequest) : M W (list Neighbor) :=
let toNode := match NR_Node request with Some n => Some n | None => NR_To request end in
let fromNode := match NR_Node request with Some n => Some n | None => NR_From request end in
let! t := the_time in
let! toNeighbors :=
  match toNode with
  | None => ret []
  | Some n =>
      let item := ConvertNode t n EncodingProtocolBuffers in
      let! neighborData := Driver_NeighborsTo [GD_K1 item] in
      lift (processNeighbors neighborData Edge_FromKey)
  end in
let! fromNeighbors :=
  match fromNode with
  | None => ret []
  | Some n =>
      let item := ConvertNode t n EncodingProtocolBuffers in
      let! neighborData := Driver_NeighborsFrom [GD_K1 item] in
      lift (processNeighbors neighborData Edge_ToKey)
  end in
ret (toNeighbors ++ fromNeighbors).
End Server.
