(* ===== verification/StoreBetaSpec.v ===== *)
(** * The generalized store against an abstract one

    Conversions, grouping of neighbours, paging and the SQL driver, each
    against the function it stands for; [BetaStoreSpec] is what the store
    promises to the services that use it. *)

From S2P Require Import Prelude GoCodec Sql StoreBeta.

Local Open Scope Z_scope.

(** ** Conversions *)

Lemma decode_encode value encoding : decode (encode value encoding) encoding = Ret value.
Proof.
  unfold decode, encode. case_decide; [|by rewrite to_of_bytes].
  by rewrite to_of_bytes, b64_roundtrip.
Qed.

(** A body that went through the table is present, with the same contents. *)
Definition filled (body : option Any) : option Any := Some (mkAny (GetTypeUrl body) (GetValue body)).
Definition stored_node (n : Node) : Node := mkNode (Node_Key n) (filled (Node_Body n)).
Definition stored_edge (e : Edge) : Edge :=
  mkEdge (Edge_FromKey e) (Edge_ToKey e) (Edge_Key e) (filled (Edge_Body e)).

Lemma convert_node now n enc : ConvertGraphData (ConvertNode now n enc) = Ret (inl (stored_node n)).
Proof.
  unfold ConvertGraphData, ConvertNode. simpl. rewrite decode_encode. simpl.
  by rewrite decide_True, to_of_bytes.
Qed.

Lemma convert_edge now e enc :
  ConvertGraphData (ConvertEdge now e enc) =
  Ret (if decide (Edge_FromKey e = Edge_ToKey e) then inl (mkNode (Edge_FromKey e) (filled (Edge_Body e)))
       else inr (stored_edge e)).
Proof.
  unfold ConvertGraphData, ConvertEdge. simpl. rewrite decode_encode. simpl.
  destruct (decide (Edge_FromKey e = Edge_ToKey e)) as [He|He].
  - rewrite He, decide_True by done. by rewrite to_of_bytes.
  - rewrite decide_False by (by intros ?%(inj of_bytes)). by rewrite !to_of_bytes.
Qed.

(** ** Grouping *)

(** The first node of each key, in order. *)
Definition add_first (nodes : list Node) (n : Node) : list Node :=
  if decide (Node_Key n ∈ map Node_Key nodes) then nodes else nodes ++ [n].
Definition first_nodes (nodes : list Node) : list Node := fold_left add_first nodes [].

(** One neighbour per node, with the edges that go to it, in order. *)
Definition group (keyFn : Edge -> bytes) (pairs : list (Node * Edge)) : list Neighbor :=
  map (fun n => mkNeighbor n (filter (fun e => keyFn e = Node_Key n) (map snd pairs)))
      (first_nodes (map fst pairs)).

Lemma first_nodes_snoc nodes n : first_nodes (nodes ++ [n]) = add_first (first_nodes nodes) n.
Proof. unfold first_nodes. by rewrite fold_left_app. Qed.

Lemma first_nodes_keys nodes k : k ∈ map Node_Key (first_nodes nodes) <-> k ∈ map Node_Key nodes.
Proof.
  induction nodes as [|n nodes IH] using rev_ind; [done|].
  rewrite first_nodes_snoc. unfold add_first. rewrite map_app, elem_of_app, <- IH.
  case_decide as Hd; simpl; [|by rewrite map_app, elem_of_app].
  rewrite list_elem_of_singleton. naive_solver.
Qed.

Lemma first_nodes_NoDup nodes : NoDup (map Node_Key (first_nodes nodes)).
Proof.
  induction nodes as [|n nodes IH] using rev_ind; [constructor|].
  rewrite first_nodes_snoc. unfold add_first. case_decide as Hd; [done|].
  rewrite map_app. apply NoDup_app. split_and!; [done| |apply NoDup_singleton].
  intros k Hk Hn%list_elem_of_singleton. by subst.
Qed.

Lemma first_nodes_in nodes n : n ∈ first_nodes nodes -> n ∈ nodes.
Proof.
  induction nodes as [|m nodes IH] using rev_ind; [done|].
  rewrite first_nodes_snoc. unfold add_first. case_decide; set_solver.
Qed.

(** The index of [processNeighbors]: the position of each key. *)
Definition positions (nodes : list Node) (index : gmap bytes nat) : Prop :=
  forall k p, index !! k = Some p <-> exists n, nodes !! p = Some n /\ Node_Key n = k.

Lemma positions_None nodes index k : positions nodes index -> index !! k = None <-> k ∉ map Node_Key nodes.
Proof.
  intros Hp. split.
  - intros Hn (n & -> & [p Hpn]%list_elem_of_lookup)%list_elem_of_fmap.
    assert (index !! Node_Key n = Some p) by (apply Hp; eauto). congruence.
  - intros Hk. apply eq_None_not_Some. intros [p (n & Hn & <-)%Hp]. apply Hk, list_elem_of_fmap.
    exists n. split; [done|]. by eapply list_elem_of_lookup_2.
Qed.

Lemma positions_snoc nodes index n :
  positions nodes index -> Node_Key n ∉ map Node_Key nodes ->
  positions (nodes ++ [n]) (<[Node_Key n := length nodes]> index).
Proof.
  intros Hp Hn k p. rewrite lookup_insert_Some. setoid_rewrite lookup_app_Some. split.
  - intros [[<- <-]|[Hne Hk]].
    + exists n. split; [|done]. right. by rewrite Nat.sub_diag.
    + apply Hp in Hk as (m & Hm & <-). eauto.
  - intros (m & [Hm|[Hle Hm]] & <-).
    + right. split; [|apply Hp; eauto]. intros He. apply Hn. rewrite He. apply list_elem_of_fmap.
      exists m. split; [done|]. by eapply list_elem_of_lookup_2.
    + left. destruct (p - length nodes)%nat eqn:Hpl; [|done]. simpl in Hm. injection Hm as <-.
      split; [done|lia].
Qed.

Lemma filter_none {A} (P : A -> Prop) `{!forall x, Decision (P x)} (l : list A) :
  (forall x, x ∈ l -> ~ P x) -> filter P l = [].
Proof.
  induction l as [|x l IH]; intros Hl; [done|]. rewrite filter_cons_False.
  - apply IH. intros y Hy. apply Hl. by right.
  - apply Hl. by left.
Qed.

(** Updating the group of one key. *)
Lemma group_insert keyFn nodes edges e p n :
  NoDup (map Node_Key nodes) -> nodes !! p = Some n -> keyFn e = Node_Key n ->
  <[p := mkNeighbor n (filter (fun x => keyFn x = Node_Key n) edges ++ [e])]>
    (map (fun m => mkNeighbor m (filter (fun x => keyFn x = Node_Key m) edges)) nodes) =
  map (fun m => mkNeighbor m (filter (fun x => keyFn x = Node_Key m) (edges ++ [e]))) nodes.
Proof.
  intros Hnd Hp He. apply list_eq. intros i.
  destruct (decide (i = p)) as [->|Hne].
  - rewrite list_lookup_insert_eq by (rewrite length_map; by eapply lookup_lt_Some).
    rewrite (list_lookup_fmap _ nodes p), Hp. simpl. f_equal. f_equal.
    rewrite filter_app. by rewrite filter_cons_True.
  - rewrite list_lookup_insert_ne by done. rewrite !(list_lookup_fmap _ nodes i).
    destruct (nodes !! i) as [m|] eqn:Hm; [|done]. simpl. do 2 f_equal.
    rewrite filter_app, filter_cons_False, filter_nil, app_nil_r; [done|].
    rewrite He. intros Hk. apply Hne. eapply (NoDup_lookup _ i p (Node_Key m) Hnd).
    + by rewrite (list_lookup_fmap Node_Key), Hm.
    + by rewrite (list_lookup_fmap Node_Key), Hp, <- Hk.
Qed.

Definition pair_rows (f : Node * Edge -> GraphData * GraphData) (pairs : list (Node * Edge)) :
    list GraphData := concat (map (fun p => [(f p).1; (f p).2]) pairs).

Lemma processNeighbors_group keyFn (rows : list (GraphData * GraphData)) (pairs : list (Node * Edge)) :
  Forall2 (fun r p => ConvertGraphData r.1 = Ret (inl p.1) /\ ConvertGraphData r.2 = Ret (inr p.2) /\
                      keyFn p.2 = Node_Key p.1) rows pairs ->
  processNeighbors (concat (map (fun r => [r.1; r.2]) rows)) keyFn = Ret (group keyFn pairs).
Proof.
  intros Hrows. unfold processNeighbors.
  assert (forall pre index, positions (first_nodes (map fst pre)) index ->
    Forall (fun p => keyFn p.2 = Node_Key p.1) pre ->
    exists index', ofold (add_neighbor keyFn) (group keyFn pre, index)
                     (concat (map (fun r => [r.1; r.2]) rows)) =
      Ret (group keyFn (pre ++ pairs), index')) as Hgen; cycle 1.
  { destruct (Hgen [] ∅) as [index' Hrun].
    - intros k p. rewrite lookup_empty. simpl. naive_solver.
    - constructor.
    - change (group keyFn []) with (@nil Neighbor) in Hrun. by rewrite Hrun. }
  induction Hrows as [|[rn re] [n e] rows pairs (Hn & He & Hkey) _ IH]; intros pre index Hpos Hpre.
  { exists index. by rewrite app_nil_r. }
  simpl in Hn, He, Hkey. cbn [map concat app ofold fst snd]. unfold add_neighbor at 1. rewrite Hn.
  set (nodes := first_nodes (map fst pre)) in *.
  assert (forall nodes' index', positions nodes' index' -> NoDup (map Node_Key nodes') ->
    Node_Key n ∈ map Node_Key nodes' ->
    add_neighbor keyFn (map (fun m => mkNeighbor m (filter (fun x => keyFn x = Node_Key m) (map snd pre))) nodes',
                        index') re =
    Ret (map (fun m => mkNeighbor m (filter (fun x => keyFn x = Node_Key m) (map snd pre ++ [e]))) nodes', index'))
    as Hedge.
  { intros nodes' index' Hpos' Hnd Hin. unfold add_neighbor. rewrite He, Hkey.
    apply list_elem_of_fmap in Hin as (m & Hm & [p Hp]%list_elem_of_lookup).
    assert (index' !! Node_Key n = Some p) as -> by (apply Hpos'; eauto). simpl.
    rewrite (list_lookup_fmap _ nodes' p), Hp. simpl. rewrite group_insert; [done|done|done|congruence]. }
  assert (group keyFn (pre ++ [(n, e)]) =
    map (fun m => mkNeighbor m (filter (fun x => keyFn x = Node_Key m) (map snd pre ++ [e])))
        (add_first nodes n)) as Hgroup.
  { unfold group. rewrite !map_app. simpl. by rewrite first_nodes_snoc. }
  replace (pre ++ (n, e) :: pairs) with ((pre ++ [(n, e)]) ++ pairs) by (by rewrite <- app_assoc).
  assert (first_nodes (map fst (pre ++ [(n, e)])) = add_first nodes n) as Hfirst.
  { rewrite map_app. simpl. by rewrite first_nodes_snoc. }
  assert (NoDup (map Node_Key nodes)) as Hnd by apply first_nodes_NoDup.
  assert (Forall (fun p => keyFn p.2 = Node_Key p.1) (pre ++ [(n, e)])) as Hpre'.
  { apply Forall_app_2; [done|]. by constructor. }
  destruct (decide (Node_Key n ∈ map Node_Key nodes)) as [Hin|Hnin].
  - destruct (index !! Node_Key n) as [q|] eqn:Hq; cycle 1.
    { by apply (positions_None nodes index _ Hpos) in Hq. }
    cbn [obind]. unfold group at 1. fold nodes. rewrite Hedge by done. cbn [obind].
    unfold add_first in Hgroup, Hfirst. rewrite decide_True in Hgroup, Hfirst by done.
    rewrite <- Hgroup. apply IH; [by rewrite Hfirst|done].
  - apply (positions_None nodes index _ Hpos) in Hnin as Hnone. rewrite Hnone. cbn [obind].
    unfold group at 1 2. fold nodes. rewrite length_map.
    unfold add_first in Hgroup, Hfirst. rewrite decide_False in Hgroup, Hfirst by done.
    assert (filter (fun x => keyFn x = Node_Key n) (map snd pre) = []) as Hnil.
    { apply filter_none. intros x (q & -> & Hq)%list_elem_of_fmap Hx. apply Hnin.
      unfold nodes. rewrite first_nodes_keys, map_map. apply list_elem_of_fmap. exists q.
      split; [|done]. rewrite Forall_forall in Hpre. by rewrite <- (Hpre q Hq), <- Hx. }
    replace (map (fun m => mkNeighbor m (filter (fun x => keyFn x = Node_Key m) (map snd pre))) nodes ++
             [mkNeighbor n []])
      with (map (fun m => mkNeighbor m (filter (fun x => keyFn x = Node_Key m) (map snd pre))) (nodes ++ [n])).
    + rewrite Hedge.
      * cbn [obind]. rewrite <- Hgroup. apply IH; [rewrite Hfirst; by apply positions_snoc|done].
      * by apply positions_snoc.
      * rewrite <- Hfirst. apply first_nodes_NoDup.
      * rewrite map_app, elem_of_app. right. by left.
    + rewrite map_app. simpl. by rewrite Hnil.
Qed.

(** ** The abstract store *)

Notation bkeys := (bytes * bytes * bytes)%type.
Notation bval := (string * bytes)%type.
Notation bstore := (gmap bkeys bval).

Definition body_val (body : option Any) : bval := (GetTypeUrl body, GetValue body).
Definition node_entry (n : Node) : bkeys * bval := ((Node_Key n, Node_Key n, []), body_val (Node_Body n)).
Definition edge_entry (e : Edge) : bkeys * bval :=
  ((Edge_FromKey e, Edge_ToKey e, Edge_Key e), body_val (Edge_Body e)).

Definition put_entries (entries : list (bkeys * bval)) (v : bstore) : bstore :=
  fold_left (fun v e => <[e.1 := e.2]> v) entries v.
Definition delete_keys (keys : list bkeys) (v : bstore) : bstore :=
  fold_left (fun v k => delete k v) keys v.

Definition put_entries_of (nodes : list Node) (edges : list Edge) : list (bkeys * bval) :=
  map node_entry nodes ++ map edge_entry edges.
Definition delete_keys_of (nodes : list Node) (edges : list Edge) : list bkeys :=
  map (fun e => (edge_entry e).1) edges ++ map (fun n => (node_entry n).1) nodes.

Definition val_body (c : bval) : option Any := Some (mkAny c.1 c.2).

(** What [Neighbors] answers for the node [q] as origin. *)
Definition neighbors_from (v : bstore) (q : bytes) (res : list Neighbor) : Prop :=
  NoDup (map (fun nb => Node_Key (Neighbor_Node nb)) res) /\
  (forall m, m ∈ map (fun nb => Node_Key (Neighbor_Node nb)) res <->
     q <> m /\ (exists k : bytes, is_Some (v !! (q, m, k))) /\ exists k : bytes, is_Some (v !! (m, m, k))) /\
  forall nb, nb ∈ res ->
    let m := Node_Key (Neighbor_Node nb) in
    (exists (k : bytes) c, v !! (m, m, k) = Some c /\ Neighbor_Node nb = mkNode m (val_body c)) /\
    forall e, e ∈ Neighbor_Edges nb <-> exists (k : bytes) c, v !! (q, m, k) = Some c /\ e = mkEdge q m k (val_body c).

(** And as destination. *)
Definition neighbors_to (v : bstore) (q : bytes) (res : list Neighbor) : Prop :=
  NoDup (map (fun nb => Node_Key (Neighbor_Node nb)) res) /\
  (forall m, m ∈ map (fun nb => Node_Key (Neighbor_Node nb)) res <->
     m <> q /\ (exists k : bytes, is_Some (v !! (m, q, k))) /\ exists k : bytes, is_Some (v !! (m, m, k))) /\
  forall nb, nb ∈ res ->
    let m := Node_Key (Neighbor_Node nb) in
    (exists (k : bytes) c, v !! (m, m, k) = Some c /\ Neighbor_Node nb = mkNode m (val_body c)) /\
    forall e, e ∈ Neighbor_Edges nb <-> exists (k : bytes) c, v !! (m, q, k) = Some c /\ e = mkEdge m q k (val_body c).

Definition from_request (n : Node) : NeighborsRequest := mkNeighborsRequest None None (Some n).
Definition to_request (n : Node) : NeighborsRequest := mkNeighborsRequest None (Some n) None.

Class BetaStoreOps (W : Type) := {
  bs_Put : list Node -> list Edge -> M W unit;
  bs_Delete : list Node -> list Edge -> M W unit;
  bs_Neighbors : NeighborsRequest -> M W (list Neighbor) }.

(** The contract: writes happen as a whole or not at all. *)
Class BetaStoreSpec (W : Type) `{BetaStoreOps W} := {
  brep : W -> bstore -> Prop;
  bput_spec : forall w v ns es w',
    brep w v -> bs_Put ns es w = (Ret tt, w') -> brep w' (put_entries (put_entries_of ns es) v);
  bput_fail : forall w v ns es e w', brep w v -> bs_Put ns es w = (Fail e, w') -> brep w' v;
  bdelete_spec : forall w v ns es w',
    brep w v -> bs_Delete ns es w = (Ret tt, w') -> brep w' (delete_keys (delete_keys_of ns es) v);
  bdelete_fail : forall w v ns es e w', brep w v -> bs_Delete ns es w = (Fail e, w') -> brep w' v;
  bneighbors_frame : forall w v req o w', brep w v -> bs_Neighbors req w = (o, w') -> brep w' v;
  bneighbors_from : forall w v n res w',
    brep w v -> bs_Neighbors (from_request n) w = (Ret res, w') -> neighbors_from v (Node_Key n) res;
  bneighbors_to : forall w v n res w',
    brep w v -> bs_Neighbors (to_request n) w = (Ret res, w') -> neighbors_to v (Node_Key n) res }.

(** A store whose calls succeed. *)
Class BetaStoreTotal (W : Type) `{BetaStoreSpec W} := {
  bput_total : forall w v ns es, brep w v -> exists w', bs_Put ns es w = (Ret tt, w');
  bdelete_total : forall w v ns es, brep w v -> exists w', bs_Delete ns es w = (Ret tt, w');
  bfrom_total : forall w v n, brep w v -> exists res w', bs_Neighbors (from_request n) w = (Ret res, w') }.

(** ** The representation *)

Definition enc_bkeys (k : bkeys) : bkey := let '(a, b, c) := k in (of_bytes a, of_bytes b, of_bytes c).
Definition cell_val (c : BetaCell) : option bval :=
  match b_deleted c, decode (b_data c) (b_encoding c) with
  | None, Ret value => Some (b_kind c, value)
  | _, _ => None
  end.

Record btable_rep (t : btable) (v : bstore) : Prop := mkBtableRep {
  brep_encoded : forall k c, t !! k = Some c -> exists value, decode (b_data c) (b_encoding c) = Ret value;
  brep_lookup : forall k, v !! k = t !! enc_bkeys k ≫= cell_val }.

#[export] Instance enc_bkeys_inj : Inj (=) (=) enc_bkeys.
Proof. intros [[? ?] ?] [[? ?] ?]. simpl. intros. simplify_eq. done. Qed.

Lemma enc_bkeys_surj k : exists k', k = enc_bkeys k'.
Proof. destruct k as [[a b] c]. exists (to_bytes a, to_bytes b, to_bytes c). simpl. by rewrite !of_to_bytes. Qed.

Lemma btable_rep_empty : btable_rep ∅ ∅.
Proof. split; intros *; [by rewrite lookup_empty|]. by rewrite !lookup_empty. Qed.

(** Items as the server makes them. *)
Definition item_of (k : bkeys) (c : bval) (date : option Z) (stamp : Z) : GraphData :=
  mkGraphData "" (enc_bkeys k).1.1 (enc_bkeys k).1.2 (enc_bkeys k).2 c.1 EncodingProtocolBuffers
    (encode c.2 EncodingProtocolBuffers) date stamp.

Lemma ConvertNode_item now n :
  ConvertNode now n EncodingProtocolBuffers = item_of (node_entry n).1 (node_entry n).2 None now.
Proof. done. Qed.
Lemma ConvertEdge_item now e :
  ConvertEdge now e EncodingProtocolBuffers = item_of (edge_entry e).1 (edge_entry e).2 None now.
Proof. done. Qed.

Definition insert_row (item : GraphData) (t : btable) : btable :=
  <[item_bkey item := item_cell item]> (delete (item_bkey item) t).
Definition delete_row (item : GraphData) (t : btable) : btable :=
  alter (mark_deleted (DateDeleted item)) (item_bkey item) t.

Lemma item_bkey_of k c date stamp : item_bkey (item_of k c date stamp) = enc_bkeys k.
Proof. by destruct k as [[? ?] ?]. Qed.

Lemma insert_row_rep t v k c stamp :
  btable_rep t v -> btable_rep (insert_row (item_of k c None stamp) t) (<[k := c]> v).
Proof.
  intros [He Hl]. unfold insert_row. rewrite item_bkey_of, insert_delete_eq. split.
  - intros j d [[_ <-]|[_ Hd]]%lookup_insert_Some; [|eauto]. exists c.2. apply decode_encode.
  - intros j. destruct (decide (j = k)) as [->|Hne].
    + rewrite !lookup_insert_eq. simpl. unfold cell_val. simpl. rewrite decode_encode. by destruct c.
    + rewrite lookup_insert_ne by done. rewrite lookup_insert_ne; [apply Hl|].
      intros Heq%(inj enc_bkeys). by subst.
Qed.

Lemma delete_row_rep t v k c date stamp :
  btable_rep t v -> btable_rep (delete_row (item_of k c (Some date) stamp) t) (delete k v).
Proof.
  intros [He Hl]. unfold delete_row. rewrite item_bkey_of. split.
  - intros j d. rewrite lookup_alter. case_decide as Hj.
    + rewrite Hj. destruct (t !! j) as [x|] eqn:Hx; [|done]. simpl. intros [= <-]. destruct (He _ _ Hx) as [value Hv]. by exists value.
    + apply He.
  - intros j. destruct (decide (j = k)) as [->|Hne].
    + rewrite lookup_delete_eq, lookup_alter_eq. by destruct (t !! enc_bkeys k).
    + rewrite lookup_delete_ne by done. rewrite lookup_alter_ne; [apply Hl|].
      intros Heq%(inj enc_bkeys). by subst.
Qed.

(** ** Writing *)

Lemma exec_all_done (fl : Faults) (f : GraphData -> btable -> btable) (items : list GraphData) :
  forall i (t : btable) tx, exec_all fl (fun x t => Ret (f x t)) i items (Some t) = Ret tx ->
  tx = Some (fold_left (fun t x => f x t) items t).
Proof.
  induction items as [|x items IH]; intros i t tx; simpl; [by intros [= <-]|].
  unfold exec_stmt, obind. destruct (f_exec fl i); [done|]. apply IH.
Qed.

Lemma exec_all_no_panic (fl : Faults) (f : GraphData -> btable -> btable) (items : list GraphData) :
  forall i (t : btable) why, exec_all fl (fun x t => Ret (f x t)) i items (Some t) <> Panic why.
Proof.
  induction items as [|x items IH]; intros i t why; simpl; [done|].
  unfold exec_stmt, obind. destruct (f_exec fl i); [done|]. apply IH.
Qed.

(** [Put] and [Delete] of the driver, with statements that never fail. *)
Definition write_all `{SqlEngine} (f : GraphData -> btable -> btable) (s : sqlDriver)
    (items : list GraphData) : M (World btable) unit :=
  let! db := open_handle (d_rwdb s) in
  let! (_, fl) := tick in
  let! tx := begin_tx db fl in
  let! tx' := lift (exec_all fl (fun x t => Ret (f x t)) 0 items tx) in
  commit_tx db fl tx'.

(** It is all or nothing, whatever fails. *)
Lemma write_all_atomic `{SqlEngine} (f : GraphData -> btable -> btable) (s : sqlDriver) (db : string)
    (items : list GraphData) (w : World btable) (t : btable) (o : outcome unit) (w' : World btable) :
  d_rwdb s = Some (Some db) -> dbs w !! db = Some t -> write_all f s items w = (o, w') ->
  (o = Ret tt /\ dbs w' = <[db := fold_left (fun t x => f x t) items t]> (dbs w)) \/
  (exists e, o = Fail e /\ dbs w' = dbs w).
Proof.
  intros Hdb Ht. unfold write_all, open_handle, bind, tick, begin_tx, lift, commit_tx, ret. rewrite Hdb.
  destruct (f_begin _) as [e|]; [intros [= <- <-]; right; eauto|]. simpl. rewrite Ht.
  destruct (exec_all _ _ 0 items (Some t)) as [tx|e|why] eqn:Hex.
  - apply exec_all_done in Hex as ->. destruct (f_commit _) as [e|]; intros [= <- <-]; [right; eauto|by left].
  - intros [= <- <-]. right. eauto.
  - by apply exec_all_no_panic in Hex.
Qed.

Section Sqlite.
Context `{SqlEngine}.
Variable db : string.
Let s : sqlDriver := mkSqlDriver (Some (Some db)) (Some (Some db)) SQLiteStatements.

Definition bsql_rep (w : World btable) (v : bstore) : Prop :=
exists t, dbs w !! db = Some t /\ btable_rep t v.

Lemma Put_write_all items : sqlDriver_Put s items = write_all insert_row s items.
Proof using. done. Qed.
Lemma Delete_write_all items : sqlDriver_Delete s items = write_all delete_row s items.
Proof using. done. Qed.

Lemma bsql_rep_write (w w' : World btable) t v :
dbs w' = <[db := t]> (dbs w) -> btable_rep t v -> bsql_rep w' v.
Proof. intros Hw Hr. exists t. by rewrite Hw, lookup_insert_eq. Qed.

Lemma fold_rows_rep (f : GraphData -> btable -> btable) (g : bstore -> bkeys * bval -> bstore)
  (date : option Z) (stamp : Z) entries :
(forall t v e, btable_rep t v -> btable_rep (f (item_of e.1 e.2 date stamp) t) (g v e)) ->
forall t v, btable_rep t v ->
btable_rep (fold_left (fun t x => f x t) (map (fun e => item_of e.1 e.2 date stamp) entries) t)
           (fold_left g entries v).
Proof. intros Hf. induction entries as [|e entries IH]; simpl; auto. Qed.

(** The rows of a join, as conversions. *)
Definition row_of (k : bkeys) (c : bval) : Node + Edge :=
if decide (k.1.1 = k.1.2) then inl (mkNode k.1.1 (val_body c))
else inr (mkEdge k.1.1 k.1.2 k.2 (val_body c)).

Lemma live_row t v r :
btable_rep t v -> r ∈ map_to_list t -> b_deleted r.2 = None ->
exists k c, r.1 = enc_bkeys k /\ v !! k = Some c /\ ConvertGraphData (row_data r) = Ret (row_of k c).
Proof using.
intros [He Hl] Hin Hd. destruct r as [rk rc]. apply elem_of_map_to_list in Hin. simpl in Hd.
destruct (enc_bkeys_surj rk) as [k ->]. destruct (He _ _ Hin) as [value Hv].
exists k, (b_kind rc, value). split; [done|]. split.
- rewrite Hl, Hin. simpl. unfold cell_val. by rewrite Hd, Hv.
- unfold ConvertGraphData, row_data, row_of. simpl. rewrite Hv. simpl.
  destruct k as [[a b] c]. unfold b_k1, b_k2, b_k3, val_body. simpl. rewrite !to_of_bytes.
  repeat case_decide; simplify_eq; done.
Qed.

Lemma live_row_of t v k c :
btable_rep t v -> v !! k = Some c ->
exists r, r ∈ map_to_list t /\ b_deleted r.2 = None /\ r.1 = enc_bkeys k.
Proof using.
intros [_ Hl]. rewrite Hl. destruct (t !! enc_bkeys k) as [d|] eqn:Hd; [|done]. simpl.
unfold cell_val. destruct (b_deleted d) eqn:Hdel; [done|]. intros _.
exists (enc_bkeys k, d). by rewrite elem_of_map_to_list.
Qed.

(** The pairs of a join of live rows: nodes and edges. *)
Definition join_pair (far : bkeys -> bytes) (v : bstore) (g : brow * brow) (p : Node * Edge) : Prop :=
exists kn cn ke ce, g.1.1 = enc_bkeys kn /\ g.2.1 = enc_bkeys ke /\
  v !! kn = Some cn /\ v !! ke = Some ce /\ kn.1.1 = kn.1.2 /\ ke.1.1 <> ke.1.2 /\ kn.1.1 = far ke /\
  p = (mkNode kn.1.1 (val_body cn), mkEdge ke.1.1 ke.1.2 ke.2 (val_body ce)) /\
  ConvertGraphData (row_data g.1) = Ret (inl p.1) /\ ConvertGraphData (row_data g.2) = Ret (inr p.2).

Lemma join_rows call t v (P : brow * brow -> Prop) `{!forall g, Decision (P g)} (far : bkeys -> bytes) :
btable_rep t v ->
(forall g kn ke, P g -> g.1.1 = enc_bkeys kn -> g.2.1 = enc_bkeys ke ->
   b_join_where g.1 g.2 /\ kn.1.1 = far ke) ->
exists pairs, Forall2 (join_pair far v)
  (arrange call (filter P (list_prod (map_to_list t) (map_to_list t)))) pairs.
Proof using.
intros Hr HP.
assert (Forall (fun g => exists p, join_pair far v g p)
  (arrange call (filter P (list_prod (map_to_list t) (map_to_list t))))) as Hall.
{ apply Forall_forall. intros [r1 r2] Hin. rewrite arrange_perm in Hin.
  apply list_elem_of_filter in Hin as [Hp Hin]. apply elem_of_list_prod in Hin as [H1 H2].
  destruct (enc_bkeys_surj r1.1) as [kn Hkn], (enc_bkeys_surj r2.1) as [ke Hke].
  destruct (HP _ kn ke Hp Hkn Hke) as [(Hne & Hd2 & Heq & Hd1) Hfar].
  destruct (live_row t v r1 Hr H1 Hd1) as (kn' & cn & Hkn' & Hvn & Hcn).
  destruct (live_row t v r2 Hr H2 Hd2) as (ke' & ce & Hke' & Hve & Hce).
  simpl in *. rewrite Hkn in Hkn'. rewrite Hke in Hke'. apply (inj enc_bkeys) in Hkn', Hke'. subst kn' ke'.
  unfold b_k1, b_k2 in *. rewrite Hkn in Heq. rewrite Hke in Hne.
  assert (kn.1.1 = kn.1.2) as Hn by (destruct kn as [[? ?] ?]; simpl in *; by apply (inj of_bytes)).
  assert (ke.1.1 <> ke.1.2) as He by (destruct ke as [[? ?] ?]; simpl in *; congruence).
  eexists. exists kn, cn, ke, ce. simpl. rewrite Hcn, Hce. unfold row_of.
  rewrite decide_True, decide_False by done. done. }
induction Hall as [|g l [p Hp] _ [pairs IH]]; [by exists []|]. exists (p :: pairs). by constructor.
Qed.

(** ** Neighbours *)

Lemma neighbors_run (stmt : nat -> list string -> btable -> list (brow * brow)) (keys : list string)
  (w : World btable) (o : outcome (list GraphData)) (w' : World btable) (t : btable) :
dbs w !! db = Some t -> neighbors s stmt keys w = (o, w') ->
dbs w' = dbs w /\
forall l, o = Ret l ->
  l = concat (map (fun g => [row_data g.1; row_data g.2]) (fetched (faults (ticks w)) (stmt (S (ticks w)) keys t))).
Proof using.
intros Ht. unfold neighbors, bind, lift, open_handle, tick, run_query, ret. simpl.
destruct (sqlx_In _); [by intros [= <- <-]|]. simpl.
destruct (f_query _); [by intros [= <- <-]|]. rewrite Ht.
destruct (read_rows _ _ _) as [l| |] eqn:Hl; intros [= <- <-]; (split; [done|]); intros l' [= <-].
by apply scan_rows_Ret in Hl as ->.
Qed.
End Sqlite.

(** Neighbours grouped by the far end of a join. *)
Lemma group_answer (v : bstore) (keyFn : Edge -> bytes) (far near : bkeys -> bytes)
    (rows : list (brow * brow)) (pairs : list (Node * Edge)) (q : bytes) :
  (forall k c, keyFn (mkEdge k.1.1 k.1.2 k.2 c) = far k) ->
  Forall2 (join_pair far v) rows pairs ->
  let res := group keyFn pairs in
  NoDup (map (fun nb => Node_Key (Neighbor_Node nb)) res) /\
  (forall m, m ∈ map (fun nb => Node_Key (Neighbor_Node nb)) res <->
     exists kn ke, (enc_bkeys kn, enc_bkeys ke) ∈ map (fun g => (g.1.1, g.2.1)) rows /\ far ke = m) /\
  forall nb, nb ∈ res ->
    let m := Node_Key (Neighbor_Node nb) in
    (exists (k : bytes) c, v !! (m, m, k) = Some c /\ Neighbor_Node nb = mkNode m (val_body c)) /\
    forall e, e ∈ Neighbor_Edges nb <-> exists kn ke c,
      (enc_bkeys kn, enc_bkeys ke) ∈ map (fun g => (g.1.1, g.2.1)) rows /\ far ke = m /\
      v !! ke = Some c /\ e = mkEdge ke.1.1 ke.1.2 ke.2 (val_body c).
Proof.
  intros Hfn Hrows res. unfold res, group.
  assert (map (fun nb => Node_Key (Neighbor_Node nb))
    (map (fun n => mkNeighbor n (filter (fun e => keyFn e = Node_Key n) (map snd pairs)))
         (first_nodes (map fst pairs))) = map Node_Key (first_nodes (map fst pairs))) as Hkeys
    by (by rewrite map_map).
  rewrite Hkeys. split_and!.
  - apply first_nodes_NoDup.
  - intros m. rewrite first_nodes_keys, map_map, list_elem_of_fmap. split.
    + intros (p & -> & [i Hi]%list_elem_of_lookup).
      destruct (Forall2_lookup_r _ _ _ _ _ Hrows Hi) as (g & Hg & kn & cn & ke & ce & Hkn & Hke & _ & _ & _ & _ & Hfar & -> & _).
      exists kn, ke. split; [|done]. apply list_elem_of_fmap. exists g.
      rewrite Hkn, Hke. split; [done|]. by eapply list_elem_of_lookup_2.
    + intros (kn & ke & (g & Hg & [i Hi]%list_elem_of_lookup)%list_elem_of_fmap & <-).
      destruct (Forall2_lookup_l _ _ _ _ _ Hrows Hi) as (p & Hp & kn' & cn & ke' & ce & Hkn & Hke & _ & _ & _ & _ & Hfar & -> & _).
      rewrite Hkn, Hke in Hg. injection Hg as Hg1 Hg2.
      assert (ke = ke') as -> by (by apply (inj enc_bkeys)).
      eexists. split; [|by eapply list_elem_of_lookup_2]. by simpl.
  - intros nb (n & -> & Hn)%list_elem_of_fmap. simpl. split.
    + apply first_nodes_in, list_elem_of_fmap in Hn as (p & -> & [i Hi]%list_elem_of_lookup).
      destruct (Forall2_lookup_r _ _ _ _ _ Hrows Hi) as (g & Hg & [[a b] k] & cn & ke & ce & _ & _ & Hvn & _ & Hself & _ & _ & -> & _).
      simpl in *. subst b. eauto.
    + intros e. rewrite list_elem_of_filter, list_elem_of_fmap. split.
      * intros [He (p & -> & [i Hi]%list_elem_of_lookup)].
        destruct (Forall2_lookup_r _ _ _ _ _ Hrows Hi) as (g & Hg & kn & cn & ke & ce & Hkn & Hke & _ & Hve & _ & _ & _ & -> & _).
        simpl in *. exists kn, ke, ce. rewrite Hfn in He. split_and!; [|done..].
        apply list_elem_of_fmap. exists g. rewrite Hkn, Hke. split; [done|]. by eapply list_elem_of_lookup_2.
      * intros (kn & ke & c & (g & Hg & [i Hi]%list_elem_of_lookup)%list_elem_of_fmap & Hm & Hve & ->).
        split; [by rewrite Hfn|].
        destruct (Forall2_lookup_l _ _ _ _ _ Hrows Hi) as (p & Hp & kn' & cn & ke' & ce & Hkn & Hke & _ & Hve' & _ & _ & _ & -> & _).
        rewrite Hkn, Hke in Hg. injection Hg as _ Hg2. apply (inj enc_bkeys) in Hg2. subst ke'.
        eexists. split; [|by eapply list_elem_of_lookup_2]. simpl. congruence.
Qed.

(** ** The server on a SQLite driver meets the contract *)

Definition beta_driver `{SqlEngine} (db : string) : sqlDriver :=
  mkSqlDriver (Some (Some db)) (Some (Some db)) SQLiteStatements.
Definition beta_now `{SqlEngine} (w : World btable) : Z := now (ticks w).

Section Contract.
Context `{SqlEngine} (db : string).
#[local] Existing Instance sqlDriver_Driver.

Definition beta_ops : BetaStoreOps (World btable) := {|
bs_Put := @Server_Put _ (sqlDriver_Driver (beta_driver db)) beta_now;
bs_Delete := @Server_Delete _ (sqlDriver_Driver (beta_driver db)) beta_now;
bs_Neighbors := @Server_Neighbors _ (sqlDriver_Driver (beta_driver db)) beta_now |}.

Lemma Server_Put_write (ns : list Node) (es : list Edge) (w : World btable) :
@Server_Put _ (sqlDriver_Driver (beta_driver db)) beta_now ns es w =
write_all insert_row (beta_driver db)
  (map (fun e => item_of e.1 e.2 None (beta_now w)) (put_entries_of ns es)) w.
Proof.
unfold put_entries_of. by rewrite map_app, !map_map.
Qed.

Lemma with_deleted_item d k c stamp :
with_deleted d (item_of k c None stamp) = item_of k c (Some d) stamp.
Proof. done. Qed.

Lemma Server_Delete_write (ns : list Node) (es : list Edge) (w : World btable) :
@Server_Delete _ (sqlDriver_Driver (beta_driver db)) beta_now ns es w =
write_all delete_row (beta_driver db)
  (map (fun e => item_of e.1 e.2 (Some (beta_now w)) (beta_now w))
       (map edge_entry es ++ map node_entry ns)) w.
Proof.
by rewrite map_app, !map_map.
Qed.

Lemma bput_rep (w w' : World btable) (v : bstore) (entries : list (bkeys * bval)) (stamp : Z) :
bsql_rep db w v ->
write_all insert_row (beta_driver db) (map (fun e => item_of e.1 e.2 None stamp) entries) w = (Ret tt, w') ->
bsql_rep db w' (put_entries entries v).
Proof.
intros (t & Ht & Hr) Hrun. eapply write_all_atomic in Hrun as [[_ Hw]|(e & [=] & _)]; [|done..].
eapply bsql_rep_write; [exact Hw|].
apply (fold_rows_rep insert_row (fun v e => <[e.1 := e.2]> v) None stamp); [|done].
intros. by apply insert_row_rep.
Qed.

Lemma bdelete_rep (w w' : World btable) (v : bstore) (entries : list (bkeys * bval)) (date stamp : Z) :
bsql_rep db w v ->
write_all delete_row (beta_driver db) (map (fun e => item_of e.1 e.2 (Some date) stamp) entries) w = (Ret tt, w') ->
bsql_rep db w' (delete_keys (map fst entries) v).
Proof.
intros (t & Ht & Hr) Hrun. eapply write_all_atomic in Hrun as [[_ Hw]|(e & [=] & _)]; [|done..].
eapply bsql_rep_write; [exact Hw|].
assert (forall l v, delete_keys (map fst l) v = fold_left (fun v (e : bkeys * bval) => delete e.1 v) l v) as ->.
{ intros l. unfold delete_keys. induction l as [|x l IH]; intros v0; simpl; [done|]. apply IH. }
apply (fold_rows_rep delete_row (fun v e => delete e.1 v) (Some date) stamp); [|done].
intros. by apply delete_row_rep.
Qed.

Lemma write_fail (f : GraphData -> btable -> btable) (items : list GraphData) (e : error)
  (w w' : World btable) (v : bstore) :
bsql_rep db w v -> write_all f (beta_driver db) items w = (Fail e, w') -> bsql_rep db w' v.
Proof.
intros (t & Ht & Hr) Hrun. eapply write_all_atomic in Hrun as [[[=] _]|(e' & _ & Hw)]; [|done..].
exists t. by rewrite Hw.
Qed.

Lemma neighbors_frame (stmt : nat -> list string -> btable -> list (brow * brow)) (keys : list string)
  (w w' : World btable) (o : outcome (list GraphData)) (v : bstore) :
bsql_rep db w v -> neighbors (beta_driver db) stmt keys w = (o, w') -> bsql_rep db w' v.
Proof.
intros (t & Ht & Hr) Hrun. eapply neighbors_run in Hrun as [Hw _]; [|done]. exists t. by rewrite Hw.
Qed.

Lemma Server_Neighbors_frame (req : NeighborsRequest) (w w' : World btable) (o : outcome (list Neighbor)) (v : bstore) :
bsql_rep db w v ->
@Server_Neighbors _ (sqlDriver_Driver (beta_driver db)) beta_now req w = (o, w') -> bsql_rep db w' v.
Proof.
intros Hr Hrun. revert Hr Hrun. apply (fun H => H w o w').
assert (forall keys, keeps (fun w => bsql_rep db w v) (sqlDriver_NeighborsTo (beta_driver db) keys)) as Hto
  by (intros keys w0 o0 w1; apply neighbors_frame).
assert (forall keys, keeps (fun w => bsql_rep db w v) (sqlDriver_NeighborsFrom (beta_driver db) keys)) as Hfrom
  by (intros keys w0 o0 w1; apply neighbors_frame).
unfold Server_Neighbors. apply keeps_bind; [by intros w0 o0 w1 Hw [= _ <-]|]. intros now.
apply keeps_bind; [destruct (match NR_Node req with Some n => Some n | None => NR_To req end)|];
  eauto with deps. intros l.
apply keeps_bind; [destruct (match NR_Node req with Some n => Some n | None => NR_From req end)|];
  eauto with deps.
Qed.

Context `{!NoCut}.

(** Reading and grouping what a join found never fails. *)
Lemma join_grouped (call : nat) (t : btable) (v : bstore) (P : brow * brow -> Prop) `{!forall g, Decision (P g)}
  (keyFn : Edge -> bytes) (far : bkeys -> bytes) :
btable_rep t v -> (forall k c, keyFn (mkEdge k.1.1 k.1.2 k.2 c) = far k) ->
(forall g kn ke, P g -> g.1.1 = enc_bkeys kn -> g.2.1 = enc_bkeys ke ->
   b_join_where g.1 g.2 /\ kn.1.1 = far ke) ->
exists pairs, let rows := arrange call (filter P (list_prod (map_to_list t) (map_to_list t))) in
  Forall2 (join_pair far v) rows pairs /\
  processNeighbors (concat (map (fun g => [row_data g.1; row_data g.2]) rows)) keyFn =
    Ret (group keyFn pairs).
Proof.
intros Hr Hfn HP. destruct (join_rows call t v P far Hr HP) as [pairs Hpairs].
exists pairs. split; [done|].
rewrite <- (processNeighbors_group keyFn (map (fun g => (row_data g.1, row_data g.2))
  (arrange call (filter P (list_prod (map_to_list t) (map_to_list t))))) pairs).
- by rewrite map_map.
- apply Forall2_fmap_l. eapply Forall2_impl; [exact Hpairs|].
  intros g p (kn & cn & ke & ce & _ & _ & _ & _ & _ & _ & Hfar & -> & Hc1 & Hc2).
  simpl. rewrite Hfn. done.
Qed.

(** The rows found for one key, read and grouped. *)
Lemma neighbors_answer (w w' : World btable) (t : btable) (v : bstore) (P : list string -> brow * brow -> Prop)
  `{!forall ks g, Decision (P ks g)} (keyFn : Edge -> bytes) (far near : bkeys -> bytes) (q : bytes)
  (data : list GraphData) (res : list Neighbor) :
dbs w !! db = Some t -> btable_rep t v ->
(forall k c, keyFn (mkEdge k.1.1 k.1.2 k.2 c) = far k) ->
(forall rn re kn ke, rn.1 = enc_bkeys kn -> re.1 = enc_bkeys ke ->
   P [of_bytes q] (rn, re) <-> kn.1.1 = far ke /\ near ke = q /\ b_join_where rn re) ->
neighbors (beta_driver db)
  (fun call ks t => arrange call (filter (P ks) (list_prod (map_to_list t) (map_to_list t)))) [of_bytes q] w =
  (Ret data, w') ->
processNeighbors data keyFn = Ret res ->
NoDup (map (fun nb => Node_Key (Neighbor_Node nb)) res) /\
(forall m, m ∈ map (fun nb => Node_Key (Neighbor_Node nb)) res <->
   exists ke, far ke = m /\ near ke = q /\ ke.1.1 <> ke.1.2 /\ is_Some (v !! ke) /\
     exists k : bytes, is_Some (v !! (m, m, k))) /\
forall nb, nb ∈ res ->
  let m := Node_Key (Neighbor_Node nb) in
  (exists (k : bytes) c, v !! (m, m, k) = Some c /\ Neighbor_Node nb = mkNode m (val_body c)) /\
  forall e, e ∈ Neighbor_Edges nb <-> exists ke c, far ke = m /\ near ke = q /\ ke.1.1 <> ke.1.2 /\
    v !! ke = Some c /\ e = mkEdge ke.1.1 ke.1.2 ke.2 (val_body c).
Proof.
intros Ht Hr Hfn HP Hrun Hproc. apply (neighbors_run db _ _ _ _ _ t Ht) in Hrun as [_ Hdata].
specialize (Hdata _ eq_refl). subst data.
unfold fetched in Hproc. rewrite no_cut_all in Hproc.
destruct (join_grouped (S (ticks w)) t v (P [of_bytes q]) keyFn far Hr Hfn) as (pairs & Hpairs & Hgroup).
{ intros [rn re] kn ke Hp Hkn Hke. apply (HP rn re kn ke Hkn Hke) in Hp. tauto. }
set (rows := arrange _ _) in *.
rewrite Hgroup in Hproc. injection Hproc as <-.
destruct (group_answer v keyFn far near rows pairs q Hfn Hpairs) as (Hnd & Hk & Hnb).
assert (forall kn ke, (enc_bkeys kn, enc_bkeys ke) ∈ map (fun g => (g.1.1, g.2.1)) rows <->
  kn.1.1 = kn.1.2 /\ is_Some (v !! kn) /\ is_Some (v !! ke) /\ ke.1.1 <> ke.1.2 /\
  kn.1.1 = far ke /\ near ke = q) as Hrows.
{ intros kn ke. rewrite list_elem_of_fmap. split.
  - intros ([rn re] & Heq & Hin). simpl in Heq. injection Heq as Hkn Hke.
    apply list_elem_of_lookup in Hin as [i Hi]. symmetry in Hkn, Hke.
    destruct (Forall2_lookup_l _ _ _ _ _ Hpairs Hi) as (p & _ & kn' & cn & ke' & ce & Hkn' & Hke' & Hvn & Hve & Hs & Hns & Hfar & _).
    simpl in *. rewrite Hkn in Hkn'. rewrite Hke in Hke'. apply (inj enc_bkeys) in Hkn', Hke'. subst kn' ke'.
    apply list_elem_of_lookup_2 in Hi. unfold rows in Hi. rewrite arrange_perm in Hi.
    apply list_elem_of_filter in Hi as [Hp _]. apply (HP rn re kn ke Hkn Hke) in Hp as (_ & Hnear & _).
    split_and!; [done|by eexists|by eexists|done..].
  - intros (Hs & [cn Hn] & [ce He] & Hns & Hfar & Hnear).
    destruct (live_row_of t v kn cn Hr Hn) as (rn & Hin1 & Hd1 & Hk1).
    destruct (live_row_of t v ke ce Hr He) as (re & Hin2 & Hd2 & Hk2).
    exists (rn, re). simpl. rewrite Hk1, Hk2. split; [done|]. unfold rows. rewrite arrange_perm.
    apply list_elem_of_filter. split; [|by apply elem_of_list_prod].
    apply (HP rn re kn ke Hk1 Hk2). split_and!; [done|done|].
    unfold b_join_where, b_k1, b_k2. rewrite Hk1, Hk2.
    destruct kn as [[a b] c], ke as [[d e] f]. simpl in *. split_and!; try done.
    + by intros ?%(inj of_bytes).
    + by subst. }
split; [done|]. split.
- intros m. rewrite Hk. split.
  + intros (kn & ke & (Hs & Hn & He & Hns & Hfar & Hnear)%Hrows & <-).
    exists ke. split_and!; [done..|]. exists kn.2. rewrite <- Hfar. destruct kn as [[a b] c].
    simpl in *. by subst.
  + intros (ke & <- & Hnear & Hns & He & k & Hn). exists (far ke, far ke, k), ke. split; [|done].
    by apply Hrows.
- intros nb Hin. destruct (Hnb nb Hin) as [Hnode Hedges]. split; [done|].
  intros e. rewrite Hedges. split.
  + intros (kn & ke & c & (Hs & Hn & He & Hns & Hfar & Hnear)%Hrows & Hm & Hc & ->). by exists ke, c.
  + intros (ke & c & Hm & Hnear & Hns & Hc & ->). destruct Hnode as (k & cn & Hcn & _).
    exists (far ke, far ke, k), ke, c. split_and!; [|done..]. apply Hrows.
    rewrite Hm. split_and!; [done|by eexists|by eexists|done..].
Qed.

(** The two queries, in the form [neighbors_answer] takes. *)
Lemma from_where_spec q (rn re : brow) kn ke :
rn.1 = enc_bkeys kn -> re.1 = enc_bkeys ke ->
from_where [of_bytes q] (rn, re) <-> kn.1.1 = ke.1.2 /\ ke.1.1 = q /\ b_join_where rn re.
Proof.
intros Hkn Hke. unfold from_where, b_k1, b_k2. simpl.
rewrite list_elem_of_singleton, Hkn, Hke. destruct kn as [[a b] c], ke as [[d e] f]. simpl.
rewrite !(inj_iff of_bytes). tauto.
Qed.

Lemma to_where_spec q (rn re : brow) kn ke :
rn.1 = enc_bkeys kn -> re.1 = enc_bkeys ke ->
to_where [of_bytes q] (rn, re) <-> kn.1.1 = ke.1.1 /\ ke.1.2 = q /\ b_join_where rn re.
Proof.
intros Hkn Hke. unfold to_where, b_join_where, b_k1, b_k2. simpl.
rewrite list_elem_of_singleton, Hkn, Hke. destruct kn as [[a b] c], ke as [[d e] f]. simpl.
rewrite !(inj_iff of_bytes). intuition congruence.
Qed.

Lemma Server_from (w w' : World btable) (v : bstore) (n : Node) (res : list Neighbor) :
bsql_rep db w v ->
@Server_Neighbors _ (sqlDriver_Driver (beta_driver db)) beta_now (from_request n) w = (Ret res, w') ->
neighbors_from v (Node_Key n) res.
Proof.
intros (t & Ht & Hr). unfold Server_Neighbors, from_request, bind, the_time, lift, ret. simpl.
destruct (sqlDriver_NeighborsFrom _ _ w) as [[data| |] w1] eqn:Hrun; simpl; [|done..].
destruct (processNeighbors data Edge_ToKey) as [l| |] eqn:Hproc; [|done..].
intros [= <- _].
destruct (neighbors_answer w w1 t v from_where Edge_ToKey (fun k => k.1.2) (fun k => k.1.1) (Node_Key n)
  data l Ht Hr) as (Hnd & Hk & Hnb); [done| |done|done|].
- intros rn re kn ke. apply from_where_spec.
- split; [done|]. split.
  + intros m. rewrite Hk. split.
    * intros ([[a b] c] & <- & <- & Hne & Hl & Hn). simpl in *. split_and!; [done|by exists c|done].
    * intros (Hne & [c Hl] & Hn). exists (Node_Key n, m, c). done.
  + intros nb Hin. destruct (Hnb nb Hin) as [Hnode He]. split; [done|]. intros e. rewrite He. split.
    * intros ([[a b] c] & x & Hm & Ha & Hne & Hc & ->). simpl in *. subst a b. eauto.
    * intros (k & c & Hc & ->). exists (Node_Key n, Node_Key (Neighbor_Node nb), k), c.
      split_and!; try done. simpl. intros Heq.
      assert (Node_Key (Neighbor_Node nb) ∈ map (fun nb => Node_Key (Neighbor_Node nb)) l) as Hin'
        by (apply list_elem_of_fmap; eauto).
      apply Hk in Hin' as ([[a b] d] & Hb & Ha & Hne & _). simpl in *. congruence.
Qed.

Lemma Server_to (w w' : World btable) (v : bstore) (n : Node) (res : list Neighbor) :
bsql_rep db w v ->
@Server_Neighbors _ (sqlDriver_Driver (beta_driver db)) beta_now (to_request n) w = (Ret res, w') ->
neighbors_to v (Node_Key n) res.
Proof.
intros (t & Ht & Hr). unfold Server_Neighbors, to_request, bind, the_time, lift, ret. simpl.
destruct (sqlDriver_NeighborsTo _ _ w) as [[data| |] w1] eqn:Hrun; simpl; [|done..].
destruct (processNeighbors data Edge_FromKey) as [l| |] eqn:Hproc; [|done..].
rewrite app_nil_r. intros [= <- _].
destruct (neighbors_answer w w1 t v to_where Edge_FromKey (fun k => k.1.1) (fun k => k.1.2) (Node_Key n)
  data l Ht Hr) as (Hnd & Hk & Hnb); [done| |done|done|].
- intros rn re kn ke. apply to_where_spec.
- split; [done|]. split.
  + intros m. rewrite Hk. split.
    * intros ([[a b] c] & <- & <- & Hne & Hl & Hn). simpl in *. split_and!; [done|by exists c|done].
    * intros (Hne & [c Hl] & Hn). exists (m, Node_Key n, c). done.
  + intros nb Hin. destruct (Hnb nb Hin) as [Hnode He]. split; [done|]. intros e. rewrite He. split.
    * intros ([[a b] c] & x & Hm & Ha & Hne & Hc & ->). simpl in *. subst a b. eauto.
    * intros (k & c & Hc & ->). exists (Node_Key (Neighbor_Node nb), Node_Key n, k), c.
      split_and!; try done. simpl. intros Heq.
      assert (Node_Key (Neighbor_Node nb) ∈ map (fun nb => Node_Key (Neighbor_Node nb)) l) as Hin'
        by (apply list_elem_of_fmap; eauto).
      apply Hk in Hin' as ([[a b] d] & Hb & Ha & Hne & _). simpl in *. congruence.
Qed.
End Contract.

Definition beta_spec `{SqlEngine, !NoCut} (db : string) : @BetaStoreSpec (World btable) (beta_ops db).
Proof.
  refine {| brep := bsql_rep db |}.
  - intros w v ns es w' Hr Hrun. simpl in Hrun. rewrite Server_Put_write in Hrun. by eapply bput_rep.
  - intros w v ns es e w' Hr Hrun. simpl in Hrun. rewrite Server_Put_write in Hrun. by eapply write_fail.
  - intros w v ns es w' Hr Hrun. simpl in Hrun. rewrite Server_Delete_write in Hrun.
    apply (bdelete_rep db _ _ v) in Hrun; [|done].
    rewrite map_app, !map_map in Hrun. exact Hrun.
  - intros w v ns es e w' Hr Hrun. simpl in Hrun. rewrite Server_Delete_write in Hrun. by eapply write_fail.
  - intros w v req o w' Hr Hrun. exact (Server_Neighbors_frame db req w w' o v Hr Hrun).
  - intros w v n res w' Hr Hrun. exact (Server_from db w w' v n res Hr Hrun).
  - intros w v n res w' Hr Hrun. exact (Server_to db w w' v n res Hr Hrun).
Defined.

(** ** Without failures *)

Section Total.
Context `{SqlEngine, !NoFaults} (db : string).

Lemma write_all_ok (f : GraphData -> btable -> btable) (items : list GraphData) (w : World btable) (t : btable) :
dbs w !! db = Some t -> exists w', write_all f (beta_driver db) items w = (Ret tt, w').
Proof.
intros Ht. unfold write_all, open_handle, bind, tick, begin_tx, lift, commit_tx, ret. simpl.
rewrite no_faults_all. simpl. rewrite Ht.
assert (forall i t, exists t', exec_all no_faults (fun x t => Ret (f x t)) i items (Some t) = Ret t') as Hex.
{ clear. induction items as [|x items IH]; intros i t; simpl; [by eexists|].
  unfold exec_stmt. simpl. apply IH. }
destruct (Hex 0%nat t) as [t' ->]. eauto.
Qed.

Lemma Server_from_ok (w : World btable) (v : bstore) (n : Node) :
bsql_rep db w v ->
exists res w', @Server_Neighbors _ (sqlDriver_Driver (beta_driver db)) beta_now (from_request n) w = (Ret res, w').
Proof.
intros (t & Ht & Hr). unfold Server_Neighbors, from_request, bind, the_time, lift, ret. simpl.
unfold sqlDriver_NeighborsFrom, neighbors, bind, lift, open_handle, tick, run_query, ret.
rewrite (proj2 (sqlx_In_spec _)).
- simpl. rewrite no_faults_all. simpl. rewrite Ht. unfold read_rows, fetched. simpl.
  rewrite scan_rows_ok by done.
  destruct (join_grouped (S (ticks w)) t v (from_where [of_bytes (Node_Key n)]) Edge_ToKey (fun k => k.1.2) Hr)
    as (pairs & _ & Hgroup); [done| |].
  + intros [rn re] kn ke Hp Hkn Hke. apply (from_where_spec _ _ _ kn ke Hkn Hke) in Hp. tauto.
  + unfold sqliteSelectFromNeighbor. rewrite Hgroup. eauto.
- rewrite list_elem_of_singleton. done.
Qed.
End Total.

Definition beta_total `{SqlEngine, !NoFaults} (db : string) :
  @BetaStoreTotal (World btable) (beta_ops db) (beta_spec db).
Proof.
  split.
  - intros w v ns es (t & Ht & _). simpl. rewrite Server_Put_write. by eapply write_all_ok.
  - intros w v ns es (t & Ht & _). simpl. rewrite Server_Delete_write. by eapply write_all_ok.
  - intros w v n Hr. exact (Server_from_ok db w v n Hr).
Qed.
