(* ===== verification/TraverseBeta.v ===== *)
(** * tracker/internal/graphstore/v1beta/server.go: the Traverse stream

    [Traverse] is two goroutines: one receives the client's messages and
    passes the requests on through a channel of capacity 1, the other answers
    them.  The step relation below lets them and the client interleave in any
    way.  [Neighbors] is any computation on the store's world [W]. *)

From S2P Require Import Prelude StoreBeta.

(** A message of the client: a request, or [Cancel: true]. *)
Notation traverse_msg := (option NeighborsRequest).

(** The receiving goroutine: at the [select], in [Recv], at
    [incoming <- req.Request], or returned. *)
Inductive reader_state := RSelect | RRecv | RPush (req : NeighborsRequest) | RExit.

(** The answering loop: at the [select], in [Neighbors], in [Send], or returned. *)
Inductive main_state :=
| MSelect
| MAnswer (req : NeighborsRequest)
| MSend (req : NeighborsRequest) (resp : list Neighbor)
| MReturn (err : option error).

Section Traverse.
Context {W : Type} (Neighbors : NeighborsRequest -> M W (list Neighbor)).

Record traverse := mkTraverse {
world : W;
inbox : list traverse_msg;      (* sent by the client, not yet received *)
reader : reader_state;
incoming : option NeighborsRequest;
done_ctx : bool;                (* [ctx.Done()] is closed *)
main : main_state;
outbox : list (NeighborsRequest * list Neighbor) }.

Definition traverse_start (w : W) : traverse := mkTraverse w [] RSelect None false MSelect [].

Definition with_reader (s : traverse) (box : list traverse_msg) (r : reader_state)
  (chan : option NeighborsRequest) (d : bool) : traverse :=
mkTraverse (world s) box r chan d (main s) (outbox s).
Definition with_main (s : traverse) (w : W) (chan : option NeighborsRequest) (d : bool) (m : main_state)
  (out : list (NeighborsRequest * list Neighbor)) : traverse :=
mkTraverse w (inbox s) (reader s) chan d m out.

(** The goroutine that receives. *)
Inductive reader_step : traverse -> traverse -> Prop :=
| reader_stop s : reader s = RSelect -> done_ctx s = true ->
  reader_step s (with_reader s (inbox s) RExit (incoming s) (done_ctx s))
| reader_go s : reader s = RSelect -> done_ctx s = false ->
  reader_step s (with_reader s (inbox s) RRecv (incoming s) (done_ctx s))
| reader_recv s req box : reader s = RRecv -> inbox s = Some req :: box ->
  reader_step s (with_reader s box (RPush req) (incoming s) (done_ctx s))
| reader_cancel s box : reader s = RRecv -> inbox s = None :: box ->
  reader_step s (with_reader s box RExit (incoming s) true)
| reader_push s req : reader s = RPush req -> incoming s = None ->
  reader_step s (with_reader s (inbox s) RSelect (Some req) (done_ctx s)).

(** The loop that answers; returning runs the deferred [cancel]. *)
Inductive main_step : traverse -> traverse -> Prop :=
| main_done s : main s = MSelect -> done_ctx s = true ->
  main_step s (with_main s (world s) (incoming s) true (MReturn None) (outbox s))
| main_take s req : main s = MSelect -> incoming s = Some req ->
  main_step s (with_main s (world s) None (done_ctx s) (MAnswer req) (outbox s))
| main_answer s req resp w' : main s = MAnswer req -> Neighbors req (world s) = (Ret resp, w') ->
  main_step s (with_main s w' (incoming s) (done_ctx s) (MSend req resp) (outbox s))
| main_fail s req e w' : main s = MAnswer req -> Neighbors req (world s) = (Fail e, w') ->
  main_step s (with_main s w' (incoming s) true (MReturn (Some e)) (outbox s))
| main_send s req resp : main s = MSend req resp ->
  main_step s (with_main s (world s) (incoming s) (done_ctx s) MSelect (outbox s ++ [(req, resp)])).

(** The connection breaks: [Recv] and [Send] fail, the stream's context ends. *)
Inductive peer_step : traverse -> traverse -> Prop :=
| peer_recv_error s : reader s = RRecv ->
  peer_step s (with_reader s (inbox s) RExit (incoming s) true)
| peer_send_error s req resp e : main s = MSend req resp ->
  peer_step s (with_main s (world s) (incoming s) true (MReturn (Some e)) (outbox s))
| peer_gone s : peer_step s (with_reader s (inbox s) (reader s) (incoming s) true).

(** The client sends a message. *)
Definition client_send (msg : traverse_msg) (s : traverse) : traverse :=
with_reader s (inbox s ++ [msg]) (reader s) (incoming s) (done_ctx s).

Definition server_step (s s' : traverse) : Prop := reader_step s s' \/ main_step s s'.

(** A run, with the messages the client has sent. *)
Inductive reachable (w : W) : list traverse_msg -> traverse -> Prop :=
| reach_start : reachable w [] (traverse_start w)
| reach_server msgs s s' : reachable w msgs s -> server_step s s' -> reachable w msgs s'
| reach_send msgs s msg : reachable w msgs s -> reachable w (msgs ++ [msg]) (client_send msg s)
| reach_peer msgs s s' : reachable w msgs s -> peer_step s s' -> reachable w msgs s'.

(** ** What is under way *)

Definition in_reader (s : traverse) : list NeighborsRequest :=
match reader s with RPush req => [req] | _ => [] end.
Definition in_channel (s : traverse) : list NeighborsRequest := option_list (incoming s).
Definition in_main (s : traverse) : list NeighborsRequest :=
match main s with MAnswer req | MSend req _ => [req] | _ => [] end.

Definition answered (s : traverse) : list NeighborsRequest := map fst (outbox s).
Definition taken (s : traverse) : list NeighborsRequest :=
answered s ++ in_main s ++ in_channel s ++ in_reader s.
Definition serving (s : traverse) : Prop := match main s with MReturn _ => False | _ => True end.

(** Nothing is lost while the server is serving; what it has answered is
  always a prefix of what the client sent. *)
Record stream_inv (msgs : list traverse_msg) (s : traverse) : Prop := mkStreamInv {
inv_prefix : exists rest, msgs = map Some (answered s) ++ rest;
inv_all : serving s -> exists c, msgs = map Some (taken s) ++ c ++ inbox s /\
            (c = [] \/ c = [None] /\ reader s = RExit);
inv_exit : reader s = RExit -> done_ctx s = true;
inv_return : ~ serving s -> done_ctx s = true }.

Lemma stream_inv_start w : stream_inv [] (traverse_start w).
Proof. split; [by exists []|intros _; exists []; by auto|done|by intros []]. Qed.

Ltac unfold_stream :=
unfold serving, taken, answered, in_main, in_channel, in_reader, with_reader, with_main, client_send in *;
simpl in *; subst; simpl in *.

(** Two ways to write the requests under way. *)
Ltac solve_requests :=
repeat (rewrite ?map_app, ?app_nil_r, <- ?app_assoc; simpl); done.

Lemma stream_inv_reader msgs s s' : stream_inv msgs s -> reader_step s s' -> stream_inv msgs s'.
Proof.
intros [Hp Ha He Hr] Hstep. destruct Hstep as [[] Hrd Hd|[] Hrd Hd|[] req box Hrd Hb|[] box Hrd Hb|[] req Hrd Hi];
  (split; [done|intros Hs; destruct (Ha Hs) as (c & -> & Hc)|auto|auto]); unfold_stream; try done.
- exists []. destruct Hc as [->|[-> [=]]]. split; [done|by left].
- exists []. destruct Hc as [->|[-> [=]]]. split; [done|by left].
- exists []. destruct Hc as [->|[-> [=]]]. split; [|by left]. solve_requests.
- exists [None]. destruct Hc as [->|[-> [=]]]. split; [done|by right].
- exists []. destruct Hc as [->|[-> [=]]]. split; [|by left]. solve_requests.
Qed.

Lemma stream_inv_main msgs s s' : stream_inv msgs s -> main_step s s' -> stream_inv msgs s'.
Proof.
intros [Hp Ha He Hr] Hstep.
destruct Hstep as [[] Hm Hd|[] req Hm Hi|[] req resp w' Hm Hn|[] req e w' Hm Hn|[] req resp Hm];
  unfold_stream.
- split; unfold_stream; done.
- split; unfold_stream; auto.
- split; unfold_stream; auto.
- split; unfold_stream; done.
- destruct (Ha I) as (c & -> & Hc). split; unfold_stream; auto.
  + eexists. rewrite !map_app, <- !app_assoc. simpl. done.
  + intros _. exists c. split; [|done]. solve_requests.
Qed.

Lemma stream_inv_peer msgs s s' : stream_inv msgs s -> peer_step s s' -> stream_inv msgs s'.
Proof.
intros [Hp Ha He Hr] Hstep. destruct Hstep as [[] Hrd|[] req resp e Hm|[]]; split; unfold_stream; auto; try done.
intros Hs. destruct (Ha Hs) as (c & -> & [->|[-> [=]]]). exists []. auto.
Qed.

Lemma stream_inv_send msgs s msg : stream_inv msgs s -> stream_inv (msgs ++ [msg]) (client_send msg s).
Proof.
intros [[rest ->] Ha He Hr]. split; unfold_stream; auto.
- exists (rest ++ [msg]). by rewrite app_assoc.
- intros Hs. destruct (Ha Hs) as (c & -> & Hc). exists c. split; [|done]. by rewrite <- !app_assoc.
Qed.

Lemma reachable_inv w msgs s : reachable w msgs s -> stream_inv msgs s.
Proof.
induction 1 as [|msgs s s' _ IH [Hs|Hs]|msgs s msg _ IH|msgs s s' _ IH Hs].
- apply stream_inv_start.
- by eapply stream_inv_reader.
- by eapply stream_inv_main.
- by apply stream_inv_send.
- by eapply stream_inv_peer.
Qed.

(** The answers are the store's, as long as [Inv] describes it. *)
Definition from_store (Inv : W -> Prop) (p : NeighborsRequest * list Neighbor) : Prop :=
exists w w', Inv w /\ Neighbors p.1 w = (Ret p.2, w').
Definition answers_inv (Inv : W -> Prop) (s : traverse) : Prop :=
Inv (world s) /\ Forall (from_store Inv) (outbox s) /\
match main s with MSend req resp => from_store Inv (req, resp) | _ => True end.

Lemma reachable_answers (Inv : W -> Prop) w msgs s :
(forall req, keeps Inv (Neighbors req)) -> Inv w -> reachable w msgs s -> answers_inv Inv s.
Proof.
intros Hk Hw. unfold answers_inv.
induction 1 as [|msgs s s' _ (Hi & Ho & Hm) [Hs|Hs]|msgs s msg _ IH|msgs s s' _ (Hi & Ho & Hm) Hs];
  [done| | |done|].
- by destruct Hs.
- destruct Hs as [s|s|s req resp w' Hq Hn|s req e w' Hq Hn|s req resp Hq]; simpl; try done.
  + split_and!; [by eapply Hk|done|]. by exists (world s), w'.
  + split_and!; [by eapply Hk|done..].
  + rewrite Hq in Hm. split_and!; [done| |done]. apply Forall_app. by split; [|constructor].
- by destruct Hs.
Qed.

(** ** Progress and termination *)

Definition reader_weight (r : reader_state) : nat :=
match r with RSelect => 2 | RRecv => 1 | RPush _ => 6 | RExit => 0 end.
Definition main_weight (m : main_state) : nat :=
match m with MSelect => 1 | MAnswer _ => 3 | MSend _ _ => 2 | MReturn _ => 0 end.
Definition work (s : traverse) : nat :=
7 * length (inbox s) + reader_weight (reader s) + 3 * length (in_channel s) + main_weight (main s).

Lemma server_step_work s s' : server_step s s' -> work s' < work s.
Proof.
unfold work. intros [Hs|Hs].
- destruct Hs as [[] Hrd Hd|[] Hrd Hd|[] req box Hrd Hb|[] box Hrd Hb|[] req Hrd Hi]; unfold_stream; lia.
- destruct Hs as [[] Hm Hd|[] req Hm Hi|[] req resp w' Hm Hn|[] req e w' Hm Hn|[] req resp Hm];
    unfold_stream; lia.
Qed.

Definition stuck (s : traverse) : Prop := forall s', ~ server_step s s'.

Lemma stuck_main s : (forall req w why w', Neighbors req w <> (Panic why, w')) ->
serving s -> stuck s -> main s = MSelect /\ incoming s = None /\ done_ctx s = false.
Proof.
intros Hpanic Hs Hstuck. unfold serving in Hs. destruct (main s) as [|req|req resp|err] eqn:Hm; [| | |done].
- split; [done|]. split.
  + destruct (incoming s) as [req|] eqn:Hi; [|done]. destruct (Hstuck _ (or_intror (main_take s req Hm Hi))).
  + destruct (done_ctx s) eqn:Hd; [|done]. destruct (Hstuck _ (or_intror (main_done s Hm Hd))).
- destruct (Neighbors req (world s)) as [[resp|e|why] w'] eqn:Hn.
  + destruct (Hstuck _ (or_intror (main_answer s req resp w' Hm Hn))).
  + destruct (Hstuck _ (or_intror (main_fail s req e w' Hm Hn))).
  + by apply Hpanic in Hn.
- destruct (Hstuck _ (or_intror (main_send s req resp Hm))).
Qed.

Lemma stuck_reader s : stuck s -> incoming s = None -> done_ctx s = false ->
reader s = RExit \/ reader s = RRecv /\ inbox s = [].
Proof.
intros Hstuck Hi Hd. destruct (reader s) as [| |req|] eqn:Hr; [| | |by left].
- destruct (Hstuck _ (or_introl (reader_go s Hr Hd))).
- right. split; [done|]. destruct (inbox s) as [|[req|] box] eqn:Hb; [done| |].
  + destruct (Hstuck _ (or_introl (reader_recv s req box Hr Hb))).
  + destruct (Hstuck _ (or_introl (reader_cancel s box Hr Hb))).
- destruct (Hstuck _ (or_introl (reader_push s req Hr Hi))).
Qed.

(** ** Why the server returns

  A run in which the connection holds. *)
Inductive unbroken (w : W) : list traverse_msg -> traverse -> Prop :=
| unbroken_start : unbroken w [] (traverse_start w)
| unbroken_server msgs s s' : unbroken w msgs s -> server_step s s' -> unbroken w msgs s'
| unbroken_send msgs s msg : unbroken w msgs s -> unbroken w (msgs ++ [msg]) (client_send msg s).

Lemma unbroken_reachable w msgs s : unbroken w msgs s -> reachable w msgs s.
Proof. induction 1; [by constructor|by eapply reach_server|by constructor]. Qed.

(** The client has cancelled, or a request it sent has failed. *)
Definition reason (Inv : W -> Prop) (msgs : list traverse_msg) (err : option error) : Prop :=
match err with
| None => None ∈ msgs
| Some e => exists req w w', Some req ∈ msgs /\ Inv w /\ Neighbors req w = (Fail e, w')
end.

Record cause_inv (Inv : W -> Prop) (msgs : list traverse_msg) (s : traverse) : Prop := mkCauseInv {
cause_world : Inv (world s);
cause_done : serving s -> done_ctx s = true -> None ∈ msgs;
cause_return : forall err, main s = MReturn err -> reason Inv msgs err }.

Lemma reason_more Inv msgs msg err : reason Inv msgs err -> reason Inv (msgs ++ [msg]) err.
Proof.
destruct err as [e|]; simpl; [|rewrite elem_of_app; by left].
intros (req & w & w' & Hm & ?). exists req, w, w'. rewrite elem_of_app. by split; [left|].
Qed.

Lemma unbroken_cause (Inv : W -> Prop) w msgs s :
(forall req, keeps Inv (Neighbors req)) -> Inv w -> unbroken w msgs s -> cause_inv Inv msgs s.
Proof.
intros Hk Hw. induction 1 as [|msgs s s' Hrun [Hi Hd Hr] Hs|msgs s msg _ [Hi Hd Hr]]; [by split| |].
- destruct (reachable_inv _ _ _ (unbroken_reachable _ _ _ Hrun)) as [_ Ha _ _]. destruct Hs as [Hs|Hs].
  + destruct Hs as [s Hrd Hdn|s Hrd Hdn|s req box Hrd Hb|s box Hrd Hb|s req Hrd Hin]; split; simpl in *; try done.
    intros Hsv _. destruct (Ha Hsv) as (c & -> & _). rewrite Hb, !elem_of_app. right. right. by left.
  + destruct Hs as [s Hm Hdn|s req Hm Hin|s req resp w' Hm Hn|s req e w' Hm Hn|s req resp Hm];
      (assert (serving s) as Hsv by (unfold serving; by rewrite Hm)); split; simpl in *; try done; try by (intros _; apply Hd).
    * intros err [= <-]. by apply Hd.
    * by eapply Hk.
    * by eapply Hk.
    * intros err [= <-]. exists req, (world s), w'. split; [|done].
      destruct (Ha Hsv) as (c & -> & _). rewrite elem_of_app. left. apply list_elem_of_fmap. exists req. split; [done|].
      unfold taken, in_main. rewrite Hm, !elem_of_app. right. left. by left.
- split; simpl; [done| |].
  + intros Hsv Hdn. rewrite elem_of_app. left. by apply Hd.
  + intros err Hm. by apply reason_more, Hr.
Qed.
End Traverse.
