(* ===== verification/ManifestBeta.v ===== *)
(** * tracker/internal/services/v1beta: storing manifests

    [serialization.go] and [manifeststorageservice.go]: what a store request
    declares, what the graph holds for its source, and the difference between
    the two.  The protobuf codec is a parameter; the graph store is used
    through [BetaStoreOps] and a [Traverse] stream. *)

From S2P Require Import Prelude GoCodec GoHash Sql StoreBeta StoreBetaSpec KeysAlpha.

(** ** Messages *)

Record ManifestFileDependency := mkFileDependency
  { FD_Name : string; FD_VersionConstraint : string; FD_Scopes : list string }.
Record ManifestFile := mkManifestFile
  { File_Language : string; File_System : string; File_Name : string; File_Version : string;
    File_SourceUrl : string; File_Dependencies : list ManifestFileDependency }.
Record StoreRequest := mkStoreRequest
  { Store_Kind : string; Store_Url : string; Store_Ref : string; Store_ManifestFiles : list ManifestFile }.

(** The [proto.Message]s the service marshals. *)
Inductive beta_msg :=
| MSource (kind url : string)
| MModule (language name : string)
| MSourceModule (version system : string)
| MModuleDependency (ref versionConstraint : string) (scopes : list string).

(** [proto.MessageName] of the two node types, and [ptypes.MarshalAny]. *)
Class ProtoCodec := {
  source_name : string;
  module_name : string;
  MarshalAny : beta_msg -> outcome Any }.

(** ** serialization.go *)

(** The same framing as the keys of the v1alpha services. *)
Definition generateKey (parts : list string) : bytes := sha256 (key_preimage parts).

Section Manifest.
Context `{ProtoCodec, MapRange}.

Definition node_key_of (msg : beta_msg) : bytes :=
match msg with
| MSource _ url => generateKey [source_name; url]
| MModule language name => generateKey [module_name; language; name]
| _ => []
end.

Definition newNode (msg : beta_msg) : outcome Node :=
let? any := MarshalAny msg in Ret (mkNode (node_key_of msg) (Some any)).

Definition newEdge (msg : beta_msg) : outcome Edge :=
let? any := MarshalAny msg in Ret (mkEdge [] [] [] (Some any)).

(** ** manifeststorageservice.go *)

Definition RepositoryDefaultKind : string := "repository".

(** [x, _ := f()]: the error is dropped, and the first use of the nil pointer
  that comes with it panics. *)
Definition used {A} (m : outcome A) : outcome A :=
match m with Fail _ => Panic nil_panic | r => r end.

Definition set_edge (from to key : bytes) (e : Edge) : Edge := mkEdge from to key (Edge_Body e).

Definition propose_file_dependency (request : StoreRequest) (mf : ManifestFile) (source module : Node)
  (acc : list Node * list Edge) (d : ManifestFileDependency) : outcome (list Node * list Edge) :=
let? dependency := used (newNode (MModule (File_Language mf) (FD_Name d))) in
let? moduleDependency := used (newEdge
  (MModuleDependency (Store_Ref request) (FD_VersionConstraint d) (FD_Scopes d))) in
let moduleDependency :=
  set_edge (Node_Key module) (Node_Key dependency) (Node_Key source) moduleDependency in
Ret (acc.1 ++ [dependency], acc.2 ++ [moduleDependency]).

Definition propose_manifest (request : StoreRequest) (source : Node) (acc : list Node * list Edge)
  (mf : ManifestFile) : outcome (list Node * list Edge) :=
let? reportedSource := used (newNode (MSource RepositoryDefaultKind (File_SourceUrl mf))) in
let? module := used (newNode (MModule (File_Language mf) (File_Name mf))) in
let sm := MSourceModule (File_Version mf) (File_System mf) in
let? sourceModule := used (newEdge sm) in
let sourceModule := set_edge (Node_Key source) (Node_Key module) [] sourceModule in
let? reportedSourceModule := used (newEdge sm) in
let reportedSourceModule :=
  set_edge (Node_Key reportedSource) (Node_Key module) [] reportedSourceModule in
let? acc := ofold (propose_file_dependency request mf source module) acc (File_Dependencies mf) in
Ret (acc.1 ++ [reportedSource; module], acc.2 ++ [sourceModule; reportedSourceModule]).

(** The source comes last.  A source that cannot be marshalled is nil: with
  manifest files the code panics here, with none when [GetStored] reads its
  key, which the model brings forward. *)
Definition beta_GetProposed (request : StoreRequest) : outcome (list Node * list Edge * Node) :=
let? source := used (newNode (MSource (Store_Kind request) (Store_Url request))) in
let? acc := ofold (propose_manifest request source) ([], []) (Store_ManifestFiles request) in
Ret (acc.1 ++ [source], acc.2, source).

(** [fmt.Sprintf("%s/%s/%s", ..)] *)
Definition edge_index_key (e : Edge) : string :=
of_bytes (Edge_FromKey e ++ [Byte.x2f] ++ Edge_ToKey e ++ [Byte.x2f] ++ Edge_Key e).

Definition index_edges (edges : list Edge) : gmap string Edge :=
fold_left (fun idx e => <[edge_index_key e := e]> idx) edges ∅.

Definition outdated (proposedEdges storedEdges : list Edge) : list Edge :=
filter (fun e => index_edges proposedEdges !! edge_index_key e = None) storedEdges.
End Manifest.

(** The stream of [Traverse]: open it, send a request or a cancellation,
    receive a response. *)
Class TraverseOps (W : Type) := {
  tr_open : M W unit;
  tr_send : NeighborsRequest -> M W unit;
  tr_recv : M W (list Neighbor);
  tr_cancel : M W unit }.

(** [defer fin()]: it runs however [m] ends, and its answer is dropped. *)
Definition deferred {W A} (fin : M W unit) (m : M W A) : M W A :=
  fun w => let '(o, w') := m w in (o, (fin w').2).

Section Stored.
Context `{ProtoCodec, MapRange} {W : Type} `{BetaStoreOps W, TraverseOps W}.

Notation tier_map := (gmap string Node).

(** The nodes and edges collected so far, and the next tier. *)
Record collected := mkCollected { c_nodes : list Node; c_edges : list Edge; c_next : tier_map }.

Definition own_edge (source : Node) (e : Edge) : bool :=
bool_decide (length (Edge_Key e) = 0) || bool_decide (Edge_Key e = Node_Key source).

Definition collect (source : Node) (acc : collected) (neighbor : Neighbor) : collected :=
let node := Neighbor_Node neighbor in
mkCollected (c_nodes acc ++ [node]) (c_edges acc ++ filter (own_edge source) (Neighbor_Edges neighbor))
  (<[of_bytes (Node_Key node) := node]> (c_next acc)).

Definition receive_one (source : Node) (acc : collected) (_ : string * Node) : M W collected :=
let! resp := tr_recv in
ret (fold_left (collect source) resp acc).

(** One depth: a request per node of the tier, then as many responses. *)
Definition traverse_tier (source : Node) (nodes : list Node) (edges : list Edge) (tier : tier_map) :
  M W collected :=
let! _ := mfold (fun _ kn => tr_send (from_request kn.2)) tt (range_map tier) in
mfold (receive_one source) (mkCollected nodes edges ∅) (range_map tier).

Definition GetStored (source : Node) : M W (list Node * list Edge) :=
let! _ := tr_open in
deferred tr_cancel (
  let tier := {[ of_bytes (Node_Key source) := source ]} in
  let! c0 := traverse_tier source [source] [] tier in
  let! c1 := traverse_tier source (c_nodes c0) (c_edges c0) (c_next c0) in
  ret (c_nodes c1, c_edges c1)).

Definition Store (request : StoreRequest) : M W unit :=
let! (nodes, edges, source) := lift (beta_GetProposed request) in
let! (_, storedEdges) := on_error (GetStored source)
  (fun _ => ErrInternal "failed to retrieve stored data") in
let edgesToDelete := outdated edges storedEdges in
let! _ := on_error (bs_Put nodes edges) (fun _ => ErrInternal "failed to update proposal") in
let! _ := on_error (bs_Delete [] edgesToDelete) (fun _ => ErrInternal "failed to remove outdated edges") in
ret tt.
End Stored.
