(* ===== verification/ManifestBetaSpec.v ===== *)
(** * What storing manifests does to the graph

    The contract of the [Traverse] stream, what [GetStored] collects, what
    [GetProposed] declares, and the effect of [Store] on the abstract store. *)

From S2P Require Import Prelude GoCodec GoHash Sql StoreBeta StoreBetaSpec KeysAlpha ManifestBeta.

(** ** The stream *)

(** Responses come in the order of the requests, each answered from the store. *)
Class TraverseSpec (W : Type) `{BetaStoreSpec W, !TraverseOps W} := {
  pending : W -> list NeighborsRequest;
  tr_open_spec : forall w v o w', brep w v -> tr_open w = (o, w') ->
    brep w' v /\ (o = Ret tt -> pending w' = []);
  tr_send_spec : forall w v r o w', brep w v -> tr_send r w = (o, w') ->
    brep w' v /\ (o = Ret tt -> pending w' = pending w ++ [r]);
  tr_cancel_spec : forall w v o w', brep w v -> tr_cancel w = (o, w') -> brep w' v;
  tr_recv_spec : forall w v o w', brep w v -> tr_recv w = (o, w') ->
    brep w' v /\ forall res n rest, o = Ret res -> pending w = from_request n :: rest ->
      pending w' = rest /\ neighbors_from v (Node_Key n) res }.

(** ** What is stored for a source *)

Definition has_node (v : bstore) (m : bytes) : Prop := exists k : bytes, is_Some (v !! (m, m, k)).
Definition adjacent (v : bstore) (n m : bytes) : Prop :=
  n <> m /\ (exists k : bytes, is_Some (v !! (n, m, k))) /\ has_node v m.

(** A live edge out of [n] to a live node, put for the source or for none. *)
Definition held_edge (v : bstore) (sk n : bytes) (k : bkeys) : Prop :=
  exists m c, k = (n, m, c) /\ n <> m /\ is_Some (v !! (n, m, c)) /\ has_node v m /\ (c = [] \/ c = sk).

(** The edges of a source: out of it, and out of what it is adjacent to. *)
Definition held (v : bstore) (sk : bytes) (k : bkeys) : Prop :=
  held_edge v sk sk k \/ exists m, adjacent v sk m /\ held_edge v sk m k.

Definition edge_key (e : Edge) : bkeys := (edge_entry e).1.
Definition node_key (n : Node) : bkeys := (node_entry n).1.

Lemma own_edge_true source e : own_edge source e <-> Edge_Key e = [] \/ Edge_Key e = Node_Key source.
Proof.
  unfold own_edge. rewrite Is_true_true, orb_true_iff, !bool_decide_eq_true, length_zero_iff_nil. done.
Qed.

Section Collecting.
Context `{MapRange}.
Variables (v : bstore) (source : Node).

(** What a tier has collected from the nodes [ns]. *)
Definition collected_from (edges0 : list Edge) (ns : list bytes) (c : collected) : Prop :=
(forall k, k ∈ map edge_key (c_edges c) <->
   k ∈ map edge_key edges0 \/ exists n, n ∈ ns /\ held_edge v (Node_Key source) n k) /\
(forall rk n, c_next c !! rk = Some n -> rk = of_bytes (Node_Key n)) /\
(forall m, is_Some (c_next c !! of_bytes m) <-> exists n, n ∈ ns /\ adjacent v n m).

Lemma collect_fold res : forall c,
let c' := fold_left (collect source) res c in
(forall k, k ∈ map edge_key (c_edges c') <-> k ∈ map edge_key (c_edges c) \/
   exists nb e, nb ∈ res /\ e ∈ Neighbor_Edges nb /\ own_edge source e /\ k = edge_key e) /\
((forall rk n, c_next c !! rk = Some n -> rk = of_bytes (Node_Key n)) ->
 forall rk n, c_next c' !! rk = Some n -> rk = of_bytes (Node_Key n)) /\
(forall m, is_Some (c_next c' !! of_bytes m) <-> is_Some (c_next c !! of_bytes m) \/
   m ∈ map (fun nb => Node_Key (Neighbor_Node nb)) res).
Proof.
induction res as [|nb res IH]; intros c; simpl.
- split_and!; [|done|].
  + intros k. setoid_rewrite elem_of_nil. naive_solver.
  + intros m. rewrite elem_of_nil. tauto.
- destruct (IH (collect source c nb)) as (He & Hk & Hm). split_and!.
  + intros k. rewrite He. simpl. rewrite map_app, elem_of_app. setoid_rewrite elem_of_cons.
    rewrite (list_elem_of_fmap edge_key (filter _ _)). setoid_rewrite list_elem_of_filter. split.
    * intros [[?|(e & -> & Ho & Hin)]|(nb' & e & Hnb & Hin & Ho & ->)]; [by left|right; eauto 10..].
    * intros [?|(nb' & e & [->|Hnb] & Hin & Ho & ->)]; [by left; left|left; right; eauto|right; eauto 10].
  + intros Hc. apply Hk. intros rk n. simpl. intros [[<- <-]|[_ Hn]]%lookup_insert_Some; eauto.
  + intros m. rewrite Hm. simpl. rewrite lookup_insert_is_Some, elem_of_cons. split.
    * intros [[Heq|[_ ?]]|?]; [|by left|by right; right].
      apply (inj of_bytes) in Heq. right. by left.
    * intros [Hs|[->|?]]; [|left; by left|by right]. left.
      destruct (decide (of_bytes (Node_Key (Neighbor_Node nb)) = of_bytes m)); [by left|by right].
Qed.

Lemma neighbors_from_held n res k :
neighbors_from v n res ->
(exists nb e, nb ∈ res /\ e ∈ Neighbor_Edges nb /\ own_edge source e /\ k = edge_key e) <->
held_edge v (Node_Key source) n k.
Proof.
intros (_ & Hkeys & Hnb). split.
- intros (nb & e & Hin & He & Ho & ->). destruct (Hnb nb Hin) as [_ Hedges].
  apply Hedges in He as (c & b & Hc & ->). apply own_edge_true in Ho. simpl in Ho.
  assert (Node_Key (Neighbor_Node nb) ∈ map (fun nb => Node_Key (Neighbor_Node nb)) res) as Hm
    by (apply list_elem_of_fmap; eauto).
  apply Hkeys in Hm as (Hne & _ & Hn). exists (Node_Key (Neighbor_Node nb)), c.
  split_and!; [done|done|by eexists|done|done].
- intros (m & c & -> & Hne & [b Hc] & Hn & Ho).
  assert (m ∈ map (fun nb => Node_Key (Neighbor_Node nb)) res) as Hm
    by (apply Hkeys; split_and!; [done|by exists c; eexists|done]).
  apply list_elem_of_fmap in Hm as (nb & -> & Hin). destruct (Hnb nb Hin) as [_ Hedges].
  exists nb, (mkEdge n (Node_Key (Neighbor_Node nb)) c (val_body b)). split_and!; [done| | |done].
  + apply Hedges. eauto.
  + by apply own_edge_true.
Qed.

Lemma collect_response edges0 ns c n res :
collected_from edges0 ns c -> neighbors_from v n res ->
collected_from edges0 (ns ++ [n]) (fold_left (collect source) res c).
Proof.
intros (He & Hk & Hm) Hres. destruct (collect_fold res c) as (He' & Hk' & Hm').
split_and!; [|by apply Hk'|].
- intros k. rewrite He', He, (neighbors_from_held n res k Hres). setoid_rewrite elem_of_app.
  setoid_rewrite list_elem_of_singleton.
  split; [intros [[?|(x & ? & ?)]|?]|intros [?|(x & [?| ->] & ?)]]; eauto 6.
- intros m. rewrite Hm', Hm. destruct Hres as (_ & Hkeys & _).
  rewrite (Hkeys m : _ <-> adjacent v n m).
  setoid_rewrite elem_of_app. setoid_rewrite list_elem_of_singleton.
  split; [intros [(x & ? & ?)|?]|intros (x & [?| ->] & ?)]; eauto 6.
Qed.
End Collecting.

Section Traversal.
Context `{ProtoCodec, MapRange} {W : Type} `{TraverseSpec W}.
Implicit Types (v : bstore) (w : W).

Lemma send_all_spec (l : list (string * Node)) : forall w v o w',
brep w v -> mfold (fun _ kn => tr_send (from_request kn.2)) tt l w = (o, w') ->
brep w' v /\ (o = Ret tt -> pending w' = pending w ++ map (fun kn => from_request kn.2) l).
Proof.
induction l as [|kn l IH]; intros w v o w' Hr; simpl.
- intros [= <- <-]. by rewrite app_nil_r.
- unfold bind. destruct (tr_send (from_request kn.2) w) as [o1 w1] eqn:Hs.
  destruct (tr_send_spec _ _ _ _ _ Hr Hs) as [Hr1 Hp]. destruct o1 as [[]| |]; [|by intros [= <- <-]..].
  intros Hrun. destruct (IH _ _ _ _ Hr1 Hrun) as [Hr2 Hp2]. split; [done|].
  intros Ho. rewrite (Hp2 Ho), (Hp eq_refl), <- app_assoc. done.
Qed.

Lemma receive_all_spec source v edges0 (l : list (string * Node)) : forall ns c w o w',
brep w v -> pending w = map (fun kn => from_request kn.2) l ->
collected_from v source edges0 ns c -> mfold (receive_one source) c l w = (o, w') ->
brep w' v /\ forall c', o = Ret c' -> pending w' = [] /\
  collected_from v source edges0 (ns ++ map (fun kn => Node_Key kn.2) l) c'.
Proof.
induction l as [|kn l IH]; intros ns c w o w' Hr Hp Hc; simpl.
- intros [= <- <-]. split; [done|]. intros c' [= <-]. by rewrite app_nil_r.
- unfold bind at 1, receive_one at 1, bind, ret.
  destruct (tr_recv w) as [o1 w1] eqn:Hs.
  destruct (tr_recv_spec _ _ _ _ Hr Hs) as [Hr1 Hrecv]. destruct o1 as [res| |]; [|by intros [= <- <-]..].
  destruct (Hrecv res kn.2 (map (fun kn => from_request kn.2) l) eq_refl Hp) as [Hp1 Hres].
  intros Hrun. apply (IH (ns ++ [Node_Key kn.2])) in Hrun; [|done|done|by apply collect_response].
  by rewrite <- app_assoc in Hrun.
Qed.

(** The keys of a tier: its map is indexed by the keys of its nodes. *)
Lemma tier_keys (tier : gmap string Node) n :
(forall rk x, tier !! rk = Some x -> rk = of_bytes (Node_Key x)) ->
n ∈ map (fun kn => Node_Key kn.2) (range_map tier) <-> is_Some (tier !! of_bytes n).
Proof.
intros Hk. rewrite list_elem_of_fmap. split.
- intros ([rk x] & -> & Hin). rewrite range_perm, elem_of_map_to_list in Hin. simpl.
  rewrite <- (Hk _ _ Hin). by eexists.
- intros [x Hx]. exists (of_bytes n, x). rewrite range_perm, elem_of_map_to_list. split; [|done].
  simpl. apply Hk in Hx. by apply (inj of_bytes) in Hx.
Qed.

Lemma traverse_tier_spec source nodes edges tier w v o w' :
brep w v -> pending w = [] -> (forall rk x, tier !! rk = Some x -> rk = of_bytes (Node_Key x)) ->
traverse_tier source nodes edges tier w = (o, w') ->
brep w' v /\ forall c, o = Ret c -> pending w' = [] /\
  (forall k, k ∈ map edge_key (c_edges c) <-> k ∈ map edge_key edges \/
     exists n, is_Some (tier !! of_bytes n) /\ held_edge v (Node_Key source) n k) /\
  (forall rk x, c_next c !! rk = Some x -> rk = of_bytes (Node_Key x)) /\
  (forall m, is_Some (c_next c !! of_bytes m) <-> exists n, is_Some (tier !! of_bytes n) /\ adjacent v n m).
Proof.
intros Hr Hp Hk. unfold traverse_tier, bind.
destruct (mfold _ tt (range_map tier) w) as [o1 w1] eqn:Hs.
destruct (send_all_spec _ _ _ _ _ Hr Hs) as [Hr1 Hp1]. destruct o1 as [[]| |]; [|by intros [= <- <-]..].
specialize (Hp1 eq_refl). rewrite Hp in Hp1. simpl in Hp1. intros Hrun.
apply (receive_all_spec source v edges _ []) in Hrun as [Hr2 Hc]; [|done|done|].
- split; [done|]. intros c Ho. destruct (Hc c Ho) as (Hp2 & He & Hk' & Hm). split_and!; [done| |done|].
  + intros k. rewrite He. by setoid_rewrite (tier_keys tier _ Hk).
  + intros m. rewrite Hm. by setoid_rewrite (tier_keys tier _ Hk).
- split_and!.
  + intros k. setoid_rewrite elem_of_nil. naive_solver.
  + intros rk n. simpl. by rewrite lookup_empty.
  + intros m. simpl. rewrite lookup_empty. setoid_rewrite elem_of_nil. split; [by intros [? ?]|naive_solver].
Qed.

Lemma two_tiers source w v o w' :
brep w v -> pending w = [] ->
(let! c0 := traverse_tier source [source] [] {[ of_bytes (Node_Key source) := source ]} in
 let! c1 := traverse_tier source (c_nodes c0) (c_edges c0) (c_next c0) in
 ret (c_nodes c1, c_edges c1)) w = (o, w') ->
brep w' v /\ forall nodes edges, o = Ret (nodes, edges) ->
  forall k, k ∈ map edge_key edges <-> held v (Node_Key source) k.
Proof.
intros Hr Hp. unfold bind, ret.
destruct (traverse_tier source [source] [] _ w) as [o1 w1] eqn:Ht1.
apply (traverse_tier_spec _ _ _ _ _ v) in Ht1 as [Hr1 Hc1];
  [|done|done|by intros rk x [<- <-]%lookup_singleton_Some].
destruct o1 as [c1| |]; [|by intros [= <- <-]..].
destruct (Hc1 c1 eq_refl) as (Hp1 & He1 & Hk1 & Hm1).
destruct (traverse_tier source (c_nodes c1) (c_edges c1) (c_next c1) w1) as [o2 w2] eqn:Ht2.
apply (traverse_tier_spec _ _ _ _ _ v) in Ht2 as [Hr2 Hc2]; [|done..].
destruct o2 as [c2| |]; [|by intros [= <- <-]..].
destruct (Hc2 c2 eq_refl) as (_ & He2 & _ & _).
intros [= <- <-]. split; [done|]. intros nodes edges [= _ <-] k.
rewrite He2, He1. simpl. rewrite elem_of_nil. setoid_rewrite Hm1.
assert (forall n, is_Some (({[of_bytes (Node_Key source) := source]} : gmap string Node) !! of_bytes n) <->
  n = Node_Key source) as Hone.
{ intros n. rewrite lookup_singleton_is_Some. split; [by intros ?%(inj of_bytes)|by intros ->]. }
setoid_rewrite Hone. unfold held. split.
- intros [[[]|(n & -> & ?)]|(m & (n & -> & ?) & ?)]; eauto.
- intros [?|(m & ? & ?)]; eauto 10.
Qed.

Lemma GetStored_spec source w v o w' :
brep w v -> GetStored source w = (o, w') ->
brep w' v /\ forall nodes edges, o = Ret (nodes, edges) ->
  forall k, k ∈ map edge_key edges <-> held v (Node_Key source) k.
Proof.
intros Hr. unfold GetStored. unfold bind at 1. destruct (tr_open w) as [o0 w0] eqn:Ho.
destruct (tr_open_spec _ _ _ _ Hr Ho) as [Hr0 Hp0].
destruct o0 as [[]| |]; [|by intros [= <- <-]..]. specialize (Hp0 eq_refl).
unfold deferred. destruct (bind _ _ w0) as [o1 w1] eqn:Hrun.
apply (two_tiers _ _ v) in Hrun as [Hr1 Hk]; [|done..]. intros [= <- <-]. split; [|done].
destruct (tr_cancel w1) as [o2 w2] eqn:Hc. by apply (tr_cancel_spec _ _ _ _ Hr1 Hc).
Qed.
End Traversal.

(** ** The proposal *)

(** The last value given to a key. *)
Definition last_value (k : bkeys) (entries : list (bkeys * bval)) : option bval :=
  fold_left (fun acc e => if decide (e.1 = k) then Some e.2 else acc) entries None.

Lemma last_value_fold k entries : forall acc,
  fold_left (fun acc e => if decide (e.1 = k) then Some e.2 else acc) entries acc =
  match last_value k entries with Some c => Some c | None => acc end.
Proof.
  unfold last_value. induction entries as [|e entries IH]; intros acc; simpl; [done|].
  rewrite IH, (IH (if decide _ then _ else _)). destruct (fold_left _ entries None); [done|].
  by destruct (decide (e.1 = k)).
Qed.

Lemma last_value_cons k e entries :
  last_value k (e :: entries) =
  match last_value k entries with
  | Some c => Some c
  | None => if decide (e.1 = k) then Some e.2 else None
  end.
Proof. unfold last_value at 1. simpl. by rewrite last_value_fold. Qed.

Lemma last_value_None k entries : last_value k entries = None <-> k ∉ map fst entries.
Proof.
  induction entries as [|e entries IH]; [by split; [intros _ ?%elem_of_nil|]|].
  rewrite last_value_cons. simpl. rewrite not_elem_of_cons, <- IH.
  destruct (last_value k entries); [naive_solver|]. case_decide; naive_solver.
Qed.

Lemma lookup_put_entries k entries : forall v : bstore,
  put_entries entries v !! k = match last_value k entries with Some c => Some c | None => v !! k end.
Proof.
  induction entries as [|e entries IH]; intros v; [done|].
  unfold put_entries in *. simpl. rewrite IH, last_value_cons.
  destruct (last_value k entries); [done|]. case_decide as Hk.
  - by rewrite Hk, lookup_insert_eq.
  - by rewrite lookup_insert_ne.
Qed.

Lemma lookup_delete_keys k keys : forall v : bstore,
  delete_keys keys v !! k = if decide (k ∈ keys) then None else v !! k.
Proof.
  induction keys as [|k' keys IH]; intros v; [done|].
  unfold delete_keys in *. simpl. rewrite IH.
  destruct (decide (k = k')) as [<-|Hne].
  - rewrite lookup_delete_eq. case_decide; (rewrite decide_True by (by left)); done.
  - rewrite lookup_delete_ne by done.
    destruct (decide (k ∈ keys)); [by rewrite decide_True by (by right)|].
    rewrite decide_False; [done|]. by rewrite not_elem_of_cons.
Qed.

Lemma length_generateKey parts : length (generateKey parts) = 32.
Proof. apply length_sha256. Qed.

(** The entries whose keys the service made itself. *)
Definition hashed (k : bkeys) : Prop := length k.1.1 = 32 /\ length k.1.2 = 32.
Definition sha_keyed (v : bstore) : Prop := forall k, is_Some (v !! k) -> hashed k.

Lemma edge_index_key_inj e1 e2 :
  hashed (edge_key e1) -> hashed (edge_key e2) ->
  edge_index_key e1 = edge_index_key e2 -> edge_key e1 = edge_key e2.
Proof.
  destruct e1 as [f1 t1 k1 b1], e2 as [f2 t2 k2 b2].
  unfold hashed, edge_key, edge_entry, edge_index_key. simpl.
  intros [Hf1 Ht1] [Hf2 Ht2] Heq%(inj of_bytes). simpl in Heq.
  apply app_inj_1 in Heq as [-> Heq]; [|by rewrite Hf1, Hf2]. injection Heq as Heq.
  apply app_inj_1 in Heq as [-> Heq]; [|by rewrite Ht1, Ht2]. by injection Heq as ->.
Qed.

Lemma edge_index_key_eq e1 e2 : edge_key e1 = edge_key e2 -> edge_index_key e1 = edge_index_key e2.
Proof. unfold edge_key, edge_entry, edge_index_key. simpl. by intros [= -> -> ->]. Qed.

Lemma index_edges_fold (edges : list Edge) : forall (idx : gmap string Edge) (s : string),
  is_Some (fold_left (fun idx e => <[edge_index_key e := e]> idx) edges idx !! s) <->
  is_Some (idx !! s) \/ s ∈ map edge_index_key edges.
Proof.
  induction edges as [|e edges IH]; intros idx s; simpl.
  - rewrite elem_of_nil. tauto.
  - rewrite IH, lookup_insert_is_Some', elem_of_cons. naive_solver.
Qed.

Lemma outdated_keys proposed stored k :
  Forall (fun e => hashed (edge_key e)) proposed -> Forall (fun e => hashed (edge_key e)) stored ->
  k ∈ map edge_key (outdated proposed stored) <->
  k ∈ map edge_key stored /\ k ∉ map edge_key proposed.
Proof.
  rewrite !Forall_forall. intros Hp Hs. unfold outdated.
  assert (forall e, e ∈ stored ->
    index_edges proposed !! edge_index_key e = None <-> edge_key e ∉ map edge_key proposed) as Hidx.
  { intros e He. rewrite eq_None_not_Some. unfold index_edges. rewrite index_edges_fold, lookup_empty.
    rewrite !list_elem_of_fmap. split.
    - intros Hno (e' & Heq & He'). apply Hno. right. exists e'. split; [by apply edge_index_key_eq|done].
    - intros Hno [[? [=]]|(e' & Heq & He')]. apply Hno. exists e'. split; [|done].
      apply edge_index_key_inj; auto. }
  rewrite (list_elem_of_fmap edge_key stored), (list_elem_of_fmap edge_key (filter _ stored)).
  setoid_rewrite list_elem_of_filter. split.
  - intros (e & -> & Hno & He). split; [by exists e|]. by apply Hidx.
  - intros [(e & -> & He) Hno]. exists e. split_and!; [done|by apply Hidx|done].
Qed.

Section Proposal.
Context `{ProtoCodec}.

Definition source_key (request : StoreRequest) : bytes := generateKey [source_name; Store_Url request].
Definition reported_key (mf : ManifestFile) : bytes := generateKey [source_name; File_SourceUrl mf].
Definition module_key (mf : ManifestFile) : bytes := generateKey [module_name; File_Language mf; File_Name mf].
Definition dependency_key (mf : ManifestFile) (d : ManifestFileDependency) : bytes :=
generateKey [module_name; File_Language mf; FD_Name d].

(** The nodes and the edges a manifest file declares. *)
Definition file_node (mf : ManifestFile) (m : bytes) : Prop :=
m = reported_key mf \/ m = module_key mf \/ exists d, d ∈ File_Dependencies mf /\ m = dependency_key mf d.
Definition file_edge (s : bytes) (mf : ManifestFile) (k : bkeys) : Prop :=
k = (s, module_key mf, []) \/ k = (reported_key mf, module_key mf, []) \/
exists d, d ∈ File_Dependencies mf /\ k = (module_key mf, dependency_key mf d, s).

Definition declares_node (request : StoreRequest) (m : bytes) : Prop :=
m = source_key request \/ exists mf, mf ∈ Store_ManifestFiles request /\ file_node mf m.
Definition declares_edge (request : StoreRequest) (k : bkeys) : Prop :=
exists mf, mf ∈ Store_ManifestFiles request /\ file_edge (source_key request) mf k.

Lemma used_Ret {A} (m : outcome A) a : used m = Ret a -> m = Ret a.
Proof. by destruct m. Qed.

Lemma newNode_key msg n : newNode msg = Ret n -> Node_Key n = node_key_of msg.
Proof. unfold newNode, obind. by destruct (MarshalAny msg) as [any| |]; intros [= <-]. Qed.

Lemma propose_dependencies request mf source module ds acc acc' :
ofold (propose_file_dependency request mf source module) acc ds = Ret acc' ->
(forall m, m ∈ map Node_Key acc'.1 <-> m ∈ map Node_Key acc.1 \/ exists d, d ∈ ds /\ m = dependency_key mf d) /\
(forall k, k ∈ map edge_key acc'.2 <-> k ∈ map edge_key acc.2 \/
   exists d, d ∈ ds /\ k = (Node_Key module, dependency_key mf d, Node_Key source)).
Proof.
apply (ofold_ind (fun ds acc' =>
  (forall m, m ∈ map Node_Key acc'.1 <-> m ∈ map Node_Key acc.1 \/ exists d, d ∈ ds /\ m = dependency_key mf d) /\
  (forall k, k ∈ map edge_key acc'.2 <-> k ∈ map edge_key acc.2 \/
     exists d, d ∈ ds /\ k = (Node_Key module, dependency_key mf d, Node_Key source)))).
- split; intros x; setoid_rewrite elem_of_nil; naive_solver.
- intros pre d [ns es] acc2 [Hn He] _. unfold propose_file_dependency, obind.
  destruct (used _) as [dep| |] eqn:Hd; [|done..]. apply used_Ret, newNode_key in Hd.
  destruct (used _) as [e| |]; [|done..]. intros [= <-]. simpl in Hn, He |- *.
  split; intros x; rewrite map_app, elem_of_app; [rewrite Hn|rewrite He];
    simpl; rewrite list_elem_of_singleton; setoid_rewrite elem_of_app; setoid_rewrite list_elem_of_singleton.
  + unfold dependency_key in *. simpl in Hd. rewrite Hd. split.
    * intros [[?|(y & ? & ->)]| ->]; eauto 6.
    * intros [?|(y & [?| ->] & ->)]; eauto 6.
  + unfold edge_key, edge_entry, dependency_key in *. simpl in Hd |- *. rewrite Hd. split.
    * intros [[?|(y & ? & ->)]| ->]; eauto 6.
    * intros [?|(y & [?| ->] & ->)]; eauto 6.
Qed.

Lemma propose_files request source fs acc' :
Node_Key source = source_key request ->
ofold (propose_manifest request source) ([], []) fs = Ret acc' ->
(forall m, m ∈ map Node_Key acc'.1 <-> exists mf, mf ∈ fs /\ file_node mf m) /\
(forall k, k ∈ map edge_key acc'.2 <-> exists mf, mf ∈ fs /\ file_edge (source_key request) mf k).
Proof.
intros Hsrc. apply (ofold_ind (fun fs acc' =>
  (forall m, m ∈ map Node_Key acc'.1 <-> exists mf, mf ∈ fs /\ file_node mf m) /\
  (forall k, k ∈ map edge_key acc'.2 <-> exists mf, mf ∈ fs /\ file_edge (source_key request) mf k))).
- split; intros x; setoid_rewrite elem_of_nil; naive_solver.
- intros pre mf [ns es] acc2 [Hn He] _. unfold propose_manifest, obind.
  destruct (used _) as [rep| |] eqn:Hrep; [|done..]. apply used_Ret, newNode_key in Hrep.
  destruct (used _) as [module| |] eqn:Hmod; [|done..]. apply used_Ret, newNode_key in Hmod.
  destruct (used _) as [e1| |]; [|done..].
  destruct (ofold _ _ _) as [[ns' es']| |] eqn:Hds; [|done..]. intros [= <-].
  apply propose_dependencies in Hds as [Hns Hes]. simpl in Hrep, Hmod.
  assert (Node_Key rep = reported_key mf) as Hr by done.
  assert (Node_Key module = module_key mf) as Hm by done.
  simpl in Hn, He, Hns, Hes |- *. split; intros x; rewrite map_app, elem_of_app.
  + rewrite Hns, Hn. simpl. rewrite Hr, Hm, !elem_of_cons, elem_of_nil.
    setoid_rewrite elem_of_app. setoid_rewrite list_elem_of_singleton. unfold file_node. split.
    * intros [[(y & ? & ?)|(d & ? & ->)]|[->|[->|[]]]]; eauto 10.
    * intros (y & [?| ->] & Hy); [eauto 6|]. destruct Hy as [->|[->|(d & ? & ->)]]; eauto 6.
  + rewrite Hes, He. unfold edge_key, edge_entry, set_edge. simpl.
    rewrite Hr, Hm, Hsrc, !elem_of_cons, elem_of_nil.
    setoid_rewrite elem_of_app. setoid_rewrite list_elem_of_singleton. unfold file_edge. split.
    * intros [[(y & ? & ?)|(d & ? & ->)]|[->|[->|[]]]]; eauto 10.
    * intros (y & [?| ->] & Hy); [eauto 6|]. destruct Hy as [->|[->|(d & ? & ->)]]; eauto 6.
Qed.

Lemma proposed_keys request ns es source :
beta_GetProposed request = Ret (ns, es, source) ->
Node_Key source = source_key request /\
(forall m, m ∈ map Node_Key ns <-> declares_node request m) /\
(forall k, k ∈ map edge_key es <-> declares_edge request k).
Proof.
unfold beta_GetProposed, obind.
destruct (used _) as [src| |] eqn:Hsrc; [|done..]. apply used_Ret, newNode_key in Hsrc.
destruct (ofold _ _ _) as [[ns' es']| |] eqn:Hfs; [|done..]. intros [= <- <- <-].
apply propose_files in Hfs as [Hn He]; [|done]. simpl in Hn, He |- *. split_and!; [done| |done].
intros m. rewrite map_app, elem_of_app, Hn. simpl. rewrite list_elem_of_singleton, Hsrc.
unfold declares_node. change (node_key_of (MSource (Store_Kind request) (Store_Url request)))
  with (source_key request). tauto.
Qed.

(** The nodes and the edges as entries of the store. *)
Definition declares (request : StoreRequest) (k : bkeys) : Prop :=
(exists m, declares_node request m /\ k = (m, m, [])) \/ declares_edge request k.

Lemma proposed_entries request ns es source k :
beta_GetProposed request = Ret (ns, es, source) ->
k ∈ map fst (put_entries_of ns es) <-> declares request k.
Proof.
intros (_ & Hn & He)%proposed_keys. unfold put_entries_of, declares.
rewrite map_app, !map_map, elem_of_app, <- (He k). fold edge_key.
setoid_rewrite <- Hn. rewrite !list_elem_of_fmap. simpl. setoid_rewrite list_elem_of_fmap.
split; intros [?|?]; [|by right| |by right]; left; naive_solver.
Qed.

Lemma declares_hashed request k : declares request k -> hashed k.
Proof.
unfold declares, declares_node, declares_edge, file_node, file_edge, hashed.
intros [(m & Hm & ->)|(mf & _ & Hk)]; simpl.
- assert (length m = 32); [|done].
  destruct Hm as [->|(mf & _ & [->|[->|(d & _ & ->)]])]; apply length_generateKey.
- destruct Hk as [->|[->|(d & _ & ->)]]; simpl; split; apply length_generateKey.
Qed.
End Proposal.

(** ** Storing *)

(** A live stream: requests are taken, and each pending one is answered. *)
Class TraverseTotal (W : Type) `{TraverseSpec W} := {
  tr_open_total : forall w v, brep w v -> exists w', tr_open w = (Ret tt, w');
  tr_send_total : forall w v r, brep w v -> exists w', tr_send r w = (Ret tt, w');
  tr_recv_total : forall w v n rest, brep w v -> pending w = from_request n :: rest ->
    exists res w', tr_recv w = (Ret res, w') }.

Section Store.
Context `{ProtoCodec, MapRange} {W : Type} `{TraverseSpec W}.
Implicit Types (v : bstore) (w : W).

(** The store after a request whose proposal is [entries]. *)
Definition stored_as (request : StoreRequest) (entries : list (bkeys * bval)) (v v' : bstore) : Prop :=
forall k, match last_value k entries with
          | Some c => v' !! k = Some c
          | None => (held v (source_key request) k -> v' !! k = None) /\
                    (~ held v (source_key request) k -> v' !! k = v !! k)
          end.

Lemma held_live v s k : held v s k -> is_Some (v !! k).
Proof. by intros [(m & c & -> & _ & Hk & _)|(n & _ & m & c & -> & _ & Hk & _)]. Qed.

Lemma stored_as_put request ns es source stored v :
sha_keyed v -> beta_GetProposed request = Ret (ns, es, source) ->
(forall k, k ∈ map edge_key stored <-> held v (Node_Key source) k) ->
stored_as request (put_entries_of ns es) v
  (delete_keys (delete_keys_of [] (outdated es stored)) (put_entries (put_entries_of ns es) v)).
Proof.
intros Hv Hp Hs k. destruct (proposed_keys _ _ _ _ Hp) as (Hsrc & Hn & He). rewrite Hsrc in Hs.
assert (k ∈ delete_keys_of [] (outdated es stored) <->
  held v (source_key request) k /\ k ∉ map edge_key es) as Hout.
{ unfold delete_keys_of. rewrite app_nil_r. fold edge_key. rewrite outdated_keys, Hs; [done| |].
  - apply Forall_forall. intros e Hin. apply (declares_hashed request). right. apply He.
    apply list_elem_of_fmap. by exists e.
  - apply Forall_forall. intros e Hin. apply Hv, (held_live _ (source_key request)), Hs.
    apply list_elem_of_fmap. by exists e. }
assert (held v (source_key request) k -> last_value k (put_entries_of ns es) = None <->
  k ∉ map edge_key es) as Hheld.
{ intros Hk. rewrite last_value_None. unfold put_entries_of.
  rewrite map_app, !map_map, not_elem_of_app. fold edge_key. split; [tauto|]. intros Hne. split; [|done].
  intros (n & -> & _)%list_elem_of_fmap.
  destruct Hk as [(m & c & Heq & Hm & _)|(x & _ & m & c & Heq & Hm & _)]; (simpl in Heq; congruence). }
rewrite lookup_delete_keys, lookup_put_entries.
destruct (last_value k _) as [c|] eqn:Hl.
- rewrite decide_False; [done|]. intros [Hk Hno]%Hout. apply Hheld in Hno; congruence.
- split; intros Hk.
  + rewrite decide_True; [done|]. apply Hout. split; [done|]. by apply Hheld.
  + rewrite decide_False; [done|]. by intros [? _]%Hout.
Qed.

Lemma stored_sha_keyed request ns es source v v' :
sha_keyed v -> beta_GetProposed request = Ret (ns, es, source) ->
stored_as request (put_entries_of ns es) v v' -> sha_keyed v'.
Proof.
intros Hv Hp Hst k Hk. specialize (Hst k). destruct (last_value k _) as [c|] eqn:Hl.
- apply (declares_hashed request). apply (proposed_entries _ _ _ _ _ Hp).
  destruct (decide (k ∈ map fst (put_entries_of ns es))) as [|Hno]; [done|].
  apply last_value_None in Hno. congruence.
- destruct Hst as [Hheld Hkeep].
  destruct (decide (is_Some (v !! k))) as [Hs|Hs]; [by apply Hv|].
  rewrite Hkeep in Hk; [done|]. by intros ?%held_live.
Qed.
End Store.

(** ** A stream over the server *)

(** The store and the requests that wait for an answer. *)
Notation stream_world := (World btable * list NeighborsRequest)%type.

Definition on_store {A} (m : M (World btable) A) : M stream_world A :=
  fun w => let '(o, s) := m w.1 in (o, (s, w.2)).

Section Stream.
Context `{SqlEngine} (db : string).
#[local] Existing Instance beta_ops.

Definition stream_store : BetaStoreOps stream_world := {|
bs_Put := fun ns es => on_store (bs_Put (BetaStoreOps := beta_ops db) ns es);
bs_Delete := fun ns es => on_store (bs_Delete (BetaStoreOps := beta_ops db) ns es);
bs_Neighbors := fun r => on_store (bs_Neighbors (BetaStoreOps := beta_ops db) r) |}.

Definition stream_ops : TraverseOps stream_world := {|
tr_open := fun w => (Ret tt, (w.1, []));
tr_send := fun r w => (Ret tt, (w.1, w.2 ++ [r]));
tr_recv := fun w => match w.2 with
                    | [] => (Fail (ErrText "EOF"), w)
                    | r :: rest => on_store (bs_Neighbors (BetaStoreOps := beta_ops db) r) (w.1, rest)
                    end;
tr_cancel := fun w => (Ret tt, (w.1, [])) |}.
End Stream.

Lemma on_store_run {A} (m : M (World btable) A) w o w' :
  on_store m w = (o, w') -> m w.1 = (o, w'.1) /\ w'.2 = w.2.
Proof. unfold on_store. destruct (m w.1) as [o1 s1]. by intros [= <- <-]. Qed.

Definition stream_spec `{SqlEngine, !NoCut} (db : string) : @BetaStoreSpec stream_world (stream_store db).
Proof.
  pose proof (beta_spec db) as B.
  refine {| brep := fun w v => bsql_rep db w.1 v |}.
  - intros w v ns es w' Hr [Hrun _]%on_store_run. exact (bput_spec (BetaStoreSpec := beta_spec db) _ _ _ _ _ Hr Hrun).
  - intros w v ns es e w' Hr [Hrun _]%on_store_run.
    exact (bput_fail (BetaStoreSpec := beta_spec db) _ _ _ _ _ _ Hr Hrun).
  - intros w v ns es w' Hr [Hrun _]%on_store_run.
    exact (bdelete_spec (BetaStoreSpec := beta_spec db) _ _ _ _ _ Hr Hrun).
  - intros w v ns es e w' Hr [Hrun _]%on_store_run.
    exact (bdelete_fail (BetaStoreSpec := beta_spec db) _ _ _ _ _ _ Hr Hrun).
  - intros w v req o w' Hr [Hrun _]%on_store_run.
    exact (bneighbors_frame (BetaStoreSpec := beta_spec db) _ _ _ _ _ Hr Hrun).
  - intros w v n res w' Hr [Hrun _]%on_store_run.
    exact (bneighbors_from (BetaStoreSpec := beta_spec db) _ _ _ _ _ Hr Hrun).
  - intros w v n res w' Hr [Hrun _]%on_store_run.
    exact (bneighbors_to (BetaStoreSpec := beta_spec db) _ _ _ _ _ Hr Hrun).
Defined.

Definition stream_traverse `{SqlEngine, !NoCut} (db : string) :
  @TraverseSpec stream_world (stream_store db) (stream_spec db) (stream_ops db).
Proof.
  refine (@Build_TraverseSpec stream_world (stream_store db) (stream_spec db) (stream_ops db) snd _ _ _ _).
  - intros w v o w' Hr [= <- <-]. done.
  - intros w v r o w' Hr [= <- <-]. done.
  - intros w v o w' Hr [= <- <-]. done.
  - intros w v o w' Hr Hrun. cbn [tr_recv stream_ops] in Hrun.
    destruct w as [s [|r rest]]; cbn [fst snd] in Hrun; [by injection Hrun as <- <-|].
    apply on_store_run in Hrun as [Hrun Hq]. cbn [fst snd] in Hrun, Hq. split.
    + exact (bneighbors_frame (BetaStoreSpec := beta_spec db) _ _ _ _ _ Hr Hrun).
    + intros res n rest' -> [= -> ->]. split; [done|].
      exact (bneighbors_from (BetaStoreSpec := beta_spec db) _ _ _ _ _ Hr Hrun).
Defined.

Lemma on_store_total {A} (m : M (World btable) A) w o s :
  m w.1 = (o, s) -> on_store m w = (o, (s, w.2)).
Proof. unfold on_store. by intros ->. Qed.

Definition stream_total `{SqlEngine, !NoFaults} (db : string) :
  @BetaStoreTotal stream_world (stream_store db) (stream_spec db).
Proof.
  destruct (beta_total db) as [Hput Hdel Hfrom]. split.
  - intros w v ns es Hr. destruct (Hput w.1 v ns es Hr) as [s Hs].
    exists (s, w.2). by apply on_store_total.
  - intros w v ns es Hr. destruct (Hdel w.1 v ns es Hr) as [s Hs].
    exists (s, w.2). by apply on_store_total.
  - intros w v n Hr. destruct (Hfrom w.1 v n Hr) as (res & s & Hs).
    exists res, (s, w.2). by apply on_store_total.
Qed.

Definition stream_live `{SqlEngine, !NoFaults} (db : string) :
  @TraverseTotal stream_world (stream_store db) (stream_spec db) (stream_ops db) (stream_traverse db).
Proof.
  split.
  - intros w v _. by eexists.
  - intros w v r _. by eexists.
  - intros w v n rest Hr Hp. destruct w as [s q]. cbn in Hp. subst q.
    destruct (bfrom_total (BetaStoreTotal := beta_total db) s v n Hr) as (res & s' & Hs).
    exists res, (s', rest). cbn [tr_recv stream_ops]. exact (on_store_total _ (s, rest) _ _ Hs).
Qed.
