(* ===== verification/Remotes.v ===== *)
(** * indexer/internal/remotes: listing repositories

    The remotes ask a hosting service, page by page, for the repositories to
    index.  The client libraries are parameters ([Hosting]); a remote is a
    computation on the outside world [W] whose loops run on fuel: [None] says
    that the fuel was spent. *)

From S2P Require Import Prelude GoUrl.

Local Open Scope Z_scope.

(** ** config.pb.go: the fields the remotes read *)

Inductive CloneStrategy := CloneStrategy_SSH | CloneStrategy_HTTP.
#[export] Instance CloneStrategy_eq_dec : EqDecision CloneStrategy.
Proof. solve_decision. Defined.

Record Basic := mkBasic { Basic_Username : string; Basic_Password : string }.
Record PublicKey := mkPublicKey
  { PK_User : string; PK_PrivateKeyPath : string; PK_PrivateKey : string; PK_Password : string }.
Record Clone := mkClone
  { Clone_Strategy : CloneStrategy; Clone_Basic : option Basic; Clone_PublicKey : option PublicKey }.
Record Github := mkGithub
  { GH_BaseUrl : string; GH_UploadUrl : string; GH_Users : list string; GH_Organizations : list string;
    GH_Strategy : CloneStrategy; GH_Clone : option Clone; GH_SkipOrganizations : list string;
    GH_Oauth2 : option string }.
Record Gitlab := mkGitlab
  { GL_BaseUrl : string; GL_Users : list string; GL_Groups : list string; GL_Strategy : CloneStrategy;
    GL_Clone : option Clone; GL_SkipGroups : list string; GL_Private : option string }.
Record Bitbucket := mkBitbucket
  { BB_Users : list string; BB_Teams : list string; BB_Strategy : CloneStrategy; BB_Clone : option Clone;
    BB_SkipTeams : list string; BB_Basic : option Basic }.
Record Generic := mkGeneric
  { GE_BaseUrl : string; GE_Path : string; GE_PerPageParameter : string; GE_PageParameter : string;
    GE_PageSize : Z; GE_Selector : string; GE_Clone : option Clone }.
Record Static := mkStatic { ST_RepositoryUrls : list string; ST_Clone : option Clone }.
Record Account := mkAccount
  { Acc_Github : option Github; Acc_Gitlab : option Gitlab; Acc_Bitbucket : option Bitbucket;
    Acc_Generic : option Generic; Acc_Static : option Static }.

(** ** remote.go *)

Record Repository := mkRepository { RepositoryURL : string; Repository_Clone : option Clone }.

(** ** The client libraries *)

(** A repository as a service lists it: its HTTP and its SSH address. *)
Record hosted := mkHosted { http_address : string; ssh_address : string }.

(** What [json.Unmarshal] makes of a document, as far as it is looked into. *)
Inductive json := JObj (fields : list (string * json)) | JArr (items : list json) | JStr (s : string) | JOther.

Record GithubClient (W : Type) := mkGithubClient {
  gh_orgs : string -> Z -> M W (list string * Z);
  gh_repos : string -> Z -> M W (list hosted * Z);
  gh_org_repos : string -> Z -> M W (list hosted * Z) }.
Record GitlabClient (W : Type) := mkGitlabClient {
  gl_groups : Z -> M W (list string * Z);
  gl_user_projects : string -> Z -> M W (list hosted * Z);
  gl_group_projects : string -> Z -> M W (list hosted * Z) }.
Arguments gh_orgs {W}. Arguments gh_repos {W}. Arguments gh_org_repos {W}.
Arguments gl_groups {W}. Arguments gl_user_projects {W}. Arguments gl_group_projects {W}.

Class Hosting (W : Type) := {
  github_client : option (string * string) -> option string -> outcome (GithubClient W);
  gitlab_client : option string -> string -> outcome (GitlabClient W);
  bitbucket_client : Basic -> outcome (string -> Z -> Z -> M W json);
  http_get : string -> M W (Z * outcome bytes);
  json_parse : bytes -> outcome json;
  jee_parse : string -> outcome (json -> outcome json) }.

(** ** set.go *)

(** [StringSet map[string]bool] *)
Notation StringSet := (gmap string bool).
Definition FromSlice (items : list string) : StringSet :=
  fold_left (fun res item => <[item := true]> res) items ∅.
Definition Contains (s : StringSet) (item : string) : bool := bool_decide (is_Some (s !! item)).

(** ** Loops *)

Definition and_then {W A B} (m : M W (option A)) (f : A -> M W (option B)) : M W (option B) :=
  let! x := m in match x with Some a => f a | None => ret None end.
Notation "'let*' x ':=' m 'in' k" := (and_then m (fun x => k))
  (at level 200, x pattern, m at level 100, k at level 200, right associativity) : go_scope.

Fixpoint each {W A B} (f : B -> A -> M W (option B)) (b : B) (l : list A) : M W (option B) :=
  match l with
  | [] => ret (Some b)
  | x :: l' => let* b' := f b x in each f b' l'
  end.

(** [for page := 1; more(page); { items, response, err := fetch(page);
    if err != nil { break }; acc = append(acc, items...); page = response.NextPage }] *)
Fixpoint pages {W A} (fuel : nat) (more : Z -> bool) (fetch : Z -> M W (list A * Z)) (page : Z)
    (acc : list A) : M W (option (list A)) :=
  if negb (more page) then ret (Some acc) else
  match fuel with
  | O => ret None
  | S fuel' => fun w =>
      match fetch page w with
      | (Ret (items, next), w') => pages fuel' more fetch next (acc ++ items) w'
      | (Fail _, w') => (Ret (Some acc), w')
      | (Panic why, w') => (Panic why, w')
      end
  end.

Section Remotes.
Context {W : Type} `{Hosting W}.

Definition Remote : Type := nat -> M W (option (list Repository)).

(** [if cloneConfig == nil { cloneConfig = &config.Clone{Strategy: ..} }] *)
Definition clone_config (clone : option Clone) (strategy : CloneStrategy) : Clone :=
  default (mkClone strategy None None) clone.

Definition to_repository (cloneConfig : Clone) (repo : hosted) : Repository :=
  mkRepository (if decide (Clone_Strategy cloneConfig = CloneStrategy_HTTP) then http_address repo
                else ssh_address repo) (Some cloneConfig).

(** ** github.go *)

Definition not_zero (page : Z) : bool := negb (bool_decide (page = 0)).

Definition github_user (cfg : Github) (client : GithubClient W) (fuel : nat)
    (acc : list string * list Repository) (user : string) : M W (option (list string * list Repository)) :=
  let* orgs := pages fuel not_zero (gh_orgs client user) 1 [] in
  let* repos := pages fuel not_zero (gh_repos client user) 1 [] in
  ret (Some (acc.1 ++ orgs, acc.2 ++ map (to_repository (clone_config (GH_Clone cfg) (GH_Strategy cfg))) repos)).

Definition github_organization (cfg : Github) (client : GithubClient W) (fuel : nat)
    (acc : list Repository) (organization : string) : M W (option (list Repository)) :=
  if Contains (FromSlice (GH_SkipOrganizations cfg)) organization then ret (Some acc) else
  let* repos := pages fuel not_zero (gh_org_repos client organization) 1 [] in
  ret (Some (acc ++ map (to_repository (clone_config (GH_Clone cfg) (GH_Strategy cfg))) repos)).

Definition github_FetchRepositories (cfg : Github) (client : GithubClient W) : Remote := fun fuel =>
  let* (organizations, repositories) :=
    each (github_user cfg client fuel) (GH_Organizations cfg, []) (GH_Users cfg) in
  each (github_organization cfg client fuel) repositories organizations.

Definition NewGithubRemote (cfg : Github) : outcome Remote :=
  let urls := if decide (GH_BaseUrl cfg = ""%string) then None
              else if decide (GH_UploadUrl cfg = ""%string) then None
              else Some (GH_BaseUrl cfg, GH_UploadUrl cfg) in
  let? client := github_client urls (GH_Oauth2 cfg) in
  Ret (github_FetchRepositories cfg client).

(** ** gitlab.go *)

Context `{MapRange}.

Definition positive (page : Z) : bool := bool_decide (0 < page).

Definition gitlab_user (cfg : Gitlab) (client : GitlabClient W) (fuel : nat) (acc : list Repository)
    (user : string) : M W (option (list Repository)) :=
  let* projects := pages fuel positive (gl_user_projects client user) 1 [] in
  ret (Some (acc ++ map (to_repository (clone_config (GL_Clone cfg) (GL_Strategy cfg))) projects)).

Definition gitlab_group (cfg : Gitlab) (client : GitlabClient W) (fuel : nat) (acc : list Repository)
    (group : string * bool) : M W (option (list Repository)) :=
  if Contains (FromSlice (GL_SkipGroups cfg)) group.1 then ret (Some acc) else
  let* projects := pages fuel positive (gl_group_projects client group.1) 1 [] in
  ret (Some (acc ++ map (to_repository (clone_config (GL_Clone cfg) (GL_Strategy cfg))) projects)).

Definition gitlab_FetchRepositories (cfg : Gitlab) (client : GitlabClient W) : Remote := fun fuel =>
  let* listed := pages fuel positive (gl_groups client) 1 [] in
  let groups := FromSlice (GL_Groups cfg ++ listed) in
  let* repositories := each (gitlab_user cfg client fuel) [] (GL_Users cfg) in
  each (gitlab_group cfg client fuel) repositories (range_map groups).

Definition NewGitlabRemote (cfg : Gitlab) : outcome Remote :=
  match GL_Private cfg with
  | None => Fail (ErrText "no auth method provided")
  | Some token =>
      let? client := gitlab_client (if decide (GL_BaseUrl cfg = ""%string) then None else Some (GL_BaseUrl cfg)) token in
      Ret (gitlab_FetchRepositories cfg client)
  end.

(** ** bitbucket.go *)

Definition conversion_panic : string := "interface conversion".

(** [x.(map[string]interface{})], [x.([]interface{})], [x.(string)] and [m[k]]:
    a missing key is nil, on which every assertion panics. *)
Definition as_object (j : json) : outcome (list (string * json)) :=
  match j with JObj fields => Ret fields | _ => Panic conversion_panic end.
Definition as_array (j : json) : outcome (list json) :=
  match j with JArr items => Ret items | _ => Panic conversion_panic end.
Definition as_string (j : json) : outcome string :=
  match j with JStr s => Ret s | _ => Panic conversion_panic end.
Fixpoint field (k : string) (fields : list (string * json)) : json :=
  match fields with
  | [] => JOther
  | (k', v) :: fields' => if decide (k = k') then v else field k fields'
  end.

Definition convert_link (strategy : string) (cloneConfig : Clone) (repos : list Repository) (cloneURL : json) :
    outcome (list Repository) :=
  let? curl := as_object cloneURL in
  let? name := as_string (field "name" curl) in
  if decide (name = strategy) then
    let? href := as_string (field "href" curl) in
    Ret (repos ++ [mkRepository href (Some cloneConfig)])
  else Ret repos.

Definition convert_value (strategy : string) (cloneConfig : Clone) (repos : list Repository) (value : json) :
    outcome (list Repository) :=
  let? val := as_object value in
  let? links := as_object (field "links" val) in
  let? cloneURLs := as_array (field "clone" links) in
  ofold (convert_link strategy cloneConfig) repos cloneURLs.

Definition convertRepositoriesResponse (response : json) (cloneConfig : Clone) : outcome (list Repository) :=
  let? rdata := as_object response in
  let? values := as_array (field "values" rdata) in
  let strategy := (if decide (Clone_Strategy cloneConfig = CloneStrategy_HTTP) then "https" else "ssh")%string in
  ofold (convert_value strategy cloneConfig) [] values.

Definition pageLen : Z := 10.

(** The loop over the pages of one owner; an error goes on to the next page. *)
Fixpoint bitbucket_pages (fuel : nat) (cloneConfig : Clone) (list_repos : Z -> M W json) (page : Z)
    (acc : list Repository) : M W (option (list Repository)) :=
  match fuel with
  | O => ret None
  | S fuel' => fun w =>
      match list_repos page w with
      | (Fail _, w') => bitbucket_pages fuel' cloneConfig list_repos (page + 1) acc w'
      | (Panic why, w') => (Panic why, w')
      | (Ret repos, w') =>
          (let! rr := lift (convertRepositoriesResponse repos cloneConfig) in
           if bool_decide (Z.of_nat (length rr) < pageLen) then ret (Some (acc ++ rr))
           else bitbucket_pages fuel' cloneConfig list_repos (page + 1) (acc ++ rr)) w'
      end
  end.

Definition bitbucket_owner (cfg : Bitbucket) (client : string -> Z -> Z -> M W json) (skip : StringSet)
    (fuel : nat) (acc : list Repository) (owner : string) : M W (option (list Repository)) :=
  if Contains skip owner then ret (Some acc) else
  bitbucket_pages fuel (clone_config (BB_Clone cfg) (BB_Strategy cfg)) (fun page => client owner page pageLen) 1 acc.

Definition bitbucket_FetchRepositories (cfg : Bitbucket) (client : string -> Z -> Z -> M W json) : Remote := fun fuel =>
  let* allRepos := each (bitbucket_owner cfg client ∅ fuel) [] (BB_Users cfg) in
  each (bitbucket_owner cfg client (FromSlice (BB_SkipTeams cfg)) fuel) allRepos (BB_Teams cfg).

Definition NewBitbucketRemote (cfg : Bitbucket) : outcome Remote :=
  match BB_Basic cfg with
  | None => Fail (ErrText "auth format not supported")
  | Some basic => let? client := bitbucket_client basic in Ret (bitbucket_FetchRepositories cfg client)
  end.

(** ** generic.go *)

Definition page_url (cfg : Generic) (page : Z) : string :=
  GE_BaseUrl cfg +:+ GE_Path cfg +:+ "?" +:+ GE_PageParameter cfg +:+ "=" +:+ decimal page +:+ "&" +:+
  GE_PerPageParameter cfg +:+ "=" +:+ decimal (GE_PageSize cfg).

Definition add_entry (cfg : Generic) (acc : list Repository) (entry : json) : outcome (list Repository) :=
  let? entryString := as_string entry in Ret (acc ++ [mkRepository entryString (GE_Clone cfg)]).

Definition or_text {A} (m : outcome A) (msg : string) : outcome A :=
  match m with Fail _ => Fail (ErrText msg) | r => r end.

Fixpoint generic_pages (fuel : nat) (cfg : Generic) (eval : json -> outcome json) (page : Z)
    (repositories : list Repository) : M W (option (list Repository)) :=
  match fuel with
  | O => ret None
  | S fuel' =>
      let! (status, read) := on_error (http_get (page_url cfg page))
                               (fun _ => ErrText ("failed to get url: " +:+ page_url cfg page)) in
      if decide (status = 404) then ret (Some repositories) else
      let! body := lift (or_text read "failed to read body") in
      let! umsg := lift (or_text (json_parse body) "failed to unmarshal JSON") in
      let! result := lift (or_text (eval umsg)
                             ("failed to extract response from page using selector: " +:+ GE_Selector cfg)) in
      let! resultArray := lift (as_array result) in
      let! repositories := lift (ofold (add_entry cfg) repositories resultArray) in
      if bool_decide (int32 (Z.of_nat (length resultArray)) < GE_PageSize cfg) then ret (Some repositories)
      else generic_pages fuel' cfg eval (page + 1) repositories
  end.

Definition generic_FetchRepositories (cfg : Generic) : Remote := fun fuel =>
  let! eval := lift (jee_parse (GE_Selector cfg)) in
  generic_pages fuel cfg eval 1 [].

(** ** static.go, composite.go *)

Definition static_FetchRepositories (cfg : Static) : Remote := fun _ =>
  ret (Some (map (fun url => mkRepository url (ST_Clone cfg)) (ST_RepositoryUrls cfg))).

(** An error is logged and the remote skipped. *)
Definition composite_one (fuel : nat) (repositories : list Repository) (remote : Remote) :
    M W (option (list Repository)) := fun w =>
  match remote fuel w with
  | (Ret (Some repos), w') => (Ret (Some (repositories ++ repos)), w')
  | (Fail _, w') => (Ret (Some repositories), w')
  | r => r
  end.

Definition composite_FetchRepositories (remotes : list Remote) : Remote := fun fuel =>
  each (composite_one fuel) [] remotes.

(** ** remotes.go *)

Definition remote_of (account : Account) : outcome Remote :=
  match account with
  | mkAccount _ _ _ (Some generic) _ => Ret (generic_FetchRepositories generic)
  | mkAccount _ _ (Some bitbucket) None _ => NewBitbucketRemote bitbucket
  | mkAccount (Some github) _ None None _ => NewGithubRemote github
  | mkAccount None (Some gitlab) None None _ => NewGitlabRemote gitlab
  | mkAccount None None None None (Some static) => Ret (static_FetchRepositories static)
  | mkAccount None None None None None => Fail (ErrText "unrecognized account")
  end.

Definition ParseConfig (accounts : list Account) : outcome Remote :=
  let? remotes := omap_list remote_of accounts in
  Ret (composite_FetchRepositories remotes).
End Remotes.
