(* ===== verification/Consumer.v ===== *)
(** * indexer: consuming repositories

    [internal/consumer/consumer.go], which clones a repository, finds its
    dependency files and reports them to the tracker, and the worker pool of
    [main.go].  What the outside answers (file system, git, the two services)
    is an oracle; a run is the list of the calls it makes. *)

From S2P Require Import Prelude Api Remotes.

(** ** The clone *)

(** What a clone leaves on disk: files, directories and symbolic links.  A link
    may lead anywhere, out of the clone, back to a directory above it or to
    nothing, so it stands for what the operating system finds there: [opens p]
    is what is read from the path [p] below the link ([opens []] from the link
    itself). *)
Inductive tree :=
| File (contents : string)
| Dir (entries : list (string * tree))
| Link (opens : list string -> option string).

Fixpoint entry (name : string) (entries : list (string * tree)) : option tree :=
  match entries with
  | [] => None
  | (n, t) :: entries' => if decide (name = n) then Some t else entry name entries'
  end.

(** A path is the names below the root; the code joins them with separators. *)
Notation path := (list string).

(** What is stored at a path of the clone, links not followed. *)
Fixpoint resolve (t : tree) (p : path) : option tree :=
  match p, t with
  | [], _ => Some t
  | name :: p', Dir entries => match entry name entries with Some t' => resolve t' p' | None => None end
  | _ :: _, File _ | _ :: _, Link _ => None
  end.

(** [finfo.IsDir()]: false for a link, also for one to a directory. *)
Definition IsDir (t : tree) : bool := match t with Dir _ => true | File _ | Link _ => false end.

(** [fs.ReadDir]: the names, and which are directories; none on an error.  The
    walk calls it on directories only, never on a link. *)
Definition ReadDir (t : tree) (p : path) : list (string * bool) :=
  match resolve t p with
  | Some (Dir entries) => map (fun e => (e.1, IsDir e.2)) entries
  | _ => []
  end.

(** [fs.Open] and [ioutil.ReadAll], which follow links. *)
Fixpoint read_file (t : tree) (p : path) : option string :=
  match p, t with
  | [], File contents => Some contents
  | name :: p', Dir entries => match entry name entries with Some t' => read_file t' p' | None => None end
  | p, Link opens => opens p
  | [], Dir _ | _ :: _, File _ => None
  end.

(** ** Walking *)

(** One directory: its subdirectories and its files. *)
Definition visit (t : tree) (acc : list path * list path) (p : path) : list path * list path :=
  fold_left (fun acc (finfo : string * bool) =>
    let fpath := p ++ [finfo.1] in
    if finfo.2 then (acc.1 ++ [fpath], acc.2) else (acc.1, acc.2 ++ [fpath])) (ReadDir t p) acc.

Fixpoint walk (fuel : nat) (t : tree) (queue paths : list path) : option (list path) :=
  match queue, fuel with
  | [], _ => Some paths
  | _, O => None
  | _, S fuel' => let '(newQueue, paths) := fold_left (visit t) queue ([], paths) in walk fuel' t newQueue paths
  end.

Fixpoint height (t : tree) : nat :=
  match t with
  | File _ | Link _ => 0
  | Dir entries => S (fold_right (fun e h => Nat.max (height e.2) h) 0 entries)
  end.

(** ** Credentials *)

(** [ssh.NewPublicKeysFromFile] and [ssh.NewPublicKeys] *)
Inductive key_source := KeyFile (p : string) | KeyText (text : string).
Inductive auth :=
| BasicAuth (username password : string)
| PublicKeys (user : string) (key : key_source) (password : string)
| Configured.

(** The outside. [o_keys] is whether a key can be loaded; [o_clone] what git
    answers, with the name of the head if there is one. *)
Record oracle := mkOracle {
  o_tempdir : option string;
  o_chroot : bool;
  o_keys : string -> key_source -> string -> bool;
  o_clone : string -> option auth -> option (tree * option string);
  o_match : list path -> option (list path);
  o_extract : string -> gmap path string -> option (list ManagementFile) }.

Inductive event :=
| ETempDir
| EClone (url : string) (a : option auth)
| EMatch (paths : list path)
| EExtract (url : string) (contents : gmap path string)
| ETrack (request : SourceRequest)
| ERemoveAll (dir : string).

(** [None]: the keys cannot be loaded, and the repository is given up. *)
Definition clone_auth (o : oracle) (configured : bool) (repository : Repository) : option (option auth) :=
  match Repository_Clone repository with
  | Some clone =>
      match Clone_Basic clone, Clone_PublicKey clone with
      | Some basic, _ => Some (Some (BasicAuth (Basic_Username basic) (Basic_Password basic)))
      | None, Some publicKey =>
          let user := if decide (PK_User publicKey = ""%string) then "git"%string else PK_User publicKey in
          let key := if decide (PK_PrivateKeyPath publicKey = ""%string) then
                       if decide (PK_PrivateKey publicKey = ""%string) then None
                       else Some (KeyText (PK_PrivateKey publicKey))
                     else Some (KeyFile (PK_PrivateKeyPath publicKey)) in
          match key with
          | Some k => if o_keys o user k (PK_Password publicKey)
                      then Some (Some (PublicKeys user k (PK_Password publicKey))) else None
          | None => None
          end
      | None, None => Some None
      end
  | None => Some (if configured then Some Configured else None)
  end.

(** [fileContents[matched] = string(data)], for the files that can be read. *)
Definition add_contents (t : tree) (fileContents : gmap path string) (matched : path) : gmap path string :=
  match read_file t matched with
  | None => fileContents
  | Some data => <[matched := data]> fileContents
  end.

(** ** Consume *)

(** After the clone. *)
Definition report (o : oracle) (repourl : string) (t : tree) (head : option string) : list event :=
  match walk (S (height t)) t [[]] [] with
  | None => []
  | Some paths =>
      EMatch paths ::
      match o_match o paths with
      | None => []
      | Some matchedPaths =>
          let fileContents := fold_left (add_contents t) matchedPaths ∅ in
          EExtract repourl fileContents ::
          match o_extract o repourl fileContents with
          | None => []
          | Some files =>
              [ETrack (mkSourceRequest (Some (mkSource repourl "repository" (default ""%string head))) files)]
          end
      end
  end.

Definition Consume (o : oracle) (configured : bool) (repository : Repository) : list event :=
  let repourl := RepositoryURL repository in
  ETempDir ::
  match o_tempdir o with
  | None => []
  | Some dir =>
      (if o_chroot o then
         match clone_auth o configured repository with
         | None => []
         | Some options =>
             EClone repourl options ::
             match o_clone o repourl options with
             | None => []
             | Some (t, head) => report o repourl t head
             end
         end
       else []) ++ [ERemoveAll dir]
  end.

(** ** main.go: the workers *)

Section Pool.
Context {A : Type}.

(** A worker waits for the channel or consumes a repository. *)
Record pool := mkPool {
  unfed : list A;
  channel : list A;
  workers : list (option A);
  wg : nat;
  consumed : list A;
  returned : bool }.

Definition pool_start (n : nat) (repositories : list A) : pool :=
  mkPool repositories [] (replicate n None) (length repositories) [] false.

(** The channel has room for as many repositories as there are workers; with
    no buffer a send waits for a receiver. *)
Inductive pool_step : pool -> pool -> Prop :=
| pool_feed r rs ch ws k d :
    length ch < length ws -> pool_step (mkPool (r :: rs) ch ws k d false) (mkPool rs (ch ++ [r]) ws k d false)
| pool_take i r rs ch ws k d ret :
    ws !! i = Some None ->
    pool_step (mkPool rs (r :: ch) ws k d ret) (mkPool rs ch (<[i := Some r]> ws) k d ret)
| pool_done i r rs ch ws k d ret :
    ws !! i = Some (Some r) ->
    pool_step (mkPool rs ch ws (S k) d ret) (mkPool rs ch (<[i := None]> ws) k (d ++ [r]) ret)
| pool_return ch ws d : pool_step (mkPool [] ch ws 0 d false) (mkPool [] ch ws 0 d true).
End Pool.
