(* ===== verification/Instances.v ===== *)
(** * Concrete parameters

    The development is parametric in the SQL engine, the struct tags of the
    messages and the order of map iteration.  These instances satisfy every law, so that the
    theorems can be evaluated on concrete inputs. *)

From S2P Require Import Prelude GoCodec GoJson Api SchemaJson GraphSpec Sql StoreAlpha StoreAlphaSpec.

(** ** An engine that answers in key order and never fails *)

Definition first_empty (args : list (list string)) : option error :=
  if decide ([] ∈ args) then Some (ErrText "empty slice passed to 'in' query") else None.

Definition plain_engine (fs : nat -> Faults) : SqlEngine.
Proof.
  refine {| arrange := fun _ _ l => l; sqlx_In := first_empty; sql_open := fun _ a => Ret a;
            now := fun n => Z.of_nat n; faults := fs |}.
  - done.
  - intros args. unfold first_empty. case_decide; naive_solver.
Defined.

Definition quiet_engine : SqlEngine := plain_engine (fun _ => no_faults).

Definition quiet_no_faults : @NoFaults quiet_engine.
Proof. intros n. reflexivity. Defined.

Definition map_order : MapRange.
Proof. refine {| range_map := fun V m => map_to_list m |}. done. Defined.

(** ** Strings escaped and terminated, one after the other *)

Fixpoint put_string (s : bytes) : bytes :=
  match s with [] => [Byte.x00] | b :: s' => Byte.x01 :: b :: put_string s' end.

Definition put_strings (l : list string) : bytes := concat (map (fun s => put_string (to_bytes s)) l).

(** ** The JSON codec, with the names protobuf gives the fields *)

Definition json_codec : JsonCodec := @go_json proto_schema_tags.
Definition json_codec_ok : @JsonCodecOk json_codec := @go_json_ok proto_schema_tags.

Definition json_text (m : schema_msg) : bytes := write_struct (zip (proto_tags (kind_of m)) (msg_fields m)).

(** ** One database with an empty table *)

Definition main_db : string := "main".
Definition empty_world : World table := mkWorld {[ main_db := ∅ ]} 0.

Lemma empty_world_rep : sql_rep main_db empty_world ∅.
Proof. exists ∅. split; [apply lookup_singleton_eq|apply table_rep_empty]. Qed.

(** A run, from its answer. *)
Lemma run_fst {W A} (m : M W A) w o : (m w).1 = o -> m w = (o, (m w).2).
Proof. intros <-. apply surjective_pairing. Qed.

Lemma computed_Some {A} (o : option A) (d : A) :
  (if o then true else false) = true -> o = Some (default d o).
Proof. by destruct o. Qed.
Lemma computed_is_Some {A} (o : option A) : (if o then true else false) = true -> is_Some o.
Proof. destruct o; [by eexists|done]. Qed.
