(* ===== verification/TrackInvariant.v ===== *)
(** * The graph that tracking builds

    The invariant of a graph written by [Track] only, what a tracked source's
    edges are, and what happens when the source is tracked again. *)

From S2P Require Import Prelude GoCodec GoHash Api GraphSpec StoreAlpha KeysAlpha TrackAlpha.
From S2P Require Import TrackAlphaProofs Instances Sql StoreAlphaSpec.

Lemma key_nonempty vars : key vars <> [].
Proof.
  intros Hk. pose proof (length_sha256 (key_preimage vars)) as Hl. unfold key in Hk. by rewrite Hk in Hl.
Qed.

(** ** The keys of a request *)

Section Keys.
Context `{JsonCodec}.
Implicit Types (req : SourceRequest) (mf : ManagementFile).

Lemma in_proposed req i : i ∈ proposed_items req -> item_key i ∈ map item_key (proposed_items req).
Proof. intros Hi. apply list_elem_of_fmap. eauto. Qed.

(** The declared keys, by type. *)
Definition declares_module req (m : bytes) : Prop :=
exists mf, mf ∈ SR_ManagementFiles req /\
  (m = keyForModule (file_module mf) \/
   exists d, d ∈ MF_Dependencies mf /\ m = keyForModule (dep_module mf d)).
Definition declares_manages req (s m : bytes) : Prop :=
exists mf, mf ∈ SR_ManagementFiles req /\ m = keyForModule (file_module mf) /\
  (s = keyForSource (SR_Source req) \/
   MF_SourceUrl mf <> ""%string /\ s = keyForSource (discovered mf)).
Definition declares_depends req (m n s : bytes) : Prop :=
exists mf d, mf ∈ SR_ManagementFiles req /\ d ∈ MF_Dependencies mf /\
  m = keyForModule (file_module mf) /\ n = keyForModule (dep_module mf d) /\
  s = keyForSource (SR_Source req).

(** The items of a request, one case per kind of item. *)
Ltac by_item :=
split;
[ intros (i & Hi & Hk%elem_of_proposed)%list_elem_of_fmap;
  destruct Hk as [->|(mf & Hmf & [->|[->|[(Hu & [->| ->])|(d & Hd & [->| ->])]]])];
  unfold item_key in Hi; simpl in Hi; simplify_eq
| ].

Lemma module_keys req k1 k2 k3 :
(ModuleType, k1, k2, k3) ∈ map item_key (proposed_items req) <->
k1 = k2 /\ k3 = [] /\ declares_module req k1.
Proof.
unfold declares_module. by_item.
- eauto 10.
- eauto 10.
- intros (-> & -> & mf & Hmf & [->|(d & Hd & ->)]).
  + apply (in_proposed req (module_item (file_module mf))), elem_of_proposed. eauto 10.
  + apply (in_proposed req (module_item (dep_module mf d))), elem_of_proposed. eauto 12.
Qed.

Lemma manages_keys req k1 k2 k3 :
(ManagesType, k1, k2, k3) ∈ map item_key (proposed_items req) <->
k3 = [] /\ declares_manages req k1 k2.
Proof.
unfold declares_manages. by_item.
- eauto 10.
- eauto 10.
- intros (-> & mf & Hmf & -> & [->|[Hu ->]]).
  + apply (in_proposed req (manages_item mf _ _)), elem_of_proposed. eauto 10.
  + apply (in_proposed req (manages_item mf (keyForSource (discovered mf)) _)), elem_of_proposed.
    eauto 12.
Qed.

Lemma depends_keys req k1 k2 k3 :
(DependsType, k1, k2, k3) ∈ map item_key (proposed_items req) <-> declares_depends req k1 k2 k3.
Proof.
unfold declares_depends. by_item.
- eauto 10.
- intros (mf & d & Hmf & Hd & -> & -> & ->).
  apply (in_proposed req (depends_item req mf d)), elem_of_proposed. eauto 12.
Qed.
End Keys.

(** ** The invariant *)

(** Every edge between different nodes ends at a live module; a depends edge
    was put for a source that still manages the module it starts from. *)
Record well_linked (v : astore) : Prop := mkLinked {
  linked_manages : forall s m (k3 : bytes), is_Some (v !! (ManagesType, s, m, k3)) -> s <> m -> is_module v m;
  linked_depends : forall m n (s : bytes), is_Some (v !! (DependsType, m, n, s)) -> m <> n ->
    is_module v n /\ s <> [] /\ manages_edge v s m [] }.

(** SHA-256 does not confuse the source with one of its modules. *)
Definition no_collision (req : SourceRequest) : Prop :=
  Forall (fun mf => keyForSource (SR_Source req) <> keyForModule (file_module mf))
         (SR_ManagementFiles req).

Lemma well_linked_empty : well_linked ∅.
Proof. split; intros *; by rewrite lookup_empty, is_Some_alt. Qed.

Section Tracked.
Context `{JsonCodec} (req : SourceRequest) (v v' : astore).
Hypothesis Htr : tracked req v v'.
Let sk := keyForSource (SR_Source req).
Let declared (k : ikey) : Prop := k ∈ map item_key (proposed_items req).

Lemma tracked_declared k : declared k -> is_Some (v' !! k).
Proof. intros [i Hi]%last_item_is_Some. rewrite (tracked_put _ _ _ Htr _ _ Hi). eauto. Qed.

Lemma tracked_live k : is_Some (v' !! k) -> declared k \/ is_Some (v !! k) /\ ~ owned v sk k.
Proof.
intros Hl. destruct (decide (k ∈ map item_key (proposed_items req))) as [Hd|Hd]; [by left|right].
assert (~ owned v sk k) as Ho.
{ intros Ho. rewrite (tracked_stale _ _ _ Htr k Hd Ho) in Hl. by destruct Hl. }
by rewrite <- (tracked_other _ _ _ Htr k Hd Ho).
Qed.

Lemma tracked_kept k : is_Some (v !! k) -> ~ owned v sk k -> is_Some (v' !! k).
Proof.
intros Hl Ho. destruct (decide (k ∈ map item_key (proposed_items req))) as [Hd|Hd].
- by apply tracked_declared.
- by rewrite (tracked_other _ _ _ Htr k Hd Ho).
Qed.

Lemma tracked_module m : is_module v m -> is_module v' m.
Proof.
intros [k3 Hm]. exists k3. apply tracked_kept; [done|]. by intros ?%owned_not_module.
Qed.

Lemma declared_module m : declares_module req m -> is_module v' m.
Proof. intros Hd. exists []. apply tracked_declared. by apply module_keys. Qed.

Lemma declares_manages_module s m : declares_manages req s m -> is_module v' m.
Proof. intros (mf & Hmf & -> & _). apply declared_module. exists mf. eauto. Qed.

Context (Hnc : no_collision req) (Hwl : well_linked v).

Lemma declares_depends_edge m n s :
declares_depends req m n s -> is_module v' n /\ s = sk /\ declares_manages req s m /\
manages_edge v' s m [].
Proof.
intros (mf & d & Hmf & Hd & -> & -> & ->).
assert (declares_manages req sk (keyForModule (file_module mf))) as Hman by (exists mf; eauto).
split_and!; [|done|done|].
- apply declared_module. exists mf. eauto.
- split_and!.
  + unfold no_collision in Hnc. rewrite Forall_forall in Hnc. by apply Hnc.
  + apply tracked_declared. by apply manages_keys.
  + by eapply declares_manages_module.
Qed.

Lemma tracked_linked : well_linked v'.
Proof.
split.
- intros s m k3 [[_ Hd]%manages_keys|[Hl _]]%tracked_live Hne.
  + by eapply declares_manages_module.
  + by eapply tracked_module, linked_manages.
- intros m n s [Hd%depends_keys|[Hl Ho]]%tracked_live Hne.
  + apply declares_depends_edge in Hd as (? & -> & _ & ?).
    split_and!; [done|apply key_nonempty|done].
  + destruct (linked_depends _ Hwl _ _ _ Hl Hne) as (Hn & Hs & Hme).
    split_and!; [by apply tracked_module|done|].
    destruct (decide (s = sk)) as [->|Hsk].
    * exfalso. apply Ho. right. exists m, n, sk, []. split_and!; [done|done| |by right]. done.
    * destruct Hme as (Hsm & Hm & Hmod). split_and!; [done| |by apply tracked_module].
      apply tracked_kept; [done|].
      intros [(? & ? & [=] & _)|(? & ? & ? & ? & [=] & _)]; congruence.
Qed.

(** The edges of the source afterwards are those declared. *)
Lemma tracked_manages m k3 :
manages_edge v' sk m k3 <-> sk <> m /\ k3 = [] /\ declares_manages req sk m.
Proof.
split.
- intros (Hne & Hl & _). split; [done|].
  apply tracked_live in Hl as [Hd%manages_keys|[Hl Ho]]; [done|].
  exfalso. apply Ho. left. exists m, k3. split; [done|].
  split_and!; [done..|]. by eapply linked_manages.
- intros (Hne & -> & Hd). split_and!; [done| |by eapply declares_manages_module].
  apply tracked_declared. by apply manages_keys.
Qed.

Lemma tracked_depends m n :
depends_edge v' m n sk <-> m <> n /\ declares_depends req m n sk.
Proof.
split.
- intros (Hne & Hl & _). split; [done|].
  apply tracked_live in Hl as [Hd%depends_keys|[Hl Ho]]; [done|].
  exfalso. apply Ho. destruct (linked_depends _ Hwl _ _ _ Hl Hne) as (Hn & _ & Hme).
  right. exists m, n, sk, []. split_and!; [done|done| |by right]. done.
- intros [Hne Hd]. split_and!; [done| |by apply declares_depends_edge in Hd as []].
  apply tracked_declared. by apply depends_keys.
Qed.
(** Those of other sources stay. *)
Lemma tracked_depends_other m n (k3 : bytes) : k3 <> sk ->
depends_edge v' m n k3 <-> depends_edge v m n k3.
Proof.
intros Hk. split.
- intros (Hne & Hl & _). apply tracked_live in Hl as [(mf & d & _ & _ & _ & _ & Hs)%depends_keys|[Hl _]]; [done|].
  split_and!; [done..|]. by destruct (linked_depends _ Hwl _ _ _ Hl Hne) as [Hn _].
- intros (Hne & Hl & Hn). split_and!; [done| |by apply tracked_module]. apply tracked_kept; [done|].
  destruct (linked_depends _ Hwl _ _ _ Hl Hne) as (_ & Hs & _).
  intros [(? & ? & [=] & _)|(? & ? & ? & ? & [=] & _ & _ & Ho)]; subst. by destruct Ho.
Qed.
End Tracked.

(** Tracking the same request again changes nothing. *)
Lemma tracked_again `{JsonCodec} req v v' v'' :
  no_collision req -> well_linked v -> tracked req v v' -> tracked req v' v'' -> v'' = v'.
Proof.
  intros Hnc Hwl H1 H2. pose proof (tracked_linked _ _ _ H1 Hnc Hwl) as Hwl'.
  apply map_eq. intros k.
  destruct (decide (k ∈ map item_key (proposed_items req))) as [Hd|Hd].
  - destruct (last_item_is_Some _ _ Hd) as [i Hi].
    by rewrite (tracked_put _ _ _ H1 _ _ Hi), (tracked_put _ _ _ H2 _ _ Hi).
  - apply (tracked_other _ _ _ H2); [done|].
    intros [(m & k3 & -> & Hm)|(m & n & k3 & k3' & -> & Hm & Hdep & Hk3)]; apply Hd.
    + apply (tracked_manages _ _ _ H1 Hwl) in Hm as (_ & -> & Hm). by apply manages_keys.
    + destruct Hk3 as [->| ->].
      * destruct Hdep as (Hne & Hl & _).
        by destruct (linked_depends _ Hwl' _ _ _ Hl Hne) as (_ & Hs & _).
      * apply (tracked_depends _ _ _ H1 Hnc Hwl) in Hdep as [_ Hdep]. by apply depends_keys.
Qed.
