(* ===== verification/ConcurrentTrack.v ===== *)
(** * Tracking sources at the same time

    Several [Track] calls over one store, their calls of the store interleaved
    in any way.  The lemmas say which edges belong to which source, where a
    [Track] stands after a history, and the invariant of the interleaving. *)

From S2P Require Import Prelude GoCodec GoHash Api GraphSpec StoreAlpha KeysAlpha TrackAlpha.
From S2P Require Import Concurrent TrackAlphaProofs TrackInvariant.

(** ** The edges of a source *)

(** The keys of edges [sk] may own: manages edges out of it, and depends edges
    put for it. *)
Definition own (sk : bytes) (k : ikey) : Prop :=
  let '(ty, k1, k2, k3) := k in
  (ty = ManagesType /\ k1 = sk /\ sk <> k2) \/ (ty = DependsType /\ k3 = sk /\ k1 <> k2).
#[export] Instance own_dec sk k : Decision (own sk k).
Proof. destruct k as [[[? ?] ?] ?]. unfold own. apply _. Defined.

Lemma own_not_module sk k : own sk k -> key_type k <> ModuleType.
Proof. destruct k as [[[? ?] ?] ?]. intros [(-> & _)|(-> & _)]; done. Qed.

Lemma owned_own v sk k : well_linked v -> owned v sk k <-> own sk k /\ is_Some (v !! k).
Proof.
  intros Hwl. split.
  - intros [(m & k3 & -> & Hne & Hl & _)|(m & n & k3 & k3' & -> & _ & (Hne & Hl & _) & Hk3)].
    + split; [by left|done].
    + split; [|done]. right. destruct (linked_depends _ Hwl _ _ _ Hl Hne) as (_ & Hk & _). by destruct Hk3.
  - destruct k as [[[ty k1] k2] k3]. intros [[(-> & -> & Hne)|(-> & -> & Hne)] Hl].
    + left. exists k2, k3. split; [done|]. split_and!; [done..|]. by eapply linked_manages.
    + destruct (linked_depends _ Hwl _ _ _ Hl Hne) as (Hn & _ & Hm).
      right. exists k1, k2, sk, []. split_and!; [done..|by right].
Qed.

Section Requests.
Context `{JsonCodec}.
Implicit Types (req : SourceRequest) (v : astore).

Notation source_key req := (keyForSource (SR_Source req)).

Definition declared req (k : ikey) : Prop := k ∈ map item_key (proposed_items req).

(** What [Track] removes: edges of the source that are no longer declared. *)
Definition stale req (k : ikey) : Prop := own (source_key req) k /\ ~ declared req k.
#[export] Instance stale_dec req k : Decision (stale req k).
Proof. unfold stale, declared. apply _. Defined.

(** On a linked graph, [tracked] says what every key holds. *)
Lemma tracked_lookup req v v' : well_linked v ->
tracked req v v' <->
forall k, v' !! k = match last_item k (proposed_items req) with
                    | Some i => Some (item_val i)
                    | None => if decide (own (source_key req) k) then None else v !! k
                    end.
Proof.
intros Hwl. split.
- intros [Hput Hstale Hother] k. destruct (last_item k (proposed_items req)) as [i|] eqn:Hi; [by apply Hput|].
  assert (k ∉ map item_key (proposed_items req)) as Hk.
  { intros [? ?]%last_item_is_Some. congruence. }
  case_decide as Ho.
  + destruct (v !! k) eqn:Hv; [apply Hstale; [done|]; apply owned_own; [done|split; [done|by eexists]]|].
    rewrite <- Hv. apply Hother; [done|]. intros [_ [? ?]]%owned_own; congruence.
  + apply Hother; [done|]. by intros [? _]%owned_own.
- intros Hall. split; intros k; rewrite (Hall k).
  + by intros i ->.
  + intros Hk [Ho _]%owned_own; [|done]. by rewrite last_item_None, decide_True.
  + intros Hk Ho. rewrite last_item_None by done. case_decide as Hown; [|done].
    destruct (v !! k) eqn:Hv; [|done]. exfalso. apply Ho. apply owned_own; [done|]. split; [done|by eexists].
Qed.

(** ** Requests that do not disturb each other *)

(** They are about different sources, and neither reports the other's source
  as the origin of a module. *)
Definition apart req1 req2 : Prop :=
source_key req1 <> source_key req2 /\
forall mf, mf ∈ SR_ManagementFiles req2 -> MF_SourceUrl mf <> ""%string ->
  keyForSource (discovered mf) <> source_key req1.

Lemma apart_undeclared req1 req2 k : apart req1 req2 -> own (source_key req1) k -> ~ declared req2 k.
Proof.
intros [Hne Hdis]. destruct k as [[[ty k1] k2] k3]. unfold declared. intros [(-> & -> & _)|(-> & -> & _)].
- intros (_ & mf & Hmf & _ & [Hs|[Hu Hs]])%manages_keys; [done|]. by apply (Hdis mf).
- by intros (mf & d & _ & _ & _ & _ & Hs)%depends_keys.
Qed.

Lemma own_source sk1 sk2 k : own sk1 k -> own sk2 k -> sk1 = sk2.
Proof. destruct k as [[[ty k1] k2] k3]. intros [(-> & -> & _)|(-> & -> & _)] [(Ht & Hs & _)|(Ht & Hs & _)]; done. Qed.

(** Tracking one source leaves the edges of another alone. *)
Lemma tracked_apart req1 req2 v v' k :
well_linked v -> apart req1 req2 -> tracked req2 v v' -> own (source_key req1) k -> v' !! k = v !! k.
Proof.
intros Hwl Hap Ht Hk. rewrite (proj1 (tracked_lookup req2 v v' Hwl) Ht).
rewrite last_item_None by (by eapply apart_undeclared). rewrite decide_False; [done|].
intros Hk2. destruct Hap as [Hne _]. by apply Hne, (own_source _ _ k).
Qed.
End Requests.

(** ** Where a [Track] stands *)

Section Replay.
Context `{JsonCodec, !JsonCodecOk} `{MapRange}.
Implicit Types (req : SourceRequest).

Notation source_key req := (keyForSource (SR_Source req)).

Definition track_handler req : M replay bool := Track req.

Definition manages_request req : FindRequest := mkFindRequest [source_key req] [ManagesType] [ModuleType].
Definition depends_request (p : GraphItemPair) : FindRequest :=
mkFindRequest [K1 (Pair_Node p)] [DependsType] [ModuleType].
Definition founds (dss : list (list GraphItemPair)) : history := map (fun ds => Ret (Found ds)) dss.

(** The items it deletes and puts after its reads. *)
Definition deleted_items req ps dss : list GraphItem :=
to_delete (current_of (SR_Source req) ps dss) (add_all (proposed_items req) ∅).
Definition put_items req : list GraphItem := to_put (add_all (proposed_items req) ∅).

Lemma replay_read (sk : bytes) p ds rest idx :
add_managed sk idx p (mkReplay (Ret (Found ds) :: rest) None) =
  (Ret (read_managed sk idx (p, ds)), mkReplay rest None).
Proof using. reflexivity. Qed.

(** The loop over the managed modules, on answers for all of them, and on
  answers for some. *)
Lemma replay_reads (sk : bytes) ps dss rest idx : length dss = length ps ->
mfold (add_managed sk) idx ps (mkReplay (founds dss ++ rest) None) =
  (Ret (fold_left (read_managed sk) (zip ps dss) idx), mkReplay rest None).
Proof using.
revert ps idx. induction dss as [|ds dss IH]; intros [|p ps] idx Hlen; try done.
cbn [mfold founds map app]. unfold bind. rewrite replay_read. apply IH. by injection Hlen.
Qed.

Lemma replay_reads_next (sk : bytes) ps dss p rest idx : ps !! length dss = Some p ->
mfold (add_managed sk) idx ps (mkReplay (founds dss ++ rest) None) =
  mfold (add_managed sk) (fold_left (read_managed sk) (zip ps dss) idx) (drop (length dss) ps) (mkReplay rest None).
Proof using.
revert ps idx. induction dss as [|ds dss IH]; intros [|q ps] idx Hp; try done.
cbn [mfold founds map app]. unfold bind. rewrite replay_read. by apply IH.
Qed.

Lemma getCurrent_replay req ps dss rest : length dss = length ps ->
getCurrent (SR_Source req) (mkReplay (Ret (Found ps) :: founds dss ++ rest) None) =
  (Ret (current_of (SR_Source req) ps dss), mkReplay rest None).
Proof.
intros Hlen. unfold getCurrent, bind, lift. rewrite Encode_source_item. simpl gs_FindUpstream.
unfold bind, recall. cbn [recorded found ret waiting]. by apply replay_reads.
Qed.

(** [Track] after all its reads. *)
Lemma Track_replay req ps dss rest : safe_request req -> length dss = length ps ->
track_handler req (mkReplay (Ret (Found ps) :: founds dss ++ rest) None) =
(let! _ := on_error (gs_Delete (deleted_items req ps dss)) (fun _ => ErrPartialDeletion) in
 let! _ := on_error (gs_Put (put_items req)) (fun _ => ErrPartialInsertion) in
 ret true) (mkReplay rest None).
Proof.
intros Hs Hlen. unfold track_handler, Track, bind at 1, on_error at 1.
rewrite getCurrent_replay by done. unfold bind at 1, on_error at 1, lift.
by rewrite getProposed_spec by done.
Qed.

(** The stages of a [Track]: nothing read; managed modules and the edges of
  some of them read; edges deleted; items put; or it has failed. *)
Inductive stage :=
| Fresh
| Reading (ps : list GraphItemPair) (dss : list (list GraphItemPair))
| Between (ps : list GraphItemPair) (dss : list (list GraphItemPair))
| Finished (ps : list GraphItemPair) (dss : list (list GraphItemPair))
| Failed.

Definition stands req (h : history) (st : stage) : Prop :=
match st with
| Fresh => h = []
| Reading ps dss => h = Ret (Found ps) :: founds dss /\ length dss <= length ps
| Between ps dss => h = Ret (Found ps) :: founds dss ++ [Ret Wrote] /\ length dss = length ps
| Finished ps dss => h = Ret (Found ps) :: founds dss ++ [Ret Wrote; Ret Wrote] /\ length dss = length ps
| Failed => exists o, next_call (track_handler req) h = inr o /\ o <> Ret true
end.

Definition stage_call req (st : stage) : option store_call :=
match st with
| Fresh => Some (CallUpstream (manages_request req))
| Reading ps dss =>
    Some (match ps !! length dss with
          | Some p => CallUpstream (depends_request p)
          | None => CallDelete (deleted_items req ps dss)
          end)
| Between _ _ => Some (CallPut (put_items req))
| Finished _ _ | Failed => None
end.

Definition stage_after (st : stage) (o : outcome store_reply) : stage :=
match st, o with
| Fresh, Ret (Found ps) => Reading ps []
| Reading ps dss, Ret (Found ds) => if decide (length dss < length ps) then Reading ps (dss ++ [ds]) else Failed
| Reading ps dss, Ret Wrote => if decide (length dss < length ps) then Failed else Between ps dss
| Between ps dss, Ret Wrote => Finished ps dss
| _, _ => Failed
end.

(** [getCurrent] in the middle of its reads. *)
Lemma Track_replay_next req ps dss p rest : ps !! length dss = Some p ->
track_handler req (mkReplay (Ret (Found ps) :: founds dss ++ rest) None) =
(let! currentSet := on_error (mfold (add_managed (source_key req)) (current_of (SR_Source req) ps dss)
                               (drop (length dss) ps)) (fun _ => ErrModuleNotFound) in
 let! proposedSet := on_error (lift (getProposed req)) (fun _ => ErrModuleNotFound) in
 let! _ := on_error (gs_Delete (to_delete currentSet proposedSet)) (fun _ => ErrPartialDeletion) in
 let! _ := on_error (gs_Put (to_put proposedSet)) (fun _ => ErrPartialInsertion) in
 ret true) (mkReplay rest None).
Proof.
intros Hp. unfold track_handler, Track, bind at 1, on_error at 1.
assert (getCurrent (SR_Source req) (mkReplay (Ret (Found ps) :: founds dss ++ rest) None) =
  mfold (add_managed (source_key req)) (current_of (SR_Source req) ps dss) (drop (length dss) ps) (mkReplay rest None)) as ->.
{ unfold getCurrent, bind at 1, lift. rewrite Encode_source_item. simpl gs_FindUpstream.
  unfold bind, recall. cbn [recorded found ret waiting]. by apply (replay_reads_next _ _ _ p). }
reflexivity.
Qed.

Lemma stands_next req h st : safe_request req -> stands req h st ->
match stage_call req st with
| Some c => next_call (track_handler req) h = inl c
| None => exists o, next_call (track_handler req) h = inr o /\ (o = Ret true <-> exists ps dss, st = Finished ps dss)
end.
Proof.
intros Hs. destruct st as [|ps dss|ps dss|ps dss|]; simpl.
- intros ->. unfold next_call, track_handler, Track, getCurrent, bind, on_error, lift.
  by rewrite Encode_source_item.
- intros [-> Hlen]. rewrite <- (app_nil_r (founds dss)). unfold next_call.
  destruct (ps !! length dss) as [p|] eqn:Hp.
  + rewrite (Track_replay_next _ _ _ _ _ Hp), (drop_S _ _ _ Hp). reflexivity.
  + apply lookup_ge_None in Hp. rewrite Track_replay by (done || lia). reflexivity.
- intros [-> Hlen]. unfold next_call. by rewrite Track_replay.
- intros [-> Hlen]. exists (Ret true). unfold next_call. rewrite Track_replay by done.
  split; [done|]. by split; eauto.
- intros (o & Ho & Hne). exists o. split; [done|]. split; [done|]. by intros (? & ? & [=]).
Qed.

Lemma stands_after req h st o : safe_request req -> stands req h st -> is_Some (stage_call req st) ->
stands req (h ++ [o]) (stage_after st o).
Proof.
intros Hs. destruct st as [|ps dss|ps dss|ps dss|]; simpl; intros Hst Hc; [| | |by destruct Hc..].
- subst h. destruct o as [[|items|ps]|e|why]; [..|simpl|simpl]; simpl;
    try (unfold next_call, track_handler, Track, getCurrent, bind, on_error, lift;
         rewrite Encode_source_item; eexists; split; [reflexivity|done]).
  split; [done|simpl; lia].
- destruct Hst as [-> Hlen]. rewrite <- app_comm_cons.
  destruct (decide (length dss < length ps)) as [Hlt|Hge].
  + destruct (lookup_lt_is_Some_2 _ _ Hlt) as [p Hp].
    destruct o as [[|items|ds]|e|why]; simpl;
      try (unfold next_call; rewrite (Track_replay_next _ _ _ _ _ Hp), (drop_S _ _ _ Hp);
           eexists; split; [reflexivity|done]).
    unfold founds. rewrite map_app, length_app. simpl. split; [done|lia].
  + assert (length dss = length ps) as Heq by lia.
    destruct o as [[|items|ds]|e|why]; simpl;
      try (unfold next_call; rewrite Track_replay by done; eexists; split; [reflexivity|done]).
    done.
- destruct Hst as [-> Hlen]. rewrite <- app_comm_cons, <- app_assoc.
  destruct o as [[|items|ds]|e|why]; simpl;
    try (unfold next_call; rewrite Track_replay by done; eexists; split; [reflexivity|done]).
  done.
Qed.
End Replay.

(** ** The calls of several [Track]s *)

Section Calls.
Context `{JsonCodec, !JsonCodecOk} `{MapRange} {W : Type} `{GraphStoreOps W} (reqs : list SourceRequest).

Notation handlers := (map track_handler reqs).

Definition all_stand (sts : list stage) (hs : list history) : Prop :=
forall i req h st, reqs !! i = Some req -> hs !! i = Some h -> sts !! i = Some st -> stands req h st.

(** A step of the server is one call of a request that has another to make. *)
Lemma serve_by_call i (s s' : served W) : serve_by handlers i s s' -> exists req h c o w',
reqs !! i = Some req /\ histories s !! i = Some h /\ next_call (track_handler req) h = inl c /\
perform c (store_world s) = (o, w') /\ s' = mkServed w' (<[i := h ++ [o]]> (histories s)).
Proof using.
intros [handler h c o w w' hs Hh Hi Hc Hrun]. rewrite list_lookup_fmap in Hh.
destruct (reqs !! i) as [req|] eqn:Hreq; [|done]. simplify_eq/=. eauto 12.
Qed.

Lemma stands_insert sts hs i st' h' j req h st :
all_stand sts hs -> (forall req, reqs !! i = Some req -> stands req h' st') ->
reqs !! j = Some req -> <[i := h']> hs !! j = Some h -> <[i := st']> sts !! j = Some st -> stands req h st.
Proof using.
intros Hall Hi Hreq Hh Hst.
apply list_lookup_insert_Some in Hh as [(-> & -> & Hlt)|[Hne Hh]].
- apply list_lookup_insert_Some in Hst as [(_ & -> & _)|[? _]]; [by apply Hi|done].
- rewrite list_lookup_insert_ne in Hst by done. by eapply Hall.
Qed.

Lemma stand_start (w : W) : all_stand (map (fun _ => Fresh) reqs) (histories (serve_start handlers w)).
Proof using.
intros i req h st _ Hh Hst. simpl in Hh. rewrite map_map, list_lookup_fmap in Hh.
rewrite list_lookup_fmap in Hst. destruct (reqs !! i); simplify_eq/=. done.
Qed.

(** ** Every run ends *)

Definition unread (st : stage) : nat := match st with Fresh => 1 | _ => 0 end.
Definition calls_left (st : stage) : nat :=
match st with Reading ps dss => 2 + (length ps - length dss) | Between _ _ => 1 | _ => 0 end.

Lemma sum_insert (f : stage -> nat) sts i st st' : sts !! i = Some st ->
sum_list_with f (<[i := st']> sts) + f st = sum_list_with f sts + f st'.
Proof using.
revert i. induction sts as [|x sts IH]; intros [|i] Hi; simplify_eq/=; [lia|]. specialize (IH i Hi). lia.
Qed.

Lemma stage_progress st o req : is_Some (stage_call req st) ->
unread (stage_after st o) < unread st \/
unread (stage_after st o) = unread st /\ calls_left (stage_after st o) < calls_left st.
Proof using.
intros [c Hc]. destruct st as [|ps dss|ps dss|ps dss|], o as [[|items|ds]| |]; simplify_eq/=; auto; try (right; lia).
- case_decide; simpl; right; lia.
- case_decide; simpl; right; [rewrite length_app; simpl|]; lia.
Qed.

Context (Hsafe : forall i req, reqs !! i = Some req -> safe_request req).

(** Whatever a call answers, its request goes on to the next stage. *)
Lemma stages_step (s s' : served W) i sts :
all_stand sts (histories s) -> length sts = length reqs -> serve_by handlers i s s' ->
exists req st c o, reqs !! i = Some req /\ sts !! i = Some st /\ stage_call req st = Some c /\
  perform c (store_world s) = (o, store_world s') /\ length (histories s') = length (histories s) /\
  all_stand (<[i := stage_after st o]> sts) (histories s').
Proof using All.
intros Hall Hlen (req & h & c & o & w' & Hreq & Hh & Hc & Hrun & ->)%serve_by_call.
destruct (lookup_lt_is_Some_2 sts i) as [st Hi]; [rewrite Hlen; by eapply lookup_lt_Some|].
pose proof (Hall _ _ _ _ Hreq Hh Hi) as Hst. pose proof (stands_next _ _ _ (Hsafe _ _ Hreq) Hst) as Hnext.
destruct (stage_call req st) as [c'|] eqn:Hc'; [|destruct Hnext as (? & ? & _); congruence].
assert (c' = c) as -> by congruence. exists req, st, c, o. simpl. rewrite length_insert.
split_and!; [done..|]. intros j req' h' st' Hreq' Hh' Hstj.
eapply stands_insert; [exact Hall| |done..]. intros req'' Hreq''. simplify_eq.
apply stands_after; [by eapply Hsafe|done|by rewrite Hc'].
Qed.

Lemma stages_end n m (s : served W) sts :
all_stand sts (histories s) -> length sts = length reqs ->
sum_list_with unread sts < n -> sum_list_with calls_left sts < m -> sn (serve_step handlers) s.
Proof using All.
revert m s sts. induction n as [|n IHn]; intros m; [lia|]. induction m as [|m IHm]; intros s sts Hall Hlen Hn Hm; [lia|].
constructor. intros s' [i Hstep]. destruct (stages_step _ _ _ _ Hall Hlen Hstep)
  as (req & st & c & o & Hreq & Hi & Hc & _ & _ & Hall').
pose proof (sum_insert unread _ _ _ (stage_after st o) Hi).
pose proof (sum_insert calls_left _ _ _ (stage_after st o) Hi).
destruct (stage_progress st o req ltac:(by rewrite Hc)) as [Hlt|[Heq Hlt]].
- eapply (IHn (S _)); [exact Hall'|by rewrite length_insert|lia|apply Nat.lt_succ_diag_r].
- eapply IHm; [exact Hall'|by rewrite length_insert|lia|lia].
Qed.

(** Whatever the store answers. *)
Lemma Tracks_end (w : W) : sn (serve_step handlers) (serve_start handlers w).
Proof using All.
eapply stages_end; [apply stand_start|apply length_map|apply Nat.lt_succ_diag_r..].
Qed.
End Calls.

(** ** One after the other *)

Inductive serial `{JsonCodec} : list SourceRequest -> astore -> astore -> Prop :=
| serial_none v : serial [] v v
| serial_then order req v1 v2 v3 :
    serial order v1 v2 -> tracked req v2 v3 -> serial (order ++ [req]) v1 v3.

Section Serial.
Context `{JsonCodec}.

Lemma serial_linked order v1 v2 :
Forall no_collision order -> well_linked v1 -> serial order v1 v2 -> well_linked v2.
Proof.
intros Hnc Hwl Hser. induction Hser as [|order req v1 v2 v3 Hser IH Ht]; [done|].
apply Forall_app in Hnc as [Hnc Hr]. apply Forall_inv in Hr. exact (tracked_linked req v2 v3 Ht Hr (IH Hnc Hwl)).
Qed.

(** Sources that are not tracked keep their edges. *)
Lemma serial_own req order v1 v2 k :
Forall no_collision order -> well_linked v1 -> serial order v1 v2 -> Forall (apart req) order ->
own (keyForSource (SR_Source req)) k -> v2 !! k = v1 !! k.
Proof.
intros Hnc Hwl Hser Hap Hk. induction Hser as [|order req' v1 v2 v3 Hser IH Ht]; [done|].
apply Forall_app in Hnc as [Hnc _], Hap as [Hap Ha]. apply Forall_inv in Ha.
rewrite <- IH by done. eapply tracked_apart; [|exact Ha|exact Ht|done].
by apply (serial_linked order v1 v2).
Qed.
End Serial.

(** ** The invariant of the interleaving *)

Section Invariant.
Context `{JsonCodec, !JsonCodecOk} `{MapRange} {W : Type} `{GraphStoreSpec W}.
Context (reqs : list SourceRequest) (v0 : astore).

(** Requests that can be tracked at the same time. *)
Record compatible : Prop := {
  compatible_safe : forall i req, reqs !! i = Some req -> safe_request req;
  compatible_keys : forall i req, reqs !! i = Some req -> no_collision req;
  compatible_apart : forall i j req1 req2, reqs !! i = Some req1 -> reqs !! j = Some req2 -> i <> j ->
    apart req1 req2 }.

Context (Hok : compatible) (Hlinked : well_linked v0).
Notation source_key req := (keyForSource (SR_Source req)).

(** A graph in which a source's edges are as they were at the start. *)
Definition view (req : SourceRequest) (v : astore) : Prop :=
well_linked v /\ forall k, own (source_key req) k -> v !! k = v0 !! k.

Definition reads_ok (req : SourceRequest) (ps : list GraphItemPair) (dss : list (list GraphItemPair)) : Prop :=
(exists v, view req v /\ ps ≡ₚ spec_upstream (manages_request req) v) /\
Forall2 (fun p ds => exists v, view req v /\ ds ≡ₚ spec_upstream (depends_request p) v) (take (length dss) ps) dss.


(** The edges some request has deleted, before it puts. *)
Definition is_between (st : stage) : bool := match st with Between _ _ => true | _ => false end.
Definition deleting (sts : list stage) (k : ikey) : Prop :=
Exists (fun p => is_between p.1 = true /\ stale p.2 k) (zip sts reqs).
#[local] Instance deleting_dec sts k : Decision (deleting sts k).
Proof. unfold deleting. apply _. Defined.

(** The requests that have been put, in order; what has been deleted and not
  yet put; and what the others have read. *)
Record concurrent (sts : list stage) (order : list nat) (v vs : astore) : Prop := {
  con_length : length sts = length reqs;
  con_running : Failed ∉ sts;
  con_distinct : NoDup order;
  con_order : forall i, i ∈ order <-> exists ps dss, sts !! i = Some (Finished ps dss);
  con_serial : serial (in_order reqs order) v0 vs;
  con_store : forall k, v !! k = if decide (deleting sts k) then None else vs !! k;
  con_reads : forall i req ps dss, sts !! i = Some (Reading ps dss) -> reqs !! i = Some req ->
    reads_ok req ps dss }.

Lemma deleting_spec sts k :
deleting sts k <-> exists i req ps dss, sts !! i = Some (Between ps dss) /\ reqs !! i = Some req /\ stale req k.
Proof using.
unfold deleting. rewrite Exists_exists. split.
- intros ([st req] & Hin & Hb & Hs). apply list_elem_of_lookup in Hin as (i & Hi).
  apply lookup_zip_with_Some in Hi as (st' & req' & [= -> ->] & Hst & Hreq).
  destruct st' as [| |ps dss| |]; [done..| |done|done]. by exists i, req', ps, dss.
- intros (i & req & ps & dss & Hst & Hreq & Hs). exists (Between ps dss, req). split; [|done].
  apply list_elem_of_lookup. exists i. apply lookup_zip_with_Some. eauto 10.
Qed.


Section State.
Context (sts : list stage) (order : list nat) (v vs : astore) (Hcon : concurrent sts order v vs).

Lemma con_no_collision : Forall no_collision (in_order reqs order).
Proof using Hok. apply Forall_forall. intros req (i & _ & Hi)%elem_of_in_order. by eapply compatible_keys. Qed.

Lemma con_vs_linked : well_linked vs.
Proof using Hok Hlinked Hcon.
eapply serial_linked; [apply con_no_collision|exact Hlinked|by eapply con_serial].
Qed.

Lemma con_vs_own i req k : i ∉ order -> reqs !! i = Some req -> own (source_key req) k -> vs !! k = v0 !! k.
Proof using Hok Hlinked Hcon.
intros Hi Hreq. eapply serial_own; [apply con_no_collision|exact Hlinked|by eapply con_serial|].
apply Forall_forall. intros req' (j & Hj & Hreq')%elem_of_in_order.
eapply compatible_apart; [exact Hok|done|done|congruence].
Qed.

(** Only the request that has deleted an edge of a source is about it. *)
Lemma stale_own i j req1 req2 k :
reqs !! i = Some req1 -> reqs !! j = Some req2 -> own (source_key req1) k -> stale req2 k -> i = j.
Proof using Hok.
intros Hi Hj Hk [Hk2 _]. destruct (decide (i = j)) as [|Hne]; [done|exfalso].
destruct (compatible_apart Hok _ _ _ _ Hi Hj Hne) as [Hs _]. by apply Hs, (own_source _ _ k).
Qed.


(** Edges only go: what is live has been live in the serial graph. *)
Lemma con_live k : is_Some (v !! k) -> ~ deleting sts k /\ is_Some (vs !! k).
Proof using Hcon. rewrite (con_store _ _ _ _ Hcon). case_decide; [by intros [? ?]|done]. Qed.

Lemma con_kept k : ~ deleting sts k -> is_Some (vs !! k) -> is_Some (v !! k).
Proof using Hcon. intros Hd. by rewrite (con_store _ _ _ _ Hcon), decide_False. Qed.

Lemma con_module m : is_module vs m -> is_module v m.
Proof using Hcon.
intros [k3 Hm]. exists k3. apply con_kept; [|done].
by intros (i & req & ps & dss & _ & _ & [Ho%own_not_module _])%deleting_spec.
Qed.

Lemma con_linked : well_linked v.
Proof using Hok Hlinked Hcon.
pose proof con_vs_linked as Hwl. split.
- intros s m k3 [_ Hl]%con_live Hne. by eapply con_module, linked_manages.
- intros m n s [Hd Hl]%con_live Hne. destruct (linked_depends _ Hwl _ _ _ Hl Hne) as (Hn & Hs & Hsm & Hlm & Hm).
  split_and!; [by apply con_module|done|]. split_and!; [done| |by apply con_module].
  apply con_kept; [|done]. intros (i & req & ps & dss & Hst & Hreq & [Hown Hdecl])%deleting_spec.
  assert (s = source_key req) as ->.
  { destruct Hown as [(_ & Hs' & _)|(Ht & _)]; [done|by compute in Ht]. }
  apply Hd, deleting_spec. exists i, req, ps, dss. split_and!; [done..|]. split; [by right|].
  intros (mf & d & Hmf & Hin & -> & _ & _)%depends_keys. apply Hdecl, manages_keys. split; [done|].
  exists mf. auto.
Qed.

(** A request that has not deleted yet sees its edges as they were. *)
Lemma con_view i req : reqs !! i = Some req ->
(forall ps dss, sts !! i <> Some (Between ps dss)) -> (forall ps dss, sts !! i <> Some (Finished ps dss)) ->
view req v.
Proof using Hok Hlinked Hcon.
intros Hreq Hb Hf. split; [apply con_linked|]. intros k Hk.
rewrite (con_store _ _ _ _ Hcon), decide_False.
- apply (con_vs_own i req); [|done|done]. rewrite (con_order _ _ _ _ Hcon). intros (ps & dss & Hst). by eapply Hf.
- intros (j & req' & ps & dss & Hst & Hreq' & Hs)%deleting_spec.
  rewrite <- (stale_own i j req req' k) in Hst by done. by eapply Hb.
Qed.
End State.

(** What a request deletes when it has read all: its stale edges. *)
Lemma deleted_keys i req ps dss k :
reqs !! i = Some req -> reads_ok req ps dss -> length dss = length ps ->
k ∈ map item_key (deleted_items req ps dss) <-> stale req k /\ is_Some (v0 !! k).
Proof using All.
intros Hreq [(v1 & [Hwl1 Hv1] & Hps) Hdss] Hlen. rewrite firstn_all2 in Hdss by lia.
destruct (current_keys (SR_Source req) ps dss) as [Hidx Hkeys].
{ intros p Hp. exists v1. intros p' ->%list_elem_of_singleton. by rewrite <- Hps. }
{ eapply Forall2_impl; [exact Hdss|]. intros p ds (v2 & _ & Hds). exists v2. intros d. by rewrite Hds. }
unfold deleted_items. rewrite to_delete_keys by (done || apply proposed_known). fold (declared req k).
assert (key_type k <> ModuleType -> ~ declared req k ->
  has_key (current_of (SR_Source req) ps dss) k <-> own (source_key req) k /\ is_Some (v0 !! k)) as Hk; cycle 1.
{ unfold stale. split.
  - intros (Ht & Hh & Hd). by apply Hk in Hh as [? ?].
  - intros [[Ho Hd] Hl]. pose proof (own_not_module _ _ Ho). rewrite Hk by done. done. }
intros Ht Hd. rewrite Hkeys by done. split.
- intros [->|(p & ds & Hin & Hcase)]; [by destruct (Hd (source_key_proposed req))|].
  destruct (elem_of_zip_Forall2 _ _ _ _ _ Hdss Hin) as [Hp (v2 & [Hwl2 Hv2] & Hds)].
  rewrite Hps in Hp. apply found_edge in Hp as (Hkp & Hne & Hl & _). destruct Hcase as [->|(d & Hdin & Ho & ->)].
  + assert (own (source_key req) (item_key (Pair_Edge p))) as Hown by (rewrite Hkp; by left).
    split; [done|]. by rewrite <- Hv1, Hkp.
  + rewrite Hds in Hdin. apply found_edge in Hdin as (Hkd & Hned & Hld & _).
    destruct (linked_depends _ Hwl2 _ _ _ Hld Hned) as (_ & Hnil & _).
    assert (own (source_key req) (item_key (Pair_Edge d))) as Hown.
    { rewrite Hkd. right. apply owned_edge_true in Ho. by destruct Ho. }
    split; [done|]. by rewrite <- Hv2, Hkd.
- intros [Hown Hl]. right. destruct k as [[[ty k1] k2] k3].
  pose proof Hown as [(-> & -> & Hne)|(-> & -> & Hne)].
  + rewrite <- Hv1 in Hl by done.
    destruct (edge_found v1 (source_key req) ManagesType k2 k3) as (p & Hp & Hkp & _).
    { split_and!; [done..|]. by eapply linked_manages. }
    rewrite <- Hps in Hp. destruct (Forall2_zip_elem _ _ _ _ Hdss Hp) as (ds & Hin & _).
    exists p, ds. auto.
  + pose proof Hl as Hl1. rewrite <- Hv1 in Hl1 by done.
    destruct (linked_depends _ Hwl1 _ _ _ Hl1 Hne) as (_ & _ & Hm).
    destruct (edge_found _ _ _ _ _ Hm) as (p & Hp & _ & Hnp & _). rewrite <- Hps in Hp.
    destruct (Forall2_zip_elem _ _ _ _ Hdss Hp) as (ds & Hin & v2 & [Hwl2 Hv2] & Hds).
    rewrite <- Hv2 in Hl by done. destruct (edge_found v2 k1 DependsType k2 (source_key req)) as (d & Hdin & Hkd & _ & Hk3).
    { split_and!; [done..|]. exact (proj1 (linked_depends _ Hwl2 _ _ _ Hl Hne)). }
    exists p, ds. split; [done|]. right. exists d. unfold depends_request in Hds. rewrite Hnp in Hds. rewrite Hds.
    split_and!; [done|apply owned_edge_true; by right|done].
Qed.

(** ** Steps keep the invariant *)

Definition deleting_other (sts : list stage) (i : nat) (k : ikey) : Prop :=
exists j req ps dss, j <> i /\ sts !! j = Some (Between ps dss) /\ reqs !! j = Some req /\ stale req k.

Lemma deleting_insert sts i st' req k : i < length sts -> reqs !! i = Some req ->
deleting (<[i := st']> sts) k <-> is_between st' = true /\ stale req k \/ deleting_other sts i k.
Proof using.
intros Hi Hreq. rewrite deleting_spec. split.
- intros (j & req' & ps & dss & [(<- & -> & _)|[Hne Hj]]%list_lookup_insert_Some & Hreq' & Hs).
  + left. rewrite Hreq in Hreq'. by simplify_eq.
  + right. exists j, req', ps, dss. done.
- intros [[Hb Hs]|(j & req' & ps & dss & Hne & Hj & Hreq' & Hs)].
  + destruct st' as [| |ps dss| |]; try done. exists i, req, ps, dss.
    by rewrite list_lookup_insert_eq.
  + exists j, req', ps, dss. by rewrite list_lookup_insert_ne.
Qed.

Lemma deleting_split sts i st req k : sts !! i = Some st -> reqs !! i = Some req ->
deleting sts k <-> is_between st = true /\ stale req k \/ deleting_other sts i k.
Proof using.
intros Hst Hreq. rewrite <- (deleting_insert _ _ _ _ _ (lookup_lt_Some _ _ _ Hst) Hreq). by rewrite list_insert_id.
Qed.

Lemma finished_insert (sts : list stage) i st st' j : sts !! i = Some st ->
(exists ps dss, <[i := st']> sts !! j = Some (Finished ps dss)) <->
i = j /\ (exists ps dss, st' = Finished ps dss) \/ i <> j /\ exists ps dss, sts !! j = Some (Finished ps dss).
Proof using.
intros Hst. setoid_rewrite list_lookup_insert_Some. apply lookup_lt_Some in Hst. naive_solver.
Qed.

(** The parts of the invariant that every step keeps. *)
Lemma concurrent_update sts order v vs i req st st' order' v' vs' :
concurrent sts order v vs -> sts !! i = Some st -> reqs !! i = Some req -> st' <> Failed ->
NoDup order' -> serial (in_order reqs order') v0 vs' ->
(forall j, j ∈ order' <-> i = j /\ (exists ps dss, st' = Finished ps dss) \/ i <> j /\ j ∈ order) ->
(forall k, v' !! k = if decide (deleting (<[i := st']> sts) k) then None else vs' !! k) ->
(forall ps dss, st' = Reading ps dss -> reads_ok req ps dss) ->
concurrent (<[i := st']> sts) order' v' vs'.
Proof using.
intros [Hlen Hrun Hnd Hord Hser Hst Hreads] Hi Hreq Hne Hnd' Hser' Hord' Hst' Hr. split; try done.
- by rewrite length_insert.
- intros (j & Hj)%list_elem_of_lookup. apply list_lookup_insert_Some in Hj as [(_ & -> & _)|[_ Hj]]; [done|].
  apply Hrun, list_elem_of_lookup. eauto.
- intros j. rewrite (finished_insert _ _ _ _ _ Hi), Hord'. by setoid_rewrite Hord.
- intros j req' ps dss [(<- & -> & _)|[_ Hj]]%list_lookup_insert_Some Hreq'; [|by eapply Hreads].
  rewrite Hreq in Hreq'. simplify_eq. by apply Hr.
Qed.

Lemma concurrent_start : concurrent (map (fun _ => Fresh) reqs) [] v0 v0.
Proof using.
assert (forall i st, map (fun _ => Fresh) reqs !! i = Some st -> st = Fresh) as Hfresh.
{ intros i st. rewrite list_lookup_fmap. by destruct (reqs !! i); intros [= <-]. }
split.
- apply length_map.
- by intros (i & Hi%Hfresh)%list_elem_of_lookup.
- constructor.
- intros i. split; [by intros ?%elem_of_nil|]. by intros (ps & dss & Hi%Hfresh).
- constructor.
- intros k. rewrite decide_False; [done|]. by intros (i & req & ps & dss & Hi%Hfresh & _)%deleting_spec.
- by intros i req ps dss Hi%Hfresh.
Qed.

Section Steps.
Context (sts : list stage) (order : list nat) (v vs : astore) (Hcon : concurrent sts order v vs).
Context (i : nat) (req : SourceRequest) (Hreq : reqs !! i = Some req).

(** A read. *)
Lemma concurrent_read st ps' dss' :
sts !! i = Some st -> is_between st = false -> (forall ps dss, st <> Finished ps dss) ->
reads_ok req ps' dss' -> concurrent (<[i := Reading ps' dss']> sts) order v vs.
Proof using Hcon Hreq.
intros Hi Hb Hf Hr. eapply concurrent_update; try done.
- by eapply con_distinct.
- by eapply con_serial.
- intros j. rewrite (con_order _ _ _ _ Hcon). split; [|naive_solver].
  intros (ps & dss & Hj). right. split; [|eauto]. intros <-. rewrite Hi in Hj. by simplify_eq; eapply Hf.
- intros k. rewrite (con_store _ _ _ _ Hcon). apply decide_ext.
  rewrite (deleting_split _ _ _ _ _ Hi Hreq), deleting_insert by (done || by eapply lookup_lt_Some).
  rewrite Hb. naive_solver.
- by intros ps dss [= <- <-].
Qed.

(** The stale edges are deleted. *)
Lemma concurrent_delete ps dss :
sts !! i = Some (Reading ps dss) -> length dss = length ps ->
concurrent (<[i := Between ps dss]> sts) order (spec_delete (deleted_items req ps dss) v) vs.
Proof using All.
intros Hi Hlen. pose proof (con_reads _ _ _ _ Hcon _ _ _ _ Hi Hreq) as Hr.
assert (i ∉ order) as Hno.
{ rewrite (con_order _ _ _ _ Hcon). intros (? & ? & Hf). by rewrite Hi in Hf. }
eapply concurrent_update; try done.
- by eapply con_distinct.
- by eapply con_serial.
- intros j. split; [|naive_solver]. intros Hj. right. split; [by intros <-|done].
- intros k. rewrite spec_delete_lookup, (con_store _ _ _ _ Hcon).
  pose proof (deleted_keys i req ps dss k Hreq Hr Hlen) as Hk.
  pose proof (deleting_split sts i _ _ k Hi Hreq) as Hd. simpl in Hd.
  assert (deleting (<[i:=Between ps dss]> sts) k <-> stale req k \/ deleting sts k) as Hd'.
  { rewrite deleting_insert by (done || by eapply lookup_lt_Some). rewrite Hd. simpl. naive_solver. }
  case_decide as Hin; [rewrite decide_True by tauto; done|].
  case_decide as Hold; [rewrite decide_True by tauto; done|].
  case_decide as Hnew; [|done]. apply Hd' in Hnew as [Hs|]; [|done].
  destruct (vs !! k) eqn:Hvs; [|done]. exfalso. apply Hin, Hk. split; [done|].
  rewrite <- (con_vs_own _ _ _ _ Hcon i req) by (done || apply Hs). rewrite Hvs. by eexists.
Qed.

(** The declared items are put: the request is next in order. *)
Lemma concurrent_put ps dss :
sts !! i = Some (Between ps dss) ->
exists vs', concurrent (<[i := Finished ps dss]> sts) (order ++ [i]) (spec_put (put_items req) v) vs'.
Proof using All.
intros Hi. assert (i ∉ order) as Hno.
{ rewrite (con_order _ _ _ _ Hcon). intros (? & ? & Hf). by rewrite Hi in Hf. }
pose proof (con_vs_linked _ _ _ _ Hcon) as Hwl.
set (kept := filter (fun kv : ikey * ival => ~ stale req kv.1) vs).
assert (forall k, kept !! k = if decide (stale req k) then None else vs !! k) as Hkept.
{ intros k. unfold kept. case_decide as Hs.
  - apply map_lookup_filter_None_2. right. intros x _. simpl. tauto.
  - destruct (vs !! k) as [x|] eqn:Hx; [by apply map_lookup_filter_Some_2|].
    apply map_lookup_filter_None_2. by left. }
exists (spec_put (proposed_items req) kept). eapply concurrent_update; try done.
- apply NoDup_app. split_and!; [by eapply con_distinct| |apply NoDup_singleton].
  by intros j Hj ->%list_elem_of_singleton.
- rewrite (in_order_snoc _ _ _ _ Hreq). econstructor; [by eapply con_serial|].
  apply (proj2 (tracked_lookup _ _ _ Hwl)). intros k. rewrite spec_put_lookup, Hkept.
  destruct (last_item k _) eqn:Hl; [done|]. unfold stale, declared.
  apply decide_ext. split; [tauto|]. intros Ho. split; [done|].
  intros [? ?]%last_item_is_Some. congruence.
- intros j. rewrite elem_of_app, list_elem_of_singleton. split.
  + intros [Hj| ->]; [right; split; [by intros <-|done]|left; eauto].
  + intros [[-> _]|[_ ?]]; auto.
- intros k. unfold put_items, to_put. rewrite spec_put_range by apply proposed_known.
  rewrite !spec_put_lookup, Hkept, (con_store _ _ _ _ Hcon).
  pose proof (deleting_split sts i _ _ k Hi Hreq) as Hd. simpl in Hd.
  assert (deleting (<[i:=Finished ps dss]> sts) k <-> deleting_other sts i k) as Hd'.
  { rewrite deleting_insert by (done || by eapply lookup_lt_Some). simpl. naive_solver. }
  destruct (last_item k _) as [it|] eqn:Hl.
  + rewrite decide_False; [done|]. intros (j & req' & ps' & dss' & Hne & Hj & Hreq' & [Hown _])%Hd'.
    apply (apart_undeclared req' req k); [by eapply compatible_apart|done|].
    apply last_item_Some in Hl as [Hin <-]. apply list_elem_of_fmap. eauto.
  + repeat case_decide; tauto || done.
Qed.
End Steps.

(** ** The server *)

Notation handlers := (map track_handler reqs).

(** No call has failed: the graph is as the requests put so far, and the edges
  deleted meanwhile, have left it. *)
Definition going (s : served W) (sts : list stage) (order : list nat) (v vs : astore) : Prop :=
rep (store_world s) v /\ concurrent sts order v vs /\ all_stand reqs sts (histories s).

Lemma going_start w : rep w v0 -> going (serve_start handlers w) (map (fun _ => Fresh) reqs) [] v0 v0.
Proof using.
intros Hr. split_and!; [done|apply concurrent_start|apply stand_start].
Qed.

(** What a successful call does to the graph, by the stage of the request. *)
Lemma going_call s sts order v vs i req h st c o w' :
going s sts order v vs -> reqs !! i = Some req -> stands req h st -> sts !! i = Some st -> stage_call req st = Some c ->
perform c (store_world s) = (o, w') -> stage_after st o <> Failed ->
exists order' v' vs', rep w' v' /\ concurrent (<[i := stage_after st o]> sts) order' v' vs'.
Proof using All.
intros (Hr & Hcon & _) Hreq Hst Hi Hc Hrun Hok'.
destruct st as [|ps dss|ps dss|ps dss|]; simplify_eq/=; unfold bind, ret in Hrun.
- destruct (gs_FindUpstream _ (store_world s)) as [[ps| |] w1] eqn:Hf; simplify_eq/=; [|done..].
  exists order, v, vs. split; [by eapply find_up_frame|]. eapply concurrent_read; try done.
  split; [|constructor]. exists v. split; [|by eapply find_up_spec].
  eapply con_view; [done|done|by intros ? ?; rewrite Hi..].
- destruct (decide (length dss < length ps)) as [Hlt|Hge].
  + destruct (lookup_lt_is_Some_2 _ _ Hlt) as [p Hp]. rewrite Hp in Hrun. simpl in Hrun. unfold bind, ret in Hrun.
    destruct (gs_FindUpstream _ (store_world s)) as [[ds| |] w1] eqn:Hf; simplify_eq/=; [|done..].
    exists order, v, vs. split; [by eapply find_up_frame|].
    eapply concurrent_read; try done.
    destruct (con_reads _ _ _ _ Hcon _ _ _ _ Hi Hreq) as [Hps Hdss]. split; [done|].
    rewrite length_app, Nat.add_1_r, (take_S_r _ _ _ Hp). apply Forall2_app; [done|].
    repeat constructor. exists v. split; [|by eapply find_up_spec].
    eapply con_view; [done|done|by intros ? ?; rewrite Hi..].
  + rewrite (lookup_ge_None_2 ps) in Hrun by lia. simpl in Hrun. unfold bind, ret in Hrun.
    destruct (gs_Delete _ (store_world s)) as [[[]| |] w1] eqn:Hf; simplify_eq/=; [|done..].
    eexists order, _, vs. split; [by eapply delete_spec|]. eapply concurrent_delete; [done..|lia].
- destruct (gs_Put _ (store_world s)) as [[[]| |] w1] eqn:Hf; simplify_eq/=; [|done..].
  destruct (concurrent_put _ _ _ _ Hcon _ _ Hreq _ _ Hi) as [vs' Hcon']. eexists _, _, vs'.
  split; [by eapply put_spec|exact Hcon'].
Qed.

(** As long as no call fails. *)
Definition system_inv (s : served W) (sts : list stage) : Prop :=
length (histories s) = length reqs /\ length sts = length reqs /\ all_stand reqs sts (histories s) /\
(Failed ∉ sts -> exists order v vs, going s sts order v vs).

(** A request whose call has failed stays where it is. *)
Lemma failed_stays (sts : list stage) i st st' : sts !! i = Some st -> st <> Failed ->
Failed ∉ <[i := st']> sts -> Failed ∉ sts /\ st' <> Failed.
Proof using.
intros Hi Hne Hno. split.
- intros [j Hj]%list_elem_of_lookup. apply Hno, list_elem_of_lookup. exists j.
  rewrite list_lookup_insert_ne; [done|congruence].
- intros ->. apply Hno, list_elem_of_lookup. exists i. apply list_lookup_insert_eq. by eapply lookup_lt_Some.
Qed.

Lemma system_step s s' i sts : serve_by handlers i s s' -> system_inv s sts ->
exists req st c o, reqs !! i = Some req /\ sts !! i = Some st /\ stage_call req st = Some c /\
  perform c (store_world s) = (o, store_world s') /\ system_inv s' (<[i := stage_after st o]> sts).
Proof using All.
intros Hstep (Hlen & Hsts & Hall & Hgo).
destruct (stages_step _ (compatible_safe Hok) _ _ _ _ Hall Hsts Hstep)
  as (req & st & c & o & Hreq & Hi & Hc & Hrun & Hlen' & Hall').
exists req, st, c, o. split_and!; [done..|]. split_and!; [congruence|by rewrite length_insert|done|]. intros Hno.
destruct (failed_stays _ _ _ _ Hi ltac:(by intros ->) Hno) as [Hno' Hne].
destruct (Hgo Hno') as (order & v & vs & Hgoing).
destruct (lookup_lt_is_Some_2 (histories s) i) as [h Hh]; [rewrite Hlen; by eapply lookup_lt_Some|].
destruct (going_call s sts order v vs i req h st c o (store_world s')) as (order' & v' & vs' & Hr' & Hcon');
  [done|done|by eapply Hall|done..|]. by exists order', v', vs'.
Qed.

Lemma system_start w : rep w v0 -> system_inv (serve_start handlers w) (map (fun _ => Fresh) reqs).
Proof using.
intros Hr. split_and!; [simpl; by rewrite !length_map|apply length_map|apply stand_start|].
intros _. eexists _, _, _. by apply going_start.
Qed.

Lemma system_reachable w s : rep w v0 -> rtc (serve_step handlers) (serve_start handlers w) s ->
exists sts, system_inv s sts.
Proof using All.
intros Hr Hs. eapply (rtc_preserve (fun s => exists sts, system_inv s sts)); [| |exact Hs].
- intros s1 s2 [i Hstep] [sts Hinv]. destruct (system_step _ _ _ _ Hstep Hinv) as (? & ? & ? & ? & _ & _ & _ & _ & ?). eauto.
- eexists. by apply system_start.
Qed.
End Invariant.
