(* ===== verification/ConcurrentFailures.v ===== *)
(** * Tracking sources at the same time, when calls of the store fail

    What a [Track] may touch: the items it declares, and the edges it has
    found that belong to its source or to none.  This holds for any requests,
    also of one source, and wherever a call fails. *)

From S2P Require Import Prelude GoCodec GoHash Api GraphSpec StoreAlpha KeysAlpha TrackAlpha.
From S2P Require Import Concurrent TrackAlphaProofs TrackInvariant ConcurrentTrack.

(** ** The edges a source can lose *)

Definition may_own (sk : bytes) (k : ikey) : Prop :=
  let '(ty, k1, k2, k3) := k in
  (ty = ManagesType /\ k1 = sk) \/ (ty = DependsType /\ (k3 = [] \/ k3 = sk)).

Lemma may_own_not_module sk k : may_own sk k -> key_type k <> ModuleType.
Proof. destruct k as [[[? ?] ?] ?]. intros [[-> _]|[-> _]]; done. Qed.

Section Failures.
Context `{JsonCodec, !JsonCodecOk} `{MapRange} {W : Type} `{GraphStorePartial W}.
Context (reqs : list SourceRequest) (v0 : astore).
Context (Hsafe : forall i req, reqs !! i = Some req -> safe_request req).

Notation handlers := (map track_handler reqs).
Notation source_key req := (keyForSource (SR_Source req)).

(** What a key may hold: what it held, what a request puts there, or nothing,
  if it was an edge that a request has reason to remove. *)
Definition confined (v : astore) (k : ikey) : Prop :=
v !! k = v0 !! k \/
(exists req i, req ∈ reqs /\ i ∈ proposed_items req /\ item_key i = k /\ v !! k = Some (item_val i)) \/
(v !! k = None /\ exists req, req ∈ reqs /\ may_own (source_key req) k /\ ~ declared req k).

(** Reads answer what some state of the graph held. *)
Definition reads_found (req : SourceRequest) (ps : list GraphItemPair) (dss : list (list GraphItemPair)) : Prop :=
(forall p, p ∈ ps -> found_in (source_key req) ManagesType [p]) /\
Forall2 (fun p ds => found_in (K1 (Pair_Node p)) DependsType ds) (take (length dss) ps) dss.

Lemma deleted_owned req ps dss i :
reads_found req ps dss -> length dss = length ps -> i ∈ deleted_items req ps dss ->
may_own (source_key req) (item_key i) /\ ~ declared req (item_key i).
Proof.
intros [Hps Hdss] Hlen Hi. rewrite firstn_all2 in Hdss by lia.
destruct (current_keys (SR_Source req) ps dss Hps Hdss) as [Hidx Hkeys].
assert (item_key i ∈ map item_key (deleted_items req ps dss)) as Hk by (apply list_elem_of_fmap; eauto).
apply to_delete_keys in Hk as (Ht & Hh & Hd); [|done|apply proposed_known]. split; [|done].
apply Hkeys in Hh as [Heq|(p & ds & Hin & Hcase)]; [|..|done].
- destruct Hd. rewrite Heq. apply source_key_proposed.
- destruct (elem_of_zip_Forall2 _ _ _ _ _ Hdss Hin) as [Hp [v2 Hds]].
  destruct (Hps p Hp) as [v1 Hv1]. destruct (found_edge _ _ _ _ (Hv1 p ltac:(by left))) as (Hkp & _).
  destruct Hcase as [->|(d & Hdin & Ho & ->)]; [rewrite Hkp; by left|].
  destruct (found_edge _ _ _ _ (Hds d Hdin)) as (Hkd & _). apply owned_edge_true in Ho.
  rewrite Hkd. right. split; [done|]. by destruct Ho; [left|right].
Qed.

Lemma add_all_values items rk i : add_all items ∅ !! rk = Some i -> i ∈ items.
Proof.
induction items as [|j items IH] using rev_ind; [unfold add_all; simpl; by rewrite lookup_empty|].
rewrite add_all_app. simpl. unfold add_item. rewrite elem_of_app, list_elem_of_singleton.
intros [[_ ->]|[_ ?%IH]]%lookup_insert_Some; auto.
Qed.

Lemma put_proposed req i : i ∈ put_items req -> i ∈ proposed_items req.
Proof.
unfold put_items, to_put. intros ([rk j] & -> & Hin)%list_elem_of_fmap. rewrite range_perm in Hin.
apply elem_of_map_to_list in Hin. by eapply add_all_values.
Qed.

(** A write of some of the items keeps every key confined. *)
Lemma confined_put req l v :
req ∈ reqs -> (forall i, i ∈ l -> i ∈ put_items req) -> (forall k, confined v k) -> forall k, confined (spec_put l v) k.
Proof.
intros Hreq Hl Hv k. unfold confined. rewrite spec_put_lookup. destruct (last_item k l) as [i|] eqn:Hi; [|apply Hv].
apply last_item_Some in Hi as [Hi <-]. right. left. exists req, i. split_and!; [done| |done..].
by apply put_proposed, Hl.
Qed.

Lemma confined_delete req ps dss l v :
req ∈ reqs -> reads_found req ps dss -> length dss = length ps ->
(forall i, i ∈ l -> i ∈ deleted_items req ps dss) -> (forall k, confined v k) ->
forall k, confined (spec_delete l v) k.
Proof.
intros Hreq Hr Hlen Hl Hv k. unfold confined. rewrite spec_delete_lookup. case_decide as Hk; [|apply Hv].
right. right. split; [done|]. apply list_elem_of_fmap in Hk as (i & -> & Hi). exists req. split; [done|].
eapply deleted_owned; [done..|by apply Hl].
Qed.

(** ** Every step keeps them confined *)

Definition failing_inv (s : served W) : Prop :=
exists sts v, rep (store_world s) v /\ length sts = length reqs /\ all_stand reqs sts (histories s) /\
  (forall i req ps dss, sts !! i = Some (Reading ps dss) -> reqs !! i = Some req -> reads_found req ps dss) /\
  forall k, confined v k.

(** What one call does, by the stage of the request. *)
Lemma failing_call w v req st c o w' :
rep w v -> (forall k, confined v k) -> req ∈ reqs ->
(forall ps dss, st = Reading ps dss -> reads_found req ps dss /\ length dss <= length ps) ->
stage_call req st = Some c -> perform c w = (o, w') ->
exists v', rep w' v' /\ (forall k, confined v' k) /\
  forall ps dss, stage_after st o = Reading ps dss -> reads_found req ps dss.
Proof.
intros Hr Hv Hreq Hread Hc Hrun.
destruct st as [|ps dss|ps dss|ps dss|]; simplify_eq/=; unfold bind, ret in Hrun.
- destruct (gs_FindUpstream _ w) as [o1 w1] eqn:Hf. exists v.
  assert (w1 = w') as -> by (by destruct o1; simplify_eq/=). split_and!; [by eapply find_up_frame|done|].
  intros ps dss Hst. destruct o1 as [ps1| |]; simplify_eq/=. split; [|constructor].
  intros p Hp. exists v. intros p' ->%list_elem_of_singleton. by rewrite <- (find_up_spec _ _ _ _ _ Hr Hf).
- destruct (Hread _ _ eq_refl) as [[Hps Hdss] Hlen]. destruct (ps !! length dss) as [p|] eqn:Hp; simpl in Hrun; unfold bind, ret in Hrun.
  + destruct (gs_FindUpstream _ w) as [o1 w1] eqn:Hf. exists v.
    assert (w1 = w') as -> by (by destruct o1; simplify_eq/=). split_and!; [by eapply find_up_frame|done|].
    intros ps' dss' Hst. destruct o1 as [ds| |]; simplify_eq/=. case_decide; simplify_eq/=. split; [done|].
    rewrite length_app, Nat.add_1_r, (take_S_r _ _ _ Hp). apply Forall2_app; [done|].
    repeat constructor. exists v. intros d Hd. by rewrite <- (find_up_spec _ _ _ _ _ Hr Hf).
  + destruct (gs_Delete _ w) as [o1 w1] eqn:Hf. destruct (delete_partial _ _ _ _ _ Hr Hf) as (l & Hl & Hr').
    assert (w1 = w') as -> by (by destruct o1; simplify_eq/=). eexists. split_and!; [exact Hr'| |].
    * apply lookup_ge_None in Hp. eapply confined_delete; [done|done|lia|done|done].
    * intros ps' dss' Hst. by destruct o1 as [[]| |]; simplify_eq/=; try case_decide.
- destruct (gs_Put _ w) as [o1 w1] eqn:Hf. destruct (put_partial _ _ _ _ _ Hr Hf) as (l & Hl & Hr').
  assert (w1 = w') as -> by (by destruct o1; simplify_eq/=). eexists. split_and!; [exact Hr'| |].
  + by eapply confined_put.
  + intros ps' dss' Hst. by destruct o1 as [[]| |]; simplify_eq/=.
Qed.

Lemma failing_step s s' : serve_step handlers s s' -> failing_inv s -> failing_inv s'.
Proof.
intros [i Hstep] (sts & v & Hr & Hlen & Hall & Hread & Hv).
destruct (stages_step _ Hsafe _ _ _ _ Hall Hlen Hstep) as (req & st & c & o & Hreq & Hi & Hc & Hrun & _ & Hall').
destruct (serve_by_call _ _ _ _ Hstep) as (req' & h & _ & _ & _ & Hreq' & Hh & _). simplify_eq.
destruct (failing_call (store_world s) v req st c o (store_world s')) as (v' & Hr' & Hv' & Hread'); [done|done| | |done|done|].
{ apply list_elem_of_lookup. eauto. }
{ intros ps dss ->. split; [by eapply Hread|]. apply (Hall _ _ _ _ Hreq Hh Hi). }
exists (<[i := stage_after st o]> sts), v'. split_and!; [done|by rewrite length_insert|done| |done].
intros j req'' ps dss [(<- & Hst & _)|[_ Hj]]%list_lookup_insert_Some Hj'; [|by eapply Hread].
simplify_eq. by eapply Hread'.
Qed.

Lemma failing_reachable w s : rep w v0 -> rtc (serve_step handlers) (serve_start handlers w) s -> failing_inv s.
Proof.
intros Hr. apply (rtc_preserve failing_inv); [intros ? ?; apply failing_step|].
exists (map (fun _ => Fresh) reqs), v0. split_and!; [done|apply length_map|apply stand_start| |by left].
intros i req ps dss Hi. rewrite list_lookup_fmap in Hi. by destruct (reqs !! i).
Qed.
End Failures.
