(* ===== verification/Indexing.v ===== *)
(** * The indexer at work: its pool against the tracker

    [Consumer.v] has the worker pool and what consuming one repository asks of
    the outside; [Concurrent.v] has handlers that share the store.  Here a
    worker that reaches the [Track] of its repository waits until the
    tracker's handler has returned, while the other workers go on.  The calls
    of the workers, and the calls their handlers make, interleave in any way. *)

From S2P Require Import Prelude GoCodec Api GraphSpec KeysAlpha TrackAlpha.
From S2P Require Import Concurrent TrackAlphaProofs ConcurrentTrack Remotes Consumer.

(** ** What a repository asks of the tracker *)

Definition track_of (e : event) : option SourceRequest :=
  match e with ETrack request => Some request | _ => None end.

(** Consuming a repository calls [Track] once at most. *)
Definition tracked_request (o : oracle) (configured : bool) (r : Repository) : option SourceRequest :=
  head (omap track_of (Consume o configured r)).

(** A repository, with the number of its call of [Track] if it makes one. *)
Notation job := (Repository * option nat)%type.

Fixpoint jobs_from (o : oracle) (configured : bool) (k : nat) (rs : list Repository) : list job :=
  match rs with
  | [] => []
  | r :: rs' => match tracked_request o configured r with
                | Some _ => (r, Some k) :: jobs_from o configured (S k) rs'
                | None => (r, None) :: jobs_from o configured k rs'
                end
  end.

Definition requests (o : oracle) (configured : bool) (rs : list Repository) : list SourceRequest :=
  omap (tracked_request o configured) rs.

(** ** The steps *)

Section Crawl.
Context `{JsonCodec} `{MapRange} {W : Type} `{GraphStoreOps W}.
Context (o : oracle) (configured : bool) (rs : list Repository).

Definition track_calls : list (M replay bool) := map track_handler (requests o configured rs).

Notation crawl := (pool (A := job) * served W)%type.

Definition crawl_start (n : nat) (w : W) : crawl :=
(pool_start n (jobs_from o configured 0 rs), serve_start track_calls w).

(** [Consume] returns once its [Track], if any, has returned, with a response
  or an error: it only logs an error. *)
Definition finished (s : served W) (j : job) : Prop :=
match j.2 with
| None => True
| Some k => exists handler h res, track_calls !! k = Some handler /\ histories s !! k = Some h /\
                                  next_call handler h = inr res
end.

(** The pool moves without the tracker; a handler whose caller waits for it
  makes its next call of the store; a worker is done with its repository. *)
Inductive crawl_step : crawl -> crawl -> Prop :=
| crawl_pool p p' s : pool_step p p' -> consumed p' = consumed p -> crawl_step (p, s) (p', s)
| crawl_call p s s' i r k :
    workers p !! i = Some (Some (r, Some k)) -> serve_by track_calls k s s' -> crawl_step (p, s) (p, s')
| crawl_done p p' s j :
    pool_step p p' -> consumed p' = consumed p ++ [j] -> finished s j -> crawl_step (p, s) (p', s).
End Crawl.

(** ** Lemmas on jobs and pools *)

Section Jobs.
Context (o : oracle) (configured : bool).

Lemma jobs_repositories k rs : (jobs_from o configured k rs).*1 = rs.
Proof.
revert k. induction rs as [|r rs IH]; intros k; simpl; [done|].
destruct (tracked_request o configured r); cbn; by rewrite IH.
Qed.

Lemma jobs_numbered rs : forall k r m,
(r, Some m) ∈ jobs_from o configured k rs ->
k <= m /\ r ∈ rs /\ requests o configured rs !! (m - k) = tracked_request o configured r /\ is_Some (tracked_request o configured r).
Proof.
unfold requests. induction rs as [|r0 rs IH]; intros k r m; simpl; [by intros ?%elem_of_nil|].
destruct (tracked_request o configured r0) as [req|] eqn:Hreq; rewrite elem_of_cons.
- intros [[= -> ->]|Hin].
  + rewrite Nat.sub_diag, Hreq. split_and!; [done|by left|done|by eexists].
  + apply IH in Hin as (Hle & Hr & Hlook & Hsome). split_and!; [lia|by right| |done].
    replace (m - k) with (S (m - S k)) by lia. done.
- intros [[=]|Hin]. apply IH in Hin as (Hle & Hr & Hlook & Hsome). split_and!; [done|by right|done|done].
Qed.

Lemma jobs_cover rs : forall k i, i < length (requests o configured rs) -> exists r, (r, Some (k + i)) ∈ jobs_from o configured k rs.
Proof.
unfold requests. induction rs as [|r0 rs IH]; intros k i; simpl; [lia|].
destruct (tracked_request o configured r0) as [req|] eqn:Hreq; simpl; intros Hi.
- destruct i as [|i]; [exists r0; rewrite Nat.add_0_r; by left|].
  destruct (IH (S k) i) as [r Hr]; [by apply Nat.succ_lt_mono|]. exists r. right. by rewrite <- Nat.add_succ_comm.
- destruct (IH k i Hi) as [r Hr]. exists r. by right.
Qed.

(** Every request comes from a repository. *)
Lemma elem_of_requests rs req :
req ∈ requests o configured rs <-> exists r, r ∈ rs /\ tracked_request o configured r = Some req.
Proof. unfold requests. apply list_elem_of_omap. Qed.
End Jobs.

(** A step of the pool finishes what a worker holds, or nothing. *)
Lemma pool_step_cases {A} (p p' : pool (A := A)) : pool_step p p' ->
  consumed p' = consumed p \/
  exists i j, workers p !! i = Some (Some j) /\ consumed p' = consumed p ++ [j].
Proof. intros []; simpl; eauto. Qed.
