(* ===== verification/ConcurrentBeta.v ===== *)
(** * Manifests stored at the same time

    The handlers of the v1beta service share the graph store, whose methods
    are atomic, and each has a [Traverse] stream of its own: a goroutine of the
    store answers the requests of a stream in their order, at any time after
    they are sent.  As in Concurrent.v a handler is its sequential definition,
    run on a world that replays the answers its calls have had; a step lets
    one handler make its next call, or one stream answer a request. *)

From S2P Require Import Prelude Sql StoreBeta StoreBetaSpec ManifestBeta ManifestBetaSpec.

#[export] Instance NeighborsRequest_eq_dec : EqDecision NeighborsRequest.
Proof. solve_decision. Defined.

(** ** Calls *)

Inductive beta_call :=
| BPut (nodes : list Node) (edges : list Edge)
| BDelete (nodes : list Node) (edges : list Edge)
| BNeighbors (req : NeighborsRequest)
| BOpen
| BSend (req : NeighborsRequest)
| BRecv
| BCancel.
#[export] Instance beta_call_eq_dec : EqDecision beta_call.
Proof. solve_decision. Defined.

Inductive beta_reply := BDone | BAnswer (neighbors : list Neighbor).

(** The calls of the store itself. *)
Definition store_call_of {W} `{BetaStoreOps W} (c : beta_call) : option (M W beta_reply) :=
  match c with
  | BPut nodes edges => Some (let! _ := bs_Put nodes edges in ret BDone)
  | BDelete nodes edges => Some (let! _ := bs_Delete nodes edges in ret BDone)
  | BNeighbors req => Some (let! res := bs_Neighbors req in ret (BAnswer res))
  | _ => None
  end.

(** ** Replaying a handler

    A call is answered by the next entry of the trace, which is of that call;
    the first call beyond the trace suspends the handler. *)

Notation beta_trace := (list (beta_call * outcome beta_reply)).

Record beta_replay := mkBetaReplay { to_replay : beta_trace; suspended : option beta_call }.

Definition beta_recall (c : beta_call) : M beta_replay beta_reply := fun s =>
  match suspended s with
  | Some _ => (Panic "suspended", s)
  | None =>
      match to_replay s with
      | (c', o) :: rest => if decide (c' = c) then (o, mkBetaReplay rest None) else (Panic "another call", s)
      | [] => (Panic "suspended", mkBetaReplay [] (Some c))
      end
  end.

Definition done_ (r : beta_reply) : M beta_replay unit :=
  match r with BDone => ret tt | _ => panic "not the reply of this call" end.
Definition answer_ (r : beta_reply) : M beta_replay (list Neighbor) :=
  match r with BAnswer res => ret res | _ => panic "not the reply of this call" end.

#[export] Instance beta_replay_store : BetaStoreOps beta_replay := {|
  bs_Put nodes edges := let! r := beta_recall (BPut nodes edges) in done_ r;
  bs_Delete nodes edges := let! r := beta_recall (BDelete nodes edges) in done_ r;
  bs_Neighbors req := let! r := beta_recall (BNeighbors req) in answer_ r |}.
#[export] Instance beta_replay_stream : TraverseOps beta_replay := {|
  tr_open := let! r := beta_recall BOpen in done_ r;
  tr_send req := let! r := beta_recall (BSend req) in done_ r;
  tr_recv := let! r := beta_recall BRecv in answer_ r;
  tr_cancel := let! r := beta_recall BCancel in done_ r |}.

Definition next_beta_call {A} (handler : M beta_replay A) (h : beta_trace) : beta_call + outcome A :=
  match handler (mkBetaReplay h None) with
  | (o, s) => match suspended s with Some c => inl c | None => inr o end
  end.

(** ** The server *)

(** A handler's trace, and its stream: requests without an answer, answers that
    are not received yet, and whether the store still answers. *)
Record session := mkSession
  { trace : beta_trace; unanswered : list NeighborsRequest; unreceived : list (list Neighbor); answering : bool }.

Definition stream_call (c : beta_call) : bool :=
  match c with BOpen | BSend _ | BRecv | BCancel => true | _ => false end.

(** A call of the stream.  One that fails ends the stream; receiving waits for
    an answer. *)
Inductive stream_step (s : session) : beta_call -> outcome beta_reply -> session -> Prop :=
| stream_opens : stream_step s BOpen (Ret BDone) (mkSession (trace s ++ [(BOpen, Ret BDone)]) [] [] true)
| stream_sends req :
    stream_step s (BSend req) (Ret BDone)
      (mkSession (trace s ++ [(BSend req, Ret BDone)]) (unanswered s ++ [req]) (unreceived s) (answering s))
| stream_receives res rest :
    unreceived s = res :: rest ->
    stream_step s BRecv (Ret (BAnswer res))
      (mkSession (trace s ++ [(BRecv, Ret (BAnswer res))]) (unanswered s) rest (answering s))
| stream_cancels : stream_step s BCancel (Ret BDone) (mkSession (trace s ++ [(BCancel, Ret BDone)]) [] [] false)
| stream_breaks c e : stream_call c = true -> stream_step s c (Fail e) (mkSession (trace s ++ [(c, Fail e)]) [] [] false).

Record beta_served (W : Type) := mkBetaServed { beta_world : W; sessions : list session }.
Arguments mkBetaServed {W} beta_world sessions.
Arguments beta_world {W} b.
Arguments sessions {W} b.

Section Serve.
Context {W : Type} `{BetaStoreOps W} {A : Type} (handlers : list (M beta_replay A)).

Definition beta_start (w : W) : beta_served W := mkBetaServed w (map (fun _ => mkSession [] [] [] false) handlers).

(** What handler [i] or its stream does next.  A panic of the store ends the
  program, since its server has no recovery. *)
Inductive beta_serve_by (i : nat) : beta_served W -> beta_served W -> Prop :=
| beta_stores handler s c m o w w' ss :
    handlers !! i = Some handler -> ss !! i = Some s -> next_beta_call handler (trace s) = inl c ->
    store_call_of c = Some m -> m w = (o, w') -> (forall why, o <> Panic why) ->
    beta_serve_by i (mkBetaServed w ss)
      (mkBetaServed w' (<[i := mkSession (trace s ++ [(c, o)]) (unanswered s) (unreceived s) (answering s)]> ss))
| beta_streams handler s c o s' w ss :
    handlers !! i = Some handler -> ss !! i = Some s -> next_beta_call handler (trace s) = inl c ->
    stream_step s c o s' ->
    beta_serve_by i (mkBetaServed w ss) (mkBetaServed w (<[i := s']> ss))
| beta_answers s req rest res w w' ss :
    ss !! i = Some s -> answering s = true -> unanswered s = req :: rest -> bs_Neighbors req w = (Ret res, w') ->
    beta_serve_by i (mkBetaServed w ss)
      (mkBetaServed w' (<[i := mkSession (trace s) rest (unreceived s ++ [res]) true]> ss))
| beta_fails_to_answer s req rest e w w' ss :
    ss !! i = Some s -> answering s = true -> unanswered s = req :: rest -> bs_Neighbors req w = (Fail e, w') ->
    beta_serve_by i (mkBetaServed w ss)
      (mkBetaServed w' (<[i := mkSession (trace s) (unanswered s) (unreceived s) false]> ss)).

Definition beta_serve_step (s s' : beta_served W) : Prop := exists i, beta_serve_by i s s'.

Definition all_stored (s : beta_served W) (o : outcome A) : Prop :=
forall i handler ses, handlers !! i = Some handler -> sessions s !! i = Some ses ->
  next_beta_call handler (trace ses) = inr o.
End Serve.

(** ** Runs of a handler on a trace

    What the calls of the stream in a trace leave of the requests sent, from
    [q] requests on. *)

Definition after_call (q : list NeighborsRequest) (e : beta_call * outcome beta_reply) : list NeighborsRequest :=
  match e with
  | (BSend req, Ret _) => q ++ [req]
  | (BRecv, Ret _) => tail q
  | (BPut _ _, _) | (BDelete _ _, _) | (BNeighbors _, _) => q
  | _ => []
  end.

Definition queue_after (q : list NeighborsRequest) (h : beta_trace) : list NeighborsRequest := fold_left after_call h q.

Section Runs.
(** What is known of an answer to a request for the neighbors from a node. *)
Variable answered : Node -> list Neighbor -> Prop.

Definition good_entry (q : list NeighborsRequest) (e : beta_call * outcome beta_reply) : Prop :=
forall n res, e = (BRecv, Ret (BAnswer res)) -> head q = Some (from_request n) -> answered n res.

Fixpoint good (q : list NeighborsRequest) (h : beta_trace) : Prop :=
match h with [] => True | e :: h' => good_entry q e /\ good (after_call q e) h' end.

Lemma good_snoc q h e : good q (h ++ [e]) <-> good q h /\ good_entry (queue_after q h) e.
Proof. revert q. induction h as [|e' h IH]; intros q; simpl; [tauto|]. rewrite IH. tauto. Qed.

Lemma queue_after_snoc q h e : queue_after q (h ++ [e]) = after_call (queue_after q h) e.
Proof. unfold queue_after. by rewrite fold_left_app. Qed.

Definition streams (h : beta_trace) : Prop := Forall (fun e => stream_call e.1 = true) h.

(** On a good trace, [m] takes and makes calls of the stream only, and leaves
  [Q] of its result and of the requests without an answer. *)
Definition runs {A} (m : M beta_replay A) (q : list NeighborsRequest) (Q : A -> list NeighborsRequest -> Prop) : Prop :=
forall h o s, good q h -> m (mkBetaReplay h None) = (o, s) ->
  match suspended s with
  | Some c => stream_call c = true /\ streams h
  | None => exists pre q', h = pre ++ to_replay s /\ streams pre /\ good q' (to_replay s) /\ forall a, o = Ret a -> Q a q'
  end.

(** A suspended handler stays where it is. *)
Definition sticky {A} (m : M beta_replay A) : Prop := forall s0, is_Some (suspended s0) -> keeps (fun s => s = s0) m.

Lemma sticky_recall c : sticky (beta_recall c).
Proof. intros s0 [c0 Hs] s o s' -> Hrun. unfold beta_recall in Hrun. rewrite Hs in Hrun. by injection Hrun. Qed.

Lemma sticky_done r : sticky (done_ r).
Proof. intros s0 _. destruct r; [apply keeps_ret|apply keeps_panic]. Qed.
Lemma sticky_answer r : sticky (answer_ r).
Proof. intros s0 _. destruct r; [apply keeps_panic|apply keeps_ret]. Qed.

Lemma runs_ret {A} (a : A) q (Q : A -> list NeighborsRequest -> Prop) : Q a q -> runs (ret a) q Q.
Proof. intros HQ h o s Hg [= <- <-]. exists [], q. split_and!; [done|constructor|done|]. by intros a' [= <-]. Qed.

Lemma runs_panic {A} why q (Q : A -> list NeighborsRequest -> Prop) : runs (panic why) q Q.
Proof. intros h o s Hg [= <- <-]. exists [], q. split_and!; [done|constructor|done|]. by intros a' [=]. Qed.

Lemma runs_bind {A B} (m : M beta_replay A) (f : A -> M beta_replay B) q Q R :
(forall a, sticky (f a)) -> runs m q Q -> (forall a q', Q a q' -> runs (f a) q' R) -> runs (bind m f) q R.
Proof.
intros Hst Hm Hf h o s Hg. unfold bind. destruct (m _) as [o1 s1] eqn:Hrun. specialize (Hm _ _ _ Hg Hrun).
destruct (suspended s1) as [c|] eqn:Hs1.
- assert (s = s1 -> match suspended s with Some c => stream_call c = true /\ streams h | None => False end) as Hsame
    by (intros ->; by rewrite Hs1).
  destruct o1 as [a|e|why]; intros Hf1.
  + specialize (Hsame (Hst a s1 ltac:(by eexists) s1 o s eq_refl Hf1)). by destruct (suspended s).
  + injection Hf1 as <- <-. by rewrite Hs1.
  + injection Hf1 as <- <-. by rewrite Hs1.
- destruct Hm as (pre & q' & -> & Hpre & Hg' & HQ). destruct s1 as [h1 sus]. simpl in *. subst sus.
  destruct o1 as [a|e|why]; [|intros [= <- <-]; simpl; by exists pre, q'..].
  intros Hf1. specialize (Hf a q' (HQ a eq_refl) _ _ _ Hg' Hf1). destruct (suspended s) as [c|].
  + destruct Hf as [Hc Hh1]. split; [done|]. by apply Forall_app.
  + destruct Hf as (pre' & q'' & -> & Hpre' & Hg'' & HR).
    exists (pre ++ pre'), q''. rewrite <- app_assoc. split_and!; [done|by apply Forall_app|done|done].
Qed.

(** The rule of a call of the stream. *)
Lemma runs_recall c q (Q : beta_reply -> list NeighborsRequest -> Prop) :
stream_call c = true -> (forall r, good_entry q (c, Ret r) -> Q r (after_call q (c, Ret r))) -> runs (beta_recall c) q Q.
Proof.
intros Hc HQ [|[c' o'] h] o s Hg; unfold beta_recall; simpl; [intros [= <- <-]; split; [done|constructor]|].
case_decide as Heq; [subst c'|]; intros [= <- <-].
- destruct Hg as [He Hg]. exists [(c, o')], (after_call q (c, o')). split_and!; [done|by constructor|done|].
  intros r ->. by apply HQ.
- exists [], q. split_and!; [done|constructor|done|done].
Qed.

(** Cancelling takes an entry of the trace, or suspends the handler. *)
Lemma cancel_cases h o s : tr_cancel (mkBetaReplay h None) = (o, s) ->
(h = [] /\ s = mkBetaReplay [] (Some BCancel)) \/ s = mkBetaReplay h None \/
exists o' h', h = (BCancel, o') :: h' /\ s = mkBetaReplay h' None.
Proof.
cbn [tr_cancel beta_replay_stream]. unfold bind, beta_recall, ret, panic. cbn [suspended to_replay].
destruct h as [|[c' o'] h]; [intros [= _ <-]; by left|]. case_decide as Heq; [subst c'|intros [= _ <-]; by right; left].
destruct o' as [[|res]|e|why]; cbn; intros [= _ <-]; right; right; by eexists _, _.
Qed.

Lemma sticky_cancel : sticky tr_cancel.
Proof. intros s0 Hs. apply keeps_bind; [by apply sticky_recall|]. intros r. by apply sticky_done. Qed.

Lemma runs_deferred {A} (m : M beta_replay A) q Q :
runs m q Q -> runs (deferred tr_cancel m) q (fun a _ => exists q', Q a q').
Proof.
intros Hm h o s Hg. unfold deferred. destruct (m _) as [o1 s1] eqn:Hrun. specialize (Hm _ _ _ Hg Hrun).
destruct (tr_cancel s1) as [o2 s2] eqn:Hcancel. intros [= <- <-]. simpl.
destruct (suspended s1) as [c|] eqn:Hs1.
- assert (s2 = s1) as -> by (eapply (sticky_cancel s1); [by eexists|reflexivity|exact Hcancel]). by rewrite Hs1.
- destruct s1 as [h1 sus]. simpl in *. subst sus. destruct Hm as (pre & q' & -> & Hpre & Hg' & HQ).
  apply cancel_cases in Hcancel as [[-> ->]|[->|(o' & h' & -> & ->)]]; simpl.
  + split; [done|]. by rewrite app_nil_r.
  + exists pre, q'. split_and!; [done..|]. intros a Ha. eauto.
  + exists (pre ++ [(BCancel, o')]), (after_call q' (BCancel, o')). rewrite <- app_assoc.
    destruct Hg' as [_ Hg']. split_and!; [done| |done|intros a Ha; eauto]. apply Forall_app. split; [done|by constructor].
Qed.

Lemma runs_weaken {A} (m : M beta_replay A) q Q R : runs m q Q -> (forall a q', Q a q' -> R a q') -> runs m q R.
Proof.
intros Hm HQ h o s Hg Hrun. specialize (Hm _ _ _ Hg Hrun). destruct (suspended s); [done|].
destruct Hm as (pre & q' & ? & ? & ? & ?). exists pre, q'. eauto 10.
Qed.

(** The calls of the stream. *)
Lemma runs_open q : runs tr_open q (fun _ q' => q' = []).
Proof.
apply (runs_bind _ _ _ (fun _ q' => q' = [])); [apply sticky_done| |].
- by apply runs_recall.
- intros [] q' ->; [by apply runs_ret|apply runs_panic].
Qed.

Lemma runs_send req q : runs (tr_send req) q (fun _ q' => q' = q ++ [req]).
Proof.
apply (runs_bind _ _ _ (fun _ q' => q' = q ++ [req])); [apply sticky_done| |].
- by apply runs_recall.
- intros [] q' ->; [by apply runs_ret|apply runs_panic].
Qed.

Lemma runs_recv n q : runs tr_recv (from_request n :: q) (fun res q' => q' = q /\ answered n res).
Proof.
apply (runs_bind _ _ _ (fun r q' => q' = q /\ forall res, r = BAnswer res -> answered n res));
  [apply sticky_answer| |].
- apply runs_recall; [done|]. intros r He. split; [done|]. intros res ->. by apply (He n res).
- intros [|res] q' [-> Hres]; [apply runs_panic|]. apply runs_ret. auto.
Qed.
End Runs.

Lemma sticky_open : sticky tr_open.
Proof. intros s0 Hs. apply keeps_bind; [by apply sticky_recall|]. intros r. by apply sticky_done. Qed.
Lemma sticky_send req : sticky (tr_send req).
Proof. intros s0 Hs. apply keeps_bind; [by apply sticky_recall|]. intros r. by apply sticky_done. Qed.
Lemma sticky_recv : sticky tr_recv.
Proof. intros s0 Hs. apply keeps_bind; [by apply sticky_recall|]. intros r. by apply sticky_answer. Qed.

Lemma keeps_deferred {W A} (Inv : W -> Prop) (fin : M W unit) (m : M W A) :
  keeps Inv fin -> keeps Inv m -> keeps Inv (deferred fin m).
Proof.
  intros Hfin Hm w o w' Hw. unfold deferred. destruct (m w) as [o1 w1] eqn:Hrun. intros [= _ <-].
  destruct (fin w1) as [o2 w2] eqn:Hrun2. by eapply Hfin; [eapply Hm|].
Qed.

#[export] Hint Resolve keeps_deferred : deps.
#[export] Hint Extern 1 (keeps _ tr_open) => apply sticky_open; assumption : deps.
#[export] Hint Extern 1 (keeps _ (tr_send _)) => apply sticky_send; assumption : deps.
#[export] Hint Extern 1 (keeps _ tr_recv) => apply sticky_recv; assumption : deps.
#[export] Hint Extern 1 (keeps _ tr_cancel) => apply sticky_cancel; assumption : deps.
