(* ===== verification/CallTree.v ===== *)
(** * Handlers as trees of calls

    A handler that replays its calls stands for a tree: what it returns, or a
    call and what follows each outcome of it.  A tree is finite along every
    path, so a handler that has one makes finitely many calls whatever they
    answer; and a property of its runs can be stated by recursion on it. *)

From S2P Require Import Prelude Sql StoreBeta StoreBetaSpec ManifestBeta ManifestBetaSpec ConcurrentBeta.

Inductive call_tree (A : Type) :=
| Done (o : outcome A)
| Ask (c : beta_call) (after : outcome beta_reply -> call_tree A).
Arguments Done {A} o.
Arguments Ask {A} c after.

(** The calls of a trace are those of the tree, as far as it goes. *)
Fixpoint follows {A} (t : call_tree A) (h : beta_trace) : Prop :=
  match t, h with
  | Ask c after, (c', o) :: h' => c' = c /\ follows (after o) h'
  | _, _ => True
  end.

(** The tree after a trace, and what the tree has not taken of it. *)
Fixpoint walk_tree {A} (t : call_tree A) (h : beta_trace) : call_tree A * beta_trace :=
  match t, h with
  | Ask _ after, (_, o) :: h' => walk_tree (after o) h'
  | _, _ => (t, h)
  end.

(** One more entry. *)
Lemma walk_snoc {A} (t : call_tree A) h c after h' o : follows t h -> walk_tree t h = (Ask c after, h') ->
  follows t (h ++ [(c, o)]) /\ walk_tree t (h ++ [(c, o)]) = (after o, []).
Proof.
  revert h. induction t as [o'|c0 after0 IH]; intros h; simpl; [by intros _ [=]|].
  destruct h as [|[c1 o1] h]; simpl; [|intros [-> Hf] Hw; by destruct (IH o1 h Hf Hw)].
  intros _ [= -> -> _]. by destruct (after o).
Qed.

Fixpoint then_ {A B} (t : call_tree A) (f : outcome A -> call_tree B) : call_tree B :=
  match t with
  | Done o => f o
  | Ask c after => Ask c (fun o => then_ (after o) f)
  end.

Lemma follows_then {A B} (t : call_tree A) (f : outcome A -> call_tree B) h : follows (then_ t f) h ->
  follows t h /\ forall o h', walk_tree t h = (Done o, h') -> follows (f o) h' /\ walk_tree (then_ t f) h = walk_tree (f o) h'.
Proof.
  revert h. induction t as [o|c after IH]; intros h; simpl.
  - intros Hf. split; [done|]. by intros o' h' [= <- <-].
  - destruct h as [|[c' o] h]; [by split; [|intros o h' [=]]|]. intros [-> Hf]. apply IH in Hf as [? ?]. done.
Qed.

Lemma walk_then {A B} (t : call_tree A) (f : outcome A -> call_tree B) h c after h' :
  walk_tree t h = (Ask c after, h') -> walk_tree (then_ t f) h = (Ask c (fun o => then_ (after o) f), h').
Proof.
  revert h. induction t as [o|c0 after0 IH]; intros h; simpl; [done|].
  destruct h as [|[c' o] h]; [by intros [= -> -> ->]|]. apply IH.
Qed.

(** ** The tree of a handler *)

Definition stands_for {A} (m : M beta_replay A) (t : call_tree A) : Prop :=
  sticky m /\ forall h, follows t h ->
  match walk_tree t h with
  | (Done o, h') => m (mkBetaReplay h None) = (o, mkBetaReplay h' None)
  | (Ask c _, _) => exists o, m (mkBetaReplay h None) = (o, mkBetaReplay [] (Some c))
  end.

Lemma tree_next {A} (m : M beta_replay A) t h : stands_for m t -> follows t h ->
  next_beta_call m h = match (walk_tree t h).1 with Ask c _ => inl c | Done o => inr o end.
Proof.
  intros [_ Hm] Hf. specialize (Hm h Hf). unfold next_beta_call.
  destruct (walk_tree t h) as [[o|c after] h']; simpl; [by rewrite Hm|]. by destruct Hm as [o ->].
Qed.

Definition tree_of {A} (m : M beta_replay A) : Type := { t | stands_for m t }.

Lemma stands_recall c : stands_for (beta_recall c) (Ask c Done).
Proof.
  split; [apply sticky_recall|]. intros [|[c' o] h] Hf; unfold beta_recall; simpl; [by eexists|].
  destruct Hf as [-> _]. by rewrite decide_True.
Qed.

Lemma stands_ret {A} (o : outcome A) : stands_for (fun s => (o, s)) (Done o).
Proof. split; [by intros s0 _ s o' s' -> [= _ <-]|]. by intros h _. Qed.

(** What comes after [m], by its outcome. *)
Definition and_then {A B} (m : M beta_replay A) (f : outcome A -> M beta_replay B) : M beta_replay B :=
  fun s => let '(o, s') := m s in f o s'.

Lemma stands_then {A B} (m : M beta_replay A) (f : outcome A -> M beta_replay B) t g :
  stands_for m t -> (forall o, stands_for (f o) (g o)) -> stands_for (and_then m f) (then_ t g).
Proof.
  intros [Hst Hm] Hf. split.
  - intros s0 Hs s o s' -> Hrun. unfold and_then in Hrun. destruct (m s0) as [o1 s1] eqn:Hrun1.
    assert (s1 = s0) as -> by (by eapply Hst). by eapply (proj1 (Hf o1)).
  - intros h Hfol. apply follows_then in Hfol as [Hfol Hend]. specialize (Hm h Hfol). unfold and_then.
    destruct (walk_tree t h) as [[o|c after] h'] eqn:Hw.
    + destruct (Hend o h' eq_refl) as [Hfol' ->]. rewrite Hm. by apply (proj2 (Hf o)).
    + rewrite (walk_then t g h c after h' Hw). destruct Hm as [o ->].
      destruct (f o (mkBetaReplay [] (Some c))) as [o' s'] eqn:Hrun. exists o'. f_equal.
      by eapply (proj1 (Hf o)).
Qed.

Lemma stands_ext {A} (m m' : M beta_replay A) t : (forall s, m s = m' s) -> stands_for m t -> stands_for m' t.
Proof.
  intros Heq [Hst Hm]. split; [|intros h; rewrite <- Heq; apply Hm].
  intros s0 Hs s o s' -> Hrun. rewrite <- Heq in Hrun. by eapply Hst.
Qed.

Definition tree_ret {A} (o : outcome A) : tree_of (fun s => (o, s)) := exist _ (Done o) (stands_ret o).

Definition tree_then {A B} (m : M beta_replay A) (f : outcome A -> M beta_replay B) (t : tree_of m)
    (g : forall o, tree_of (f o)) : tree_of (and_then m f) :=
  exist _ (then_ (proj1_sig t) (fun o => proj1_sig (g o)))
    (stands_then m f (proj1_sig t) (fun o => proj1_sig (g o)) (proj2_sig t) (fun o => proj2_sig (g o))).

Definition tree_ext {A} (m m' : M beta_replay A) (Heq : forall s, m s = m' s) (t : tree_of m) : tree_of m' :=
  exist _ (proj1_sig t) (stands_ext m m' (proj1_sig t) Heq (proj2_sig t)).

Definition tree_bind {A B} (m : M beta_replay A) (f : A -> M beta_replay B) (t : tree_of m)
    (g : forall a, tree_of (f a)) : tree_of (bind m f).
Proof.
  refine (tree_ext _ _ _ (tree_then m (fun o => match o with Ret a => f a | Fail e => fail e | Panic why => panic why end) t _)).
  - intros s. unfold and_then, bind. by destruct (m s) as [[a|e|why] s'].
  - intros [a|e|why]; [apply g|apply (tree_ret (Fail e))|apply (tree_ret (Panic why))].
Defined.

Definition tree_on_error {A} (m : M beta_replay A) (g : error -> error) (t : tree_of m) : tree_of (on_error m g).
Proof.
  refine (tree_ext _ _ _ (tree_then m (fun o s => (match o with Fail e => Fail (g e) | r => r end, s)) t _)).
  - intros s. unfold and_then, on_error. by destruct (m s) as [[a|e|why] s'].
  - intros o. apply tree_ret.
Defined.

Definition tree_mfold {A B} (f : B -> A -> M beta_replay B) (g : forall b x, tree_of (f b x)) :
    forall l b, tree_of (mfold f b l).
Proof.
  fix rec 1. intros [|x l] b; [apply tree_ret|]. cbn [mfold]. apply tree_bind; [apply g|]. intros b'. apply rec.
Defined.

(** ** The calls *)

Definition tree_done r : tree_of (done_ r).
Proof. destruct r; apply tree_ret. Defined.
Definition tree_answer r : tree_of (answer_ r).
Proof. destruct r; apply tree_ret. Defined.
Definition tree_recall c : tree_of (beta_recall c) := exist _ (Ask c Done) (stands_recall c).

Definition tree_call_done c : tree_of (bind (beta_recall c) done_) := tree_bind _ _ (tree_recall c) tree_done.
Definition tree_call_answer c : tree_of (bind (beta_recall c) answer_) := tree_bind _ _ (tree_recall c) tree_answer.

(** Cancelling when the rest has ended; its answer is dropped. *)
Definition tree_deferred {A} (m : M beta_replay A) (t : tree_of m) : tree_of (deferred tr_cancel m).
Proof.
  refine (tree_ext _ _ _ (tree_then m (fun o => and_then tr_cancel (fun _ s => (o, s))) t _)).
  - intros s. unfold and_then, deferred. destruct (m s) as [o s']. by destruct (tr_cancel s').
  - intros o. apply tree_then; [apply tree_call_done|]. intros _. apply tree_ret.
Defined.

(** ** Storing a manifest *)

Section Store.
Context `{ProtoCodec, MapRange}.

Definition tree_tier (source : Node) nodes edges tier : tree_of (traverse_tier (W := beta_replay) source nodes edges tier).
Proof.
  apply tree_bind; [apply tree_mfold; intros _ kn; apply tree_call_done|]. intros _. apply tree_mfold.
  intros acc kn. apply tree_bind; [apply tree_call_answer|]. intros resp. apply tree_ret.
Defined.

Definition tree_stored (source : Node) : tree_of (GetStored (W := beta_replay) source).
Proof.
  apply tree_bind; [apply tree_call_done|]. intros _. apply tree_deferred.
  apply tree_bind; [apply tree_tier|]. intros c0. apply tree_bind; [apply tree_tier|]. intros c1. apply tree_ret.
Defined.

Definition tree_store (request : StoreRequest) : tree_of (Store (W := beta_replay) request).
Proof.
  apply tree_bind; [apply tree_ret|]. intros [[nodes edges] source].
  apply tree_bind; [apply tree_on_error, tree_stored|]. intros [n stored].
  apply tree_bind; [apply tree_on_error, tree_call_done|]. intros _.
  apply tree_bind; [apply tree_on_error, tree_call_done|]. intros _. apply tree_ret.
Defined.
End Store.

(** ** Handlers that are answered

    The state of a stream, as a handler sees it: closed, or open with so many
    answers to come. *)

Definition right_reply (c : beta_call) (r : beta_reply) : Prop :=
  match c with BRecv | BNeighbors _ => exists res, r = BAnswer res | _ => r = BDone end.

Definition may_call (q : option nat) (c : beta_call) : Prop :=
  match c with
  | BSend r => is_Some q /\ exists n, r = from_request n
  | BRecv => exists n, q = Some (S n)
  | BNeighbors _ => False
  | _ => True
  end.

Definition stream_after (q : option nat) (c : beta_call) : option nat :=
  match c with BOpen => Some 0 | BCancel => None | BSend _ => S <$> q | BRecv => pred <$> q | _ => q end.

(** When every call is answered as it should be, the handler makes none that
    cannot be, and ends with [Q] of its result. *)
Fixpoint live {A} (q : option nat) (t : call_tree A) (Q : A -> option nat -> Prop) : Prop :=
  match t with
  | Done o => exists a, o = Ret a /\ Q a q
  | Ask c after => may_call q c /\ forall r, right_reply c r -> live (stream_after q c) (after (Ret r)) Q
  end.

Lemma live_then {A B} (t : call_tree A) (f : outcome A -> call_tree B) q Q R :
  live q t Q -> (forall a q', Q a q' -> live q' (f (Ret a)) R) -> live q (then_ t f) R.
Proof.
  revert q. induction t as [o|c after IH]; intros q; simpl.
  - intros (a & -> & HQ) Hf. by apply Hf.
  - intros [Hc Hr] Hf. split; [done|]. intros r Hok. by apply IH; [apply Hr|].
Qed.

Lemma live_weaken {A} (t : call_tree A) q Q R : live q t Q -> (forall a q', Q a q' -> R a q') -> live q t R.
Proof.
  revert q. induction t as [o|c after IH]; intros q; simpl.
  - intros (a & -> & HQ) HR. eauto.
  - intros [Hc Hr] HR. split; [done|]. intros r Hok. by apply IH; [apply Hr|].
Qed.

Lemma live_call_done c q : right_reply c BDone -> may_call q c ->
  live q (proj1_sig (tree_call_done c)) (fun _ q' => q' = stream_after q c).
Proof.
  intros Hok Hc. split; [done|]. intros r Hr. assert (r = BDone) as ->; [|by exists tt].
  destruct c; simpl in *; destruct Hr, Hok; congruence.
Qed.

Lemma live_recv n : live (Some (S n)) (proj1_sig (tree_call_answer BRecv)) (fun _ q' => q' = Some n).
Proof. split; [by exists n|]. intros r [res ->]. by exists res. Qed.

(** [I]: what is left of the list, and the stream. *)
Lemma live_mfold {A B} (f : B -> A -> M beta_replay B) (g : forall b x, tree_of (f b x))
    (I : list A -> option nat -> Prop) :
  (forall b x l q, I (x :: l) q -> live q (proj1_sig (g b x)) (fun _ q' => I l q')) ->
  forall l b q, I l q -> live q (proj1_sig (tree_mfold f g l b)) (fun _ q' => I [] q').
Proof.
  intros Hf. induction l as [|x l IH]; intros b q HI; [by exists b|].
  apply (live_then _ _ _ (fun _ q' => I l q')); [by apply Hf|]. intros b' q'. apply IH.
Qed.

Section LiveStore.
Context `{ProtoCodec, MapRange}.

Lemma live_tier source nodes edges tier :
live (Some 0) (proj1_sig (tree_tier source nodes edges tier)) (fun _ q' => q' = Some 0).
Proof using.
apply (live_then _ _ _ (fun _ q' => q' = Some (length (range_map tier)))).
- eapply live_weaken; [apply (live_mfold _ _ (fun l q => q = Some (length (range_map tier) - length l) /\
    length l <= length (range_map tier)))|].
  + intros _ kn l q [-> Hl]. simpl in Hl. eapply live_weaken; [apply live_call_done; [done|]|].
    * split; [by eexists|by exists kn.2].
    * intros _ q' ->. simpl. split; [f_equal; lia|lia].
  + split; [f_equal; lia|done].
  + intros _ q' [-> _]. simpl. f_equal. lia.
- intros _ q' ->. apply (live_mfold _ _ (fun l q => q = Some (length l))); [|done].
  intros acc kn l q ->. apply (live_then _ _ _ (fun _ q' => q' = Some (length l))); [apply live_recv|].
  intros resp q' ->. by eexists.
Qed.

Lemma live_stored source q : live q (proj1_sig (tree_stored source)) (fun _ q' => q' = None).
Proof using.
apply (live_then _ _ _ (fun _ q' => q' = Some 0)); [by apply live_call_done|]. intros _ q' ->.
apply (live_then _ _ _ (fun _ q' => q' = Some 0)).
- apply (live_then _ _ _ (fun _ q' => q' = Some 0)); [apply live_tier|]. intros c0 q' ->.
  apply (live_then _ _ _ (fun _ q' => q' = Some 0)); [apply live_tier|]. intros c1 q' ->. by eexists.
- intros r q' ->. apply (live_then _ _ _ (fun _ q' => q' = None)); [by apply live_call_done|].
  intros u q' ->. by exists r.
Qed.

Lemma live_on_error {A} (m : M beta_replay A) g (t : tree_of m) q Q :
live q (proj1_sig t) Q -> live q (proj1_sig (tree_on_error m g t)) Q.
Proof using. intros Ht. apply (live_then _ _ _ Q); [done|]. intros a q' HQ. by exists a. Qed.

Lemma live_store request ns es src : beta_GetProposed request = Ret (ns, es, src) ->
live None (proj1_sig (tree_store request)) (fun _ _ => True).
Proof using.
intros Hp. apply (live_then _ _ _ (fun _ q' => q' = None)).
- exists (ns, es, src). by rewrite Hp.
- intros [[ns' es'] src'] q' ->. apply (live_then _ _ _ (fun _ q' => q' = None)); [apply live_on_error, live_stored|].
  intros [n stored] q' ->. apply (live_then _ _ _ (fun _ q' => q' = None)); [by apply live_on_error, live_call_done|].
  intros _ q' ->. apply (live_then _ _ _ (fun _ q' => q' = None)); [by apply live_on_error, live_call_done|].
  intros _ q' ->. by exists tt.
Qed.
End LiveStore.
