(* ===== verification/ConcurrentManifest.v ===== *)
(** * Storing manifests at the same time: the invariant

    Which edges belong to which source, what a handler reads while others
    write, what it does next, and the invariant of the interleaving. *)

From S2P Require Import Prelude GoCodec Sql StoreBeta StoreBetaSpec KeysAlpha ManifestBeta ManifestBetaSpec ConcurrentBeta.

(** ** Reading the edges of a source while others write *)

Section Reads.
Context `{MapRange} (modules : bytes -> Prop) (source : Node) (P : bkeys -> Prop).

Notation sk := (Node_Key source).

(** [P] holds of the edges of the source: out of it, and out of its modules. *)
Context (Hclosed : forall k, P k -> k.1.1 = sk \/ P (sk, k.1.1, [])).
Context (Hmodules : forall m, P (sk, m, []) -> modules m).

(** What an answer says of the edges of the source. *)
Definition reads_own (n : Node) (res : list Neighbor) : Prop :=
Node_Key n = sk \/ modules (Node_Key n) ->
(forall k, (exists nb e, nb ∈ res /\ e ∈ Neighbor_Edges nb /\ own_edge source e /\ k = edge_key e) <->
   P k /\ k.1.1 = Node_Key n) /\
(Node_Key n = sk -> forall m, m ∈ map (fun nb => Node_Key (Neighbor_Node nb)) res <-> P (sk, m, [])).

Notation runs := (runs reads_own).

(** What the answers for the nodes [ns] have collected. *)
Definition gathered (edges0 : list Edge) (ns : list bytes) (c : collected) : Prop :=
(forall k, k ∈ map edge_key (c_edges c) <-> k ∈ map edge_key edges0 \/ (k.1.1 ∈ ns /\ P k)) /\
(forall rk n, c_next c !! rk = Some n -> rk = of_bytes (Node_Key n)) /\
(Forall (eq sk) ns -> forall m, is_Some (c_next c !! of_bytes m) <-> ns <> [] /\ P (sk, m, [])).

Lemma gathered_start edges0 nodes : gathered edges0 [] (mkCollected nodes edges0 ∅).
Proof using.
split_and!; [|by intros rk n; simpl; rewrite lookup_empty|].
- intros k. setoid_rewrite elem_of_nil. naive_solver.
- intros _ m. simpl. rewrite lookup_empty. split; [by intros [? ?]|by intros [? _]].
Qed.

Lemma gather edges0 ns c n res :
Node_Key n = sk \/ modules (Node_Key n) -> gathered edges0 ns c -> reads_own n res ->
gathered edges0 (ns ++ [Node_Key n]) (fold_left (collect source) res c).
Proof using.
intros Hn (He & Hk & Hm) Hres. destruct (Hres Hn) as [Hown Hkeys]. destruct (collect_fold source res c) as (He' & Hk' & Hm').
split_and!; [|by apply Hk'|].
- intros k. rewrite He', He, Hown, elem_of_app, list_elem_of_singleton. tauto.
- intros [Hns Hsk]%Forall_app m. apply Forall_cons in Hsk as [Hsk _]. rewrite Hm', (Hm Hns), (Hkeys (eq_sym Hsk)).
  assert (ns ++ [Node_Key n] <> []) by by destruct ns. tauto.
Qed.

Lemma runs_sends (l : list (string * Node)) : forall q,
runs (mfold (fun _ kn => tr_send (from_request kn.2)) tt l) q
  (fun _ q' => q' = q ++ map (fun kn => from_request kn.2) l).
Proof using.
induction l as [|kn l IH]; intros q; cbn [mfold map]; [apply runs_ret; by rewrite app_nil_r|].
eapply runs_bind; [intros ? s0 Hs; auto with deps|apply runs_send|]. intros [] q' Hq. cbn beta in Hq. subst q'.
eapply runs_weaken; [apply IH|]. intros [] q' Hq. cbn beta in Hq. by rewrite Hq, <- app_assoc.
Qed.

Lemma runs_receives edges0 (l : list (string * Node)) : forall ns c,
Forall (fun kn => Node_Key kn.2 = sk \/ modules (Node_Key kn.2)) l -> gathered edges0 ns c ->
runs (mfold (receive_one source) c l) (map (fun kn => from_request kn.2) l)
  (fun c' q' => q' = [] /\ gathered edges0 (ns ++ map (fun kn => Node_Key kn.2) l) c').
Proof using.
induction l as [|kn l IH]; intros ns c Hl Hc; cbn [mfold map]; [apply runs_ret; by rewrite app_nil_r|].
apply Forall_cons in Hl as [Hkn Hl].
eapply runs_bind; [intros c' s0 Hs; unfold receive_one; auto with deps| |].
- eapply runs_bind; [intros c' s0 Hs; auto with deps|apply runs_recv|].
  intros res q' Hres. apply (runs_ret _ _ _ (fun c' q' => q' = map (fun kn => from_request kn.2) l /\
    gathered edges0 (ns ++ [Node_Key kn.2]) c')). destruct Hres as [-> Hres]. split; [done|by apply gather].
- intros c' q' [-> Hc']. eapply runs_weaken; [by apply (IH (ns ++ [Node_Key kn.2]))|].
  intros c2 q2 [-> Hc2]. split; [done|]. by rewrite <- app_assoc in Hc2.
Qed.

Lemma runs_tier nodes edges (tier : gmap string Node) :
(forall rk x, tier !! rk = Some x -> rk = of_bytes (Node_Key x)) ->
(forall n, is_Some (tier !! of_bytes n) -> n = sk \/ modules n) ->
runs (traverse_tier source nodes edges tier) [] (fun c q' => q' = [] /\
  (forall k, k ∈ map edge_key (c_edges c) <-> k ∈ map edge_key edges \/ (is_Some (tier !! of_bytes k.1.1) /\ P k)) /\
  (forall rk n, c_next c !! rk = Some n -> rk = of_bytes (Node_Key n)) /\
  ((forall n, is_Some (tier !! of_bytes n) <-> n = sk) ->
   forall m, is_Some (c_next c !! of_bytes m) <-> P (sk, m, []))).
Proof using.
intros Hkeys Hmod. unfold traverse_tier. pose proof (tier_keys tier) as Htier.
eapply runs_bind; [intros ? s0 Hs; unfold receive_one; auto 10 with deps|apply runs_sends|].
intros _ q' ->. simpl. eapply runs_weaken; [apply (runs_receives edges _ []); [|apply gathered_start]|].
- apply Forall_forall. intros kn Hin. apply Hmod, (Htier _ Hkeys), list_elem_of_fmap. eauto.
- intros c q' [-> (He & Hk & Hm)]. cbn [app] in He, Hm. split_and!; [done| |done|].
  + intros k. rewrite He, (Htier _ Hkeys). done.
  + intros Hone m. rewrite Hm.
    * assert (sk ∈ map (fun kn => Node_Key kn.2) (range_map tier)) as Hin by by apply (Htier _ Hkeys), Hone.
      split; [by intros [_ ?]|]. intros HP. split; [|done]. intros Hnil. rewrite Hnil in Hin. by apply elem_of_nil in Hin.
    * apply Forall_forall. intros n Hin. symmetry. by apply Hone, (Htier _ Hkeys).
Qed.

(** [GetStored] finds the edges of the source. *)
Lemma runs_GetStored `{ProtoCodec} q : runs (GetStored source) q (fun r _ => forall k, k ∈ map edge_key r.2 <-> P k).
Proof using Hclosed Hmodules.
unfold GetStored. eapply runs_bind; [intros ? s0 Hs; unfold traverse_tier, receive_one; auto 15 with deps|apply runs_open|].
intros _ q' ->. eapply runs_weaken; [apply runs_deferred|intros r ? [q'' Hr]; exact Hr].
assert (forall n, is_Some (({[of_bytes sk := source]} : gmap string Node) !! of_bytes n) <-> n = sk) as Hone.
{ intros n. rewrite lookup_singleton_is_Some. split; [by intros ?%(inj of_bytes)|by intros ->]. }
eapply runs_bind; [intros c0 s0 Hs; unfold traverse_tier, receive_one; auto 15 with deps| |].
- apply runs_tier; [by intros rk x [<- <-]%lookup_singleton_Some|]. intros n ?%Hone. by left.
- intros c0 q' (-> & He0 & Hk0 & Hm0). specialize (Hm0 Hone).
  eapply runs_bind; [intros c1 s0 Hs; auto with deps| |].
  + apply runs_tier; [done|]. intros n Hn%Hm0. right. by apply Hmodules.
  + intros c1 q' (-> & He1 & _). apply runs_ret. simpl. intros k. rewrite He1, He0, Hm0, Hone. simpl. rewrite elem_of_nil.
    split; [tauto|]. intros HP. destruct (Hclosed k HP); tauto.
Qed.
End Reads.

(** ** The edges of a source *)

(** Edges out of [sk] that nobody else declares, and edges put for it. *)
Definition own_key (sk : bytes) (k : bkeys) : Prop :=
  let '(a, b, e) := k in a <> b /\ ((a = sk /\ e = []) \/ e = sk).
#[export] Instance own_key_dec sk k : Decision (own_key sk k).
Proof. destruct k as [[? ?] ?]. unfold own_key. apply _. Defined.

Section Graph.
Context (sources modules : bytes -> Prop).
Context (Hkinds : forall k, sources k -> modules k -> False) (Hnonempty : forall k, sources k -> k <> []).

(** What stored manifests keep: an edge goes to a node, out of a source to a
  module, or between modules for a source that has an edge to the first. *)
Record linked_manifests (v : bstore) : Prop := {
  edge_to_node : forall a b e, is_Some (v !! (a, b, e)) -> a <> b -> has_node v b;
  edge_kinds : forall a b e, is_Some (v !! (a, b, e)) -> a <> b ->
    (e = [] /\ sources a /\ modules b) \/ (sources e /\ modules a /\ modules b /\ is_Some (v !! (e, a, []))) }.

Lemma held_own v sk k : linked_manifests v -> sources sk -> held v sk k <-> own_key sk k /\ is_Some (v !! k).
Proof.
intros [Hnode Hkind] Hsk. destruct k as [[a b] e]. unfold own_key. split.
- intros [(m & c & [= -> -> ->] & Hne & Hl & Hn & Hc)|(n & (Hne1 & [e1 Hl1] & _) & m & c & [= -> -> ->] & Hne & Hl & Hn & Hc)].
  + split; [|done]. split; [done|]. destruct Hc as [->| ->]; [by left|by right].
  + split; [|done]. split; [done|]. destruct Hc as [->| ->]; [|by right].
    assert (modules n) as Hmn by (destruct (Hkind _ _ _ Hl1 Hne1) as [(_ & _ & ?)|(_ & _ & ? & _)]; done).
    destruct (Hkind _ _ _ Hl Hne) as [(_ & Hsn & _)|(Hs & _)]; [by destruct (Hkinds n)|by destruct (Hnonempty [] Hs)].
- intros [[Hne [[-> ->]| ->]] Hl].
  + left. exists b, []. split_and!; [done|done|done|by eapply Hnode|by left].
  + destruct (Hkind _ _ _ Hl Hne) as [(-> & _ & _)|(_ & Hma & Hmb & Hl2)]; [by destruct (Hnonempty [] Hsk)|].
    assert (sk <> a) as Hsa by (intros ->; by destruct (Hkinds a)).
    right. exists a. split; [split_and!; [done|by exists []|by eapply Hnode]|].
    exists b, sk. split_and!; [done|done|done|by eapply Hnode|by right].
Qed.

(** The edges of a source, as the read needs them. *)
Lemma own_closed v sk k : linked_manifests v -> sources sk -> own_key sk k -> is_Some (v !! k) ->
k.1.1 = sk \/ (own_key sk (sk, k.1.1, []) /\ is_Some (v !! (sk, k.1.1, []))).
Proof.
intros [_ Hkind] Hsk. destruct k as [[a b] e]. simpl. intros [Hne [[-> ->]| ->]] Hl; [by left|].
destruct (Hkind _ _ _ Hl Hne) as [(-> & _ & _)|(_ & Hma & _ & Hl2)]; [by destruct (Hnonempty [] Hsk)|].
right. split; [|done]. split; [|by left]. intros ->. by apply (Hkinds a).
Qed.

Lemma own_modules v sk m : linked_manifests v -> sources sk ->
own_key sk (sk, m, []) -> is_Some (v !! (sk, m, [])) -> modules m.
Proof.
intros [_ Hkind] Hsk [Hne _] Hl. destruct (Hkind _ _ _ Hl Hne) as [(_ & _ & ?)|(Hs & _)]; [done|].
by destruct (Hnonempty [] Hs).
Qed.

(** An answer, wherever the rest of the graph stands. *)
Lemma neighbors_read_own v source n res :
linked_manifests v -> sources (Node_Key source) -> neighbors_from v (Node_Key n) res ->
reads_own modules source (fun k => own_key (Node_Key source) k /\ is_Some (v !! k)) n res.
Proof.
intros Hv Hsk Hres Hn. split.
- intros k. rewrite (neighbors_from_held _ _ _ _ _ Hres). split.
  + intros (m & c & -> & Hne & Hl & Hnode & Hc). simpl. split; [|done]. split; [|done]. split; [done|].
    destruct Hc as [->| ->]; [|by right]. left. split; [|done].
    destruct Hn as [|Hm]; [done|].
    destruct (edge_kinds _ Hv _ _ _ Hl Hne) as [(_ & Hs & _)|(Hs & _)]; [by destruct (Hkinds (Node_Key n))|by destruct (Hnonempty [] Hs)].
  + destruct k as [[a b] e]. simpl. intros [[[Hne Ho] Hl] ->]. exists b, e.
    split_and!; [done|done|done|by eapply edge_to_node|]. destruct Ho as [[_ ->]| ->]; [by left|by right].
- intros Heq m. destruct Hres as (_ & Hkeys & _). rewrite Hkeys, Heq. split.
  + intros (Hne & [e Hl] & _). destruct (edge_kinds _ Hv _ _ _ Hl Hne) as [(-> & _ & _)|(_ & Hms & _)];
      [|by destruct (Hkinds (Node_Key source))]. split; [|done]. split; [done|by left].
  + intros [[Hne _] Hl]. split_and!; [done|by exists []|by eapply edge_to_node].
Qed.
End Graph.

(** ** Requests that do not disturb each other *)

Section Requests.
Context `{ProtoCodec} (sources modules : bytes -> Prop).
Context (Hkinds : forall k, sources k -> modules k -> False) (Hnonempty : forall k, sources k -> k <> []).
Implicit Types (req : StoreRequest) (v : bstore).

(** The keys of sources and of modules are told apart. *)
Record typed req : Prop := {
  typed_source : sources (source_key req);
  typed_files : forall mf, mf ∈ Store_ManifestFiles req ->
    sources (reported_key mf) /\ modules (module_key mf) /\
    forall d, d ∈ File_Dependencies mf -> modules (dependency_key mf d) }.

(** Different sources, neither reported as the origin of a manifest of the
  other. *)
Definition separate req1 req2 : Prop :=
source_key req1 <> source_key req2 /\
forall mf, mf ∈ Store_ManifestFiles req2 -> reported_key mf <> source_key req1.

(** What a request puts. *)
Definition entries req : list (bkeys * bval) :=
match beta_GetProposed req with Ret (ns, es, _) => put_entries_of ns es | _ => [] end.

Lemma declares_kinds req a b e : typed req -> declares req (a, b, e) ->
declares req (b, b, []) /\
(a <> b -> (e = [] /\ sources a /\ modules b) \/
           (e = source_key req /\ modules a /\ modules b /\ declares req (e, a, []))).
Proof using.
intros [Hs Hf] [(m & Hm & [= -> -> ->])|(mf & Hmf & Hk)]; [split; [left; eauto|done]|].
destruct (Hf mf Hmf) as (Hrep & Hmod & Hdep).
assert (declares req (module_key mf, module_key mf, [])) as Hnode.
{ left. exists (module_key mf). split; [|done]. right. exists mf. split; [done|]. right. by left. }
destruct Hk as [[= -> -> ->]|[[= -> -> ->]|(d & Hd & [= -> -> ->])]]; split; [done|intros _; by left|done|intros _; by left|..].
- left. exists (dependency_key mf d). split; [|done]. right. exists mf. split; [done|]. right. right. eauto.
- intros _. right. split_and!; [done|done|by apply Hdep|]. right. exists mf. split; [done|by left].
Qed.

Lemma separate_undeclared req1 req2 k : typed req1 -> typed req2 -> separate req1 req2 ->
declares req2 k -> ~ own_key (source_key req1) k.
Proof using Hnonempty.
intros [Hs1 _] [Hs2 _] [Hne Hrep] Hd Ho.
destruct Hd as [(m & _ & ->)|(mf & Hmf & Hk)]; [by destruct Ho|].
destruct Hk as [->|[->|(d & _ & ->)]]; destruct Ho as [_ [[Ha He]|He]].
- by rewrite Ha in Hne.
- by apply (Hnonempty _ Hs1).
- by apply (Hrep mf).
- by apply (Hnonempty _ Hs1).
- by apply (Hnonempty _ Hs2).
- by rewrite He in Hne.
Qed.

Lemma own_one_source sk1 sk2 k : sources sk1 -> sources sk2 -> own_key sk1 k -> own_key sk2 k -> sk1 = sk2.
Proof using Hnonempty.
destruct k as [[a b] e]. intros H1 H2 [_ [[-> ->]| ->]] [_ [[Ha He]|He]]; [done|..].
- by destruct (Hnonempty _ H2).
- by destruct (Hnonempty _ H1).
- done.
Qed.

(** ** Putting and removing *)

Context req (Htyped : typed req) ns es src (Hprop : beta_GetProposed req = Ret (ns, es, src)).

Notation sk := (source_key req).

Lemma entries_proposed : entries req = put_entries_of ns es.
Proof using Hprop. unfold entries. by rewrite Hprop. Qed.

Lemma entries_keys k : k ∈ map fst (entries req) <-> declares req k.
Proof using Hprop. by rewrite entries_proposed, (proposed_entries _ _ _ _ _ Hprop). Qed.

Lemma entries_declared k : last_value k (entries req) = None <-> ~ declares req k.
Proof using Hprop. by rewrite last_value_None, entries_keys. Qed.

Lemma put_live v k : is_Some (put_entries (entries req) v !! k) <-> declares req k \/ is_Some (v !! k).
Proof using Hprop.
rewrite lookup_put_entries. rewrite <- entries_keys. destruct (last_value k (entries req)) as [c|] eqn:Hl.
- split; [|by eexists]. intros _. left. destruct (decide (k ∈ map fst (entries req))) as [Hin|Hno]; [done|].
  apply last_value_None in Hno. congruence.
- apply last_value_None in Hl. tauto.
Qed.

Lemma has_node_put v m : has_node v m -> has_node (put_entries (entries req) v) m.
Proof using Hprop. intros [k Hk]. exists k. apply put_live. by right. Qed.

Lemma linked_put v : linked_manifests sources modules v -> linked_manifests sources modules (put_entries (entries req) v).
Proof using Hprop Htyped.
intros [Hnode Hkind]. split; intros a b e [Hd|Hl]%put_live Hne.
- exists []. apply put_live. left. by apply (declares_kinds req a b e).
- by eapply has_node_put, Hnode.
- destruct (declares_kinds req a b e Htyped Hd) as [_ [?|(-> & ? & ? & ?)]]; [done|by left|].
  right. split_and!; [apply Htyped|done|done|]. apply put_live. by left.
- destruct (Hkind a b e Hl Hne) as [?|(? & ? & ? & ?)]; [by left|]. right. split_and!; [done..|]. apply put_live. by right.
Qed.

(** Removing edges of the source that it does not declare, with all those
  between modules among them. *)
Lemma linked_delete v D :
linked_manifests sources modules v -> (forall k, k ∈ D -> own_key sk k /\ ~ declares req k) ->
(forall a b, a <> b -> is_Some (v !! (a, b, sk)) -> (a, b, sk) ∈ D \/ declares req (a, b, sk)) ->
linked_manifests sources modules (delete_keys D v).
Proof using Hnonempty Htyped.
intros [Hnode Hkind] HD Hall.
assert (forall k, is_Some (delete_keys D v !! k) <-> k ∉ D /\ is_Some (v !! k)) as Hl.
{ intros k. rewrite lookup_delete_keys. case_decide; split; [by intros [? ?]|by intros [? _]|done|by intros [_ ?]]. }
split; intros a b e [Hno Hs]%Hl Hne.
- destruct (Hnode _ _ _ Hs Hne) as [e' He']. exists e'. apply Hl. split; [|done]. by intros [[? _] _]%HD.
- destruct (Hkind _ _ _ Hs Hne) as [?|(He & Ha & Hb & Hs2)]; [by left|]. right. split_and!; [done..|].
  apply Hl. split; [|done]. intros Hin. destruct (HD _ Hin) as [[_ [[-> _]|Heq]] Hnd].
  + destruct (Hall a b Hne Hs) as [|Hd]; [done|].
    destruct (declares_kinds _ _ _ _ Htyped Hd) as [_ [(Heq & _)|(_ & _ & _ & ?)]]; [done| |done].
    by apply (Hnonempty sk); [apply Htyped|].
  + by apply (Hnonempty sk); [apply Htyped|].
Qed.

(** What [Store] leaves on a linked graph, by keys. *)
Lemma stored_lookup v v' : linked_manifests sources modules v ->
stored_as req (entries req) v v' <->
forall k, v' !! k = match last_value k (entries req) with
                    | Some c => Some c
                    | None => if decide (own_key sk k) then None else v !! k
                    end.
Proof using Hkinds Hnonempty Htyped.
intros Hv. split; intros Hst k; specialize (Hst k); destruct (last_value k (entries req)) as [c|] eqn:Hl; [done| |done|].
- destruct Hst as [Hheld Hkeep]. rewrite (held_own _ _ Hkinds Hnonempty v _ k Hv (typed_source _ Htyped)) in Hheld, Hkeep.
  case_decide as Ho; [|by apply Hkeep; intros [? _]].
  destruct (v !! k) eqn:Hvk; [apply Hheld; split; [done|by eexists]|]. apply Hkeep. by intros [_ [? ?]].
- rewrite Hst, (held_own _ _ Hkinds Hnonempty v _ k Hv (typed_source _ Htyped)). split; [by intros [Ho _]; rewrite decide_True|].
  intros Hno. case_decide as Ho; [|done]. destruct (v !! k) eqn:Hvk; [|done]. destruct Hno. split; [done|by eexists].
Qed.

(** The store after the request alone. *)
Definition own_gone v : list bkeys :=
filter (fun k => own_key sk k /\ k ∉ map fst (entries req)) (map fst (map_to_list v)).

Lemma elem_of_own_gone v k : k ∈ own_gone v <-> own_key sk k /\ ~ declares req k /\ is_Some (v !! k).
Proof using Hprop.
unfold own_gone. rewrite list_elem_of_filter, entries_keys, list_elem_of_fmap.
assert ((exists y : bkeys * bval, k = y.1 /\ y ∈ map_to_list v) <-> is_Some (v !! k)) as ->; [|tauto].
split; [intros ([k' c] & -> & Hin%elem_of_map_to_list); by eexists|intros [c Hc]; exists (k, c); by rewrite elem_of_map_to_list].
Qed.

Lemma store_alone v : linked_manifests sources modules v -> exists v',
stored_as req (entries req) v v' /\ linked_manifests sources modules v'.
Proof using Hkinds Hnonempty Hprop Htyped.
intros Hv. exists (delete_keys (own_gone v) (put_entries (entries req) v)). split.
- apply stored_lookup; [done|]. intros k. rewrite lookup_delete_keys, lookup_put_entries.
  destruct (decide (k ∈ own_gone v)) as [(Ho & Hd & _)%elem_of_own_gone|Hno].
  + apply entries_declared in Hd. by rewrite Hd, decide_True.
  + destruct (last_value k _) eqn:Hl; [done|]. case_decide as Ho; [|done].
    destruct (v !! k) eqn:Hvk; [|done]. destruct Hno. apply elem_of_own_gone. split_and!; [done|by apply entries_declared|by eexists].
- apply linked_delete; [by apply linked_put|by intros k (? & ? & _)%elem_of_own_gone|].
  intros a b Hne [Hd|Hl]%put_live; [by right|]. destruct (decide ((a, b, sk) ∈ map fst (entries req))) as [Hd|Hd].
  + right. by apply entries_keys.
  + left. rewrite entries_keys in Hd. apply elem_of_own_gone. split_and!; [split; [done|by right]|done|done].
Qed.
End Requests.

(** ** What a handler does next *)

Definition put_done (h : beta_trace) : bool :=
  existsb (fun e => match e with (BPut _ _, Ret _) => true | _ => false end) h.
Definition delete_done (h : beta_trace) : bool :=
  existsb (fun e => match e with (BDelete _ _, Ret _) => true | _ => false end) h.

Lemma put_done_app h1 h2 : put_done (h1 ++ h2) = put_done h1 || put_done h2.
Proof. apply existsb_app. Qed.
Lemma delete_done_app h1 h2 : delete_done (h1 ++ h2) = delete_done h1 || delete_done h2.
Proof. apply existsb_app. Qed.

Lemma streams_no_writes h : streams h -> put_done h = false /\ delete_done h = false.
Proof.
  intros Hs. split; induction Hs as [|[c o] h Hc Hh IH]; simpl; [done| |done|]; rewrite IH; by destruct c.
Qed.

Lemma good_mono A B q h : (forall n res, A n res -> B n res) -> good A q h -> good B q h.
Proof.
  intros HAB. revert q. induction h as [|e h IH]; intros q; simpl; [done|]. intros [He Hh]. split; [|by apply IH].
  intros n res Heq Hq. by apply HAB, He.
Qed.

Lemma reads_own_key modules s1 s2 P n res : Node_Key s1 = Node_Key s2 -> reads_own modules s1 P n res -> reads_own modules s2 P n res.
Proof.
  intros Heq Hr Hn. rewrite <- Heq in Hn |- *. destruct (Hr Hn) as [H1 H2]. split; [|done].
  intros k. rewrite <- H1. setoid_rewrite own_edge_true. by rewrite Heq.
Qed.

Lemma reads_own_iff modules source P P' n res :
  (forall k, P k <-> P' k) -> reads_own modules source P n res -> reads_own modules source P' n res.
Proof.
  intros HP Hr Hn. destruct (Hr Hn) as [H1 H2]. split.
  - intros k. by rewrite H1, HP.
  - intros Heq m. by rewrite (H2 Heq), HP.
Qed.

Section Next.
Context `{ProtoCodec, MapRange} (modules : bytes -> Prop) (req : StoreRequest) (P : bkeys -> Prop).
Context (Hclosed : forall k, P k -> k.1.1 = source_key req \/ P (source_key req, k.1.1, [])).
Context (Hmodules : forall m, P (source_key req, m, []) -> modules m) (Hhashed : forall k, P k -> hashed k).
Context (Hproper : forall k, P k -> k.1.1 <> k.1.2).

(** The source of a request, as a node. *)
Definition source_node : Node := mkNode (source_key req) None.

Notation good := (good (reads_own modules source_node P)).

Definition next_is (h : beta_trace) (next : beta_call + outcome unit) : Prop :=
match next with
| inl (BPut ns es) => put_done h = false /\ delete_done h = false /\ exists src, beta_GetProposed req = Ret (ns, es, src)
| inl (BDelete ns' es') => put_done h = true /\ delete_done h = false /\ ns' = [] /\
    exists ns es src, beta_GetProposed req = Ret (ns, es, src) /\
      forall k, k ∈ map edge_key es' <-> P k /\ ~ declares req k
| inl (BNeighbors _) => False
| inl _ => put_done h = false /\ delete_done h = false
| inr (Ret _) => put_done h = true /\ delete_done h = true
| inr _ => True
end.

(** The calls after the reads. *)
Lemma next_write ns es src (stored : list Edge) pre h :
beta_GetProposed req = Ret (ns, es, src) -> (forall k, k ∈ map edge_key stored <-> P k) -> streams pre ->
next_is (pre ++ h) (next_beta_call (let! _ := on_error (bs_Put ns es) (fun _ => ErrInternal "failed to update proposal") in
  let! _ := on_error (bs_Delete [] (outdated es stored)) (fun _ => ErrInternal "failed to remove outdated edges") in
  ret tt) h).
Proof using Hhashed Hproper.
intros Hp Hst [Hpre1 Hpre2]%streams_no_writes.
assert (forall k, k ∈ map edge_key (outdated es stored) <-> P k /\ ~ declares req k) as Hout.
{ intros k. destruct (proposed_keys _ _ _ _ Hp) as (_ & _ & He). rewrite outdated_keys, Hst.
  - rewrite He. split; intros [HP Hd]; (split; [done|]); [|intros Hde; apply Hd; by right].
    intros [(m & _ & ->)|?]; [|done]. by destruct (Hproper _ HP).
  - apply Forall_forall. intros e Hin. apply (declares_hashed req). right. apply He, list_elem_of_fmap. eauto.
  - apply Forall_forall. intros e Hin. apply Hhashed, Hst, list_elem_of_fmap. eauto. }
unfold next_beta_call, bind, on_error, ret. cbn [bs_Put bs_Delete beta_replay_store]. unfold bind, beta_recall, done_, ret, panic.
cbn [suspended to_replay]. destruct h as [|[c o] h]; cbn [suspended].
{ rewrite app_nil_r. split_and!; [done|done|eauto]. }
case_decide as Hc; [subst c|done]. destruct o as [[|res]|e|why]; cbn [suspended to_replay]; [|done..].
destruct h as [|[c o] h]; cbn [suspended].
{ simpl. rewrite put_done_app, delete_done_app, Hpre2. simpl. rewrite orb_true_r. split_and!; eauto 10. }
case_decide as Hc; [subst c|done]. destruct o as [[|res]|e|why]; cbn [suspended to_replay]; [|done..].
simpl. rewrite put_done_app, delete_done_app. simpl. by rewrite !orb_true_r.
Qed.

(** A suspended handler keeps the call it waits for. *)
Lemma sticky_writes ns es (stored : list Edge) :
sticky (let! _ := on_error (bs_Put ns es) (fun _ => ErrInternal "failed to update proposal") in
  let! _ := on_error (bs_Delete [] (outdated es stored)) (fun _ => ErrInternal "failed to remove outdated edges") in
  ret tt).
Proof using.
intros s0 Hs. apply keeps_bind; [apply keeps_on_error, keeps_bind; [by apply sticky_recall|intros r; by apply sticky_done]|].
intros _. apply keeps_bind; [apply keeps_on_error, keeps_bind; [by apply sticky_recall|intros r; by apply sticky_done]|].
intros _. apply keeps_ret.
Qed.

Lemma Store_next h : good [] h -> next_is h (next_beta_call (Store req) h).
Proof using Hclosed Hmodules Hhashed Hproper.
intros Hg. unfold next_beta_call, Store, bind at 1, lift.
destruct (beta_GetProposed req) as [[[ns es] src]|e|why] eqn:Hp; [|done..].
assert (Node_Key src = source_key req) as Hsrc by apply (proposed_keys _ _ _ _ Hp).
unfold bind at 1, on_error at 1. destruct (GetStored src (mkBetaReplay h None)) as [o s] eqn:Hrun.
assert (match suspended s with
  | Some c => stream_call c = true /\ streams h
  | None => exists pre q', h = pre ++ to_replay s /\ streams pre /\ ConcurrentBeta.good (reads_own modules src P) q' (to_replay s) /\
      forall r, o = Ret r -> forall k, k ∈ map edge_key r.2 <-> P k end) as Hruns.
{ refine (runs_GetStored modules src P _ _ [] h o s _ Hrun); [by rewrite Hsrc|by rewrite Hsrc|].
  eapply good_mono; [|exact Hg]. intros n res. by apply reads_own_key. }
destruct (suspended s) as [c|] eqn:Hsus.
- assert (forall s', s' = s -> next_is h match suspended s' with Some c => inl c | None => inr (Ret tt) end) as Hend.
  { intros s' ->. rewrite Hsus. destruct Hruns as [Hc Hh]. apply streams_no_writes in Hh. by destruct c. }
  destruct o as [[nodes stored]|e|why]; [|by specialize (Hend s eq_refl); rewrite Hsus in Hend |- *..].
  destruct (bind _ _ s) as [o' s'] eqn:Hrest.
  assert (s' = s) as -> by (eapply (sticky_writes ns es stored s); [by eexists|reflexivity|exact Hrest]).
  specialize (Hend s eq_refl). by rewrite Hsus in Hend |- *.
- destruct Hruns as (pre & q' & -> & Hpre & _ & HP). destruct s as [h' sus]. simpl in *. subst sus.
  destruct o as [[nodes stored]|e|why]; [|done..].
  by apply (next_write ns es src stored pre h' Hp (HP (nodes, stored) eq_refl)).
Qed.
End Next.
