(* ===== verification/ConcurrentStore.v ===== *)
(** * Storing manifests at the same time: the interleaving

    The graph while several [Store]s run: some have put what they declare and
    have not yet removed what they no longer declare. *)

From S2P Require Import Prelude GoCodec Sql StoreBeta StoreBetaSpec KeysAlpha ManifestBeta ManifestBetaSpec.
From S2P Require Import ConcurrentBeta ConcurrentManifest.

(** ** One after the other *)

Inductive stored_serially `{ProtoCodec} : list StoreRequest -> bstore -> bstore -> Prop :=
| stored_none v : stored_serially [] v v
| stored_then order req ns es src v1 v2 v3 :
    stored_serially order v1 v2 -> beta_GetProposed req = Ret (ns, es, src) ->
    stored_as req (put_entries_of ns es) v2 v3 -> stored_serially (order ++ [req]) v1 v3.

Section Invariant.
Context `{ProtoCodec, MapRange} (sources modules : bytes -> Prop).
Context (Hkinds : forall k, sources k -> modules k -> False) (Hnonempty : forall k, sources k -> k <> []).
Context (reqs : list StoreRequest) (v0 : bstore).
Context (Htyped : forall i req, reqs !! i = Some req -> typed sources modules req).
Context (Hsep : forall i j r1 r2, i <> j -> reqs !! i = Some r1 -> reqs !! j = Some r2 -> separate r1 r2).
Context (Hlinked : linked_manifests sources modules v0) (Hsha : sha_keyed v0).
Implicit Types (req : StoreRequest) (v vs : bstore).

(** The edges a source had at the start. *)
Definition first_edges req (k : bkeys) : Prop := own_key (source_key req) k /\ is_Some (v0 !! k).

(** Of each request, whether it has put and whether it has removed. *)
Record together (order : list nat) v vs (flags : list (bool * bool)) : Prop := {
  tg_length : length flags = length reqs;
  tg_distinct : NoDup order;
  tg_order : forall i, i ∈ order <-> exists d, flags !! i = Some (true, d);
  tg_serial : stored_serially (in_order reqs order) v0 vs;
  tg_linked : linked_manifests sources modules v;
  tg_linked_serial : linked_manifests sources modules vs;
  tg_same : forall k, v !! k = vs !! k \/ (vs !! k = None /\ exists i req, reqs !! i = Some req /\
    flags !! i = Some (true, false) /\ first_edges req k /\ ~ declares req k);
  tg_own : forall i req (p d : bool) k, reqs !! i = Some req -> flags !! i = Some (p, d) -> own_key (source_key req) k ->
    is_Some (v !! k) <-> if p then declares req k \/ (d = false /\ is_Some (v0 !! k)) else is_Some (v0 !! k);
  tg_own_serial : forall i req d k, reqs !! i = Some req -> flags !! i = Some (true, d) ->
    own_key (source_key req) k -> is_Some (vs !! k) <-> declares req k }.

Lemma together_start : together [] v0 v0 (map (fun _ : StoreRequest => (false, false)) reqs).
Proof using Hlinked.
assert (forall i p d, map (fun _ : StoreRequest => (false, false)) reqs !! i = Some (p, d) -> p = false) as Hf.
{ intros i p d. rewrite list_lookup_fmap. destruct (reqs !! i); simpl; [by intros [= <- _]|done]. }
split; try done; [by rewrite length_map|apply NoDup_nil_2|..].
- intros i. split; [by intros ?%elem_of_nil|]. by intros [d ?%Hf].
- constructor.
- by left.
- intros i req p d k _ ->%Hf _. done.
- by intros i req d k _ ?%Hf.
Qed.

(** Another source's edges are neither declared nor removed. *)
Lemma other_undeclared i j req req' k : i <> j -> reqs !! i = Some req -> reqs !! j = Some req' ->
own_key (source_key req) k -> ~ declares req' k /\ ~ own_key (source_key req') k.
Proof using Hnonempty Htyped Hsep.
intros Hne Hi Hj Ho. pose proof (Htyped _ _ Hi) as Ti. pose proof (Htyped _ _ Hj) as Tj. split.
- intros Hd. by apply (separate_undeclared _ _ Hnonempty req req' k Ti Tj (Hsep _ _ _ _ Hne Hi Hj) Hd).
- intros Ho'. apply (proj1 (Hsep _ _ _ _ Hne Hi Hj)).
  by apply (own_one_source _ Hnonempty _ _ k (typed_source _ _ _ Ti) (typed_source _ _ _ Tj)).
Qed.

Lemma flags_insert (flags : list (bool * bool)) i j f f' : <[i := f]> flags !! j = Some f' ->
(i = j /\ f' = f) \/ (i <> j /\ flags !! j = Some f').
Proof using. intros [(-> & -> & _)|[? ?]]%list_lookup_insert_Some; auto. Qed.

Section Step.
Context order v vs flags (Htg : together order v vs flags).
Context i req (Hreq : reqs !! i = Some req) ns es src (Hprop : beta_GetProposed req = Ret (ns, es, src)).

Notation sk := (source_key req).

Lemma together_put : flags !! i = Some (false, false) -> exists vs',
together (order ++ [i]) (put_entries (put_entries_of ns es) v) vs' (<[i := (true, false)]> flags).
Proof using Hkinds Hnonempty Htyped Hsep Htg Hreq Hprop.
intros Hfl. pose proof (Htyped _ _ Hreq) as Ht. rewrite <- (entries_proposed req ns es src Hprop).
destruct (store_alone _ _ Hkinds Hnonempty req Ht ns es src Hprop vs (tg_linked_serial _ _ _ _ Htg)) as (vs' & Hst & Hlvs').
pose proof (proj1 (stored_lookup _ _ Hkinds Hnonempty req Ht vs vs' (tg_linked_serial _ _ _ _ Htg)) Hst) as Hvs'.
assert (forall k, last_value k (entries req) = None <-> ~ declares req k) as Hlast by apply (entries_declared req ns es src Hprop).
assert (forall v k, is_Some (put_entries (entries req) v !! k) <-> declares req k \/ is_Some (v !! k)) as Hput
  by apply (put_live req ns es src Hprop).
assert (<[i := (true, false)]> flags !! i = Some (true, false)) as Hnew
  by (apply list_lookup_insert_eq; by eapply lookup_lt_Some).
exists vs'. split.
- rewrite length_insert. apply Htg.
- apply NoDup_app. split_and!; [apply Htg| |apply NoDup_singleton].
  intros j Hj ->%list_elem_of_singleton. apply (tg_order _ _ _ _ Htg) in Hj as [d Hd]. congruence.
- intros j. rewrite elem_of_app, list_elem_of_singleton, (tg_order _ _ _ _ Htg). split.
  + intros [[d Hd]| ->]; [|eauto]. exists d. rewrite list_lookup_insert_ne; [done|congruence].
  + intros [d [[<- _]|[_ Hd]]%flags_insert]; eauto.
- rewrite (in_order_snoc _ _ _ _ Hreq). econstructor; [apply Htg|exact Hprop|].
  by rewrite (entries_proposed req ns es src Hprop) in Hst.
- by apply (linked_put _ _ req Ht ns es src Hprop), Htg.
- done.
- intros k. rewrite lookup_put_entries, Hvs'. destruct (last_value k (entries req)) as [c|] eqn:Hl; [by left|].
  apply Hlast in Hl. case_decide as Ho.
  + destruct (v !! k) eqn:Hvk; [|by left]. right. split; [done|]. exists i, req. split_and!; [done..| |done].
    split; [done|]. apply (tg_own _ _ _ _ Htg i req false false k Hreq Hfl Ho). by eexists.
  + destruct (tg_same _ _ _ _ Htg k) as [?|(Hn & j & req' & Hj & Hfj & Hk)]; [by left|]. right. split; [done|].
    exists j, req'. split_and!; [done| |apply Hk..]. rewrite list_lookup_insert_ne; [done|congruence].
- intros j req' p d k Hj [[<- [= -> ->]]|[Hne Hfj]]%flags_insert Ho; rewrite Hput.
  + assert (req' = req) as -> by congruence. rewrite (tg_own _ _ _ _ Htg i req false false k Hreq Hfl Ho). tauto.
  + destruct (other_undeclared j i req' req k) as [Hd _]; [done..|].
    rewrite <- (tg_own _ _ _ _ Htg j req' p d k Hj Hfj Ho). tauto.
- intros j req' d k Hj [[<- [= ->]]|[Hne Hfj]]%flags_insert Ho; rewrite Hvs'.
  + assert (req' = req) as -> by congruence. destruct (last_value k (entries req)) eqn:Hl.
    * split; [|by eexists]. intros _. destruct (decide (k ∈ map fst (entries req))) as [Hin|Hno].
      { by apply (entries_keys req ns es src Hprop). }
      apply last_value_None in Hno. congruence.
    * rewrite decide_True by done. apply Hlast in Hl. split; [by intros [? ?]|done].
  + destruct (other_undeclared j i req' req k) as [Hd Hno]; [done..|].
    rewrite (proj2 (Hlast k) Hd), decide_False by done. by apply (tg_own_serial _ _ _ _ Htg j req' d).
Qed.

Lemma together_delete (es' : list Edge) : flags !! i = Some (true, false) ->
(forall k, k ∈ map edge_key es' <-> first_edges req k /\ ~ declares req k) ->
together order (delete_keys (delete_keys_of [] es') v) vs (<[i := (true, true)]> flags).
Proof using Hkinds Hnonempty Htyped Hsep Htg Hreq Hprop.
intros Hfl Hes. pose proof (Htyped _ _ Hreq) as Ht.
assert (forall k, k ∈ delete_keys_of [] es' <-> first_edges req k /\ ~ declares req k) as HD.
{ intros k. unfold delete_keys_of. rewrite app_nil_r. apply Hes. }
assert (forall k, Decision (declares req k)) as Hdec.
{ intros k. destruct (decide (k ∈ map fst (entries req))) as [Hd|Hd]; [left|right];
    by rewrite (entries_keys req ns es src Hprop) in Hd. }
split; try apply Htg.
- rewrite length_insert. apply Htg.
- intros j. rewrite (tg_order _ _ _ _ Htg). split.
  + intros [d Hd]. destruct (decide (j = i)) as [->|Hne]; [exists true|exists d].
    * apply list_lookup_insert_eq. by eapply lookup_lt_Some.
    * by rewrite list_lookup_insert_ne.
  + intros [d [[<- _]|[_ Hd]]%flags_insert]; eauto.
- apply (linked_delete _ _ Hnonempty req Ht); [apply Htg|by intros k [[? _] ?]%HD|].
  intros a b Hne Hl. assert (own_key sk (a, b, sk)) as Ho by (split; [done|by right]).
  apply (tg_own _ _ _ _ Htg i req true false _ Hreq Hfl Ho) in Hl as [Hd|[_ Hl]]; [by right|].
  destruct (Hdec (a, b, sk)); [by right|]. left. by apply HD.
- intros k. rewrite lookup_delete_keys. destruct (decide (k ∈ delete_keys_of [] es')) as [[[Ho Hl] Hd]%HD|Hno].
  + left. symmetry. apply eq_None_not_Some. by rewrite (tg_own_serial _ _ _ _ Htg i req false k Hreq Hfl Ho).
  + destruct (tg_same _ _ _ _ Htg k) as [?|(Hn & j & req' & Hj & Hfj & Hk)]; [by left|]. right. split; [done|].
    exists j, req'. split_and!; [done| |apply Hk..]. rewrite list_lookup_insert_ne; [done|].
    intros <-. assert (req' = req) as -> by congruence. apply Hno. by apply HD.
- intros j req' p d k Hj Hf Ho. rewrite lookup_delete_keys. apply flags_insert in Hf as [[<- [= -> ->]]|[Hne Hfj]].
  + assert (req' = req) as -> by congruence.
    destruct (decide (k ∈ delete_keys_of [] es')) as [[_ Hd]%HD|Hno].
    * split; [by intros [? ?]|]. by intros [?|[? _]].
    * rewrite (tg_own _ _ _ _ Htg i req true false k Hreq Hfl Ho). split; [|by intros [?|[? _]]; [left|]].
      intros [?|[_ Hl]]; [by left|]. destruct (Hdec k); [by left|]. destruct Hno. by apply HD.
  + destruct (other_undeclared j i req' req k) as [_ Hno]; [done..|].
    rewrite decide_False by (by intros [[? _] _]%HD). by apply (tg_own _ _ _ _ Htg j req').
- intros j req' d k Hj Hf. apply flags_insert in Hf as [[<- [= ->]]|[_ Hfj]]; by eapply (tg_own_serial _ _ _ _ Htg).
Qed.
End Step.
End Invariant.

(** ** The system *)

Section System.
Context `{ProtoCodec, MapRange} {W : Type} `{BetaStoreSpec W} (sources modules : bytes -> Prop).
Context (Hkinds : forall k, sources k -> modules k -> False) (Hnonempty : forall k, sources k -> k <> []).
Context (reqs : list StoreRequest) (v0 : bstore).
Context (Htyped : forall i req, reqs !! i = Some req -> typed sources modules req).
Context (Hsep : forall i j r1 r2, i <> j -> reqs !! i = Some r1 -> reqs !! j = Some r2 -> separate r1 r2).
Context (Hlinked : linked_manifests sources modules v0) (Hsha : sha_keyed v0).

Definition store_handler (req : StoreRequest) : M beta_replay unit := Store req.

Notation handlers := (map store_handler reqs).
Notation together := (together sources modules reqs v0).
Notation mine req := (reads_own modules (source_node req) (first_edges v0 req)).

Definition flags_of (ses : session) : bool * bool := (put_done (trace ses), delete_done (trace ses)).

(** What a session has read, and will receive, while it has not put. *)
Definition session_ok (req : StoreRequest) (ses : session) : Prop :=
good (mine req) [] (trace ses) /\
(put_done (trace ses) = false -> exists rs, queue_after [] (trace ses) = rs ++ unanswered ses /\
   Forall2 (fun r res => forall n, r = from_request n -> mine req n res) rs (unreceived ses)).

Definition stores_inv (s : beta_served W) : Prop :=
exists order v vs, brep (beta_world s) v /\ together order v vs (map flags_of (sessions s)) /\
  forall i req ses, reqs !! i = Some req -> sessions s !! i = Some ses -> session_ok req ses.

Lemma stores_start w : brep w v0 -> stores_inv (beta_start handlers w).
Proof using Hlinked.
intros Hr. exists [], v0, v0. split; [done|]. split.
- simpl. rewrite !map_map. by apply together_start.
- intros i req ses _ Hi. simpl in Hi. rewrite map_map, list_lookup_fmap in Hi.
  destruct (reqs !! i); [|done]. injection Hi as <-. split; [done|]. intros _. by exists [].
Qed.

(** The next call of a request. *)
Lemma next_store_call i req h : reqs !! i = Some req -> good (mine req) [] h ->
next_is req (first_edges v0 req) h (next_beta_call (store_handler req) h).
Proof using Hkinds Hnonempty Htyped Hlinked Hsha.
intros Hi Hg. pose proof (typed_source _ _ _ (Htyped _ _ Hi)) as Hs. apply (Store_next modules); [| | | |done].
- intros k [Ho Hl]. by apply (own_closed _ _ Hkinds Hnonempty v0).
- intros m [Ho Hl]. by apply (own_modules sources modules Hnonempty v0 (source_key req)).
- intros k [_ Hl]. by apply Hsha.
- intros [[a b] e] [[Hne _] _]. done.
Qed.

Lemma flags_same (ss : list session) i ses ses' :
ss !! i = Some ses -> flags_of ses' = flags_of ses -> map flags_of (<[i := ses']> ss) = map flags_of ss.
Proof using.
intros Hi Heq. change (map flags_of) with (fmap (M := list) flags_of). rewrite list_fmap_insert, Heq.
apply list_insert_id. by rewrite list_lookup_fmap, Hi.
Qed.

(** A session that has neither put nor removed anew. *)
Lemma stores_inv_session (s : beta_served W) i req ses ses' w' v order vs :
brep w' v -> together order v vs (map flags_of (sessions s)) ->
(forall i req ses, reqs !! i = Some req -> sessions s !! i = Some ses -> session_ok req ses) ->
reqs !! i = Some req -> sessions s !! i = Some ses -> flags_of ses' = flags_of ses -> session_ok req ses' ->
stores_inv (mkBetaServed w' (<[i := ses']> (sessions s))).
Proof using.
intros Hr Htg Hall Hreq Hi Heq Hok. exists order, v, vs. split; [done|]. split.
- cbn [sessions]. by rewrite (flags_same _ _ _ _ Hi Heq).
- intros j req' ses2 Hj [(-> & -> & _)|[_ Hl]]%list_lookup_insert_Some; [congruence|by eapply Hall].
Qed.

Lemma session_ok_stream req ses c o ses' : session_ok req ses -> put_done (trace ses) = false ->
stream_step ses c o ses' -> session_ok req ses' /\ flags_of ses' = flags_of ses.
Proof using.
intros [Hg Hq] Hp Hstep. destruct (Hq Hp) as (rs & Heq & Hrs). unfold session_ok, flags_of.
destruct Hstep as [|r|res rest Hres| |c e Hc]; cbn [trace unanswered unreceived];
  rewrite good_snoc, queue_after_snoc, put_done_app, delete_done_app; cbn; rewrite ?orb_false_r.
- split; [|done]. split; [split; [done|by intros n res [=]]|]. intros _. by exists [].
- split; [|done]. split; [split; [done|by intros n res [=]]|]. intros _. exists rs. by rewrite Heq, app_assoc.
- split; [|done]. rewrite Hres in Hrs. apply Forall2_cons_inv_r in Hrs as (r & rs' & Hr & Hrs' & ->).
  rewrite Heq. split; [split; [done|]|intros _; by exists rs']. intros n res' [= <-] [= Hn]. by apply Hr.
- split; [|done]. split; [split; [done|by intros n res [=]]|]. intros _. by exists [].
- destruct c; try discriminate Hc; cbn; rewrite ?orb_false_r; (split; [|done]);
    (split; [split; [done|by intros n res [=]]|]); intros _; by exists [].
Qed.

(** A call of the store that fails changes nothing but the trace. *)
Lemma session_ok_failed req ses c (e : error) : session_ok req ses -> stream_call c = false ->
let ses' := mkSession (trace ses ++ [(c, Fail e)]) (unanswered ses) (unreceived ses) (answering ses) in
session_ok req ses' /\ flags_of ses' = flags_of ses.
Proof using.
intros [Hg Hq] Hc. unfold session_ok, flags_of. cbn [trace unanswered unreceived].
rewrite good_snoc, queue_after_snoc, put_done_app, delete_done_app.
destruct c; try discriminate Hc; cbn; rewrite !orb_false_r; (split; [|done]);
  (split; [split; [done|by intros n res [=]]|done]).
Qed.

Lemma session_ok_wrote req ses c : session_ok req ses -> stream_call c = false ->
let ses' := mkSession (trace ses ++ [(c, Ret BDone)]) (unanswered ses) (unreceived ses) (answering ses) in
put_done (trace ses') = true -> session_ok req ses'.
Proof using.
intros [Hg _] Hc ses' Hp. split; [|congruence]. unfold ses'. cbn [trace]. rewrite good_snoc.
split; [done|]. by intros n res [= ->].
Qed.

(** A step of the graph, taken by one session. *)
Lemma stores_inv_wrote ss i req ses c w' order v' vs' f :
brep w' v' -> together order v' vs' (<[i := f]> (map flags_of ss)) ->
(forall i req ses, reqs !! i = Some req -> ss !! i = Some ses -> session_ok req ses) ->
reqs !! i = Some req -> ss !! i = Some ses -> stream_call c = false ->
let ses' := mkSession (trace ses ++ [(c, Ret BDone)]) (unanswered ses) (unreceived ses) (answering ses) in
flags_of ses' = f -> put_done (trace ses') = true -> stores_inv (mkBetaServed w' (<[i := ses']> ss)).
Proof using.
intros Hr Htg Hall Hreq Hi Hc ses' Hf Hp. exists order, v', vs'. split; [done|]. split.
- cbn [sessions]. change (map flags_of) with (fmap (M := list) flags_of). by rewrite list_fmap_insert, Hf.
- intros j req' ses2 Hj [(<- & Heq & _)|[_ Hl]]%list_lookup_insert_Some; [|by eapply Hall].
  assert (req' = req) as -> by congruence. rewrite <- Heq. apply session_ok_wrote; [by eapply Hall|done..].
Qed.

Lemma stores_step i s s' : beta_serve_by handlers i s s' -> stores_inv s -> stores_inv s'.
Proof using All.
intros Hstep (order & v & vs & Hr & Htg & Hall).
assert (forall ses, sessions s !! i = Some ses -> exists req, reqs !! i = Some req) as Hreqs.
{ intros ses Hi%lookup_lt_Some. apply lookup_lt_is_Some. pose proof (tg_length _ _ _ _ _ _ _ _ Htg) as Hlen.
  rewrite length_map in Hlen. by rewrite <- Hlen. }
destruct Hstep as [handler ses c m o w w' ss Hh Hi Hc Hm Hrun Hnp|handler ses c o ses' w ss Hh Hi Hc Hstr
  |ses r rest res w w' ss Hi Ha Hu Hrun|ses r rest e w w' ss Hi Ha Hu Hrun]; cbn [beta_world sessions] in *;
  destruct (Hreqs _ Hi) as [req Hreq]; pose proof (Hall _ _ _ Hreq Hi) as Hok.
- rewrite list_lookup_fmap, Hreq in Hh. injection Hh as <-.
  pose proof (next_store_call i req _ Hreq (proj1 Hok)) as Hnext. rewrite Hc in Hnext.
  assert (stream_call c = false -> forall e w', o = Fail e -> brep w' v -> stores_inv (mkBetaServed w'
    (<[i := mkSession (trace ses ++ [(c, o)]) (unanswered ses) (unreceived ses) (answering ses)]> ss))) as Hfail.
  { intros Hcs e w2 -> Hr2. destruct (session_ok_failed req ses c e Hok Hcs) as [Hok' Hf].
    by eapply (stores_inv_session (mkBetaServed w ss)). }
  assert (map flags_of ss !! i = Some (flags_of ses)) as Hfl by by rewrite list_lookup_fmap, Hi.
  destruct c as [ns es|ns es|r| |r| |]; try discriminate Hm; injection Hm as <-; unfold bind, ret in Hrun.
  + destruct Hnext as (Hp & Hd & src & Hprop). destruct (bs_Put ns es w) as [[[]|e|why] w1] eqn:Hput; injection Hrun as <- <-.
    * assert (flags_of ses = (false, false)) as Hf by (unfold flags_of; by rewrite Hp, Hd). rewrite Hf in Hfl.
      destruct (together_put _ _ Hkinds Hnonempty _ _ Htyped Hsep _ _ _ _ Htg _ _ Hreq _ _ _ Hprop Hfl) as (vs' & Htg').
      eapply stores_inv_wrote; [by eapply bput_spec|exact Htg'|exact Hall|exact Hreq|exact Hi|done|..].
      -- unfold flags_of. cbn [trace]. rewrite put_done_app, delete_done_app, Hp, Hd. done.
      -- cbn [trace]. rewrite put_done_app. apply orb_true_r.
    * apply (Hfail eq_refl e); [done|by eapply bput_fail].
    * by destruct (Hnp why).
  + destruct Hnext as (Hp & Hd & -> & ns2 & es2 & src & Hprop & Hes).
    destruct (bs_Delete [] es w) as [[[]|e|why] w1] eqn:Hdel; injection Hrun as <- <-.
    * assert (flags_of ses = (true, false)) as Hf by (unfold flags_of; by rewrite Hp, Hd). rewrite Hf in Hfl.
      pose proof (together_delete _ _ Hkinds Hnonempty _ _ Htyped Hsep _ _ _ _ Htg _ _ Hreq _ _ _ Hprop _ Hfl Hes) as Htg'.
      eapply stores_inv_wrote; [by eapply bdelete_spec|exact Htg'|exact Hall|exact Hreq|exact Hi|done|..].
      -- unfold flags_of. cbn [trace]. rewrite put_done_app, delete_done_app, Hp, Hd. done.
      -- cbn [trace]. by rewrite put_done_app, Hp.
    * apply (Hfail eq_refl e); [done|by eapply bdelete_fail].
    * by destruct (Hnp why).
  + done.
- rewrite list_lookup_fmap, Hreq in Hh. injection Hh as <-.
  pose proof (next_store_call i req _ Hreq (proj1 Hok)) as Hnext. rewrite Hc in Hnext.
  assert (put_done (trace ses) = false) as Hp.
  { destruct Hstr as [| | | |c e Hs]; try apply Hnext. destruct c; try done; apply Hnext. }
  destruct (session_ok_stream req ses c o ses' Hok Hp Hstr) as [Hok' Hf].
  by eapply (stores_inv_session (mkBetaServed w ss)).
- eapply (stores_inv_session (mkBetaServed w ss)); [|exact Htg|exact Hall|exact Hreq|exact Hi|done|].
  + by eapply bneighbors_frame.
  + destruct Hok as [Hg Hq]. split; [done|]. cbn [trace unanswered unreceived]. intros Hp.
    destruct (Hq Hp) as (rs & Heq & Hrs). exists (rs ++ [r]). split; [by rewrite Heq, Hu, <- app_assoc|].
    apply Forall2_app; [done|]. constructor; [|constructor]. intros n ->.
    pose proof (typed_source _ _ _ (Htyped _ _ Hreq)) as Hs.
    eapply reads_own_iff; [|apply (neighbors_read_own _ _ Hkinds Hnonempty v (source_node req) n res
      (tg_linked _ _ _ _ _ _ _ _ Htg) Hs), (bneighbors_from _ _ _ _ _ Hr Hrun)].
    intros k. unfold first_edges. cbn [Node_Key source_node].
    assert (own_key (source_key req) k -> is_Some (v !! k) <-> is_Some (v0 !! k)) as Hk; [|tauto].
    intros Ho. apply (tg_own _ _ _ _ _ _ _ _ Htg i req false (delete_done (trace ses)) k Hreq); [|done].
    by rewrite list_lookup_fmap, Hi; unfold flags_of; simpl; rewrite Hp.
- eapply (stores_inv_session (mkBetaServed w ss)); [|exact Htg|exact Hall|exact Hreq|exact Hi|done|].
  + by eapply bneighbors_frame.
  + exact Hok.
Qed.

Lemma stores_reachable w s : brep w v0 -> rtc (beta_serve_step handlers) (beta_start handlers w) s -> stores_inv s.
Proof using All.
intros Hr Hs. eapply (rtc_preserve stores_inv); [|by apply stores_start|exact Hs].
intros s1 s2 [i Hstep]. by apply (stores_step i).
Qed.
End System.
