(* ===== verification/ConcurrentEnds.v ===== *)
(** * Storing manifests at the same time comes to an end

    By the trees of the handlers: no run goes on for ever, whatever fails; and
    where nothing fails, a handler that waits has something to wait for. *)

From S2P Require Import Prelude Sql StoreBeta StoreBetaSpec ManifestBeta ManifestBetaSpec ConcurrentBeta CallTree.
From S2P Require Import ConcurrentStore.

(** ** Every run ends *)

Definition tree_step {A} (t t' : call_tree A) : Prop := exists c after o, t = Ask c after /\ t' = after o.

Lemma tree_ends {A} (t : call_tree A) : sn tree_step t.
Proof.
  induction t as [o|c after IH]; constructor.
  - by intros t' (c & after & o' & [=] & _).
  - intros t' (c' & after' & o & [= <- <-] & ->). apply IH.
Qed.

(** A session calls, or its stream has less to answer. *)
Definition session_step {A} (x y : call_tree A * nat) : Prop := tree_step x.1 y.1 \/ (x.1 = y.1 /\ y.2 < x.2).

Lemma session_ends {A} (x : call_tree A * nat) : sn session_step x.
Proof.
  destruct x as [t n]. revert n. induction (tree_ends t) as [t _ IHt].
  intros n. induction (lt_wf n) as [n _ IHn]. constructor.
  intros [t' n'] [Ht|[Heq Hn]]; simpl in *; [by apply IHt|]. subst t'. by apply IHn.
Qed.

Lemma stream_step_trace s c o s' : stream_step s c o s' -> trace s' = trace s ++ [(c, o)].
Proof. by intros []. Qed.

Section Ends.
Context `{ProtoCodec, MapRange} {W : Type} `{BetaStoreOps W} (reqs : list StoreRequest).

Notation handlers := (map store_handler reqs).

Definition store_tree (req : StoreRequest) : call_tree unit := proj1_sig (tree_store req).

Lemma store_tree_stands req : stands_for (store_handler req) (store_tree req).
Proof using. exact (proj2_sig (tree_store req)). Qed.

Definition left_of (req : StoreRequest) (ses : session) : call_tree unit * nat :=
((walk_tree (store_tree req) (trace ses)).1, length (unanswered ses) + if answering ses then 1 else 0).

Definition on_course (ss : list session) : Prop := Forall2 (fun req ses => follows (store_tree req) (trace ses)) reqs ss.

(** A session's next call is that of its tree. *)
Lemma session_calls ss i handler ses c : on_course ss -> handlers !! i = Some handler -> ss !! i = Some ses ->
next_beta_call handler (trace ses) = inl c -> exists req after, reqs !! i = Some req /\
  (walk_tree (store_tree req) (trace ses)).1 = Ask c after /\ forall o,
  follows (store_tree req) (trace ses ++ [(c, o)]) /\ walk_tree (store_tree req) (trace ses ++ [(c, o)]) = (after o, []).
Proof using.
intros Hon Hh Hi Hc. rewrite list_lookup_fmap in Hh. destruct (reqs !! i) as [req|] eqn:Hreq; [|done]. injection Hh as <-.
pose proof (Forall2_lookup_lr _ _ _ _ _ _ Hon Hreq Hi) as Hf.
rewrite (tree_next _ _ _ (store_tree_stands req) Hf) in Hc.
destruct (walk_tree (store_tree req) (trace ses)) as [[o|c' after] h'] eqn:Hw; [done|]. injection Hc as ->.
exists req, after. split; [done|]. split; [by rewrite Hw|]. intros o. by apply (walk_snoc _ _ _ _ h').
Qed.

Lemma session_moves ss i req ses ses' : on_course ss -> reqs !! i = Some req -> ss !! i = Some ses ->
follows (store_tree req) (trace ses') -> session_step (left_of req ses) (left_of req ses') ->
on_course (<[i := ses']> ss) /\
one_moves session_step (zip_with left_of reqs ss) (zip_with left_of reqs (<[i := ses']> ss)).
Proof using.
intros Hon Hreq Hi Hf Hstep. split.
- unfold on_course. rewrite <- (list_insert_id reqs i req) by done. by apply Forall2_insert.
- exists i, (left_of req ses), (left_of req ses'). split_and!; [|done|].
  + apply lookup_zip_with_Some. eauto.
  + rewrite insert_zip_with. by rewrite (list_insert_id reqs i req).
Qed.

Lemma serve_moves s s' : beta_serve_step handlers s s' -> on_course (sessions s) ->
on_course (sessions s') /\ one_moves session_step (zip_with left_of reqs (sessions s)) (zip_with left_of reqs (sessions s')).
Proof using.
intros [i Hstep] Hon. destruct Hstep as [handler ses c m o w w' ss Hh Hi Hc Hm Hrun Hnp|handler ses c o ses' w ss Hh Hi Hc Hstr
  |ses r rest res w w' ss Hi Ha Hu Hrun|ses r rest e w w' ss Hi Ha Hu Hrun]; cbn [sessions] in *.
- destruct (session_calls _ _ _ _ _ Hon Hh Hi Hc) as (req & after & Hreq & Hw & Hnext). destruct (Hnext o) as [Hf Hw'].
  apply (session_moves _ _ req ses); [done..|]. left. unfold left_of. cbn [trace fst]. rewrite Hw, Hw'. by exists c, after, o.
- destruct (session_calls _ _ _ _ _ Hon Hh Hi Hc) as (req & after & Hreq & Hw & Hnext). destruct (Hnext o) as [Hf Hw'].
  apply stream_step_trace in Hstr. rewrite <- Hstr in Hf, Hw'.
  apply (session_moves _ _ req ses); [done..|]. left. unfold left_of. cbn [fst]. rewrite Hw, Hw'. by exists c, after, o.
- destruct (Forall2_lookup_r _ _ _ _ _ Hon Hi) as (req & Hreq & Hf).
  apply (session_moves _ _ req ses); [done..|]. right. split; [done|]. unfold left_of. cbn. rewrite Ha, Hu. simpl. lia.
- destruct (Forall2_lookup_r _ _ _ _ _ Hon Hi) as (req & Hreq & Hf).
  apply (session_moves _ _ req ses); [done..|]. right. split; [done|]. unfold left_of. cbn. rewrite Ha, Hu. simpl. lia.
Qed.

Lemma stores_end (w : W) : sn (beta_serve_step handlers) (beta_start handlers w).
Proof using.
apply (sn_simulate _ (one_moves session_step)
  (fun s l => on_course (sessions s) /\ l = zip_with left_of reqs (sessions s)) _
  (zip_with left_of reqs (sessions (beta_start handlers w)))).
- intros s s' l [Hon ->] Hstep. destruct (serve_moves _ _ Hstep Hon) as [Hon' Hm]. by eexists.
- apply sn_one_moves, Forall_forall. intros x _. apply session_ends.
- split; [|done]. unfold on_course. simpl. rewrite map_map. clear. induction reqs as [|req l IH]; [constructor|].
  constructor; [|done]. simpl. by destruct (store_tree req).
Qed.
End Ends.

(** ** Where nothing fails, every handler returns *)

Section Flow.
Context `{ProtoCodec, MapRange} {W : Type} `{BetaStoreTotal W} (reqs : list StoreRequest).
Context (Hproposes : forall req, req ∈ reqs -> exists ns es src, beta_GetProposed req = Ret (ns, es, src)).

Notation handlers := (map store_handler reqs).

(** No call has failed. *)
Definition unfailed (s : beta_served W) : Prop :=
forall i ses, sessions s !! i = Some ses -> Forall (fun e => exists r, e.2 = Ret r) (trace ses).

Definition flow_step (s s' : beta_served W) : Prop := beta_serve_step handlers s s' /\ unfailed s'.

Definition stream_of (ses : session) : option nat :=
if answering ses then Some (length (unreceived ses) + length (unanswered ses)) else None.

(** A session, its handler, and its stream. *)
Definition flowing (req : StoreRequest) (ses : session) : Prop :=
follows (store_tree req) (trace ses) /\
live (stream_of ses) (walk_tree (store_tree req) (trace ses)).1 (fun _ _ => True) /\
Forall (fun r => exists n, r = from_request n) (unanswered ses).

Definition flow_inv (s : beta_served W) : Prop :=
(exists v, brep (beta_world s) v) /\ unfailed s /\ Forall2 flowing reqs (sessions s).

Lemma flow_start w v : brep w v -> flow_inv (beta_start handlers w).
Proof.
intros Hr. split; [by eexists|]. simpl. rewrite map_map. split.
- intros i ses Hi. cbn in Hi. rewrite map_map, list_lookup_fmap in Hi. destruct (reqs !! i); [|done]. injection Hi as <-. constructor.
- apply Forall2_fmap_r, Forall_Forall2_diag, Forall_forall. intros req (ns & es & src & Hp)%Hproposes.
  pose proof (live_store req ns es src Hp) as Hl. fold (store_tree req) in Hl.
  split; [by destruct (store_tree req)|]. split; [|constructor]. cbn [trace stream_of answering].
  by destruct (store_tree req).
Qed.

(** What a call that was answered as it should be leaves. *)
Lemma flowing_called req ses c after r ses' : flowing req ses ->
(walk_tree (store_tree req) (trace ses)).1 = Ask c after -> right_reply c r ->
trace ses' = trace ses ++ [(c, Ret r)] -> stream_of ses' = stream_after (stream_of ses) c ->
Forall (fun r => exists n, r = from_request n) (unanswered ses') -> flowing req ses'.
Proof.
intros (Hf & Hl & Hu) Hw Hr Ht Hs Hu'. destruct (walk_tree (store_tree req) (trace ses)) as [t h'] eqn:Hwalk.
simpl in Hw. subst t. destruct (walk_snoc _ _ _ _ _ (Ret r) Hf Hwalk) as [Hf' Hw']. rewrite <- Ht in Hf', Hw'.
split; [done|]. split; [|done]. rewrite Hw', Hs. cbn [fst]. by apply Hl.
Qed.

Lemma flowing_course (ss : list session) : Forall2 flowing reqs ss -> on_course reqs ss.
Proof. intros Hall. eapply Forall2_impl; [exact Hall|]. by intros req ses (? & _). Qed.

(** One session moves. *)
Lemma flow_inv_insert s i req ses ses' w' v :
flow_inv s -> reqs !! i = Some req -> sessions s !! i = Some ses -> flowing req ses' -> brep w' v ->
unfailed (mkBetaServed w' (<[i := ses']> (sessions s))) -> flow_inv (mkBetaServed w' (<[i := ses']> (sessions s))).
Proof.
intros (_ & _ & Hall) Hreq Hi Hfl Hr Hun. split; [by eexists|]. split; [done|]. cbn [sessions].
rewrite <- (list_insert_id reqs i req) by done. by apply Forall2_insert.
Qed.

Lemma unfailed_last w i ses c o un res live ss : is_Some (ss !! i) ->
unfailed (mkBetaServed w (<[i := mkSession (trace ses ++ [(c, o)]) un res live]> ss)) -> exists r, o = Ret r.
Proof.
intros [old Hi] Hun. specialize (Hun i). cbn [sessions] in Hun.
specialize (Hun _ (list_lookup_insert_eq _ _ _ (lookup_lt_Some _ _ _ Hi))). cbn [trace] in Hun.
by apply Forall_app in Hun as [_ [Hlast _]%Forall_cons].
Qed.

(** A call of the store answers what it should, and keeps the store in order. *)
Lemma store_call_keeps c (m : M W beta_reply) w r w' v : store_call_of c = Some m -> m w = (Ret r, w') -> brep w v ->
(forall req, c <> BNeighbors req) -> right_reply c r /\ exists v', brep w' v'.
Proof.
intros Hm Hrun Hr Hne. destruct c as [ns es|ns es|req| | | |]; try discriminate Hm; injection Hm as <-; unfold bind, ret in Hrun.
- destruct (bs_Put ns es w) as [[[]|e|why] w1] eqn:Hput; simplify_eq. split; [done|]. eexists. by eapply bput_spec.
- destruct (bs_Delete ns es w) as [[[]|e|why] w1] eqn:Hdel; simplify_eq. split; [done|]. eexists. by eapply bdelete_spec.
- by destruct (Hne req).
Qed.

Lemma flow_keeps s s' : flow_step s s' -> flow_inv s -> flow_inv s'.
Proof.
intros [[i Hstep] Hun] Hinv. pose proof Hinv as ([v Hr] & _ & Hall). pose proof (flowing_course _ Hall) as Hon.
destruct Hstep as [handler ses c m o w w' ss Hh Hi Hc Hm Hrun Hnp|handler ses c o ses' w ss Hh Hi Hc Hstr
  |ses r rest res w w' ss Hi Ha Hu Hrun|ses r rest e w w' ss Hi Ha Hu Hrun]; cbn [sessions beta_world] in *.
- destruct (session_calls _ _ _ _ _ _ Hon Hh Hi Hc) as (req & after & Hreq & Hw & _).
  pose proof (Forall2_lookup_lr _ _ _ _ _ _ Hall Hreq Hi) as Hfl. pose proof Hfl as (_ & Hl & Hq). rewrite Hw in Hl.
  destruct Hl as [Hmay _]. destruct (unfailed_last _ _ _ _ _ _ _ _ _ ltac:(by eexists) Hun) as [r ->].
  destruct (store_call_keeps _ _ _ _ _ _ Hm Hrun Hr) as [Hok [v' Hr']]; [by intros req' ->|].
  eapply (flow_inv_insert (mkBetaServed w ss)); [done..| |done|done].
  eapply flowing_called; [exact Hfl|exact Hw|exact Hok|done| |done]. destruct c; try discriminate Hm; done.
- destruct (session_calls _ _ _ _ _ _ Hon Hh Hi Hc) as (req & after & Hreq & Hw & _).
  pose proof (Forall2_lookup_lr _ _ _ _ _ _ Hall Hreq Hi) as Hfl. pose proof Hfl as (_ & Hl & Hq). rewrite Hw in Hl.
  destruct Hl as [Hmay _]. eapply (flow_inv_insert (mkBetaServed w ss)); [done..| |done|done].
  destruct Hstr as [|r|res rest Hres| |c e Hc'].
  + by eapply flowing_called.
  + eapply flowing_called; [exact Hfl|exact Hw|done|done| |].
    * unfold stream_of. cbn. destruct (answering ses); [|done]. simpl. f_equal. rewrite length_app. simpl. lia.
    * apply Forall_app. split; [done|]. constructor; [apply Hmay|constructor].
  + eapply flowing_called; [exact Hfl|exact Hw|by eexists|done| |done].
    unfold stream_of. cbn. rewrite Hres. by destruct (answering ses).
  + by eapply flowing_called.
  + by destruct (unfailed_last _ _ _ _ _ _ _ _ _ ltac:(by eexists) Hun).
- destruct (Forall2_lookup_r _ _ _ _ _ Hall Hi) as (req & Hreq & Hf & Hl & Hq).
  eapply (flow_inv_insert (mkBetaServed w ss)); [done..| |by eapply bneighbors_frame|done].
  split; [done|]. rewrite Hu in Hq. apply Forall_cons in Hq as [_ Hq]. split; [|done].
  replace (stream_of _) with (stream_of ses); [done|]. unfold stream_of. cbn. rewrite Ha, Hu, length_app. simpl. f_equal. lia.
- destruct (Forall2_lookup_r _ _ _ _ _ Hall Hi) as (req & Hreq & Hf & Hl & Hq).
  rewrite Hu in Hq. apply Forall_cons in Hq as [[n ->] _].
  destruct (bfrom_total w v n Hr) as (res & w2 & Hrun2). congruence.
Qed.

Lemma unfailed_insert w w' ss i ses c r un res live :
unfailed (mkBetaServed w ss) -> ss !! i = Some ses ->
unfailed (mkBetaServed w' (<[i := mkSession (trace ses ++ [(c, Ret r)]) un res live]> ss)).
Proof.
intros Hun Hi j ses2 [(<- & <- & _)|[_ Hl]]%list_lookup_insert_Some; [|by eapply Hun].
cbn [trace]. apply Forall_app. split; [by eapply (Hun i)|]. constructor; [by eexists|constructor].
Qed.

(** A handler that has not returned can go on. *)
Lemma flow_goes s i req ses c after : flow_inv s -> reqs !! i = Some req -> sessions s !! i = Some ses ->
(walk_tree (store_tree req) (trace ses)).1 = Ask c after -> exists s', flow_step s s'.
Proof.
intros ([v Hr] & Hun & Hall) Hreq Hi Hw. pose proof (Forall2_lookup_lr _ _ _ _ _ _ Hall Hreq Hi) as (Hf & Hl & Hq).
assert (handlers !! i = Some (store_handler req)) as Hh by by rewrite list_lookup_fmap, Hreq.
pose proof (tree_next _ _ _ (store_tree_stands req) Hf) as Hc. rewrite Hw in Hc, Hl. destruct Hl as [Hmay _].
destruct s as [w ss]. cbn [sessions beta_world] in *.
assert (forall s', beta_serve_by handlers i (mkBetaServed w ss) s' -> unfailed s' -> exists s', flow_step (mkBetaServed w ss) s')
  as Hgo by (intros s' Hs Hu; exists s'; split; [by exists i|done]).
destruct c as [ns es|ns es|r| |r| |]; [| |by destruct Hmay|..].
- destruct (bput_total w v ns es Hr) as [w' Hrun]. eapply Hgo.
  + eapply (beta_stores _ _ _ _ _ _ (Ret BDone) _ w'); [done..| |done]. unfold bind, ret. by rewrite Hrun.
  + by eapply unfailed_insert.
- destruct (bdelete_total w v ns es Hr) as [w' Hrun]. eapply Hgo.
  + eapply (beta_stores _ _ _ _ _ _ (Ret BDone) _ w'); [done..| |done]. unfold bind, ret. by rewrite Hrun.
  + by eapply unfailed_insert.
- eapply Hgo; [eapply beta_streams; [done..|constructor]|by eapply unfailed_insert].
- eapply Hgo; [eapply beta_streams; [done..|constructor]|by eapply unfailed_insert].
- destruct Hmay as [n Hn]. unfold stream_of in Hn. destruct (answering ses) eqn:Ha; [|done].
  destruct (unreceived ses) as [|res rest] eqn:Hres.
  + destruct (unanswered ses) as [|r rest] eqn:Hu; [done|]. apply Forall_cons in Hq as [[n' ->] _].
    destruct (bfrom_total w v n' Hr) as (res & w' & Hrun). eapply Hgo; [by eapply beta_answers|].
    intros j ses2 [(<- & <- & _)|[_ Hl]]%list_lookup_insert_Some; [exact (Hun i ses Hi)|by eapply Hun].
  + eapply Hgo; [eapply beta_streams; [done..|by constructor]|by eapply unfailed_insert].
- eapply Hgo; [eapply beta_streams; [done..|constructor]|by eapply unfailed_insert].
Qed.

(** Every handler has returned, or one has not. *)
Lemma returned_or_waiting ss rs : Forall2 flowing rs ss ->
(forall i req ses, rs !! i = Some req -> ss !! i = Some ses -> (walk_tree (store_tree req) (trace ses)).1 = Done (Ret tt)) \/
exists i req ses c after, rs !! i = Some req /\ ss !! i = Some ses /\ (walk_tree (store_tree req) (trace ses)).1 = Ask c after.
Proof.
induction 1 as [|req ses rs ss Hfl Hall IH]; [by left|].
destruct IH as [Hdone|(i & req' & ses' & c & after & ? & ? & ?)]; [|right; by exists (S i), req', ses', c, after].
destruct (walk_tree (store_tree req) (trace ses)).1 as [o|c after] eqn:Hw; [left|right; by exists 0, req, ses, c, after].
destruct Hfl as (_ & Hl & _). rewrite Hw in Hl. destruct Hl as ([] & -> & _).
intros [|i] req' ses'; simpl; [by intros [= <-] [= <-]|apply Hdone].
Qed.

(** All have returned, or one goes on. *)
Lemma flow_progress s : flow_inv s -> all_stored handlers s (Ret tt) \/ exists s', flow_step s s'.
Proof.
intros Hinv. pose proof Hinv as (_ & _ & Hall).
destruct (returned_or_waiting _ _ Hall) as [Hdone|(i & req & ses & c & after & Hreq & Hi & Hw)].
- left. intros i handler ses Hh Hi. rewrite list_lookup_fmap in Hh. destruct (reqs !! i) as [req|] eqn:Hreq; [|done].
  injection Hh as <-. pose proof (Forall2_lookup_lr _ _ _ _ _ _ Hall Hreq Hi) as (Hf & _ & _).
  by rewrite (tree_next _ _ _ (store_tree_stands req) Hf), (Hdone i req ses).
- right. by eapply flow_goes.
Qed.
End Flow.
