(* ===== verification/QuerySpec.v ===== *)
(** * What the query services answer

    Each query, against the abstract store: the answer of [ListDependencies]
    and its three siblings, with no other outcome than [ErrModuleNotFound] on
    a graph whose items decode; and the graph [Track] leaves does. *)

From S2P Require Import Prelude GoCodec GoHash Api GraphSpec Sql StoreAlpha StoreAlphaSpec.
From S2P Require Import KeysAlpha QueryAlpha TrackAlpha TrackAlphaProofs Instances TrackInvariant.

(** ** Found pairs *)

Definition found (a b : bytes) (ety nty : string) (far : bytes) (v : astore) (p : GraphItemPair) : Prop :=
  exists (k3 n3 : bytes) cn ce, a <> b /\ v !! (nty, far, far, n3) = Some cn /\
    v !! (ety, a, b, k3) = Some ce /\
    p = mkPair (edge_item ((ety, a, b, k3), ce)) (node_item ((nty, far, far, n3), cn)).

Lemma found_upstream v q ety nty p :
  p ∈ spec_upstream (mkFindRequest [q] [ety] [nty]) v <-> exists n, found q n ety nty n v p.
Proof.
  rewrite elem_of_upstream. unfold upstream_cond, edge_cond, found. simpl.
  setoid_rewrite list_elem_of_singleton. split.
  - intros ([[[[tn n1] n2] n3] cn] & [[[[te e1] e2] e3] ce] & -> & Hn & He & Hc).
    unfold e_type, e_k1, e_k2, pair_of in *. simpl in *. destruct Hc as (-> & -> & -> & ? & -> & <-).
    eauto 10.
  - intros (n & k3 & n3 & cn & ce & Hne & Hn & He & ->).
    exists ((nty, n, n, n3), cn), ((ety, q, n, k3), ce). done.
Qed.

Lemma found_downstream v q ety nty p :
  p ∈ spec_downstream (mkFindRequest [q] [ety] [nty]) v <-> exists n, found n q ety nty n v p.
Proof.
  rewrite elem_of_downstream. unfold downstream_cond, edge_cond, found. simpl.
  setoid_rewrite list_elem_of_singleton. split.
  - intros ([[[[tn n1] n2] n3] cn] & [[[[te e1] e2] e3] ce] & -> & Hn & He & Hc).
    unfold e_type, e_k1, e_k2, pair_of in *. simpl in *. destruct Hc as (-> & -> & -> & ? & -> & <-).
    eauto 10.
  - intros (n & k3 & n3 & cn & ce & Hne & Hn & He & ->).
    exists ((nty, n, n, n3), cn), ((ety, n, q, k3), ce). done.
Qed.

Section Reads.
Context `{JsonCodec} (v : astore) (Hdec : decodable v).

Lemma read_dependency_found a b far p :
found a b DependsType ModuleType far v p ->
exists d, read_dependency p = Ret d /\ far = keyForModule (Dependency_Module d) /\
  module_at v far (Dependency_Module d) /\ exists k3, depends_at v a b k3 (Dependency_Depends d).
Proof using Hdec.
intros (k3 & n3 & cn & ce & _ & Hn & He & ->).
destruct (decodable_module v Hdec far ((ModuleType, far, far, n3), cn) Hn) as (m & Hm & Hat & Hk); [done..|].
destruct (decodable_depends v Hdec _ _ _ _ He) as (d & Hd & Hdat).
exists (mkDep m d). unfold read_dependency. simpl. rewrite Hm. cbn [obind]. rewrite Hd. eauto.
Qed.

Lemma found_dependency a b far d :
a <> b -> module_at v far (Dependency_Module d) ->
(exists k3, depends_at v a b k3 (Dependency_Depends d)) ->
exists p, found a b DependsType ModuleType far v p /\ read_dependency p = Ret d.
Proof using.
intros Hne (cn & Hn & Hm) (k3 & ce & He & Hd).
eexists. split; [exists k3, [], cn, ce; done|].
unfold read_dependency. simpl. rewrite as_module_node, Hm. cbn [obind]. rewrite Hd. by destruct d.
Qed.

Lemma read_source_found a b far p :
found a b ManagesType SourceType far v p ->
exists d, read_source p = Ret d /\ far = keyForSource (Some (MS_Source d)) /\
  source_at v far (MS_Source d) /\ exists k3, manages_at v a b k3 (MS_Manages d).
Proof using Hdec.
intros (k3 & n3 & cn & ce & _ & Hn & He & ->).
destruct (decodable_source v Hdec far ((SourceType, far, far, n3), cn) Hn) as (m & Hm & Hat & Hk); [done..|].
destruct (decodable_manages v Hdec _ _ _ _ He) as (d & Hd & Hdat).
exists (mkManagedSource m d). unfold read_source. simpl. rewrite Hm. cbn [obind]. rewrite Hd. eauto.
Qed.

Lemma found_source a b far d :
a <> b -> source_at v far (MS_Source d) ->
(exists k3, manages_at v a b k3 (MS_Manages d)) ->
exists p, found a b ManagesType SourceType far v p /\ read_source p = Ret d.
Proof using.
intros Hne (cn & Hn & Hm) (k3 & ce & He & Hd).
eexists. split; [exists k3, [], cn, ce; done|].
unfold read_source. simpl. rewrite as_source_node, Hm. cbn [obind]. rewrite Hd. by destruct d.
Qed.

Lemma read_module_found a b far p :
found a b ManagesType ModuleType far v p ->
exists d, read_module p = Ret d /\ far = keyForModule (MM_Module d) /\
  module_at v far (MM_Module d) /\ exists k3, manages_at v a b k3 (MM_Manages d).
Proof using Hdec.
intros (k3 & n3 & cn & ce & _ & Hn & He & ->).
destruct (decodable_module v Hdec far ((ModuleType, far, far, n3), cn) Hn) as (m & Hm & Hat & Hk); [done..|].
destruct (decodable_manages v Hdec _ _ _ _ He) as (d & Hd & Hdat).
exists (mkManagedModule m d). unfold read_module. simpl. rewrite Hm. cbn [obind]. rewrite Hd. eauto.
Qed.

Lemma found_module a b far d :
a <> b -> module_at v far (MM_Module d) ->
(exists k3, manages_at v a b k3 (MM_Manages d)) ->
exists p, found a b ManagesType ModuleType far v p /\ read_module p = Ret d.
Proof using.
intros Hne (cn & Hn & Hm) (k3 & ce & He & Hd).
eexists. split; [exists k3, [], cn, ce; done|].
unfold read_module. simpl. rewrite as_module_node, Hm. cbn [obind]. rewrite Hd. by destruct d.
Qed.
End Reads.

(** ** The answers *)

Definition dependency_of `{JsonCodec} (v : astore) (key : bytes) (d : Dependency) : Prop :=
  let far := keyForModule (Dependency_Module d) in
  key <> far /\ module_at v far (Dependency_Module d) /\
  exists k3, depends_at v key far k3 (Dependency_Depends d).
Definition dependent_of `{JsonCodec} (v : astore) (key : bytes) (d : Dependency) : Prop :=
  let far := keyForModule (Dependency_Module d) in
  far <> key /\ module_at v far (Dependency_Module d) /\
  exists k3, depends_at v far key k3 (Dependency_Depends d).
Definition source_of `{JsonCodec} (v : astore) (key : bytes) (d : ManagedSource) : Prop :=
  let far := keyForSource (Some (MS_Source d)) in
  far <> key /\ source_at v far (MS_Source d) /\
  exists k3, manages_at v far key k3 (MS_Manages d).
Definition managed_by `{JsonCodec} (v : astore) (key : bytes) (d : ManagedModule) : Prop :=
  let far := keyForModule (MM_Module d) in
  key <> far /\ module_at v far (MM_Module d) /\
  exists k3, manages_at v key far k3 (MM_Manages d).

Section Answers.
Context `{JsonCodec, !JsonCodecOk} {W : Type} `{GraphStoreSpec W}.

(** The shape of the four queries: find, then read every pair found. *)
Lemma find_and_read {A} (find : M W (list GraphItemPair)) (read : GraphItemPair -> outcome A)
  (ps0 : list GraphItemPair) (Found : GraphItemPair -> Prop) (P : A -> Prop) w ps w' :
find w = (Ret ps, w') -> ps ≡ₚ ps0 -> (forall p, p ∈ ps0 <-> Found p) ->
(forall p, Found p -> exists d, read p = Ret d /\ P d) ->
(forall d, P d -> exists p, Found p /\ read p = Ret d) ->
exists l, (let! response := on_error find (fun _ => ErrModuleNotFound) in
           lift (omap_list read response)) w = (Ret l, w') /\ forall d, d ∈ l <-> P d.
Proof using.
intros Hrun Hps Heq Hread HP. unfold bind, on_error, lift. rewrite Hrun.
destruct (omap_list_total read ps) as [l Hl].
{ intros p Hp. rewrite Hps, Heq in Hp. destruct (Hread p Hp) as (d & ? & _). eauto. }
exists l. rewrite Hl. split; [done|]. intros d. rewrite (omap_list_elem _ _ _ d Hl). split.
- intros (p & Hp & Hd). rewrite Hps, Heq in Hp. destruct (Hread p Hp) as (d' & ? & ?). congruence.
- intros (p & Hp & Hd)%HP. exists p. by rewrite Hps, Heq.
Qed.

Context `{!GraphStoreTotal W}.

Lemma ListDependencies_run w v req :
rep w v -> decodable v ->
exists l w', ListDependencies req w = (Ret l, w') /\ rep w' v /\
  forall d, d ∈ l <-> dependency_of v (keyForDependencyRequest req) d.
Proof.
intros Hr Hdec. unfold ListDependencies. set (key := keyForDependencyRequest req).
destruct (find_up_total w v (mkFindRequest [key] [DependsType] [ModuleType]) Hr)
  as (ps & w' & Hf); [done..|].
edestruct (find_and_read (gs_FindUpstream (mkFindRequest [key] [DependsType] [ModuleType]))
  read_dependency (spec_upstream (mkFindRequest [key] [DependsType] [ModuleType]) v) (fun p => exists n, found key n DependsType ModuleType n v p)
  (dependency_of v key) w ps w' Hf) as (l & Hrun & Hl).
- by eapply find_up_spec.
- apply found_upstream.
- intros p (n & Hp). pose proof Hp as (? & ? & ? & ? & Hne & _).
  destruct (read_dependency_found v Hdec _ _ _ _ Hp) as (d & Hd & -> & Hat & Hdep).
  exists d. unfold dependency_of. eauto.
- intros d (Hne & Hat & Hdep).
  destruct (found_dependency v key _ _ d Hne Hat Hdep) as (p & Hp & Hd). eauto.
- exists l, w'. split_and!; [done| |done]. by eapply find_up_frame.
Qed.

Lemma ListDependents_run w v req :
rep w v -> decodable v ->
exists l w', ListDependents req w = (Ret l, w') /\ rep w' v /\
  forall d, d ∈ l <-> dependent_of v (keyForDependencyRequest req) d.
Proof.
intros Hr Hdec. unfold ListDependents. set (key := keyForDependencyRequest req).
destruct (find_down_total w v (mkFindRequest [key] [DependsType] [ModuleType]) Hr)
  as (ps & w' & Hf); [done..|].
edestruct (find_and_read (gs_FindDownstream (mkFindRequest [key] [DependsType] [ModuleType]))
  read_dependency (spec_downstream (mkFindRequest [key] [DependsType] [ModuleType]) v) (fun p => exists n, found n key DependsType ModuleType n v p)
  (dependent_of v key) w ps w' Hf) as (l & Hrun & Hl).
- by eapply find_down_spec.
- apply found_downstream.
- intros p (n & Hp). pose proof Hp as (? & ? & ? & ? & Hne & _).
  destruct (read_dependency_found v Hdec _ _ _ _ Hp) as (d & Hd & -> & Hat & Hdep).
  exists d. unfold dependent_of. eauto.
- intros d (Hne & Hat & Hdep).
  destruct (found_dependency v _ key _ d Hne Hat Hdep) as (p & Hp & Hd). eauto.
- exists l, w'. split_and!; [done| |done]. by eapply find_down_frame.
Qed.

Lemma ListSources_run w v req :
rep w v -> decodable v ->
exists l w', ListSources req w = (Ret l, w') /\ rep w' v /\
  forall d, d ∈ l <-> source_of v (keyForModule req) d.
Proof.
intros Hr Hdec. unfold ListSources. set (key := keyForModule req).
destruct (find_down_total w v (mkFindRequest [key] [ManagesType] [SourceType]) Hr)
  as (ps & w' & Hf); [done..|].
edestruct (find_and_read (gs_FindDownstream (mkFindRequest [key] [ManagesType] [SourceType]))
  read_source (spec_downstream (mkFindRequest [key] [ManagesType] [SourceType]) v) (fun p => exists n, found n key ManagesType SourceType n v p)
  (source_of v key) w ps w' Hf) as (l & Hrun & Hl).
- by eapply find_down_spec.
- apply found_downstream.
- intros p (n & Hp). pose proof Hp as (? & ? & ? & ? & Hne & _).
  destruct (read_source_found v Hdec _ _ _ _ Hp) as (d & Hd & -> & Hat & Hdep).
  exists d. unfold source_of. eauto.
- intros d (Hne & Hat & Hdep).
  destruct (found_source v _ key _ d Hne Hat Hdep) as (p & Hp & Hd). eauto.
- exists l, w'. split_and!; [done| |done]. by eapply find_down_frame.
Qed.

Lemma ListManaged_run w v req :
rep w v -> decodable v ->
exists l w', ListManaged req w = (Ret l, w') /\ rep w' v /\
  forall d, d ∈ l <-> managed_by v (keyForSource req) d.
Proof.
intros Hr Hdec. unfold ListManaged. set (key := keyForSource req).
destruct (find_up_total w v (mkFindRequest [key] [ManagesType] [ModuleType]) Hr)
  as (ps & w' & Hf); [done..|].
edestruct (find_and_read (gs_FindUpstream (mkFindRequest [key] [ManagesType] [ModuleType]))
  read_module (spec_upstream (mkFindRequest [key] [ManagesType] [ModuleType]) v) (fun p => exists n, found key n ManagesType ModuleType n v p)
  (managed_by v key) w ps w' Hf) as (l & Hrun & Hl).
- by eapply find_up_spec.
- apply found_upstream.
- intros p (n & Hp). pose proof Hp as (? & ? & ? & ? & Hne & _).
  destruct (read_module_found v Hdec _ _ _ _ Hp) as (d & Hd & -> & Hat & Hdep).
  exists d. unfold managed_by. eauto.
- intros d (Hne & Hat & Hdep).
  destruct (found_module v key _ _ d Hne Hat Hdep) as (p & Hp & Hd). eauto.
- exists l, w'. split_and!; [done| |done]. by eapply find_up_frame.
Qed.
End Answers.

(** ** What Track puts decodes *)

Section TrackDecodes.
Context `{JsonCodec, !JsonCodecOk}.

(** The strings a request puts into the graph are valid UTF-8, which the
  transport has checked. *)
Definition request_msgs (req : SourceRequest) : list schema_msg :=
from_option (fun s => [VSource s]) [] (SR_Source req) ++
concat (map (fun mf =>
  [VModule (file_module mf); VManages (manages_of mf);
   VSource (mkSource (MF_SourceUrl mf) "repository" "")] ++
  concat (map (fun d => [VModule (dep_module mf d); VDepends (dep_depends (request_ref req) mf d)])
              (MF_Dependencies mf))) (SR_ManagementFiles req)).

Definition valid_request (req : SourceRequest) : Prop :=
Forall (fun m => Forall valid_text (msg_strings m)) (request_msgs req).

Lemma Decode_marshalled ty k1 k2 k3 m :
kind_of_type ty = Some (kind_of m) -> Forall valid_text (msg_strings m) ->
Decode (mkGraphItem ty k1 k2 k3 GraphItemEncoding_JSON (marshalled m)) = (Some m, None).
Proof.
intros Hk Hv. unfold Decode. cbn [GraphItemType Encoding GraphItemData].
rewrite Hk, decide_True by done.
rewrite (json_roundtrip m); [done|done|]. by rewrite marshal_Some.
Qed.

Lemma decodable_proposed req i :
valid_request req -> i ∈ proposed_items req -> decodable_at (item_key i) (item_val i).
Proof.
intros Hv Hi. unfold decodable_at. rewrite entry_of_item.
assert (forall m, m ∈ request_msgs req -> Forall valid_text (msg_strings m)) as Hval
  by (by apply Forall_forall).
unfold request_msgs in Hval. setoid_rewrite elem_of_app in Hval.
setoid_rewrite elem_of_concat_map in Hval.
assert (forall mf m, mf ∈ SR_ManagementFiles req ->
  m ∈ [VModule (file_module mf); VManages (manages_of mf);
       VSource (mkSource (MF_SourceUrl mf) "repository" "")] \/
  (exists d, d ∈ MF_Dependencies mf /\
    m ∈ [VModule (dep_module mf d); VDepends (dep_depends (request_ref req) mf d)]) ->
  Forall valid_text (msg_strings m)) as Hfile.
{ intros mf m Hmf Hm. apply Hval. right. exists mf. split; [done|].
  rewrite elem_of_app, elem_of_concat_map. done. }
apply elem_of_proposed in Hi
  as [->|(mf & Hmf & [->|[->|[(_ & [->| ->])|(d & Hd & [->| ->])]]])];
  (split_and!; intros Ht; try done).
- unfold source_item, as_source. destruct (SR_Source req) as [s|] eqn:Hs.
  + exists s. split; [|done]. simpl source_iface. fold (marshalled (VSource s)).
    rewrite Decode_marshalled; [done|done|]. apply Hval. left. simpl. by left.
  + exists (mkSource "" "" ""). split; [|done].
    destruct (json_marshal_null KSource) as [data Hd]. simpl source_iface. rewrite Hd.
    unfold Decode. simpl. by rewrite (json_null _ _ Hd).
- exists (file_module mf). split; [|done]. unfold as_module, module_item.
  rewrite Decode_marshalled; [done|done|]. apply (Hfile mf); [done|]. left. by left.
- exists (manages_of mf). unfold as_manages, manages_item.
  rewrite Decode_marshalled; [done|done|]. apply (Hfile mf); [done|]. left. right. by left.
- exists (mkSource (MF_SourceUrl mf) "repository" ""). split; [|done].
  unfold as_source, source_item. simpl source_iface.
  fold (marshalled (VSource (mkSource (MF_SourceUrl mf) "repository" ""))).
  rewrite Decode_marshalled; [done|done|]. apply (Hfile mf); [done|]. left. right. right. by left.
- exists (manages_of mf). unfold as_manages, manages_item.
  rewrite Decode_marshalled; [done|done|]. apply (Hfile mf); [done|]. left. right. by left.
- exists (dep_module mf d). split; [|done]. unfold as_module, module_item.
  rewrite Decode_marshalled; [done|done|]. apply (Hfile mf); [done|]. right. exists d. split; [done|]. by left.
- exists (dep_depends (request_ref req) mf d). unfold as_depends, depends_item.
  rewrite Decode_marshalled; [done|done|]. apply (Hfile mf); [done|]. right. exists d.
  split; [done|]. right. by left.
Qed.

Lemma tracked_decodable req v v' :
valid_request req -> decodable v -> tracked req v v' -> decodable v'.
Proof.
intros Hv Hdec Ht k c Hk.
destruct (decide (k ∈ map item_key (proposed_items req))) as [Hd|Hd].
- destruct (last_item_is_Some _ _ Hd) as [i Hi].
  rewrite (tracked_put _ _ _ Ht _ _ Hi) in Hk. injection Hk as <-.
  apply last_item_Some in Hi as [Hi <-]. by apply (decodable_proposed req).
- apply Hdec. destruct (tracked_live _ _ _ Ht k) as [?|[_ Ho]]; [by eexists|done|].
  by rewrite <- (tracked_other _ _ _ Ht k Hd Ho).
Qed.
End TrackDecodes.
