(* ===== verification/SearchSpec.v ===== *)
(** * What a search visits

    The graph a search walks, one round of the loop, and the loops: tiers for
    the breadth-first search, a chain for the depth-first one. *)

From S2P Require Import Prelude GoCodec GoHash Api GraphSpec StoreAlpha KeysAlpha.
From S2P Require Import QueryAlpha SearchAlpha QuerySpec.

(** ** Directions *)

Inductive direction := Upward | Downward.

Definition ask (dir : direction) (d : DependencyRequest) : SearchRequest :=
  match dir with Upward => dependencies_request d | Downward => dependents_request d end.
Definition answer (dir : direction) (r : SearchRequest) (l : list Dependency) : SearchResponse :=
  match dir with
  | Upward => mkSearchResponse r None (Some l) None None
  | Downward => mkSearchResponse r (Some l) None None None
  end.
Definition related `{JsonCodec} (dir : direction) (v : astore) (key : bytes) (d : Dependency) : Prop :=
  match dir with Upward => dependency_of v key d | Downward => dependent_of v key d end.

(** The key a request asks about. *)
Definition node_key (r : SearchRequest) : bytes :=
  match DependenciesOf r, DependentsOf r with
  | Some d, _ => keyForDependencyRequest d
  | None, Some d => keyForDependencyRequest d
  | None, None => []
  end.

(** The edges a search follows. *)
Definition edge `{JsonCodec} (dir : direction) (v : astore) (a b : bytes) : Prop :=
  exists d, related dir v a d /\ keyForModule (Dependency_Module d) = b.

Definition asks (dir : direction) (r : SearchRequest) : Prop := exists d, r = ask dir d.

(** A response that answers its request. *)
Definition answers `{JsonCodec} (dir : direction) (v : astore) (r : SearchResponse) : Prop :=
  asks dir (Request r) /\
  exists l, r = answer dir (Request r) l /\
            forall d, d ∈ l <-> related dir v (node_key (Request r)) d.

Definition response_key (r : SearchResponse) : bytes := node_key (Request r).

Lemma keyFor_asks dir r : asks dir r -> keyFor r = Base64encode (node_key r).
Proof. intros [d ->]. by destruct dir. Qed.

Lemma node_key_dependency dir d :
  node_key (ask dir (dependency_request_of d)) = keyForModule (Dependency_Module d).
Proof. by destruct dir. Qed.

(** ** New requests *)

Lemma add_new_fold batch : forall seen next,
  exists extra, fold_left add_new batch (seen, next) =
      (seen ∪ list_to_set (map keyFor batch), next ++ extra) /\
    (forall r, r ∈ extra -> r ∈ batch) /\ NoDup (map keyFor extra) /\
    forall k, k ∈ map keyFor extra <-> k ∈ map keyFor batch /\ k ∉ seen.
Proof.
  induction batch as [|r batch IH]; intros seen next; simpl.
  - exists []. rewrite app_nil_r. split_and!; [f_equal; set_solver|done|constructor|].
    intros k. simpl. rewrite elem_of_nil. tauto.
  - case_decide as Hd.
    + destruct (IH seen next) as (extra & -> & Hin & Hnd & Hk). exists extra.
      split_and!; [f_equal; set_solver|set_solver|done|].
      intros k. rewrite Hk. set_solver.
    + destruct (IH ({[ keyFor r ]} ∪ seen) (next ++ [r])) as (extra & -> & Hin & Hnd & Hk).
      exists (r :: extra). rewrite <- app_assoc. split_and!; [f_equal; set_solver|set_solver| |].
      * simpl. constructor; [|done]. rewrite Hk. set_solver.
      * intros k. simpl. rewrite !elem_of_cons, Hk. split; [set_solver|].
        intros [[->|Hb] Hns]; [by left|]. destruct (decide (k = keyFor r)); [by left|set_solver].
Qed.

(** ** One request, one round *)

Definition batch_of (dir : direction) (l : list Dependency) : list SearchRequest :=
  map (fun d => ask dir (dependency_request_of d)) l.

Section Rounds.
Context `{JsonCodec, !JsonCodecOk} {W : Type} `{GraphStoreTotal W}.
Context (dir : direction) (v : astore) (Hdec : decodable v).

Lemma process_ask w r :
rep w v -> asks dir r ->
exists l w', processRequest r w = (Ret (answer dir r l), w') /\ rep w' v /\
  transformResponse (answer dir r l) = Ret (batch_of dir l) /\
  forall d, d ∈ l <-> related dir v (node_key r) d.
Proof using All.
intros Hr [d ->]. revert dir. intros [|]; simpl; unfold processRequest, bind; simpl.
- destruct (ListDependencies_run w v d Hr Hdec) as (l & w' & -> & Hr' & Hl). by exists l, w'.
- destruct (ListDependents_run w v d Hr Hdec) as (l & w' & -> & Hr' & Hl). by exists l, w'.
Qed.

Lemma batch_keys l r :
(forall d, d ∈ l <-> related dir v (node_key r) d) ->
forall k, k ∈ map keyFor (batch_of dir l) <-> exists b, k = Base64encode b /\ edge dir v (node_key r) b.
Proof using.
intros Hl k. unfold batch_of. rewrite map_map, list_elem_of_fmap. split.
- intros (d & -> & Hd). exists (keyForModule (Dependency_Module d)). split.
  + rewrite (keyFor_asks dir) by (by eexists). by rewrite node_key_dependency.
  + exists d. by rewrite <- Hl.
- intros (b & -> & d & Hd & <-). exists d. rewrite Hl. split; [|done].
  rewrite (keyFor_asks dir) by (by eexists). by rewrite node_key_dependency.
Qed.

Lemma batch_asks l r : r ∈ batch_of dir l -> asks dir r.
Proof using. unfold batch_of. intros (d & -> & _)%list_elem_of_fmap. by eexists. Qed.

(** What a round leaves: [next] holds the new neighbours of the queue. *)
Definition round_next (queue : list SearchRequest) (seen : gset string) (seen' : gset string)
  (next : list SearchRequest) : Prop :=
(forall k, k ∈ seen' <-> k ∈ seen \/ k ∈ map keyFor next) /\
Forall (asks dir) next /\ NoDup (map keyFor next) /\
forall k, k ∈ map keyFor next <->
  k ∉ seen /\ exists r b, r ∈ queue /\ edge dir v (node_key r) b /\ k = Base64encode b.

Lemma process_queue queue w seen :
rep w v -> Forall (asks dir) queue ->
exists seen' next toSend w',
  mfold process_one (seen, [], []) queue w = (Ret (seen', next, toSend), w') /\ rep w' v /\
  map Request toSend = queue /\ Forall (answers dir v) toSend /\ round_next queue seen seen' next.
Proof using All.
intros Hr Hq. unfold round_next.
assert (forall pre seen0 next0 toSend0, (forall k, k ∈ seen0 <-> k ∈ seen \/ k ∈ map keyFor next0) ->
  Forall (asks dir) next0 -> NoDup (map keyFor next0) ->
  (forall k, k ∈ map keyFor next0 <->
     k ∉ seen /\ exists r b, r ∈ pre /\ edge dir v (node_key r) b /\ k = Base64encode b) ->
  map Request toSend0 = pre -> Forall (answers dir v) toSend0 ->
  exists seen' next toSend w',
  mfold process_one (seen0, next0, toSend0) queue w = (Ret (seen', next, toSend), w') /\ rep w' v /\
  map Request toSend = pre ++ queue /\ Forall (answers dir v) toSend /\
  (forall k, k ∈ seen' <-> k ∈ seen \/ k ∈ map keyFor next) /\
  Forall (asks dir) next /\ NoDup (map keyFor next) /\
  forall k, k ∈ map keyFor next <->
    k ∉ seen /\ exists r b, r ∈ pre ++ queue /\ edge dir v (node_key r) b /\ k = Base64encode b) as Hgen.
{ revert w Hr. induction Hq as [|r queue Hr1 Hq IH];
    intros w Hr pre seen0 next0 toSend0 Hs Hn Hnd Hk Hreq Ha.
  - exists seen0, next0, toSend0, w. rewrite app_nil_r. done.
  - cbn [mfold]. unfold bind at 1. unfold process_one at 1. unfold bind, lift, ret.
    destruct (process_ask w r Hr Hr1) as (l & w1 & -> & Hr2 & -> & Hl).
    destruct (add_new_fold (batch_of dir l) seen0 next0) as (extra & -> & Hex & Hexnd & Hexk).
    destruct (IH w1 Hr2 (pre ++ [r]) (seen0 ∪ list_to_set (map keyFor (batch_of dir l)))
      (next0 ++ extra) (toSend0 ++ [answer dir r l])) as (seen' & next & toSend & w' & Hrun & Hrest).
    + intros k. rewrite elem_of_union, elem_of_list_to_set, map_app, elem_of_app, Hexk, Hs.
      destruct (decide (k ∈ seen0)) as [Hd|Hd]; rewrite Hs in Hd; tauto.
    + apply Forall_app_2; [done|]. apply Forall_forall. intros x Hx. by apply (batch_asks l), Hex.
    + rewrite map_app. apply NoDup_app. split_and!; [done| |done].
      intros k Hk0 Hkx. apply Hexk in Hkx as [_ Hns]. apply Hns, Hs. by right.
    + intros k. rewrite map_app, elem_of_app, Hexk, Hk, (batch_keys l r Hl k).
      setoid_rewrite elem_of_app. setoid_rewrite list_elem_of_singleton. rewrite Hs.
      rewrite Hk. split.
      * intros [(Hns & x & b & Hx & He & ->)|[(b & -> & He) Hns]].
        -- split; [done|]. exists x, b. tauto.
        -- split; [tauto|]. exists r, b. tauto.
      * intros [Hns (x & b & [Hx| ->] & He & ->)].
        -- left. split; [done|]. eauto.
        -- destruct (decide (Base64encode b ∈ seen0)) as [Hd|Hd].
           ++ left. apply Hs in Hd as [?|Hd]; [done|]. by apply Hk in Hd.
           ++ right. split; [eauto|]. intros Hx. apply Hd, Hs. by rewrite Hk.
    + rewrite map_app, Hreq. by destruct dir.
    + apply Forall_app_2; [done|]. constructor; [|constructor]. split; [by destruct dir|].
      exists l. split; [by destruct dir|]. by destruct dir.
    + rewrite <- app_assoc in Hrest. exists seen', next, toSend, w'. done. }
destruct (Hgen [] seen [] []) as (seen' & next & toSend & w' & Hrest).
- intros k. simpl. rewrite elem_of_nil. tauto.
- constructor.
- constructor.
- intros k. simpl. setoid_rewrite elem_of_nil. naive_solver.
- done.
- constructor.
- exists seen', next, toSend, w'. done.
Qed.
End Rounds.

(** ** Distances *)

Section Distance.
Context `{JsonCodec} (dir : direction) (v : astore) (root : bytes).

Definition distance (n : nat) (b : bytes) : Prop :=
nsteps (edge dir v) n root b /\ forall m, m < n -> ~ nsteps (edge dir v) m root b.
Definition within (n : nat) (b : bytes) : Prop := exists m, m <= n /\ nsteps (edge dir v) m root b.

Lemma distance_unique n m b : distance n b -> distance m b -> n = m.
Proof.
intros [Hn Hn'] [Hm Hm']. destruct (Nat.lt_trichotomy n m) as [Hl|[?|Hl]]; [|done|].
- by apply Hm' in Hl.
- by apply Hn' in Hl.
Qed.

Lemma distance_0 b : distance 0 b <-> b = root.
Proof.
split; [by intros [Hn _]; inversion Hn|]. intros ->. split; [constructor|lia].
Qed.

Lemma within_0 b : within 0 b <-> b = root.
Proof.
split; [intros (m & Hm & Hn); assert (m = 0) as -> by lia; by inversion Hn|].
intros ->. exists 0. split; [lia|constructor].
Qed.

Lemma distance_S n b :
distance (S n) b <-> ~ within n b /\ exists a, distance n a /\ edge dir v a b.
Proof.
split.
- intros [Hs Hmin]. split.
  + intros (m & Hm & Hn). apply (Hmin m); [lia|done].
  + apply nsteps_inv_r in Hs as (a & Ha & Hab). exists a. split; [|done]. split; [done|].
    intros m Hm Hn. apply (Hmin (S m)); [lia|]. by eapply nsteps_r.
- intros [Hw (a & [Ha _] & Hab)]. split; [by eapply nsteps_r|].
  intros m Hm Hn. apply Hw. exists m. split; [lia|done].
Qed.

Lemma within_distance n b : distance n b -> within n b.
Proof. intros [Hn _]. by exists n. Qed.

Lemma within_S n b : within n b -> within (S n) b.
Proof. intros (m & Hm & Hn). exists m. split; [lia|done]. Qed.

(** A list that holds every node with a distance holds every reachable node. *)
Lemma reachable_in (keys : list bytes) b :
(forall n a, distance n a -> a ∈ keys) -> rtc (edge dir v) root b -> b ∈ keys.
Proof.
intros Hk [n Hn]%rtc_nsteps. revert b Hn. induction n as [n IH] using lt_wf_ind. intros b Hn.
destruct (decide (b ∈ keys)) as [?|Hb]; [done|]. apply (Hk n). split; [done|].
intros m Hm Hs. by apply Hb, (IH m).
Qed.
End Distance.

(** ** The nodes a search can find *)

Definition node_keys (v : astore) : gset bytes := set_map (fun k : ikey => k.1.1.2) (dom v).

Lemma edge_node `{JsonCodec} dir v a b : edge dir v a b -> b ∈ node_keys v.
Proof.
  intros (d & Hd & <-). set (b := keyForModule (Dependency_Module d)).
  assert (exists c, v !! (ModuleType, b, b, []) = Some c) as [c Hc].
  { destruct dir; destruct Hd as (_ & (c & Hc & _) & _); by exists c. }
  unfold node_keys. apply elem_of_map. exists (ModuleType, b, b, []). split; [done|].
  by eapply elem_of_dom_2.
Qed.

(** The nodes not seen yet: what the loops use up. *)
Definition unseen (v : astore) (seen : gset string) : gset bytes :=
  filter (fun b => Base64encode b ∉ seen) (node_keys v).

Lemma unseen_shrinks v seen seen' b :
  (forall k, k ∈ seen -> k ∈ seen') -> b ∈ node_keys v ->
  Base64encode b ∉ seen -> Base64encode b ∈ seen' -> size (unseen v seen') < size (unseen v seen).
Proof.
  intros Hsub Hb Hns Hs. apply subset_size. split.
  - intros x. unfold unseen. rewrite !elem_of_filter. naive_solver.
  - intros Hx. specialize (Hx b). unfold unseen in Hx. rewrite !elem_of_filter in Hx. naive_solver.
Qed.

Lemma size_list_to_set_le (l : list bytes) : size (list_to_set l : gset bytes) <= length l.
Proof.
  induction l as [|x l IH]; [done|]. simpl. rewrite size_union_alt, size_singleton.
  assert (size (list_to_set l ∖ {[x]} : gset bytes) <= size (list_to_set l : gset bytes)); [|lia].
  apply subseteq_size. set_solver.
Qed.

Lemma node_keys_bound v : size (node_keys v) <= size (dom v).
Proof.
  unfold node_keys, set_map. etransitivity; [apply size_list_to_set_le|]. by rewrite length_fmap.
Qed.

Lemma unseen_bound v seen : size (unseen v seen) <= size (dom v).
Proof.
  transitivity (size (node_keys v)); [|apply node_keys_bound].
  apply subseteq_size. intros x. unfold unseen. rewrite elem_of_filter. tauto.
Qed.

(** ** The loops *)

(** Nothing outside the search interferes: the context is not done and every
    response can be sent. *)
Record undisturbed (env : SearchEnv) : Prop := mkUndisturbed {
  never_done : forall n, env_done env n = false;
  always_sent : forall n, env_send env n = None }.

Section Loops.
Context `{JsonCodec, !JsonCodecOk} {W : Type} `{GraphStoreTotal W} (env : SearchEnv).
Context (Henv : undisturbed env) (dir : direction) (v : astore) (Hdec : decodable v).

Lemma Send_ok r (s : SearchWorld W) : exists s', Send env r s = (Ret tt, s') /\
store_world s' = store_world s /\ sent s' = sent s ++ [r].
Proof using Henv. unfold Send. rewrite (always_sent _ Henv). by eexists. Qed.

Lemma send_all_ok (rs : list SearchResponse) : forall s : SearchWorld W,
exists s', send_all env rs s = (Ret tt, s') /\
  store_world s' = store_world s /\ sent s' = sent s ++ rs.
Proof using Henv.
unfold send_all. induction rs as [|r rs IH]; intros s; simpl.
- exists s. by rewrite app_nil_r.
- unfold bind. destruct (Send_ok r s) as (s1 & -> & Hw1 & Hs1).
  destruct (IH s1) as (s2 & -> & Hw2 & Hs2). exists s2. split_and!; [done|congruence|].
  by rewrite Hs2, Hs1, <- app_assoc.
Qed.

Lemma after_round_ok (s : SearchWorld W) : exists s', after_round env [] s = (Ret None, s') /\
store_world s' = store_world s /\ sent s' = sent s.
Proof using Henv.
unfold after_round, bind, poll_done. rewrite (never_done _ Henv). by eexists.
Qed.

Lemma on_store_Ret {A} (m : M W A) a w' (s : SearchWorld W) :
m (store_world s) = (Ret a, w') ->
on_store m s = (Ret a, mkSearchWorld w' (sent s) (polls s)).
Proof using. unfold on_store. by intros ->. Qed.

Lemma round_progress queue seen seen' next :
round_next dir v queue seen seen' next -> next <> [] ->
size (unseen v seen') < size (unseen v seen).
Proof using.
intros (Hs & _ & _ & Hk) Hne. destruct next as [|r next]; [done|].
assert (keyFor r ∈ map keyFor (r :: next)) as Hr by (simpl; by left).
pose proof Hr as (Hns & x & b & _ & He & Heq)%Hk. rewrite Heq in *.
apply (unseen_shrinks v seen seen' b).
- intros k Hin. apply Hs. by left.
- by eapply edge_node.
- done.
- apply Hs. by right.
Qed.

(** The keys of a tier are the nodes at its distance. *)
Definition tier (root : bytes) (n : nat) (queue : list SearchRequest) (seen : gset string) : Prop :=
Forall (asks dir) queue /\ NoDup (map node_key queue) /\
(forall b, b ∈ map node_key queue <-> distance dir v root n b) /\
(forall k, k ∈ seen <-> exists b, k = Base64encode b /\ within dir v root n b).

Lemma keyFor_map l : Forall (asks dir) l -> map keyFor l = map Base64encode (map node_key l).
Proof using.
intros Hl. rewrite map_map. apply map_ext_in. intros r Hr%list_elem_of_In.
rewrite Forall_forall in Hl. by apply (keyFor_asks dir), Hl.
Qed.

Lemma tier_next root n queue seen seen' next :
tier root n queue seen -> round_next dir v queue seen seen' next -> tier root (S n) next seen'.
Proof using.
intros (Hq & _ & Hd & Hs) (Hs' & Hn & Hnd & Hk). unfold tier.
assert (forall b, b ∈ map node_key next <-> distance dir v root (S n) b) as Hnext.
{ intros b. rewrite keyFor_map in Hk by done. specialize (Hk (Base64encode b)).
  rewrite (list_elem_of_fmap_inj Base64encode) in Hk. rewrite Hk, distance_S. split.
  - intros (Hns & r & b' & Hr & He & Hb'%(inj Base64encode)). subst b'. split.
    + intros Hw. apply Hns, Hs. eauto.
    + exists (node_key r). split; [|done]. apply Hd, list_elem_of_fmap. eauto.
  - intros (Hw & a & Ha & He). split.
    + intros (b' & Hb'%(inj Base64encode) & Hin)%Hs. by subst b'.
    + apply Hd in Ha as (r & -> & Hr)%list_elem_of_fmap. eauto. }
split_and!; [done| |done|].
- rewrite keyFor_map in Hnd by done. by apply NoDup_fmap_1 in Hnd.
- intros k. rewrite Hs', Hs, keyFor_map by done. rewrite list_elem_of_fmap. split.
  + intros [(b & -> & Hw)|(b & -> & Hb%Hnext)]; exists b; split; try done.
    * by apply within_S.
    * by apply within_distance.
  + intros (b & -> & m & Hm & Hst). destruct (decide (Base64encode b ∈ seen)) as [Hin|Hni].
    * left. by apply Hs.
    * right. exists b. split; [done|]. apply Hnext.
      assert (~ within dir v root n b) as Hnw by (intros Hw; apply Hni, Hs; eauto).
      assert (m = S n) as -> by (destruct (decide (m = S n)); [done|exfalso; apply Hnw; exists m; split; [lia|done]]).
      split; [done|]. intros j Hj Hjs. apply Hnw. exists j. split; [lia|done].
Qed.

(** What has been sent from distance [n] on. *)
Definition visited (root : bytes) (n : nat) (rs : list SearchResponse) : Prop :=
Forall (answers dir v) rs /\ NoDup (map response_key rs) /\
exists ds, Forall2 (distance dir v root) ds (map response_key rs) /\
  StronglySorted le ds /\ (forall d, d ∈ ds -> n <= d) /\
  forall d b, n <= d -> distance dir v root d b -> b ∈ map response_key rs.

Lemma bfs_loop_spec root fuel : forall n queue seen s,
rep (store_world s) v -> tier root n queue seen ->
queue = [] \/ 1 + size (unseen v seen) <= fuel ->
exists s' rs, bfs_loop env fuel [] queue seen s = (Ret Returned, s') /\ rep (store_world s') v /\
  sent s' = sent s ++ rs /\ visited root n rs.
Proof using All.
assert (forall n queue seen s, tier root n queue seen -> queue = [] -> rep (store_world s) v ->
  exists s' rs, (Ret Returned, s) = (Ret Returned, s') /\ rep (store_world s') v /\
  sent s' = sent s ++ rs /\ visited root n rs) as Hempty.
{ intros n queue seen s (_ & _ & Hd & _) -> Hr. exists s, []. rewrite app_nil_r.
  split_and!; [done..|]. split_and!; [constructor|constructor|]. exists [].
  split_and!; [constructor|constructor|by intros d Hx%elem_of_nil|].
  intros d b Hnd Hb. exfalso. revert Hd. induction Hnd as [|d Hnd IH] in b, Hb |- *; intros Hd.
  - apply Hd in Hb. by apply elem_of_nil in Hb.
  - apply distance_S in Hb as (_ & a & Ha & _). by apply (IH a). }
induction fuel as [|fuel IH]; intros n queue seen s Hr Ht Hf.
- destruct queue as [|r queue]; [by apply (Hempty n [] seen)|]. destruct Hf as [Hf|Hf]; [done|lia].
- destruct (decide (queue = [])) as [->|Hne]; [by apply (Hempty n [] seen)|].
  assert (bfs_loop env (S fuel) [] queue seen = bind (on_store (mfold process_one (seen, [], []) queue))
    (fun '(seen', next, toSend) => bind (send_all env toSend) (fun _ => bind (after_round env [])
      (fun verdict => match verdict with Some h => ret h | None => bfs_loop env fuel [] next seen' end)))) as ->
    by (destruct queue; done).
  pose proof Ht as (Hq & Hnd & Hd & Hs).
  destruct (process_queue dir v Hdec queue (store_world s) seen Hr Hq)
    as (seen' & next & toSend & w' & Hrun & Hr' & Hreq & Hans & Hround).
  unfold bind. rewrite (on_store_Ret _ _ _ _ Hrun).
  destruct (send_all_ok toSend (mkSearchWorld w' (sent s) (polls s))) as (s1 & -> & Hw1 & Hs1).
  destruct (after_round_ok s1) as (s2 & -> & Hw2 & Hs2).
  destruct (IH (S n) next seen' s2) as (s' & rs & -> & Hrep & Hsent & Hvis).
  + by rewrite Hw2, Hw1.
  + by eapply tier_next.
  + destruct (decide (next = [])) as [?|Hnn]; [by left|right].
    destruct Hf as [?|Hf]; [done|]. pose proof (round_progress _ _ _ _ Hround Hnn). lia.
  + exists s', (toSend ++ rs). split_and!; [done|done| |].
    { by rewrite Hsent, Hs2, Hs1, <- app_assoc. }
    assert (map response_key toSend = map node_key queue) as Hkeys.
    { rewrite <- Hreq, map_map. done. }
    destruct Hvis as (Ha & Hvnd & ds & Hds & Hsorted & Hge & Hall).
    split_and!; [by apply Forall_app_2| |].
    * rewrite map_app, Hkeys. apply NoDup_app. split_and!; [done| |done].
      intros b Hb Hb'. apply Hd in Hb.
      apply list_elem_of_lookup in Hb' as [j Hj].
      destruct (Forall2_lookup_r _ _ _ _ _ Hds Hj) as (d & Hdj & Hdd).
      apply list_elem_of_lookup_2 in Hdj as Hdin.
      pose proof (distance_unique _ _ _ _ _ _ Hb Hdd). specialize (Hge d Hdin). lia.
    * exists (map (fun _ => n) queue ++ ds). split_and!.
      -- rewrite map_app, Hkeys. apply Forall2_app; [|done].
         assert (forall l, (forall b, b ∈ map node_key l -> distance dir v root n b) ->
           Forall2 (distance dir v root) (map (fun _ : SearchRequest => n) l) (map node_key l)) as Hc.
         { clear. induction l as [|x l IHl]; intros Hl; simpl; constructor.
           - apply Hl. by left.
           - apply IHl. intros b Hb. apply Hl. by right. }
         apply Hc. intros b Hb. by apply Hd.
      -- clear -Hsorted Hge. induction queue as [|x queue IHq]; simpl; [done|]. constructor; [done|].
         apply Forall_app_2.
         ++ apply Forall_forall. by intros d (y & -> & _)%list_elem_of_fmap.
         ++ apply Forall_forall. intros d Hdin. specialize (Hge d Hdin). lia.
      -- intros d [(y & -> & _)%list_elem_of_fmap|Hdin]%elem_of_app; [done|].
         specialize (Hge d Hdin). lia.
      -- intros d b Hle Hb. rewrite map_app, Hkeys, elem_of_app.
         destruct (decide (d = n)) as [->|Hdn]; [left; by apply Hd|right].
         apply (Hall d); [lia|done].
Qed.

(** The keys sent by a depth-first search make up one path. *)
Definition path (root : bytes) (rs : list SearchResponse) : Prop :=
Forall (answers dir v) rs /\ head (map response_key rs) = Some root /\
Sorted (edge dir v) (map response_key rs).

Lemma dfs_loop_spec fuel : forall stack seen s node,
rep (store_world s) v -> Forall (asks dir) stack -> last stack = Some node ->
Base64encode (node_key node) ∈ seen -> 1 + size (unseen v seen) <= fuel ->
exists s' rs, dfs_loop env fuel [] stack seen s = (Ret Returned, s') /\ rep (store_world s') v /\
  sent s' = sent s ++ rs /\ path (node_key node) rs /\
  (forall b, b ∈ tail (map response_key rs) -> Base64encode b ∉ seen) /\
  NoDup (map response_key rs).
Proof using All.
induction fuel as [|fuel IH]; intros stack seen s node Hr Hst Hlast Hin Hf; [lia|].
cbn [dfs_loop]. rewrite Hlast.
assert (asks dir node) as Hnode.
{ rewrite Forall_forall in Hst. by apply Hst, last_Some_elem_of. }
destruct (process_queue dir v Hdec [node] (store_world s) seen Hr ltac:(by constructor))
  as (seen' & next & toSend & w' & Hrun & Hr' & Hreq & Hans & Hround).
cbn [mfold] in Hrun. unfold bind, process_one in Hrun.
destruct (process_ask dir v Hdec (store_world s) node Hr Hnode) as (l & w1 & Hp & _ & Htr & Hl).
unfold bind, lift, ret in Hrun. rewrite Hp, Htr in Hrun.
destruct (fold_left add_new (batch_of dir l) (seen, [])) as [seen1 next1] eqn:Hfold.
simpl in Hrun. injection Hrun as -> -> <- ->.
unfold bind at 1. rewrite (on_store_Ret _ _ _ _ Hp). unfold bind at 1, lift. rewrite Htr, Hfold.
unfold bind. destruct (Send_ok (answer dir node l) (mkSearchWorld w' (sent s) (polls s)))
  as (s1 & -> & Hw1 & Hs1).
destruct (after_round_ok s1) as (s2 & -> & Hw2 & Hs2).
assert (response_key (answer dir node l) = node_key node) as Hkey by (unfold response_key; by destruct dir).
destruct (last next) as [x|] eqn:Hx.
- assert (x ∈ next) as Hxin by (by apply last_Some_elem_of).
  assert (keyFor x ∈ map keyFor next) as Hxk by (apply list_elem_of_fmap; eauto).
  pose proof Hround as (Hs' & Hasks & _ & Hk).
  assert (asks dir x) as Hxasks by (rewrite Forall_forall in Hasks; by apply Hasks).
  pose proof Hxk as (Hxs & r0 & b & ->%list_elem_of_singleton & Hedge & Hb)%Hk.
  assert (keyFor x ∈ seen') as Hxs' by (apply Hs'; by right).
  rewrite (keyFor_asks dir x Hxasks) in Hb, Hxs, Hxs'. apply (inj Base64encode) in Hb. subst b.
  destruct (IH next seen' s2 x) as (s' & rs & -> & Hrep & Hsent & (Ha & Hhd & Hsort) & Hnew & Hnd).
  + by rewrite Hw2, Hw1.
  + done.
  + done.
  + done.
  + pose proof (round_progress _ _ _ _ Hround ltac:(by destruct next)). lia.
  + destruct rs as [|r rs]; [done|]. simpl in Hhd, Hnew. injection Hhd as Hhd.
    exists s', (answer dir node l :: r :: rs). split_and!; [done|done| | |..].
    * by rewrite Hsent, Hs2, Hs1, <- app_assoc.
    * split_and!; [constructor; [by inversion Hans|done]|simpl; by rewrite Hkey|].
      simpl. constructor; [done|]. constructor. by rewrite Hkey, Hhd.
    * simpl. intros b [->|Hb]%elem_of_cons; [by rewrite Hhd|]. intros Hbs.
      apply (Hnew b Hb), Hs'. by left.
    * simpl. constructor; [|done]. rewrite Hkey, elem_of_cons, Hhd.
      intros [Heq|Hb]; [by rewrite Heq in Hin|]. apply (Hnew _ Hb), Hs'. by left.
- exists s2, [answer dir node l].
  destruct next as [|y next]; [|by rewrite last_cons in Hx; destruct (last next)].
  assert (dfs_loop env fuel [] [] seen' s2 = (Ret Returned, s2)) as -> by (by destruct fuel).
  split_and!; [done|by rewrite Hw2, Hw1|by rewrite Hs2, Hs1| | |].
  + split_and!; [done|simpl; by rewrite Hkey|repeat constructor].
  + by intros b Hb%elem_of_nil.
  + apply NoDup_singleton.
Qed.

(** Every request sent is the root or comes from a dependency of the graph. *)
Definition named (r : SearchRequest) : Prop :=
exists key d, related dir v key d /\ r = ask dir (dependency_request_of d).

Lemma process_queue_named (queue : list SearchRequest) (w : W) (seen : gset string) (w' : W)
  (seen' : gset string) (next : list SearchRequest) (toSend : list SearchResponse) :
rep w v -> Forall (asks dir) queue ->
mfold process_one (seen, [], []) queue w = (Ret (seen', next, toSend), w') -> Forall named next.
Proof using All.
intros Hr Hq. rewrite Forall_forall in Hq.
apply (mfold_ind (fun w => rep w v) (fun _ '(_, next, _) => Forall named next)
  process_one (seen, [], []) queue w (seen', next, toSend) w'); [done|constructor|].
intros pre x [[seen0 next0] toSend0] w0 [[seen1 next1] toSend1] w1 Hw0 Hn Hx.
unfold process_one, bind, lift, ret.
destruct (process_ask dir v Hdec w0 x Hw0 (Hq x Hx)) as (l & w2 & -> & Hr2 & -> & Hl).
destruct (add_new_fold (batch_of dir l) seen0 next0) as (extra & -> & Hex & _). intros [= _ <- _ <-].
split; [done|]. apply Forall_app_2; [done|]. apply Forall_forall. intros r Hrx.
apply Hex in Hrx. unfold batch_of in Hrx. apply list_elem_of_fmap in Hrx as (d & -> & Hd).
exists (node_key x), d. by rewrite <- Hl.
Qed.

Lemma bfs_loop_named (Q : SearchRequest -> Prop) (fuel : nat) : (forall r, named r -> Q r) ->
forall queue seen s o s', rep (store_world s) v -> Forall (asks dir) queue -> Forall Q queue ->
bfs_loop env fuel [] queue seen s = (o, s') ->
Forall Q (map Request (sent s)) -> Forall Q (map Request (sent s')).
Proof using All.
intros HQ. induction fuel as [|fuel IH]; intros queue seen s o s' Hr Hq HQq Hrun Hs;
  (destruct queue as [|r queue]; [by injection Hrun as _ <-|]); [by injection Hrun as _ <-|].
cbn [bfs_loop] in Hrun. unfold bind at 1 in Hrun.
destruct (process_queue dir v Hdec (r :: queue) (store_world s) seen Hr Hq)
  as (seen' & next & toSend & w' & Hmf & Hr' & Hreq & _ & Hround).
rewrite (on_store_Ret _ _ _ _ Hmf) in Hrun. unfold bind in Hrun.
destruct (send_all_ok toSend (mkSearchWorld w' (sent s) (polls s))) as (s1 & Hsend & Hw1 & Hs1).
rewrite Hsend in Hrun. destruct (after_round_ok s1) as (s2 & Hafter & Hw2 & Hs2). rewrite Hafter in Hrun.
pose proof (process_queue_named _ _ _ _ _ _ _ Hr Hq Hmf) as Hnamed.
apply (IH next seen' s2 o s'); [by rewrite Hw2, Hw1|by destruct Hround as (_ & ? & _)| |done|].
- eapply Forall_impl; [exact Hnamed|done].
- rewrite Hs2, Hs1. simpl. rewrite map_app, Hreq. by apply Forall_app_2.
Qed.

(** A whole breadth-first search. *)
Lemma bfs_run (d : DependencyRequest) (w : W) (fuel : nat) :
rep w v -> env_recv env 0 = Some (ask dir d) -> size (dom v) < fuel ->
let root := node_key (ask dir d) in
exists s, BreadthFirstSearch env fuel (mkSearchWorld w [] 0) = (Ret Returned, s) /\
  rep (store_world s) v /\ Forall (answers dir v) (sent s) /\
  NoDup (map response_key (sent s)) /\
  (forall b, b ∈ map response_key (sent s) <-> rtc (edge dir v) root b) /\
  exists ds, Forall2 (distance dir v root) ds (map response_key (sent s)) /\ StronglySorted le ds.
Proof using All.
intros Hr Hrecv Hfuel root. unfold BreadthFirstSearch, consumeStream.
rewrite (never_done _ Henv), Hrecv.
destruct (bfs_loop_spec root fuel 0 [ask dir d] {[ keyFor (ask dir d) ]}
  (mkSearchWorld w [] 0)) as (s & rs & Hrun & Hr' & Hsent & Ha & Hnd & ds & Hds & Hsort & _ & Hall).
- done.
- split_and!.
  + repeat constructor. by eexists.
  + apply NoDup_singleton.
  + intros b. simpl. rewrite list_elem_of_singleton. by rewrite distance_0.
  + intros k. rewrite elem_of_singleton, (keyFor_asks dir) by (by eexists). setoid_rewrite within_0.
    naive_solver.
- right. pose proof (unseen_bound v {[ keyFor (ask dir d) ]}). lia.
- exists s. simpl in Hsent. rewrite Hsent. split_and!; [done..| |by exists ds].
  intros b. split.
  + intros [j Hj]%list_elem_of_lookup. destruct (Forall2_lookup_r _ _ _ _ _ Hds Hj) as (n & _ & Hn & _).
    apply rtc_nsteps. eauto.
  + apply reachable_in. intros n a Hn. by apply (Hall n); [lia|].
Qed.

Lemma bfs_named (d : DependencyRequest) (w : W) (fuel : nat) (o : outcome handled) (s : SearchWorld W) :
rep w v -> env_recv env 0 = Some (ask dir d) ->
BreadthFirstSearch env fuel (mkSearchWorld w [] 0) = (o, s) ->
Forall (fun r => r = ask dir d \/ named r) (map Request (sent s)).
Proof using All.
intros Hr Hrecv. unfold BreadthFirstSearch, consumeStream. rewrite (never_done _ Henv), Hrecv. intros Hrun.
apply (bfs_loop_named (fun r => r = ask dir d \/ named r) fuel (fun r Hn => or_intror Hn) [ask dir d]
  {[ keyFor (ask dir d) ]} (mkSearchWorld w [] 0) o s); [done| | |exact Hrun|constructor].
- repeat constructor. by eexists.
- constructor; [by left|constructor].
Qed.
End Loops.
