(* ===== verification/TopologySpec.v ===== *)
(** * The tiers of a dependency graph

    What the responses say about the graph, when a module is peeled, and the
    invariant of the peeling loop. *)

From S2P Require Import Prelude GoCodec Api GraphSpec StoreAlpha KeysAlpha QueryAlpha SearchAlpha.
From S2P Require Import Topology.

(** ** The graph of the responses *)

Definition dependency_key (d : Dependency) : string := topology_key (Dependency_Module d).

(** The key and the listed keys of a response. *)
Definition row_of (resp : SearchResponse) : option (string * list string) :=
  match source_of resp with
  | Some (source, items) => Some (topology_key (requestToModule source), map dependency_key items)
  | None => None
  end.

Definition parent (rows : list (string * list string)) (p n : string) : Prop :=
  exists deps, (p, deps) ∈ rows /\ n ∈ deps.
Definition mentioned (rows : list (string * list string)) (n : string) : Prop :=
  n ∈ rows.*1 \/ exists p, parent rows p n.

Record reads (t : topo) (men : string -> Prop) (par : string -> string -> Prop) : Prop := mkReads {
  reads_nodes : forall n, is_Some (nodes t !! n) <-> men n;
  reads_counter : forall n, is_Some (counter t !! n) <-> men n;
  reads_parents : forall n ps, counter t !! n = Some ps -> forall p, p ∈ ps <-> par p n;
  reads_closed : forall p n, par p n -> men n;
  reads_keys : forall n m, nodes t !! n = Some m -> topology_key m = n }.

Lemma reads_ext t men men' par par' :
  (forall n, men n <-> men' n) -> (forall p n, par p n <-> par' p n) -> reads t men par -> reads t men' par'.
Proof.
  intros Hm Hp [Hn Hc Hps Hcl Hk]. split; [|by setoid_rewrite <- Hm| |by setoid_rewrite <- Hm; setoid_rewrite <- Hp|done].
  - by setoid_rewrite <- Hm.
  - setoid_rewrite <- Hp. done.
Qed.

Lemma reads_see t men par m :
  reads t men par -> reads (see (topology_key m) m t) (fun n => men n \/ n = topology_key m) par.
Proof.
  intros [Hn Hc Hps Hcl Hk]. unfold see.
  destruct (nodes t !! topology_key m) as [m'|] eqn:Hm.
  - assert (men (topology_key m)) by (apply Hn; by eexists).
    apply (reads_ext t men _ par par); [naive_solver|done|by split].
  - assert (~ men (topology_key m)) as Hno by (rewrite <- Hn, Hm; by intros [? ?]).
    split; simpl.
    + intros n. rewrite lookup_insert_is_Some', Hn. naive_solver.
    + intros n. rewrite lookup_insert_is_Some', Hc. naive_solver.
    + intros n ps [[<- <-]|[_ Hl]]%lookup_insert_Some p; [|by apply Hps].
      rewrite elem_of_empty. split; [done|]. by intros ?%Hcl.
    + intros p n Hp. left. by eapply Hcl.
    + intros n m' [[<- <-]|[_ Hl]]%lookup_insert_Some; auto.
Qed.

Lemma reads_see_dependency t men par mk d :
  reads t men par ->
  reads (see_dependency mk t d) (fun n => men n \/ n = dependency_key d)
    (fun p n => par p n \/ p = mk /\ n = dependency_key d).
Proof.
  intros Hr. apply (reads_see _ _ _ (Dependency_Module d)) in Hr as [Hn Hc Hps Hcl Hk].
  unfold see_dependency. fold (dependency_key d) in *. split; simpl; [done| | | |done].
  - intros n. by rewrite lookup_alter_is_Some.
  - intros n ps [[<- (ps' & Hl & ->)]|[Hne Hl]]%lookup_alter_Some p.
    + rewrite elem_of_union, elem_of_singleton, (Hps _ _ Hl). naive_solver.
    + rewrite (Hps _ _ Hl). naive_solver.
  - intros p n [Hp|[-> ->]]; [by eapply Hcl|by right].
Qed.

Lemma reads_see_dependencies mk ds : forall t men par,
  reads t men par ->
  reads (fold_left (see_dependency mk) ds t) (fun n => men n \/ n ∈ map dependency_key ds)
    (fun p n => par p n \/ p = mk /\ n ∈ map dependency_key ds).
Proof.
  induction ds as [|d ds IH]; intros t men par Hr; simpl.
  - eapply reads_ext; [| |exact Hr]; intros *; rewrite elem_of_nil; tauto.
  - eapply reads_ext; [| |by apply IH, reads_see_dependency]; intros *; simpl; rewrite elem_of_cons; tauto.
Qed.

Lemma fold_see_edges mk ds : forall t, edges (fold_left (see_dependency mk) ds t) = edges t.
Proof.
  induction ds as [|d ds IH]; intros t; simpl; [done|]. rewrite IH. unfold see_dependency, see. simpl.
  by destruct (nodes t !! _).
Qed.

Lemma see_edges k m t : edges (see k m t) = edges t.
Proof. unfold see. by destruct (nodes t !! k). Qed.

(** The maps after the responses. *)
Lemma receive_all rs t :
  ofold receive empty_topo rs = Ret t -> exists rows, omap row_of rs = rows /\ length rows = length rs /\
    reads t (mentioned rows) (parent rows) /\
    (NoDup rows.*1 -> forall k deps, edges t !! k = Some deps <-> (k, deps) ∈ rows).
Proof.
  intros Hrun. exists (omap row_of rs). split; [done|]. revert Hrun.
  apply (ofold_ind (fun rs t => length (omap row_of rs) = length rs /\
    reads t (mentioned (omap row_of rs)) (parent (omap row_of rs)) /\
    (NoDup (omap row_of rs).*1 -> forall k deps, edges t !! k = Some deps <-> (k, deps) ∈ omap row_of rs))).
  - split_and!; [done| |intros _ k deps; simpl; by rewrite lookup_empty, elem_of_nil].
    unfold mentioned, parent. split; simpl.
    + intros n. rewrite lookup_empty, elem_of_nil. setoid_rewrite elem_of_nil.
      split; [by intros [? ?]|intros [[]|(p & deps & [] & _)]].
    + intros n. rewrite lookup_empty, elem_of_nil. setoid_rewrite elem_of_nil.
      split; [by intros [? ?]|intros [[]|(p & deps & [] & _)]].
    + intros n ps. by rewrite lookup_empty.
    + intros p n Hp. right. by exists p.
    + intros n m. by rewrite lookup_empty.
  - intros pre resp t0 t1 (Hlen & Hr & He) _. unfold receive.
    destruct (source_of resp) as [[source items]|] eqn:Hs; [|done]. intros [= <-].
    set (mk := topology_key (requestToModule source)) in *.
    assert (omap row_of (pre ++ [resp]) = omap row_of pre ++ [(mk, map dependency_key items)]) as ->.
    { rewrite omap_app. simpl. unfold row_of at 2. by rewrite Hs. }
    rewrite !length_app, Hlen. split; [done|]. split.
    + apply (reads_see _ _ _ (requestToModule source)) in Hr. fold mk in Hr.
      apply (reads_see_dependencies mk items) in Hr as [Hn Hc Hps Hcl Hk].
      eapply reads_ext; [| |split; [exact Hn|exact Hc|exact Hps|exact Hcl|exact Hk]].
      * intros n. unfold mentioned, parent. rewrite fmap_app, elem_of_app. simpl. rewrite list_elem_of_singleton.
        setoid_rewrite elem_of_app. setoid_rewrite list_elem_of_singleton. split.
        -- intros [[[?|(p & deps & ? & ?)]| ->]|?]; eauto 8.
        -- intros [[?|?]|(p & deps & [?|[= -> ->]] & ?)]; eauto 8.
      * intros p n. unfold parent. setoid_rewrite elem_of_app. setoid_rewrite list_elem_of_singleton. split.
        -- intros [(deps & ? & ?)|[-> ?]]; eauto 8.
        -- intros (deps & [?|[= -> ->]] & ?); eauto.
    + simpl. rewrite fmap_app. intros (Hnd & Hdis & _)%NoDup_app k deps. simpl in Hdis.
      rewrite fold_see_edges, see_edges, elem_of_app, list_elem_of_singleton, <- (He Hnd).
      fold dependency_key. rewrite lookup_insert_Some. split.
      * intros [[<- <-]|[_ ?]]; [by right|by left].
      * intros [Hl|[= -> ->]]; [|by left]. right. split; [|done]. intros <-.
        apply (Hdis mk); [|by left]. apply (He Hnd) in Hl. apply list_elem_of_fmap. by exists (mk, deps).
Qed.

(** ** One module *)

Lemma peel_dependencies k ds : forall t next tier, exists t' out,
  fold_left (peel_dependency k) ds (t, next, tier) =
    (t', next ++ out, tier ++ map (fun n => nodes t !! n) out) /\
  NoDup out /\ edges t' = edges t /\
  (forall n, n ∈ out <-> n ∈ ds /\ exists ps, counter t !! n = Some ps /\ ps ∖ {[k]} = ∅) /\
  (forall n, n ∉ out -> nodes t' !! n = nodes t !! n) /\
  (forall n, n ∈ out -> counter t' !! n = None) /\
  (forall n, n ∉ out -> counter t' !! n =
     if decide (n ∈ ds) then (fun ps => ps ∖ {[k]}) <$> (counter t !! n) else counter t !! n).
Proof.
  induction ds as [|d ds IH]; intros t next tier; simpl.
  - exists t, []. rewrite !app_nil_r. split_and!; [done|constructor|done| |done| |done].
    + intros n. rewrite elem_of_nil. naive_solver.
    + by intros n ?%elem_of_nil.
  - destruct (counter t !! d) as [ps|] eqn:Hd; [destruct (decide (ps ∖ {[k]} = ∅)) as [He|He]|].
    + destruct (IH (mkTopo (delete d (counter t)) (delete d (nodes t)) (edges t)) (next ++ [d]) (tier ++ [nodes t !! d]))
        as (t' & out & Hrun & Hnd & Hed & Hout & Hn & Hgone & Hc). simpl in *.
      assert (d ∉ out) as Hno.
      { rewrite Hout. intros (_ & ps' & Hl & _). by rewrite lookup_delete_eq in Hl. }
      exists t', (d :: out). split_and!.
      * rewrite Hrun, <- !app_assoc. simpl. f_equal. f_equal. f_equal. apply map_ext_in.
        intros n Hin%list_elem_of_In. rewrite lookup_delete_ne; [done|]. by intros <-.
      * by constructor.
      * done.
      * intros n. rewrite !elem_of_cons, Hout. destruct (decide (n = d)) as [->|Hne].
        -- split; [intros _; eauto|by left].
        -- rewrite lookup_delete_ne by done. naive_solver.
      * intros n [Hne Hn']%not_elem_of_cons. rewrite Hn, lookup_delete_ne; done.
      * intros n [->|Hin]%elem_of_cons; [|by apply Hgone]. rewrite Hc by done.
        rewrite lookup_delete_eq. by case_decide.
      * intros n [Hne Hn']%not_elem_of_cons. rewrite Hc, lookup_delete_ne by done.
        destruct (decide (n ∈ ds)) as [Hin|Hin]; [by rewrite decide_True by (by right)|].
        rewrite decide_False; [done|]. by rewrite not_elem_of_cons.
    + destruct (IH (mkTopo (<[d := ps ∖ {[k]}]> (counter t)) (nodes t) (edges t)) next tier)
        as (t' & out & Hrun & Hnd & Hed & Hout & Hn & Hgone & Hc). simpl in *.
      assert (d ∉ out) as Hno.
      { rewrite Hout, lookup_insert_eq. intros (_ & ps' & [= <-] & Hps'). apply He. set_solver. }
      exists t', out. split_and!; [done..| |done|done|].
      * intros n. rewrite Hout, elem_of_cons. destruct (decide (n = d)) as [->|Hne].
        -- rewrite lookup_insert_eq, Hd. split; intros (_ & ps' & [= <-] & Hps'); exfalso; apply He; set_solver.
        -- rewrite lookup_insert_ne by done. naive_solver.
      * intros n Hn'. rewrite Hc by done. destruct (decide (n = d)) as [->|Hne].
        -- rewrite lookup_insert_eq, Hd. rewrite (decide_True (P := d ∈ d :: ds)) by (by left). simpl.
           case_decide; simpl; f_equal; set_solver.
        -- rewrite lookup_insert_ne by done. destruct (decide (n ∈ ds)); [by rewrite decide_True by (by right)|].
           rewrite decide_False; [done|]. by rewrite not_elem_of_cons.
    + destruct (IH t next tier) as (t' & out & Hrun & Hnd & Hed & Hout & Hn & Hgone & Hc).
      exists t', out. split_and!; [done..| |done|done|].
      * intros n. rewrite Hout, elem_of_cons. destruct (decide (n = d)) as [->|Hne]; [|naive_solver].
        rewrite Hd. naive_solver.
      * intros n Hn'. rewrite Hc by done. destruct (decide (n = d)) as [->|Hne].
        -- rewrite Hd. by repeat case_decide.
        -- destruct (decide (n ∈ ds)); [by rewrite decide_True by (by right)|].
           rewrite decide_False; [done|]. by rewrite not_elem_of_cons.
Qed.

(** ** All modules *)

Section Peeling.
Variables (rows : list (string * list string)) (root : string) (nodes0 : gmap string Module_).
Hypothesis Hrows : NoDup rows.*1.

(** [D] has been peeled, [Q] is queued; the parents a module still waits for
  are those not peeled. *)
Record peeling (D Q : list string) (t : topo) : Prop := mkPeeling {
p_count : forall n, is_Some (counter t !! n) <-> mentioned rows n /\ n <> root /\ n ∉ D ++ Q;
p_parents : forall n ps, counter t !! n = Some ps -> forall p, p ∈ ps <-> parent rows p n /\ p ∉ D;
p_waits : forall n, counter t !! n = Some ∅ -> forall p, ~ parent rows p n;
p_edges : forall k, k ∉ D -> forall deps, edges t !! k = Some deps <-> (k, deps) ∈ rows;
p_nodes : forall n, is_Some (counter t !! n) -> nodes t !! n = nodes0 !! n;
p_distinct : NoDup (D ++ Q);
p_root : root ∈ D ++ Q }.

(** When a module leaves: with its parents gone, the last in the tier [M]. *)
Definition ready (D M : list string) (n : string) : Prop :=
n <> root /\ (forall p, parent rows p n -> p ∈ D) /\ exists p, p ∈ M /\ parent rows p n.

Lemma ready_weaken D D' M n : (forall p, p ∈ D -> p ∈ D') -> ready D M n -> ready D' M n.
Proof. intros HD (Hr & Hp & Hm). split_and!; auto. Qed.

Lemma row_unique k deps deps' : (k, deps) ∈ rows -> (k, deps') ∈ rows -> deps = deps'.
Proof.
intros [i Hi]%list_elem_of_lookup [j Hj]%list_elem_of_lookup.
assert (i = j) as ->.
{ eapply (NoDup_lookup rows.*1 i j k); [done|..]; rewrite list_lookup_fmap; by rewrite ?Hi, ?Hj. }
congruence.
Qed.

Lemma peel_module_step D k Q t next tier M :
peeling D (k :: Q) t -> k ∈ M -> exists t' out,
  peel_module (t, next, tier) k = (t', next ++ out, tier ++ map (fun n => nodes0 !! n) out) /\
  peeling (D ++ [k]) (Q ++ out) t' /\ Forall (ready (D ++ [k]) M) out /\
  dom (counter t') ⊆ dom (counter t) /\ (forall n, n ∈ out -> n ∈ dom (counter t) /\ n ∉ dom (counter t')).
Proof.
intros [Hcount Hpar Hwaits Hedges Hnodes Hnd Hroot] HkM.
set (deps := default [] (edges t !! k)).
destruct (peel_dependencies k deps (mkTopo (counter t) (nodes t) (delete k (edges t))) next tier)
  as (t' & out & Hrun & Hndo & Hed & Hout & Hn & Hgone & Hc). simpl in *.
assert (k ∉ D) as HkD.
{ intros HD. apply NoDup_app in Hnd as (_ & Hdis & _). apply (Hdis k HD). by left. }
assert (forall n, n ∈ deps <-> parent rows k n) as Hdeps.
{ intros n. unfold deps, parent. split.
  - destruct (edges t !! k) as [ds|] eqn:Hk; [|by intros ?%elem_of_nil].
    intros Hin. exists ds. split; [|done]. by apply (Hedges k HkD).
  - intros (ds & Hin & Hds). apply (Hedges k HkD) in Hin. by rewrite Hin. }
assert (forall n, n ∈ out -> is_Some (counter t !! n)) as Hlive.
{ intros n (_ & ps & Hl & _)%Hout. by eexists. }
assert (forall n, n ∉ out -> is_Some (counter t' !! n) <-> is_Some (counter t !! n)) as Hdom.
{ intros n Hno. rewrite Hc by done. case_decide; [by rewrite fmap_is_Some|done]. }
exists t', out. split_and!.
- unfold peel_module. fold deps. rewrite Hrun. f_equal. f_equal. apply map_ext_in.
  intros n Hin%list_elem_of_In. by apply Hnodes, Hlive.
- split.
  + intros n. assert (n ∈ (D ++ [k]) ++ Q ++ out <-> n ∈ D ++ k :: Q \/ n ∈ out) as ->.
    { rewrite !elem_of_app, !elem_of_cons, elem_of_nil. tauto. }
    destruct (decide (n ∈ out)) as [Hin|Hin].
    * rewrite Hgone by done. split; [by intros [? ?]|tauto].
    * rewrite Hdom, Hcount by done. tauto.
  + intros n ps Hl p. assert (n ∉ out) as Hno by (intros Hin; by rewrite Hgone in Hl).
    rewrite Hc in Hl by done. rewrite elem_of_app, list_elem_of_singleton. case_decide as Hin.
    * apply fmap_Some in Hl as (ps' & Hl & ->).
      rewrite elem_of_difference, elem_of_singleton, (Hpar _ _ Hl). tauto.
    * rewrite (Hpar _ _ Hl). rewrite Hdeps in Hin. split; [|tauto]. intros [Hp HD].
      split; [done|]. intros [?| ->]; done.
  + intros n Hl p. assert (n ∉ out) as Hno by (intros Hin; by rewrite Hgone in Hl).
    pose proof Hl as Hl'. rewrite Hc in Hl by done. case_decide as Hin; [|by apply Hwaits].
    exfalso. apply Hno, Hout. split; [done|]. apply fmap_Some in Hl as (ps & Hl & Heq). by exists ps.
  + intros x Hx ds. apply not_elem_of_app in Hx as [HxD Hxk]. rewrite list_elem_of_singleton in Hxk.
    rewrite Hed, lookup_delete_ne by done. by apply Hedges.
  + intros n Hs. assert (n ∉ out) as Hno by (intros Hin; rewrite Hgone in Hs by done; by destruct Hs).
    rewrite Hn by done. by apply Hnodes, Hdom.
  + replace ((D ++ [k]) ++ Q ++ out) with ((D ++ k :: Q) ++ out) by (by rewrite <- !app_assoc).
    apply NoDup_app. split_and!; [done| |done]. intros n Hin Ho. by apply Hlive, Hcount in Ho as (_ & _ & ?).
  + rewrite elem_of_app, elem_of_cons in Hroot. rewrite !elem_of_app, list_elem_of_singleton. tauto.
- apply Forall_forall. intros n Hin. pose proof (Hlive n Hin) as (_ & Hr & _)%Hcount.
  apply Hout in Hin as (Hin & ps & Hl & He). split_and!; [done| |exists k; split; [done|by apply Hdeps]].
  intros p Hp. rewrite elem_of_app, list_elem_of_singleton.
  destruct (decide (p ∈ D)) as [|HpD]; [by left|right].
  assert (p ∈ ps) as Hps by (by apply (Hpar _ _ Hl)).
  destruct (decide (p = k)) as [|Hpk]; [done|].
  assert (p ∈ ps ∖ {[k]}) as Hx by (by rewrite elem_of_difference, elem_of_singleton).
  rewrite He in Hx. by apply elem_of_empty in Hx.
- intros n. rewrite !elem_of_dom. destruct (decide (n ∈ out)) as [Hin|Hin].
  + rewrite Hgone by done. by intros [? ?].
  + by rewrite Hdom.
- intros n Hin. rewrite !elem_of_dom. split; [by apply Hlive|]. rewrite Hgone by done. by intros [? ?].
Qed.

Lemma peel_modules_step M ms : forall D next t,
peeling D (ms ++ next) t -> (forall k, k ∈ ms -> k ∈ M) -> Forall (ready D M) next -> exists t' next',
  fold_left peel_module ms (t, next, map (fun n => nodes0 !! n) next) =
    (t', next', map (fun n => nodes0 !! n) next') /\
  peeling (D ++ ms) next' t' /\ Forall (ready (D ++ ms) M) next' /\
  dom (counter t') ⊆ dom (counter t) /\
  (forall n, n ∈ next' -> n ∈ next \/ n ∈ dom (counter t) /\ n ∉ dom (counter t')).
Proof.
induction ms as [|k ms IH]; intros D next t Hp HM Hready; cbn [fold_left].
- exists t, next. rewrite app_nil_r. split_and!; [done..| |]; [done|by left].
- destruct (peel_module_step D k (ms ++ next) t next (map (fun n => nodes0 !! n) next) M Hp (HM k (list_elem_of_here _ _)))
    as (t1 & out & Hrun & Hp1 & Hr1 & Hd1 & Hg1).
  rewrite Hrun. rewrite <- map_app. rewrite <- app_assoc in Hp1.
  destruct (IH (D ++ [k]) (next ++ out) t1) as (t2 & next2 & Hrun2 & Hp2 & Hr2 & Hd2 & Hg2).
  + done.
  + intros x Hx. apply HM. by right.
  + apply Forall_app. split; [|done]. eapply Forall_impl; [exact Hready|].
    intros n. apply ready_weaken. intros p. rewrite elem_of_app. tauto.
  + exists t2, next2. rewrite <- app_assoc in Hp2, Hr2. simpl in Hp2, Hr2. split_and!; [done..| |].
    * by etransitivity.
    * intros n [[?|Ho]%elem_of_app|[Hin Hno]]%Hg2; [by left| |].
      -- right. apply Hg1 in Ho as [? ?]. split; [done|]. intros ?%Hd2. done.
      -- right. split; [by apply Hd1|done].
Qed.

(** ** The tiers *)

(** Each tier after the first holds modules whose parents are all in earlier
  tiers, one of them in the tier before. *)
Definition tiered (tiers : list (list string)) : Prop :=
forall j M N, tiers !! j = Some M -> tiers !! S j = Some N ->
  Forall (ready (concat (take (S j) tiers)) M) N.

Lemma tiered_snoc tiers M N :
tiered (tiers ++ [M]) -> Forall (ready (concat (tiers ++ [M])) M) N -> tiered ((tiers ++ [M]) ++ [N]).
Proof.
intros Ht HN j A B HA HB. apply lookup_app_Some in HB as [HB|[Hlen HB]].
- assert (S j < length (tiers ++ [M])) as Hj by (by eapply lookup_lt_Some).
  rewrite lookup_app_l in HA by lia. rewrite take_app_le by lia. by eapply Ht.
- apply list_lookup_singleton_Some in HB as [Hj <-]. rewrite length_app in Hj, Hlen. simpl in Hj, Hlen.
  assert (j = length tiers) as -> by lia.
  rewrite lookup_app_l, lookup_app_r, Nat.sub_diag in HA by (rewrite ?length_app; simpl; lia).
  injection HA as <-. rewrite take_app_length' by (rewrite length_app; simpl; lia). done.
Qed.

Lemma peel_tiers_spec fuel : forall tiers M t,
M <> [] -> peeling (concat tiers) M t -> tiered (tiers ++ [M]) -> size (dom (counter t)) < fuel ->
exists tiers' t',
  peel_tiers fuel t M (map (map (fun n => nodes0 !! n)) (tiers ++ [M])) =
    Some (map (map (fun n => nodes0 !! n)) tiers') /\
  (tiers ++ [M]) `prefix_of` tiers' /\ peeling (concat tiers') [] t' /\ tiered tiers'.
Proof.
induction fuel as [|fuel IH]; intros tiers M t HM Hp Ht Hsize; [lia|].
destruct (peel_modules_step M M (concat tiers) [] t) as (t1 & next & Hrun & Hp1 & Hr1 & Hd1 & Hg1);
  [by rewrite app_nil_r|done|constructor|].
assert (concat tiers ++ M = concat (tiers ++ [M])) as HD
  by (rewrite concat_app; simpl; by rewrite app_nil_r).
rewrite HD in Hp1, Hr1. destruct M as [|k M]; [done|]. cbn [peel_tiers].
change (@nil (option Module_)) with (map (fun n => nodes0 !! n) []). rewrite Hrun.
destruct next as [|n next].
- exists (tiers ++ [k :: M]), t1. destruct fuel; simpl; by split_and!.
- destruct (IH (tiers ++ [k :: M]) (n :: next) t1) as (tiers' & t' & Hrun' & Hpre & Hp' & Ht').
  + done.
  + done.
  + by apply tiered_snoc.
  + destruct (Hg1 n) as [?%elem_of_nil|[Hin Hno]]; [by left|done|].
    assert (dom (counter t1) ⊂ dom (counter t)) as Hlt by set_solver.
    apply subset_size in Hlt. lia.
  + exists tiers', t'. simpl in Hrun' |- *. rewrite (map_app _ _ [n :: next]) in Hrun'. simpl in Hrun'.
    rewrite Hrun'. split_and!; [done| |done..]. etransitivity; [by eexists|exact Hpre].
Qed.

(** ** Which modules leave *)

(** The root, and every module all of whose parents do. *)
Inductive emitted : string -> Prop :=
| emitted_root : emitted root
| emitted_child n p : n <> root -> parent rows p n -> (forall p, parent rows p n -> emitted p) -> emitted n.

Lemma peeled_emitted tiers t n :
head tiers = Some [root] -> tiered tiers -> peeling (concat tiers) [] t -> n ∈ concat tiers <-> emitted n.
Proof.
intros Hhd Ht [Hcount Hpar Hwaits Hedges Hnodes Hnd Hroot]. rewrite app_nil_r in *. split.
- assert (forall j N, tiers !! j = Some N -> Forall emitted N) as Hall.
  { induction j as [j IH] using lt_wf_ind. intros N HN. destruct j as [|j].
    - destruct tiers; [done|]. simpl in *. simplify_eq. constructor; constructor.
    - destruct (lookup_lt_is_Some_2 tiers j) as [M HMj];
        [apply lookup_lt_Some in HN; lia|].
      eapply Forall_impl; [exact (Ht j M N HMj HN)|]. intros x (Hr & Hps & p & _ & Hp).
      apply (emitted_child x p Hr Hp). intros q Hq%Hps.
      apply elem_of_concat in Hq as (L & Hq & HL).
      apply list_elem_of_lookup in HL as [i Hi]. apply lookup_take_Some in Hi as [Hi Hlt].
      specialize (IH i ltac:(lia) L Hi). rewrite Forall_forall in IH. by apply IH. }
  intros (N & Hn & HN)%elem_of_concat. apply list_elem_of_lookup in HN as [j Hj].
  specialize (Hall j N Hj). rewrite Forall_forall in Hall. by apply Hall.
- induction 1 as [|n p Hne Hp Hps IH]; [done|].
  destruct (decide (n ∈ concat tiers)) as [|Hno]; [done|exfalso].
  assert (is_Some (counter t !! n)) as [ps Hl].
  { apply Hcount. split_and!; [right; by exists p|done..]. }
  assert (ps = ∅) as ->.
  { apply leibniz_equiv, elem_of_equiv_empty. intros q (Hq & HqD)%(Hpar _ _ Hl). by apply HqD, IH. }
  by apply (Hwaits n Hl p).
Qed.
End Peeling.
