(* ===== verification/ClientConfig.v ===== *)
(** * internal/client: connecting to a service

    The flags a binary offers for each service it calls (config.go), the TLS
    configuration of the connection (tls.go) and the options it is dialed with
    (connect.go).  Key pairs, PEM files and the system's certificates are an
    environment ([TlsFiles]); what the command line and the environment
    variables give for a flag is the argument [given] of [configure]. *)

From Stdlib Require Import Ascii.
From S2P Require Import Prelude.

(** ** crypto/tls and crypto/x509 *)

(** A certificate by name, and what the files hold. *)
Class TlsFiles := {
  LoadX509KeyPair : string -> string -> outcome string;
  ReadFile : string -> outcome string;
  pem_certificates : string -> list string;
  SystemCertPool : outcome (list string) }.

Inductive ClientAuthType := NoClientCert | RequireAndVerifyClientCert.

(** The fields of [tls.Config] the code sets or leaves nil. *)
Record tls_config := mkTlsConfig
  { Certificates : list string; RootCAs : option (list string); ClientCAs : option (list string);
    ClientAuth : ClientAuthType }.

(** [certPool.AppendCertsFromPEM] on an empty pool: it reports whether it
    found any certificate. *)
Definition pool_of_file `{TlsFiles} (path : string) : outcome (list string) :=
  let? pem := ReadFile path in
  match pem_certificates pem with
  | [] => Fail (ErrText "failed to append certs")
  | certs => Ret certs
  end.

(** What a handshake checks, for a peer whose chain ends in [issuer]: a client
    trusts [RootCAs], or the system's certificates when it is nil, and a
    server that verifies its clients trusts [ClientCAs]. *)
Definition trusts_server `{TlsFiles} (c : tls_config) (issuer : string) : Prop :=
  match RootCAs c with
  | Some pool => issuer ∈ pool
  | None => exists pool, SystemCertPool = Ret pool /\ issuer ∈ pool
  end.
Definition accepts_client `{TlsFiles} (c : tls_config) (issuer : string) : Prop :=
  match ClientAuth c with
  | NoClientCert => True
  | RequireAndVerifyClientCert =>
      match ClientCAs c with
      | Some pool => issuer ∈ pool
      | None => exists pool, SystemCertPool = Ret pool /\ issuer ∈ pool
      end
  end.

(** ** tls.go *)

Record TLSConfig := mkTLS { CertPath : string; KeyPath : string; CAPath : string }.

Definition nonempty (s : string) : bool := bool_decide (s <> ""%string).

Definition LoadTLSConfig `{TlsFiles} (cfg : option TLSConfig) : outcome (option tls_config) :=
  match cfg with
  | None => Ret None
  | Some cfg =>
      let? certificates :=
        if nonempty (CertPath cfg) && nonempty (KeyPath cfg) then
          let? certificate := LoadX509KeyPair (CertPath cfg) (KeyPath cfg) in Ret [certificate]
        else Ret [] in
      let? certPool := if nonempty (CAPath cfg) then pool_of_file (CAPath cfg) else SystemCertPool in
      Ret (Some (mkTlsConfig certificates None (Some certPool) NoClientCert))
  end.

(** ** Flags *)

(** The flags of [urfave/cli] the binaries use: a flag has names, reads
    environment variables and writes a field of the configuration [C], whose
    value at the start is its default. *)
Inductive Flag (C : Type) :=
| StringFlag (names env : list string) (get : C -> string) (set : string -> C -> C)
| BoolFlag (names env : list string) (get : C -> bool) (set : bool -> C -> C)
| IntFlag (names env : list string) (get : C -> Z) (set : Z -> C -> C).
Arguments StringFlag {C}.
Arguments BoolFlag {C}.
Arguments IntFlag {C}.

Definition flag_names {C} (f : Flag C) : list string :=
  match f with StringFlag names _ _ _ | BoolFlag names _ _ _ | IntFlag names _ _ _ => names end.
Definition flag_env {C} (f : Flag C) : list string :=
  match f with StringFlag _ env _ _ | BoolFlag _ env _ _ | IntFlag _ env _ _ => env end.

(** What the command line or else the environment says of a flag. *)
Record Given := mkGiven
  { given_string : list string -> list string -> option string;
    given_bool : list string -> list string -> option bool;
    given_int : list string -> list string -> option Z }.

Definition apply_flag {C} (given : Given) (c : C) (f : Flag C) : C :=
  match f with
  | StringFlag names env get set => set (default (get c) (given_string given names env)) c
  | BoolFlag names env get set => set (default (get c) (given_bool given names env)) c
  | IntFlag names env get set => set (default (get c) (given_int given names env)) c
  end.
Definition configure {C} (given : Given) (flags : list (Flag C)) (c : C) : C :=
  fold_left (apply_flag given) flags c.

(** A flag of a part of a configuration. *)
Definition lift_flag {C D} (get : D -> C) (set : C -> D -> D) (f : Flag C) : Flag D :=
  match f with
  | StringFlag names env g s => StringFlag names env (fun d => g (get d)) (fun v d => set (s v (get d)) d)
  | BoolFlag names env g s => BoolFlag names env (fun d => g (get d)) (fun v d => set (s v (get d)) d)
  | IntFlag names env g s => IntFlag names env (fun d => g (get d)) (fun v d => set (s v (get d)) d)
  end.

(** ** config.go *)

Local Open Scope char_scope.

(** [strings.ToLower] and [strings.ToUpper] on ASCII. *)
Definition lower_char (a : ascii) : ascii :=
  let n := nat_of_ascii a in if ((65 <=? n) && (n <=? 90))%nat then ascii_of_nat (n + 32) else a.
Definition upper_char (a : ascii) : ascii :=
  let n := nat_of_ascii a in if ((97 <=? n) && (n <=? 122))%nat then ascii_of_nat (n - 32) else a.
Definition ToLower (s : string) : string := string_of_list_ascii (map lower_char (list_ascii_of_string s)).
Definition ToUpper (s : string) : string := string_of_list_ascii (map upper_char (list_ascii_of_string s)).

Local Close Scope char_scope.
Local Open Scope string_scope.

Definition quoted (s : string) : string := String (ascii_of_nat 34) (s +:+ String (ascii_of_nat 34) "").

Definition DefaultServiceConfig : string :=
  "{" +:+ quoted "loadBalancingPolicy" +:+ ":" +:+ quoted "round_robin" +:+ "," +:+
  quoted "healthCheckConfig" +:+ ":{" +:+ quoted "serviceName" +:+ ":" +:+ quoted "" +:+ "}}".
Definition DefaultLoadBalancer : string := "round_robin".

Record Config := mkConfig
  { Address : string; ServiceConfig : string; LoadBalancer : string; TLS : bool; Config_TLS : TLSConfig }.

Definition set_TLS (t : TLSConfig) (c : Config) : Config :=
  mkConfig (Address c) (ServiceConfig c) (LoadBalancer c) (TLS c) t.

Definition WithFlags (prefix : string) : list (Flag Config) :=
  let lower := ToLower prefix in
  let upper := ToUpper prefix in
  [ StringFlag [lower +:+ "-address"] [upper +:+ "_ADDRESS"] Address
      (fun v c => mkConfig v (ServiceConfig c) (LoadBalancer c) (TLS c) (Config_TLS c));
    StringFlag [lower +:+ "-service-config"] [upper +:+ "_SERVICE_CONFIG"] ServiceConfig
      (fun v c => mkConfig (Address c) v (LoadBalancer c) (TLS c) (Config_TLS c));
    BoolFlag [lower +:+ "-tls"] [upper +:+ "_TLS"] TLS
      (fun v c => mkConfig (Address c) (ServiceConfig c) (LoadBalancer c) v (Config_TLS c));
    StringFlag [lower +:+ "-ca"] [upper +:+ "_CA_PATH"] (fun c => CAPath (Config_TLS c))
      (fun v c => set_TLS (mkTLS (CertPath (Config_TLS c)) (KeyPath (Config_TLS c)) v) c);
    StringFlag [lower +:+ "-cert"] [upper +:+ "_CERT_PATH"] (fun c => CertPath (Config_TLS c))
      (fun v c => set_TLS (mkTLS v (KeyPath (Config_TLS c)) (CAPath (Config_TLS c))) c);
    StringFlag [lower +:+ "-key"] [upper +:+ "_KEY_PATH"] (fun c => KeyPath (Config_TLS c))
      (fun v c => set_TLS (mkTLS (CertPath (Config_TLS c)) v (CAPath (Config_TLS c))) c);
    StringFlag [lower +:+ "-lb"] [upper +:+ "_LBPOLICY"] LoadBalancer
      (fun v c => mkConfig (Address c) (ServiceConfig c) v (TLS c) (Config_TLS c)) ].

(** ** connect.go *)

(** The dial options; interceptors only measure. *)
Inductive DialOption :=
| WithDefaultServiceConfig (config : string)
| WithStreamInterceptor
| WithUnaryInterceptor
| WithTransportCredentials (config : option tls_config)
| WithInsecure.

(** What [grpc.Dial] is called with. *)
Definition Connect `{TlsFiles} (cfg : Config) : outcome (string * list DialOption) :=
  let options := [WithDefaultServiceConfig (ServiceConfig cfg); WithStreamInterceptor; WithUnaryInterceptor] in
  if TLS cfg || nonempty (CertPath (Config_TLS cfg)) then
    let? tlsConfig := LoadTLSConfig (Some (Config_TLS cfg)) in
    Ret (Address cfg, (options ++ [WithTransportCredentials tlsConfig])%list)
  else Ret (Address cfg, (options ++ [WithInsecure])%list).
