(* ===== verification/Mux.v ===== *)
(** * internal/mux: serving

    The server side of TLS (tls.go), which handler a request gets, the serving
    status a health monitor reports, the version document and what [Serve]
    does before it serves, and the shutdown signals (server.go).  The health
    monitor (go-gracefully), net/http, gRPC and the network are outside. *)

From S2P Require Import Prelude GoJson ClientConfig.

Local Open Scope string_scope.

(** ** tls.go *)

Definition mux_LoadTLSConfig `{TlsFiles} (cfg : option TLSConfig) : outcome (option tls_config) :=
  match cfg with
  | None => Ret None
  | Some cfg =>
      if negb (nonempty (CertPath cfg)) || negb (nonempty (KeyPath cfg)) then Ret None else
      let? certificate := LoadX509KeyPair (CertPath cfg) (KeyPath cfg) in
      let? certPool := if nonempty (CAPath cfg) then pool_of_file (CAPath cfg) else Ret [] in
      Ret (Some (mkTlsConfig [certificate] None (Some certPool) RequireAndVerifyClientCert))
  end.

(** ** server.go: versions *)

Record Version := mkVersion { Version_Version : string; Version_Commit : string; Version_Date : string }.

Definition Version_String (v : Version) : string :=
  "{version: " +:+ Version_Version v +:+ ", commit: " +:+ Version_Commit v +:+ ", date: " +:+ Version_Date v +:+ "}".

(** ** server.go: health *)

Inductive State := OK | Outage | OtherState (n : Z).
#[export] Instance State_eq_dec : EqDecision State.
Proof. solve_decision. Defined.
Inductive ServingStatus := SERVING | NOT_SERVING.

(** A report is about one check, or about the system when it names none. *)
Record Report := mkReport { Report_Check : option string; Report_State : State }.

(** One round of the goroutine of [registerHealth]. *)
Definition on_report (status : ServingStatus) (report : Report) : ServingStatus :=
  match Report_Check report with
  | None => if decide (Report_State report = Outage) then NOT_SERVING else SERVING
  | Some _ => status
  end.

(** [grpchealth.NewServer] starts by serving. *)
Definition registerHealth (reports : list Report) : ServingStatus := fold_left on_report reports SERVING.

(** ** server.go: requests *)

Record HttpRequest := mkHttpRequest { ProtoMajor : Z; ContentType : string; Path : string }.

Inductive handler := GrpcHandler | HealthHandler | MetricsHandler | VersionHandler | HttpHandler.

Definition HasPrefix (s prefix : string) : bool := String.prefix prefix s.

(** [httpMux]: the fixed paths, and the handler of everything else. *)
Definition route (request : HttpRequest) : handler :=
  if decide (Path request = "/healthz") then HealthHandler
  else if decide (Path request = "/health") then HealthHandler
  else if decide (Path request = "/metrics") then MetricsHandler
  else if decide (Path request = "/version") then VersionHandler
  else if bool_decide (ProtoMajor request = 2%Z) && HasPrefix (ContentType request) "application/grpc"
       then GrpcHandler else HttpHandler.

(** ** net/http: responses

    The first [WriteHeader] sends the status and the header fields set so far;
    a [Write] without one sends 200; later calls change nothing that is sent. *)
Record ResponseWriter := mkResponse
  { header : gmap string string; sent_status : option (Z * gmap string string); body : string }.

Definition new_response : ResponseWriter := mkResponse ∅ None "".
Definition WriteHeader (code : Z) (w : ResponseWriter) : ResponseWriter :=
  match sent_status w with
  | Some _ => w
  | None => mkResponse (header w) (Some (code, header w)) (body w)
  end.
Definition Header_Set (name value : string) (w : ResponseWriter) : ResponseWriter :=
  mkResponse (<[name := value]> (header w)) (sent_status w) (body w).
Definition Write (text : string) (w : ResponseWriter) : ResponseWriter :=
  let w := WriteHeader 200 w in mkResponse (header w) (sent_status w) (body w +:+ text).

(** ** server.go: the version document *)

(** The struct tags, without [omitempty]. *)
Definition version_tags : list string := ["version"; "commit"; "date"].
Definition version_fields (v : Version) : list field :=
  [FString (Version_Version v); FString (Version_Commit v); FString (Version_Date v)].

(** [json.Marshal], which does not fail on strings. *)
Definition marshal_version (v : Version) : option string :=
  Some (of_bytes (write_object (zip version_tags (version_fields v)))).

(** [json.NewDecoder(r).Decode(version)], from a zero version; [None] is an
    error. *)
Definition decode_version (text : string) : option Version :=
  match decode_struct version_tags (version_fields (mkVersion "" "" "")) (to_bytes text) with
  | ([FString v; FString c; FString d], true) => Some (mkVersion v c d)
  | _ => None
  end.

(** The handler of "/version". *)
Definition registerVersion (version : Version) (writer : ResponseWriter) : ResponseWriter :=
  match marshal_version version with
  | None => WriteHeader 500 writer
  | Some text => Write text (WriteHeader 200 (Header_Set "Content-Type" "application/json" writer))
  end.

(** ** server.go: DefaultServers

    An interceptor is given the call and may run it; in a chain the first is
    outermost.  The interceptors of the libraries are parameters. *)
Definition Interceptor (W : Type) : Type := forall A, M W A -> M W A.

Fixpoint Chain {W} (interceptors : list (Interceptor W)) : Interceptor W :=
  fun A call => match interceptors with
                | [] => call
                | interceptor :: rest => interceptor A (Chain rest A call)
                end.

(** The interceptors of streams are chained in the same order. *)
Definition DefaultServers {W} (prometheus recovery : Interceptor W) : Interceptor W := Chain [prometheus; recovery].

(** ** server.go: the handlers of Serve *)

Definition Handler : Type := HttpRequest -> ResponseWriter -> ResponseWriter.

(** What the libraries give: handlers, and functions from handlers to handlers. *)
Record Handlers := mkHandlers
  { grpcServer_ServeHTTP : Handler; health_HandlerFunc : Handler; promhttp_Handler : Handler;
    metrics_middleware : Handler -> Handler; cors_Handler : Handler -> Handler; h2c_NewHandler : Handler -> Handler }.

Definition monitorHandler (h : Handlers) (httpServer : Handler) : Handler := metrics_middleware h httpServer.

Definition httpMux (h : Handlers) (httpServer : Handler) (version : Version) : Handler :=
  fun request writer =>
    match route request with
    | GrpcHandler => grpcServer_ServeHTTP h request writer
    | HttpHandler => monitorHandler h httpServer request writer
    | HealthHandler => health_HandlerFunc h request writer
    | MetricsHandler => promhttp_Handler h request writer
    | VersionHandler => registerVersion version writer
    end.

(** The handler [http.Serve] is given. *)
Definition h2cMux (h : Handlers) (httpServer : Handler) (version : Version) : Handler :=
  h2c_NewHandler h (cors_Handler h (httpMux h httpServer version)).

(** ** server.go: Serve *)

Record ServeConfig := mkServeConfig
  { BindAddressHTTP : string; BindAddressGRPC : string; Serve_TLS : option TLSConfig }.

(** [net.Listen] or [tls.Listen] on an address, and how serving gRPC ends. *)
Record Network := mkNetwork { listen : string -> option tls_config -> option error; serve_end : option error }.

(** The listeners opened when [Serve] returns, and its error.  A listener
    opened before the other failed stays open. *)
Definition Serve `{TlsFiles} (net : Network) (config : ServeConfig) : outcome (list string * option error) :=
  let? tlsConfig := mux_LoadTLSConfig (Serve_TLS config) in
  let httpErr := listen net (BindAddressHTTP config) tlsConfig in
  let grpcErr := listen net (BindAddressGRPC config) tlsConfig in
  let opened (addr : string) (err : option error) := match err with Some _ => [] | None => [addr] end in
  match httpErr, grpcErr with
  | Some err, _ => Ret (opened (BindAddressGRPC config) grpcErr, Some err)
  | None, Some err => Ret ([BindAddressHTTP config], Some err)
  | None, None => Ret ([], serve_end net)
  end.

(** ** server.go: signals

    The goroutine of [Serve] waits for a signal, starts a graceful stop, waits
    for another and stops.  The channel has no buffer: a signal that comes
    while the goroutine is not at the channel is dropped. *)
Inductive stopping := Running_ | Between | Graceful | Graceful_done | Stopped_.
Inductive stop_event := Signal | Advance.

Definition on_stop (s : stopping) (e : stop_event) : stopping :=
  match e, s with
  | Signal, Running_ => Between
  | Signal, Graceful => Graceful_done
  | Signal, _ => s
  | Advance, Between => Graceful
  | Advance, Graceful_done => Stopped_
  | Advance, _ => s
  end.
Definition gracefully_stopping (s : stopping) : bool :=
  match s with Graceful | Graceful_done | Stopped_ => true | _ => false end.
