(* ===== verification/Services.v ===== *)
(** * The services as interfaces

    The generated gRPC clients and servers of [github.com/depscloud/api] have
    the same methods; a service is the record of them.  The tracker implements
    the four services, the gateway forwards to them, and the command line
    calls them. *)

From S2P Require Import Prelude Api GraphSpec StoreAlpha KeysAlpha QueryAlpha TrackAlpha SearchAlpha.

(** ** tracker *)

Record DependencyService (W : Type) := mkDependencyService {
  svc_ListDependents : DependencyRequest -> M W (list Dependency);
  svc_ListDependencies : DependencyRequest -> M W (list Dependency) }.
Arguments mkDependencyService {W}.
Arguments svc_ListDependents {W}.
Arguments svc_ListDependencies {W}.

Record ModuleService (W : Type) := mkModuleService {
  svc_ListModules : PageRequest -> M W ListModuleResponse;
  svc_ListSources : Module_ -> M W (list ManagedSource);
  svc_ListManaged : Source -> M W (list ManagedModule) }.
Arguments mkModuleService {W}.
Arguments svc_ListModules {W}.
Arguments svc_ListSources {W}.
Arguments svc_ListManaged {W}.

Record SourceService (W : Type) := mkSourceService {
  svc_ListAllSources : PageRequest -> M W ListSourceResponse;
  svc_Track : SourceRequest -> M W bool }.
Arguments mkSourceService {W}.
Arguments svc_ListAllSources {W}.
Arguments svc_Track {W}.

(** ** extractor: a service of its own, outside this repository *)

Record MatchRequest := mkMatchRequest { MR_Separator : string; MR_Paths : list string }.
Record ExtractRequest := mkExtractRequest
  { ER_Url : string; ER_Separator : string; ER_FileContents : gmap string string }.

Record ExtractorService (W : Type) := mkExtractorService {
  svc_Match : MatchRequest -> M W (list string);
  svc_Extract : ExtractRequest -> M W (list ManagementFile) }.
Arguments mkExtractorService {W}.
Arguments svc_Match {W}.
Arguments svc_Extract {W}.

(** ** What the tracker registers *)

Section Tracker.
Context `{JsonCodec} {W : Type} `{GraphStoreOps W} `{MapRange}.

Definition tracker_DependencyService : DependencyService W :=
mkDependencyService ListDependents ListDependencies.
Definition tracker_ModuleService : ModuleService W :=
mkModuleService moduleService_List ListSources (fun s => ListManaged (Some s)).
Definition tracker_SourceService : SourceService W :=
mkSourceService sourceService_List Track.
End Tracker.
