(* ===== verification/Gateway.v ===== *)
(** * gateway: the proxies

    The gateway registers, for every service, a server that hands each call
    to the client of the service behind it (internal/proxies).  A unary call
    is one call; a search is a stream in both directions, which two loops
    relay: a goroutine takes requests from the caller to the service, and
    [process] itself takes responses back. *)

From S2P Require Import Prelude Api QueryAlpha SearchAlpha Services.

(** ** Unary calls *)

Section Unary.
Context {W : Type}.

Definition NewDependencyServiceProxy (client : DependencyService W) : DependencyService W :=
mkDependencyService (fun request => svc_ListDependents client request)
  (fun request => svc_ListDependencies client request).

Definition NewModuleServiceProxy (client : ModuleService W) : ModuleService W :=
mkModuleService (fun request => svc_ListModules client request)
  (fun module => svc_ListSources client module) (fun source => svc_ListManaged client source).

Definition NewSourceServiceProxy (client : SourceService W) : SourceService W :=
mkSourceService (fun request => svc_ListAllSources client request)
  (fun request => svc_Track client request).

Definition NewExtractorServiceProxy (client : ExtractorService W) : ExtractorService W :=
mkExtractorService (fun request => svc_Match client request)
  (fun request => svc_Extract client request).
End Unary.

(** ** One loop of [process]

    Both loops look at the context, receive from one stream and send to the
    other.  [queue] holds what the first stream has and was not received,
    [closed] is whether it ends there with io.EOF, [moved] what was sent to
    the second stream. *)

Inductive pc (A : Type) := AtSelect | AtRecv | AtSend (msg : A) | Stopped (err : option error).
Arguments AtSelect {A}.
Arguments AtRecv {A}.
Arguments AtSend {A} msg.
Arguments Stopped {A} err.

Record relay (A : Type) := mkRelay
  { at_ : pc A; queue : list A; closed : bool; moved : list A }.
Arguments mkRelay {A} at_ queue closed moved.
Arguments at_ {A} r.
Arguments queue {A} r.
Arguments closed {A} r.
Arguments moved {A} r.

(** A step of the loop.  [fault] is the error the call it makes ends in, if
    any; without one, [Recv] waits ([None]) while there is nothing to receive
    and ends the loop at io.EOF. *)
Definition relay_step {A} (fault : option error) (done : bool) (r : relay A) : option (relay A) :=
  match at_ r with
  | AtSelect =>
      Some (mkRelay (if done then Stopped None else AtRecv) (queue r) (closed r) (moved r))
  | AtRecv =>
      match fault, queue r with
      | Some err, _ => Some (mkRelay (Stopped (Some err)) (queue r) (closed r) (moved r))
      | None, msg :: rest => Some (mkRelay (AtSend msg) rest (closed r) (moved r))
      | None, [] => if closed r then Some (mkRelay (Stopped None) [] true (moved r)) else None
      end
  | AtSend msg =>
      match fault with
      | Some err => Some (mkRelay (Stopped (Some err)) (queue r) (closed r) (moved r))
      | None => Some (mkRelay AtSelect (queue r) (closed r) (moved r ++ [msg]))
      end
  | Stopped _ => None
  end.

(** What arrives on the stream a loop receives from. *)
Definition relay_arrive {A} (msg : A) (r : relay A) : option (relay A) :=
  if closed r then None else Some (mkRelay (at_ r) (queue r ++ [msg]) false (moved r)).
Definition relay_close {A} (r : relay A) : option (relay A) :=
  if closed r then None else Some (mkRelay (at_ r) (queue r) true (moved r)).

Definition relay_start {A} : relay A := mkRelay AtSelect [] false [].

(** ** [process] *)

Section Process.
Context {Req Resp : Type}.

(** The goroutine drops its error; the error of the other loop is what
  [process] returns. *)
Record process_state := mkProcess
  { receiver : relay Req; forwarder : relay Resp; done : bool }.

Inductive process_event :=
| Request_arrives (req : Req)        (* the caller sends *)
| Caller_closes                      (* the caller half-closes *)
| Response_arrives (resp : Resp)     (* the service answers *)
| Service_returns                    (* the service ends the stream with io.EOF *)
| Context_done                       (* the caller's context ends *)
| Receiver_runs (fault : option error)
| Forwarder_runs (fault : option error).

Definition is_stopped {A} (r : relay A) : bool :=
match at_ r with Stopped _ => true | _ => false end.

(** The deferred [cancel] runs when the forwarding loop returns. *)
Definition process (e : process_event) (s : process_state) : option process_state :=
let set_receiver r := mkProcess r (forwarder s) (done s) in
let set_forwarder f := mkProcess (receiver s) f (done s || is_stopped f) in
match e with
| Request_arrives req => set_receiver <$> relay_arrive req (receiver s)
| Caller_closes => set_receiver <$> relay_close (receiver s)
| Response_arrives resp => set_forwarder <$> relay_arrive resp (forwarder s)
| Service_returns => set_forwarder <$> relay_close (forwarder s)
| Context_done => Some (mkProcess (receiver s) (forwarder s) true)
| Receiver_runs fault => set_receiver <$> relay_step fault (done s) (receiver s)
| Forwarder_runs fault => set_forwarder <$> relay_step fault (done s) (forwarder s)
end.

Definition process_start : process_state := mkProcess relay_start relay_start false.

(** [searchService.Search], [BreadthFirstSearch] and [DepthFirstSearch]: the
  stream to the service is opened, with [open] its error, before anything is
  relayed. *)
Definition searchService_call (open : option error) : outcome process_state :=
match open with
| Some err => Fail err
| None => Ret process_start
end.

(** A run; [None] when an event of it cannot happen. *)
Fixpoint process_run (events : list process_event) (s : process_state) : option process_state :=
match events with
| [] => Some s
| e :: events' => match process e s with Some s' => process_run events' s' | None => None end
end.

(** What a run makes arrive, and the steps the proxy itself takes. *)
Definition requests_of (events : list process_event) : list Req :=
omap (fun e => match e with Request_arrives req => Some req | _ => None end) events.
Definition responses_of (events : list process_event) : list Resp :=
omap (fun e => match e with Response_arrives resp => Some resp | _ => None end) events.
Definition own_step (e : process_event) : bool :=
match e with Receiver_runs _ | Forwarder_runs _ => true | _ => false end.
Definition steps_of (events : list process_event) : nat := length (filter (fun e => own_step e = true) events).
Definition faultless (e : process_event) : Prop :=
match e with Receiver_runs (Some _) | Forwarder_runs (Some _) | Context_done => False | _ => True end.

(** ** A session: the proxy between a caller and a service

  The service waits for a first request, sends the responses to it and
  returns.  [serve] is what it answers. *)
Inductive service_at := Awaiting | Answering (todo : list Resp) | Answered.

Context (serve : Req -> list Resp).

Inductive session_step : process_state * service_at -> process_state * service_at -> Prop :=
| session_receiver p p' st :
    process (Receiver_runs None) p = Some p' -> session_step (p, st) (p', st)
| session_forwarder p p' st :
    process (Forwarder_runs None) p = Some p' -> session_step (p, st) (p', st)
| session_accept p req rest :
    moved (receiver p) = req :: rest -> session_step (p, Awaiting) (p, Answering (serve req))
| session_answer p p' resp todo :
    process (Response_arrives resp) p = Some p' ->
    session_step (p, Answering (resp :: todo)) (p', Answering todo)
| session_return p p' :
    process Service_returns p = Some p' -> session_step (p, Answering []) (p', Answered).

(** The caller has sent its requests, and may have closed its side. *)
Definition session_start (reqs : list Req) (half_closed : bool) : process_state * service_at :=
(mkProcess (mkRelay AtSelect reqs half_closed []) relay_start false, Awaiting).
End Process.
Arguments process_event : clear implicits.
Arguments process_state : clear implicits.
Arguments service_at : clear implicits.
