(* ===== verification/IndexerConfig.v ===== *)
(** * indexer/internal/config: loading the configuration

    [config.Load] chooses a parser by the extension of the path, reads the file
    and parses it.  The four formats are read by libraries ([ConfigFormats]);
    [Configuration] is the message of config.proto, of any type. *)

From Stdlib Require Import Ascii.
From S2P Require Import Prelude.

Local Open Scope string_scope.

(** [jsonpb.UnmarshalString], [proto.Unmarshal], [proto.UnmarshalText] into a
    fresh configuration, and [yaml.YAMLToJSON]. *)
Class ConfigFormats (Configuration : Type) := {
  jsonpb_Unmarshal : string -> outcome Configuration;
  proto_Unmarshal : string -> outcome Configuration;
  proto_UnmarshalText : string -> outcome Configuration;
  YAMLToJSON : string -> outcome string }.

Section Config.
Context {Configuration : Type} `{ConfigFormats Configuration}.

Definition jsn (body : string) : outcome Configuration := jsonpb_Unmarshal body.
Definition protobin (body : string) : outcome Configuration := proto_Unmarshal body.
Definition prototxt (body : string) : outcome Configuration := proto_UnmarshalText body.
Definition yml (body : string) : outcome Configuration :=
let? body := YAMLToJSON body in jsn body.

Definition Parser : Type := string -> outcome Configuration.

Definition defaultParserIndex : gmap string Parser :=
let parserIndex : gmap string Parser := ∅ in
let parserIndex := <[".json" := jsn]> parserIndex in
let parserIndex := <[".yaml" := yml]> parserIndex in
let parserIndex := <[".yml" := yml]> parserIndex in
let parserIndex := <[".protobin" := protobin]> parserIndex in
let parserIndex := <[".bin" := protobin]> parserIndex in
let parserIndex := <[".prototxt" := prototxt]> parserIndex in
<[".txt" := prototxt]> parserIndex.
End Config.

(** [path.Ext]: from the last dot of the last element, empty without one. *)
Fixpoint ext_of (s : string) : option string :=
  match s with
  | EmptyString => None
  | String a s' =>
      match ext_of s' with
      | Some e => Some e
      | None => if decide (a = "."%char) then
                  if decide ("/"%char ∈ list_ascii_of_string s') then None else Some (String a s')
                else None
      end
  end.
Definition Ext (path : string) : string := default "" (ext_of path).

Section Load.
Context {Configuration : Type} `{ConfigFormats Configuration}.

(** [ioutil.ReadFile] *)
Context (read_file : string -> outcome string).

(** [errors.Wrap] puts a text before the message of the error. *)
Definition wrap (text : string) (e : error) : error := ErrText text.

Definition Load (url : string) : outcome Configuration :=
let ext := Ext url in
match defaultParserIndex !! ext with
| None => Fail (ErrText ("unsupported extension: " +:+ ext))
| Some parser =>
    match read_file url with
    | Ret body =>
        match parser body with
        | Ret config => Ret config
        | Fail e => Fail (wrap "failed to parse body of file" e)
        | Panic why => Panic why
        end
    | Fail e => Fail (wrap ("failed to read file: " +:+ url) e)
    | Panic why => Panic why
    end
end.
End Load.
