(* ===== verification/Mains.v ===== *)
(** * The programs: tracker/main.go, gateway/main.go, indexer/main.go

    The commands and flags of each program, what its action does before it
    serves, the health checks of tracker and gateway, and the swagger handler.  Dialing,
    listening, flag parsing and the health monitor are outside (see
    ClientConfig.v and Mux.v). *)

From S2P Require Import Prelude GoUrl Api GraphSpec Sql StoreAlpha KeysAlpha StoreBeta.
From S2P Require Import QueryAlpha Services Gateway Remotes Consumer IndexerConfig ClientConfig Mux.

Local Open Scope string_scope.

(** ** Flags the servers share *)

Record Ports := mkPorts { httpPort : Z; grpcPort : Z }.

Definition tls_flags : list (Flag TLSConfig) :=
  [ StringFlag ["tls-key"] ["TLS_KEY_PATH"] KeyPath (fun v c => mkTLS (CertPath c) v (CAPath c));
    StringFlag ["tls-cert"] ["TLS_CERT_PATH"] CertPath (fun v c => mkTLS v (KeyPath c) (CAPath c));
    StringFlag ["tls-ca"] ["TLS_CA_PATH"] CAPath (fun v c => mkTLS (CertPath c) (KeyPath c) v) ].

(** ** The command lines of tracker, gateway and indexer

    urfave/cli runs the command an argument names, with its name in the
    context, and the action of the app when there is none.  A program that
    fails is ended by [logrus.Fatal]. *)

(** [fmt.Sprintf("%s %s", c.Command.Name, version)]: the line printed. *)
Definition version_Action (version : Version) (Command_Name : string) : string :=
  Command_Name +:+ " " +:+ Version_String version.

Record App (A : Type) := mkApp
  { App_Name : string; App_Commands : list (string * (string -> string)); App_Action : A }.
Arguments mkApp {A}.
Arguments App_Name {A}.
Arguments App_Commands {A}.
Arguments App_Action {A}.

(** The app of a program: its only command prints its version. *)
Definition program {A} (name : string) (version : Version) (action : A) : App A :=
  mkApp name [("version", version_Action version)] action.

(** What the command of a name prints. *)
Fixpoint run_command (commands : list (string * (string -> string))) (name : string) : option string :=
  match commands with
  | [] => None
  | (name', action) :: rest => if decide (name = name') then Some (action name) else run_command rest name
  end.

(** The exit status: 1 by [logrus.Fatal], 2 by a panic. *)
Definition exit_status {A} (o : outcome A) : Z := match o with Ret _ => 0 | Fail _ => 1 | Panic _ => 2 end.

(** [fmt.Sprintf("0.0.0.0:%d", port)] *)
Definition bind_address (port : Z) : string := "0.0.0.0:" +:+ decimal port.

(** ** tracker/main.go *)

Record trackerConfig := mkTrackerConfig
  { tracker_ports : Ports; storageDriver : string; storageAddress : string;
    storageReadOnlyAddress : string; tracker_tls : TLSConfig }.

Definition tracker_defaults : trackerConfig :=
  mkTrackerConfig (mkPorts 8080 8090) "sqlite" "file::memory:?cache=shared" "" (mkTLS "" "" "").

Definition set_tracker_ports (p : Ports) (c : trackerConfig) : trackerConfig :=
  mkTrackerConfig p (storageDriver c) (storageAddress c) (storageReadOnlyAddress c) (tracker_tls c).
Definition set_tracker_tls (t : TLSConfig) (c : trackerConfig) : trackerConfig :=
  mkTrackerConfig (tracker_ports c) (storageDriver c) (storageAddress c) (storageReadOnlyAddress c) t.

Definition tracker_flags : list (Flag trackerConfig) :=
  ([ IntFlag ["http-port"] ["HTTP_PORT"] (fun c => httpPort (tracker_ports c))
       (fun v c => set_tracker_ports (mkPorts v (grpcPort (tracker_ports c))) c);
     IntFlag ["grpc-port"; "port"] ["GRPC_PORT"] (fun c => grpcPort (tracker_ports c))
       (fun v c => set_tracker_ports (mkPorts (httpPort (tracker_ports c)) v) c);
     StringFlag ["storage-driver"] ["STORAGE_DRIVER"] storageDriver
       (fun v c => mkTrackerConfig (tracker_ports c) v (storageAddress c) (storageReadOnlyAddress c) (tracker_tls c));
     StringFlag ["storage-address"] ["STORAGE_ADDRESS"] storageAddress
       (fun v c => mkTrackerConfig (tracker_ports c) (storageDriver c) v (storageReadOnlyAddress c) (tracker_tls c));
     StringFlag ["storage-readonly-address"] ["STORAGE_READ_ONLY_ADDRESS"] storageReadOnlyAddress
       (fun v c => mkTrackerConfig (tracker_ports c) (storageDriver c) (storageAddress c) v (tracker_tls c)) ] ++
   map (lift_flag tracker_tls set_tracker_tls) tls_flags)%list.

(** Both graph stores keep their tables in the databases of one engine. *)
Record TrackerWorld := mkTrackerWorld { alpha : World table; beta : World btable }.

Definition on_alpha {A} (m : M (World table) A) : M TrackerWorld A :=
  fun w => let '(o, a) := m (alpha w) in (o, mkTrackerWorld a (beta w)).
Definition on_beta {A} (m : M (World btable) A) : M TrackerWorld A :=
  fun w => let '(o, b) := m (beta w) in (o, mkTrackerWorld (alpha w) b).

Definition sockAddr : string := "localhost:47274".

Section Tracker.
Context `{SqlEngine} `{TlsFiles} (net : Network).

(** The two stores that are served. *)
Definition startGraphStore (driver address readOnlyAddress : string) :
  M TrackerWorld (sqlDriver * graphStore) :=
let! v1betaDriver := on_beta (Resolve driver address readOnlyAddress) in
let! v1alphaGraphStore := on_alpha (NewGraphStoreFor driver address readOnlyAddress) in
match listen net sockAddr None with
| Some err => fail err
| None => ret (v1betaDriver, v1alphaGraphStore)
end.

(** The services a server has when it starts to serve. *)
Definition registerV1Alpha : list string :=
["DependencyService"; "ModuleService"; "SourceService"; "SearchService"].
Definition registerV1Beta : list string := ["ManifestStorageService"].

(** The action of the program: [dial] is the error of connecting to its own
  stores.  It answers the services, the stores and how serving ended. *)
Definition tracker_action (dial : option error) (cfg : trackerConfig) :
  M TrackerWorld (list string * (sqlDriver * graphStore) * (list string * option error)) :=
let! stores := startGraphStore (storageDriver cfg) (storageAddress cfg) (storageReadOnlyAddress cfg) in
match dial with
| Some err => fail err
| None =>
    let services := (registerV1Beta ++ registerV1Alpha)%list in
    let! ended := lift (Serve net (mkServeConfig (bind_address (httpPort (tracker_ports cfg)))
                                     (bind_address (grpcPort (tracker_ports cfg))) (Some (tracker_tls cfg)))) in
    ret (services, stores, ended)
end.
End Tracker.

(** ** Checks: tracker/internal/checks and gateway/internal/checks *)

(** [RunFunc]: the state and the error of a check. *)
Record Check (W : Type) := mkCheck { Check_Name : string; Check_Weight : Z; RunFunc : M W unit }.
Arguments mkCheck {W}.
Arguments Check_Name {W}.
Arguments Check_Weight {W}.
Arguments RunFunc {W}.

Definition run_check {W} (c : Check W) (w : W) : State * W :=
  match RunFunc c w with
  | (Ret _, w') => (OK, w')
  | (_, w') => (Outage, w')
  end.

Definition tracker_Checks {W} (v1beta_List : BetaListRequest -> M W unit)
    (v1alpha_List : ListRequest -> M W unit) : list (Check W) :=
  [ mkCheck "graphstore-v1beta-read" 10 (v1beta_List (mkBetaListRequest SourceType "" 1));
    mkCheck "graphstore-v1alpha-read" 10 (v1alpha_List (mkListRequest 0 1 SourceType)) ].

Definition discard {W A} (m : M W A) : M W unit := let! _ := m in ret tt.

Definition gateway_Checks {W} (extractor : ExtractorService W) (sources : SourceService W)
    (modules : ModuleService W) : list (Check W) :=
  [ mkCheck "extraction" 10 (discard (svc_Match extractor (mkMatchRequest "" [])));
    mkCheck "sources" 10 (discard (svc_ListAllSources sources (mkPageRequest 0 0)));
    mkCheck "modules" 10 (discard (svc_ListModules modules (mkPageRequest 0 0))) ].

(** ** gateway/main.go *)

Record gatewayConfig := mkGatewayConfig
  { gateway_ports : Ports; gateway_tls : TLSConfig; gateway_extractor : Config; gateway_tracker : Config }.

Definition service_defaults (address : string) : Config :=
  mkConfig address DefaultServiceConfig DefaultLoadBalancer false (mkTLS "" "" "").
Definition gateway_defaults : gatewayConfig :=
  mkGatewayConfig (mkPorts 8080 8090) (mkTLS "" "" "") (service_defaults "extractor:8090")
    (service_defaults "tracker:8090").

Definition set_gateway_ports (p : Ports) (c : gatewayConfig) : gatewayConfig :=
  mkGatewayConfig p (gateway_tls c) (gateway_extractor c) (gateway_tracker c).

Definition gateway_flags : list (Flag gatewayConfig) :=
  ([ IntFlag ["http-port"; "port"] ["HTTP_PORT"] (fun c => httpPort (gateway_ports c))
       (fun v c => set_gateway_ports (mkPorts v (grpcPort (gateway_ports c))) c);
     IntFlag ["grpc-port"] ["GRPC_PORT"] (fun c => grpcPort (gateway_ports c))
       (fun v c => set_gateway_ports (mkPorts (httpPort (gateway_ports c)) v) c) ] ++
   map (lift_flag gateway_tls
          (fun t c => mkGatewayConfig (gateway_ports c) t (gateway_extractor c) (gateway_tracker c))) tls_flags ++
   map (lift_flag gateway_extractor
          (fun e c => mkGatewayConfig (gateway_ports c) (gateway_tls c) e (gateway_tracker c)))
     (WithFlags "extractor") ++
   map (lift_flag gateway_tracker
          (fun t c => mkGatewayConfig (gateway_ports c) (gateway_tls c) (gateway_extractor c) t))
     (WithFlags "tracker"))%list.

(** The services behind the gateway, and what it serves. *)
Record Backend (W : Type) := mkBackend
  { be_sources : SourceService W; be_modules : ModuleService W; be_dependencies : DependencyService W;
    be_extractor : ExtractorService W }.
Arguments mkBackend {W}.
Arguments be_sources {W}.
Arguments be_modules {W}.
Arguments be_dependencies {W}.
Arguments be_extractor {W}.

Definition gateway_services {W} (b : Backend W) : Backend W :=
  mkBackend (NewSourceServiceProxy (be_sources b)) (NewModuleServiceProxy (be_modules b))
    (NewDependencyServiceProxy (be_dependencies b)) (NewExtractorServiceProxy (be_extractor b)).

(** [connect] is what the dialed connections are good for: the services behind
    them.  gRPC calls go through the proxies; the REST handlers are given the
    clients of the services themselves, as are the checks.  The answer holds
    what is served over gRPC, what over REST, and the checks. *)
Definition gateway_action `{TlsFiles} {W} (net : Network)
    (connect : string * list DialOption -> string * list DialOption -> outcome (Backend W))
    (cfg : gatewayConfig) :
    outcome (Backend W * Backend W * list (Check W) * (list string * option error)) :=
  let? extractorConn := Connect (gateway_extractor cfg) in
  let? trackerConn := Connect (gateway_tracker cfg) in
  let? backend := connect extractorConn trackerConn in
  let? ended := Serve net (mkServeConfig (bind_address (httpPort (gateway_ports cfg)))
                             (bind_address (grpcPort (gateway_ports cfg))) (Some (gateway_tls cfg))) in
  Ret (gateway_services backend, backend,
       gateway_Checks (be_extractor backend) (be_sources backend) (be_modules backend), ended).

(** [strings.TrimPrefix] *)
Definition TrimPrefix (s prefix : string) : string :=
  if HasPrefix s prefix then String.substring (String.length prefix) (String.length s - String.length prefix) s
  else s.

(** The handler of "/swagger/": [names] is the encoded list of the assets,
    [asset] the text of one. *)
Definition swagger_handler (names : option string) (asset : string -> option string) (path : string) :
    ResponseWriter :=
  let assetPath := TrimPrefix path "/swagger/" in
  if decide (String.length assetPath = 0%nat) then
    match names with
    | None => WriteHeader 500 new_response
    | Some text => WriteHeader 200 (Write text new_response)
    end
  else
    match asset assetPath with
    | None => WriteHeader 404 new_response
    | Some text => Write text (Header_Set "Content-Type" "application/json" (WriteHeader 200 new_response))
    end.

(** ** indexer/main.go *)

Record indexerConfig := mkIndexerConfig
  { workers_ : Z; configPath : string; sshUser : string; sshKeyPath : string;
    indexer_extractor : Config; indexer_tracker : Config }.

Definition indexer_defaults : indexerConfig :=
  mkIndexerConfig 5 "" "git" "" (service_defaults "extractor:8090") (service_defaults "tracker:8090").

Definition indexer_flags : list (Flag indexerConfig) :=
  ([ IntFlag ["workers"] ["WORKERS"] workers_
       (fun v c => mkIndexerConfig v (configPath c) (sshUser c) (sshKeyPath c) (indexer_extractor c) (indexer_tracker c));
     StringFlag ["config"] ["CONFIG_PATH"] configPath
       (fun v c => mkIndexerConfig (workers_ c) v (sshUser c) (sshKeyPath c) (indexer_extractor c) (indexer_tracker c));
     StringFlag ["ssh-user"] ["SSH_USER"] sshUser
       (fun v c => mkIndexerConfig (workers_ c) (configPath c) v (sshKeyPath c) (indexer_extractor c) (indexer_tracker c));
     StringFlag ["ssh-keypath"] ["SSH_KEYPATH"] sshKeyPath
       (fun v c => mkIndexerConfig (workers_ c) (configPath c) (sshUser c) v (indexer_extractor c) (indexer_tracker c)) ] ++
   map (lift_flag indexer_extractor
          (fun e c => mkIndexerConfig (workers_ c) (configPath c) (sshUser c) (sshKeyPath c) e (indexer_tracker c)))
     (WithFlags "extractor") ++
   map (lift_flag indexer_tracker
          (fun t c => mkIndexerConfig (workers_ c) (configPath c) (sshUser c) (sshKeyPath c) (indexer_extractor c) t))
     (WithFlags "tracker"))%list.

Section Indexer.
Context `{TlsFiles} {W : Type} `{Hosting W} `{MapRange} `{ConfigFormats (list Account)}.
Context (read_file : string -> outcome string).
(** [ssh.NewPublicKeysFromFile] without a password. *)
Context (public_keys : string -> string -> outcome unit).

(** Up to the workers: whether a key is configured and the pool they start
  with; [None] when the fuel of the remotes is spent. *)
Definition indexer_action (fuel : nat) (cfg : indexerConfig) : M W (option (bool * pool (A := Repository))) :=
let! _ := lift (Connect (indexer_extractor cfg)) in
let! _ := lift (Connect (indexer_tracker cfg)) in
let! remoteConfig := if nonempty (configPath cfg) then lift (Load read_file (configPath cfg))
                     else fail (ErrText "--config must be provided") in
let! remote := lift (ParseConfig remoteConfig) in
let! configured := if nonempty (sshKeyPath cfg) then
                     let! _ := lift (public_keys (sshUser cfg) (sshKeyPath cfg)) in ret true
                   else ret false in
let! resp := remote fuel in
match resp with
| None => ret None
| Some repositories =>
    if bool_decide (workers_ cfg < 0)%Z then panic "makechan: size out of range"
    else ret (Some (configured, pool_start (Z.to_nat (workers_ cfg)) repositories))
end.
End Indexer.
