(* ===== verification/DepsClient.v ===== *)
(** * deps/internal/client: talking to the service

    The command line reaches the service over gRPC or over the REST form of
    the same API, by two environment variables.  The REST clients write a URI,
    get it and parse the body; net/http and jsonpb are parameters. *)

From Stdlib Require Import Ascii.
From S2P Require Import Prelude GoUrl GoUrlParse Api GraphSpec QueryAlpha SearchAlpha Topology Services ClientConfig.

Local Open Scope string_scope.

(** ** client.go *)

Definition VariableProtocol : string := "DEPSCLOUD_PROTOCOL".
Definition VariableBaseURL : string := "DEPSCLOUD_BASE_URL".
Definition DefaultProtocol : string := "grpc".
Definition DefaultBaseURL : string := "https://api.deps.cloud".

Definition or (read def : string) : string := if decide (read = "") then def else read.

(** The variables are read when the program starts; an unset one is empty. *)
Definition protocol (getenv : string -> string) : string := or (getenv VariableProtocol) DefaultProtocol.
Definition baseURL (getenv : string -> string) : string := or (getenv VariableBaseURL) DefaultBaseURL.

Record SystemInfo := mkSystemInfo { Protocol : string; BaseURL : string; Os : string; Arch : string }.
Definition SystemInfo_String (s : SystemInfo) : string :=
  "{protocol: " +:+ Protocol s +:+ ", baseURL: " +:+ BaseURL s +:+ ", os: " +:+ Os s +:+ ", arch: " +:+ Arch s +:+ "}".
Definition GetSystemInfo (getenv : string -> string) (os arch : string) : SystemInfo :=
  mkSystemInfo (protocol getenv) (baseURL getenv) os arch.

(** The services; a nil search client is [None]. *)
Record Client (W : Type) := mkClient
  { client_Dependencies : DependencyService W; client_Modules : ModuleService W;
    client_Sources : SourceService W; client_Search : option (SearchRequest -> SearchClient) }.
Arguments mkClient {W}.
Arguments client_Dependencies {W}.
Arguments client_Modules {W}.
Arguments client_Sources {W}.
Arguments client_Search {W}.

(** ** grpc.go *)

(** [strings.Contains] of one character. *)
Definition contains_char (c : ascii) (s : string) : bool :=
  match cut c s with Some _ => true | None => false end.

(** The error of [url.Parse] is dropped, and the nil URL dereferenced. *)
Definition translateBaseURL (baseURL : string) : outcome (bool * string) :=
  match url_Parse baseURL with
  | None => Panic "nil *url.URL"
  | Some (scheme, host) =>
      let tls := bool_decide (scheme = "https") in
      let host := if contains_char ":" host then host
                  else if tls then host +:+ ":443" else host +:+ ":80" in
      Ret (tls, host)
  end.

(** [connect] is what the dialed connection is good for, or the dial error. *)
Definition grpcDefaultClient `{TlsFiles} {W}
    (connect : string * list DialOption -> outcome (Client W)) (baseURL : string) : outcome (Client W) :=
  let? (isSecure, hostPort) := translateBaseURL baseURL in
  match (let? conn := Connect (mkConfig hostPort DefaultServiceConfig DefaultLoadBalancer isSecure (mkTLS "" "" "")) in
         connect conn) with
  | Ret client => Ret client
  | Fail _ => Panic "grpcDefaultClient"
  | Panic why => Panic why
  end.

(** ** http_dependencies.go, http_modules.go, http_sources.go *)

(** [http.Client.Get] and [Post] answer a body, whatever the status is;
    [jsonpb.Unmarshal] reads one. *)
Class Rest (W : Type) := {
  http_Get : string -> M W string;
  http_Post : string -> string -> string -> M W string;
  json_request : SourceRequest -> outcome string;
  read_dependencies : string -> outcome (list Dependency);
  read_modules : string -> outcome ListModuleResponse;
  read_managed_sources : string -> outcome (list ManagedSource);
  read_managed_modules : string -> outcome (list ManagedModule);
  read_sources : string -> outcome ListSourceResponse;
  read_track : string -> outcome bool }.

Section Http.
Context {W : Type} `{Rest W} (baseURL : string).

Definition dependents_uri (in_ : DependencyRequest) : string :=
baseURL +:+ "/v1alpha/graph/" +:+ QueryEscape (DR_Language in_) +:+ "/dependents?organization=" +:+
QueryEscape (DR_Organization in_) +:+ "&module=" +:+ QueryEscape (DR_Module in_).
Definition dependencies_uri (in_ : DependencyRequest) : string :=
baseURL +:+ "/v1alpha/graph/" +:+ QueryEscape (DR_Language in_) +:+ "/dependencies?organization=" +:+
QueryEscape (DR_Organization in_) +:+ "&module=" +:+ QueryEscape (DR_Module in_).

Definition http_ListDependents (in_ : DependencyRequest) : M W (list Dependency) :=
let! body := http_Get (dependents_uri in_) in lift (read_dependencies body).
Definition http_ListDependencies (in_ : DependencyRequest) : M W (list Dependency) :=
let! body := http_Get (dependencies_uri in_) in lift (read_dependencies body).

Definition httpDependencyService : DependencyService W :=
mkDependencyService http_ListDependents http_ListDependencies.

Definition modules_uri (in_ : PageRequest) : string :=
baseURL +:+ "/v1alpha/modules?page=" +:+ decimal (PR_Page in_) +:+ "&count=" +:+ decimal (PR_Count in_).
Definition module_sources_uri (in_ : Module_) : string :=
baseURL +:+ "/v1alpha/modules/source?language=" +:+ QueryEscape (Module_Language in_) +:+ "&organization=" +:+
QueryEscape (Module_Organization in_) +:+ "&module=" +:+ QueryEscape (Module_Module in_).
Definition managed_uri (in_ : Source) : string :=
baseURL +:+ "/v1alpha/modules/managed?url=" +:+ QueryEscape (Source_Url in_).

Definition http_ModuleList (in_ : PageRequest) : M W ListModuleResponse :=
let! body := http_Get (modules_uri in_) in lift (read_modules body).
Definition http_ListSources (in_ : Module_) : M W (list ManagedSource) :=
let! body := http_Get (module_sources_uri in_) in lift (read_managed_sources body).
Definition http_ListManaged (in_ : Source) : M W (list ManagedModule) :=
let! body := http_Get (managed_uri in_) in lift (read_managed_modules body).

Definition httpModuleClient : ModuleService W :=
mkModuleService http_ModuleList http_ListSources http_ListManaged.

Definition sources_uri (in_ : PageRequest) : string :=
baseURL +:+ "/v1alpha/sources?page=" +:+ decimal (PR_Page in_) +:+ "&count=" +:+ decimal (PR_Count in_).

Definition http_SourceList (in_ : PageRequest) : M W ListSourceResponse :=
let! body := http_Get (sources_uri in_) in lift (read_sources body).
Definition http_Track (in_ : SourceRequest) : M W bool :=
let uri := baseURL +:+ "/v1alpha/sources/track" in
let! body := lift (json_request in_) in
let! r := http_Post uri "application/json" body in
lift (read_track r).

Definition httpSourceClient : SourceService W := mkSourceService http_SourceList http_Track.

(** http.go: there is no search over REST. *)
Definition httpDefaltClient : Client W :=
mkClient httpDependencyService httpModuleClient httpSourceClient None.
End Http.

Definition DefaultClient `{TlsFiles} {W} `{Rest W} (getenv : string -> string)
    (connect : string * list DialOption -> outcome (Client W)) : outcome (Client W) :=
  if decide (protocol getenv = "grpc") then grpcDefaultClient connect (baseURL getenv)
  else Ret (httpDefaltClient (baseURL getenv)).
