(* ===== verification/DepsCli.v ===== *)
(** * deps: the commands

    deps/internal/cmds/get (the listing commands; topology is Topology.v),
    debug and completion, and the writer they print through.  The world of a
    command is the service's and what was printed; cobra parses the flags
    into the message a command starts from. *)

From S2P Require Import Prelude GoUrl Api GraphSpec QueryAlpha SearchAlpha Topology Services Mux.
From S2P Require Import ClientConfig DepsClient.

(** ** writer.go *)

(** A value as the JSON writer is given it.  The listing commands drop the
    error of a write. *)
Inductive printed :=
| WriteDependency (d : Dependency)
| WriteManagedModule (m : ManagedModule)
| WriteModule (m : Module_)
| WriteManagedSource (s : ManagedSource)
| WriteSource (s : Source)
| WriteNode (m : option Module_)
| WriteTier (tier : list (option Module_)).

(** ** common.go: flags

    The flags of a command, with their shorthands, as the parts of the message
    they set. *)

Definition addDependencyRequestFlags : list (Flag DependencyRequest) :=
  [ StringFlag ["language"; "l"]%string [] DR_Language
      (fun v r => mkDependencyRequest v (DR_Organization r) (DR_Module r) (DR_Name r));
    StringFlag ["organization"; "o"]%string [] DR_Organization
      (fun v r => mkDependencyRequest (DR_Language r) v (DR_Module r) (DR_Name r));
    StringFlag ["module"; "m"]%string [] DR_Module
      (fun v r => mkDependencyRequest (DR_Language r) (DR_Organization r) v (DR_Name r));
    StringFlag ["name"; "n"]%string [] DR_Name
      (fun v r => mkDependencyRequest (DR_Language r) (DR_Organization r) (DR_Module r) v) ].

Definition addSourceFlags : list (Flag Source) :=
  [ StringFlag ["url"; "u"]%string [] Source_Url (fun v s => mkSource v (Source_Kind s) (Source_Ref s)) ].

Definition addModuleFlags : list (Flag Module_) :=
  [ StringFlag ["language"; "l"]%string [] Module_Language
      (fun v m => mkModule v (Module_Organization m) (Module_Module m) (Module_Name m));
    StringFlag ["organization"; "o"]%string [] Module_Organization
      (fun v m => mkModule (Module_Language m) v (Module_Module m) (Module_Name m));
    StringFlag ["module"; "m"]%string [] Module_Module
      (fun v m => mkModule (Module_Language m) (Module_Organization m) v (Module_Name m));
    StringFlag ["name"; "n"]%string [] Module_Name
      (fun v m => mkModule (Module_Language m) (Module_Organization m) (Module_Module m) v) ].

Record CliWorld (W : Type) := mkCliWorld { service_world : W; output : list printed }.
Arguments mkCliWorld {W} service_world output.
Arguments service_world {W} c.
Arguments output {W} c.

Section Commands.
Context {W : Type}.
Notation CM := (M (CliWorld W)).

Definition call {A} (m : M W A) : CM A :=
fun c => let '(o, w) := m (service_world c) in (o, mkCliWorld w (output c)).

Definition write_all {A} (show : A -> printed) (items : list A) : CM unit :=
fun c => (Ret tt, mkCliWorld (service_world c) (output c ++ map show items)).

(** ** dependencies.go, dependents.go *)

Definition DependenciesCommand (client : DependencyService W) (req : DependencyRequest) : CM unit :=
if refuses_request req then fail usage_error else
let! response := call (svc_ListDependencies client (setRequestFields req)) in
write_all WriteDependency response.

Definition DependentsCommand (client : DependencyService W) (req : DependencyRequest) : CM unit :=
if refuses_request req then fail usage_error else
let! response := call (svc_ListDependents client (setRequestFields req)) in
write_all WriteDependency response.

(** ** modules.go, sources.go *)

Definition pageSize : Z := 100.

(** [for i := 1; true; i++]: [false] when the fuel is spent. *)
Fixpoint page_loop {A} (fuel : nat) (list_page : PageRequest -> M W (list A)) (show : A -> printed) (i : Z) :
  CM bool :=
match fuel with
| O => ret false
| S fuel' =>
    let! items := call (list_page (mkPageRequest (int32 i) (int32 pageSize))) in
    let! _ := write_all show items in
    if bool_decide (Z.of_nat (length items) < pageSize)%Z then ret true
    else page_loop fuel' list_page show (int64 (i + 1))
end.

Definition modules_page (client : ModuleService W) (req : PageRequest) : M W (list Module_) :=
let! response := svc_ListModules client req in ret (LMR_Modules response).
Definition sources_page (client : SourceService W) (req : PageRequest) : M W (list Source) :=
let! response := svc_ListAllSources client req in ret (LSR_Sources response).

Definition ModulesCommand (fuel : nat) (client : ModuleService W) (source : Source) : CM bool :=
if decide (Source_Url source <> ""%string) then
  let! response := call (svc_ListManaged client source) in
  let! _ := write_all WriteManagedModule response in ret true
else page_loop fuel (modules_page client) WriteModule 1.

Definition SourcesCommand (fuel : nat) (sources : SourceService W) (modules : ModuleService W) (module : Module_) :
  CM bool :=
let given s := bool_decide (s <> ""%string) in
let language := given (Module_Language module) in
let organization := given (Module_Organization module) in
let name := given (Module_Name module) in
let mod_ := given (Module_Module module) in
if language && ((organization && mod_) || name) then
  let! response := call (svc_ListSources modules (setModuleFields module)) in
  let! _ := write_all WriteManagedSource response in ret true
else if language || organization || (mod_ && name) then fail usage_error
else page_loop fuel (sources_page sources) WriteSource 1.

(** ** topology.go with the client it is given *)

(** What the writer is given, by the tier or flat. *)
Definition topology_output (tiered : bool) (results : list (list (option Module_))) : list printed :=
if tiered then map WriteTier results else map WriteNode (concat results).

(** Here the first error of a write ends the command. *)
Fixpoint write_until (write : printed -> option error) (items : list printed) : list printed * option error :=
match items with
| [] => ([], None)
| item :: items' =>
    match write item with
    | Some err => ([item], Some err)
    | None => let '(given, err) := write_until write items' in (item :: given, err)
    end
end.

(** The values written and the error of the command; [None] inside when the
  fuel of the peeling loop is spent, which it never is. *)
Definition TopologyCommand (write : printed -> option error) (tiered : bool) (client : Client W)
  (requestConverter : DependencyRequest -> SearchRequest) (req : DependencyRequest) :
  outcome (option (list printed * option error)) :=
match client_Search client with
| Some search =>
    let? results := topology_run search requestConverter req in
    Ret ((fun tiers => write_until write (topology_output tiered tiers)) <$> results)
| None => if refuses_request (setRequestFields req) then Fail usage_error
          else Panic "nil SearchServiceClient"
end.

(** ** get.go: the commands and their names *)

Inductive get_command :=
| GetDependencies | GetDependenciesTopology | GetDependents | GetDependentsTopology | GetModules | GetSources.

(** Names and aliases, of a command and of the one below it. *)
Definition topology_names : list string := ["topology"; "topo"]%string.
Definition get_commands : list (list string * get_command * option get_command) :=
[ (["dependencies"; "dependency"]%string, GetDependencies, Some GetDependenciesTopology);
  (["dependents"; "dependent"]%string, GetDependents, Some GetDependentsTopology);
  (["modules"; "module"; "mods"; "mod"]%string, GetModules, None);
  (["sources"; "source"; "srcs"; "src"]%string, GetSources, None) ].

(** The message a command starts from is filled by its flags. *)
Definition request_of_flags (given : Given) : DependencyRequest :=
configure given addDependencyRequestFlags (mkDependencyRequest "" "" "" "").
Definition source_of_flags (given : Given) : Source := configure given addSourceFlags (mkSource "" "" "").
Definition module_of_flags (given : Given) : Module_ := configure given addModuleFlags (mkModule "" "" "" "").

Definition print_topology (result : outcome (option (list printed * option error))) : CM bool :=
let! printed_ := lift result in
match printed_ with
| None => ret false
| Some (items, err) =>
    fun c => (match err with None => Ret true | Some e => Fail e end, mkCliWorld (service_world c) (output c ++ items))
end.

(** [deps get ...]: which service of the client a command is given, and its
  run; [false] when the fuel of a listing is spent. *)
Definition Command (fuel : nat) (write : printed -> option error) (client : Client W) (given : Given)
  (tiered : bool) (command : get_command) : CM bool :=
match command with
| GetDependencies => let! _ := DependenciesCommand (client_Dependencies client) (request_of_flags given) in ret true
| GetDependents => let! _ := DependentsCommand (client_Dependencies client) (request_of_flags given) in ret true
| GetDependenciesTopology =>
    print_topology (TopologyCommand write tiered client
      dependencies_request (request_of_flags given))
| GetDependentsTopology =>
    print_topology (TopologyCommand write tiered client
      dependents_request (request_of_flags given))
| GetModules => ModulesCommand fuel (client_Modules client) (source_of_flags given)
| GetSources => SourcesCommand fuel (client_Sources client) (client_Modules client) (module_of_flags given)
end.

(** ** debug.go *)

Local Open Scope string_scope.

Definition GetServerVersion `{Rest W} (baseURL : string) : M W Version :=
let! body := http_Get (baseURL +:+ "/version") in
match decode_version body with Some v => ret v | None => fail (ErrText "json") end.
Definition GetHealth `{Rest W} (baseURL : string) : M W string := http_Get (baseURL +:+ "/health").

(** The lines it prints: no failure ends the command. *)
Definition DebugCommand `{Rest W} (systemInfo : SystemInfo)
  (version : Version) : M W (list string) :=
fun w =>
  let '(serverVersion, w) := GetServerVersion (BaseURL systemInfo) w in
  let '(health, w) := GetHealth (BaseURL systemInfo) w in
  let lines := [ "System Info: " +:+ SystemInfo_String systemInfo;
                 "Client Version: " +:+ Version_String version ] in
  match serverVersion, health with
  | Panic why, _ => (Panic why, w)
  | _, Panic why => (Panic why, w)
  | _, _ =>
      (Ret (lines ++
            [ match serverVersion with Ret v => "Server Version: " +:+ Version_String v
                                     | _ => "Error While retrieving server version" end;
              match health with Ret text => "Server Health: " +:+ text
                              | _ => "Error While retrieving server health" end ])%list, w)
  end.

(** ** completion.go *)

Inductive shell := Bash | Zsh | PowerShell.

(** Which generator runs. *)
Definition CompletionCommand (args : list string) : outcome shell :=
let sh := match args with [] => "bash" | sh :: _ => sh end in
if decide (sh = "zsh") then Ret Zsh
else if decide (sh = "powershell") then Ret PowerShell
else if decide (sh = "bash") then Ret Bash
else Fail (ErrText ("unrecognized shell: " +:+ sh)).
End Commands.
