(* ===== verification/DepsMain.v ===== *)
(** * deps/main.go: the program of the command line

    The client is made before the arguments are looked at; then cobra runs the
    command they name, with its flags.  What a command leaves is its output
    through the writer, the lines it prints, or the shell whose completion
    script cobra generates. *)

From S2P Require Import Prelude GraphSpec Topology ClientConfig Mux Mains DepsClient DepsCli.

Local Open Scope string_scope.

(** The commands, as cobra has parsed them. *)
Inductive deps_command :=
| CompletionCmd (args : list string)
| GetCmd (given : Given) (tiered : bool) (command : get_command)
| VersionCmd
| DebugCmd.

(** The words that lead to the commands directly below the root. *)
Definition deps_names : list string := ["completion"; "get"; "version"; "debug"].

(** What a command leaves besides the writer's output: [Listed false] when the
    fuel of a listing is spent. *)
Inductive left_behind := Generated (sh : shell) | Listed (complete : bool) | Lines (lines : list string).

Section Main.
Context `{TlsFiles} {W : Type} `{Rest W}.
Context (getenv : string -> string) (os arch : string) (version : Version).
Context (connect : string * list DialOption -> outcome (Client W)) (write : printed -> option error).

(** [cmd.Use] of the root command. *)
Definition deps_Use : string := "deps".

Definition deps_run (fuel : nat) (client : Client W) (command : deps_command) : M (CliWorld W) left_behind :=
match command with
| CompletionCmd args => let! sh := lift (CompletionCommand args) in ret (Generated sh)
| GetCmd given tiered command => let! complete := Command fuel write client given tiered command in ret (Listed complete)
| VersionCmd => ret (Lines [deps_Use +:+ " " +:+ Version_String version])
| DebugCmd => let! lines := call (DebugCommand (GetSystemInfo getenv os arch) version) in ret (Lines lines)
end.

Definition deps_main (fuel : nat) (command : deps_command) : M (CliWorld W) left_behind :=
let! client := lift (DefaultClient getenv connect) in deps_run fuel client command.
End Main.
