(* ===== verification/Demo.v ===== *)
(** * A concrete run

    A SQLite store with an empty table, one request tracked twice: the inputs
    at which the theorems about the services are evaluated. *)

From S2P Require Import Prelude GoCodec GoHash Api GraphSpec Sql StoreAlpha StoreAlphaSpec.
From S2P Require Import KeysAlpha QueryAlpha TrackAlpha TrackAlphaProofs Instances TrackInvariant.
From S2P Require Import QuerySpec.


#[local] Existing Instance quiet_engine.
#[local] Existing Instance quiet_no_faults.
#[local] Existing Instance map_order.
#[local] Existing Instance json_codec.
#[local] Existing Instance json_codec_ok.

Definition demo_ops : GraphStoreOps (World table) :=
  sql_ops (sql_store main_db sqliteStatements).
#[local] Existing Instance demo_ops.

Definition demo_spec : GraphStoreSpec (World table) :=
  sql_spec main_db sqliteStatements sqlite_standard.
#[local] Existing Instance demo_spec.

Definition demo_total : GraphStoreTotal (World table) :=
  sql_total main_db sqliteStatements sqlite_standard.

(** A repository with one manifest and one dependency, found through a second
    repository's URL. *)
Definition demo_request : SourceRequest :=
  mkSourceRequest (Some (mkSource "git@a" "repository" "main"))
    [mkManagementFile "go" "vgo" "org" "mod" "" "1" "git@b"
       [mkDependency "org" "dep" "" "v1" ["direct"%string]]].
Definition demo_orphan : SourceRequest :=
  mkSourceRequest None [mkManagementFile "go" "vgo" "org" "mod" "" "1" ""
                          [mkDependency "org" "dep" "" "v1" []]].

Definition world1 : World table := (Track demo_request empty_world).2.
Definition world2 : World table := (Track demo_request world1).2.

Lemma run_world1 : Track demo_request empty_world = (Ret true, world1).
Proof.
  assert ((Track demo_request empty_world).1 = Ret true) as <- by (vm_compute; reflexivity).
  apply surjective_pairing.
Qed.

Lemma run_world2 : Track demo_request world1 = (Ret true, world2).
Proof.
  assert ((Track demo_request world1).1 = Ret true) as <- by (vm_compute; reflexivity).
  apply surjective_pairing.
Qed.

Lemma demo_no_collision : no_collision demo_request.
Proof. repeat constructor. intros Heq%(f_equal (fun l => nth 0 l Byte.x00)). vm_compute in Heq. done. Qed.

Lemma demo_safe : safe_request demo_request.
Proof. left. by eexists. Qed.

Lemma demo_orphan_unsafe : ~ safe_request demo_orphan.
Proof. intros [[s Hs]|Hs]; done. Qed.

Lemma demo_valid : valid_request demo_request.
Proof. repeat constructor. Qed.

(** The graph after the first run. *)
Lemma world1_rep : exists v, rep world1 v /\ tracked demo_request ∅ v.
Proof.
  assert (rep empty_world ∅) as Hr by exact empty_world_rep.
  destruct (Track_run demo_request empty_world ∅ world1 true Hr run_world1) as (_ & v & ? & ?).
  by exists v.
Qed.

Lemma decodable_empty : decodable ∅.
Proof. intros k c. by rewrite lookup_empty. Qed.

Lemma world1_decodable : exists v, rep world1 v /\ decodable v.
Proof.
  destruct world1_rep as (v & Hr & Ht). exists v. split; [done|].
  by eapply tracked_decodable, Ht; [apply demo_valid|apply decodable_empty].
Qed.
