(* ===== verification/StoreThms.v ===== *)
(** * What the SQL graph store guarantees

    The theorems about [graphStore], the v1alpha store: its refinement of the
    abstract store, its behaviour when the engine fails, paging, and where
    its three dialects differ. *)

From S2P Require Import Prelude GoCodec Api GraphSpec Sql StoreAlpha StoreAlphaSpec Instances.

Local Open Scope Z_scope.

(** ** Lemmas *)

Lemma list_limit_bounds req : 10 <= list_limit req <= 100.
Proof. unfold list_limit, max, min. repeat case_bool_decide; lia. Qed.

Lemma list_offset_small req :
  LR_Page req <= 2 ^ 31 / 100 -> list_offset req = (max (LR_Page req) 1 - 1) * list_limit req.
Proof.
  change (2 ^ 31 / 100) with 21474836. intros Hp. unfold list_offset, max.
  pose proof (list_limit_bounds req). cbv zeta.
  assert (2 ^ (32 - 1) = 2147483648) as Hpow by reflexivity.
  case_bool_decide; rewrite !swrap_small; rewrite ?swrap_small; nia.
Qed.


Lemma spec_put_absorb l items v :
  (forall i, i ∈ l -> i ∈ items) -> spec_put items (spec_put l v) = spec_put items v.
Proof.
  intros Hl. apply map_eq. intros k. rewrite !spec_put_lookup.
  destruct (last_item k items) as [i|] eqn:Hi; [done|].
  destruct (last_item k l) as [j|] eqn:Hj; [|done]. exfalso.
  apply last_item_Some in Hj as [Hj <-].
  destruct (last_item_is_Some (item_key j) items) as [x Hx]; [|congruence].
  apply list_elem_of_fmap. eauto.
Qed.

(** The rows a listing pages through, and their order in one call. *)
Definition rows_of (ty : string) (t : table) : list row := filter (list_where ty) (map_to_list t).
Definition listed `{SqlEngine} (call : nat) (ty : string) (t : table) : list row := arrange call (rows_of ty t).

Definition own_statements `{SqlEngine} (st : Statements) : Prop :=
  st = sqliteStatements \/ st = mysqlStatements \/ st = postgresStatements.

Lemma list_statement `{SqlEngine} st call ty limit offset t :
  own_statements st -> 0 <= offset ->
  ListGraphData st call ty limit offset t = Ret (window limit offset (listed call ty t)).
Proof.
  intros Hst Ho. assert (forall d, listGraphData d call ty limit offset t =
    Ret (window limit offset (listed call ty t))) as Hl.
  { intros d. unfold listGraphData. by rewrite bool_decide_eq_false_2 by lia. }
  destruct Hst as [->|[->| ->]]; apply Hl.
Qed.


Lemma List_run `{SqlEngine, !NoFaults} gs db req w t rows :
  rodb gs = Some db -> dbs w !! db = Some t ->
  ListGraphData (statements gs) (S (ticks w)) (LR_Type req) (list_limit req) (list_offset req) t = Ret rows ->
  List gs req w = (Ret (map row_item rows), mkWorld (dbs w) (S (ticks w))).
Proof.
  intros Hro Ht Hrows. unfold List, handle, bind, tick, run_query, lift, ret. rewrite Hro.
  rewrite no_faults_all. simpl. rewrite Ht, Hrows. unfold readGraphItems, read_rows. simpl.
  by rewrite scan_rows_ok.
Qed.





(** Opening the read-write handle creates the table. *)
Lemma default_create `{SqlEngine} driver st :
  DefaultStatementsFor driver = Some st -> CreateGraphDataTable st = createGraphDataTable.
Proof. unfold DefaultStatementsFor. intros Hst. by repeat case_decide; simplify_eq. Qed.

Lemma NewSQLGraphStore_run `{SqlEngine, !NoFaults} db ro st w :
  CreateGraphDataTable st = createGraphDataTable ->
  exists w', NewSQLGraphStore (Some db) ro st w = (Ret (mkGraphStore (Some db) ro st), w') /\
    dbs w' = <[db := default ∅ (dbs w !! db)]> (dbs w) /\
    (dbs w !! db = None -> sql_rep db w' ∅).
Proof.
  intros Hc. unfold NewSQLGraphStore, bind, tick, lift, ret. simpl. rewrite no_faults_all. simpl.
  eexists. split; [done|]. simpl.
  assert (partial_alter (fun t => Some (CreateGraphDataTable st t)) db (dbs w) =
          <[db := default ∅ (dbs w !! db)]> (dbs w)) as ->.
  { apply map_eq. intros j. rewrite lookup_partial_alter, lookup_insert. by rewrite Hc. }
  split; [done|]. intros Hnone. exists ∅. simpl. rewrite Hnone, lookup_insert_eq.
  split; [done|apply table_rep_empty].
Qed.

(** ** Theorems *)

Section Theorems.
Context `{SqlEngine}.


(** A [Put] that fails: nothing is written when the transaction cannot
  be opened or committed, and when single statements fail the others are
  committed all the same and the answer is [ErrPartialInsertion]; [Put]
  succeeds exactly when every statement was executed. *)
Theorem Put_faults (gs : graphStore) (db : string) (items : list GraphItem) (w : World table) (t : table) :
rwdb gs = Some db -> dbs w !! db = Some t -> items <> [] ->
let fl := faults (ticks w) in
let insert t i := InsertGraphData (statements gs) (row_key i) (Encoding i)
                    (of_bytes (GraphItemData i)) (now (ticks w)) t in
match f_begin fl, f_commit fl with
| Some e, _ | None, Some e => exists w', Put gs items w = (Fail e, w') /\ dbs w' = dbs w
| None, None =>
    exists w', dbs w' = <[db := fold_left insert (executed fl 0 items) t]> (dbs w) /\
      Put gs items w = (if decide (executed fl 0 items = items) then Ret tt
                        else Fail ErrPartialInsertion, w')
end.
Proof.
intros Hrw Ht Hne fl insert. unfold Put. rewrite Hrw, decide_False by done.
unfold bind, tick, begin_tx, commit_tx, ret, fail. simpl. fold fl.
destruct (f_begin fl) as [e|]; [eauto|]. rewrite Ht.
destruct (exec_items_executed fl (fun i t => insert t i) items 0 t) as (errors & Hex & Herr).
unfold insert_item. change (exec_items fl _ 0 items (Some t)) with
  (exec_items fl (fun i t => Ret (insert t i)) 0 items (Some t)). rewrite Hex.
destruct (f_commit fl) as [e|]; [eauto|].
eexists (mkWorld _ _). split.
- done.
- repeat case_decide; tauto.
Qed.

(** Retrying: a [Put] that failed in any way, followed by one of the same
  items that succeeds, has the effect of one [Put]. *)
Theorem Put_retry (db : string) (st : Statements) (items : list GraphItem) (w w1 w2 : World table)
  (v : astore) (o : outcome unit) :
(st = sqliteStatements \/ st = mysqlStatements) -> sql_rep db w v ->
Put (sql_store db st) items w = (o, w1) -> Put (sql_store db st) items w1 = (Ret tt, w2) ->
sql_rep db w2 (spec_put items v).
Proof.
intros Hd Hr Hrun1 Hrun2. assert (standard st) as Hst.
{ destruct Hd as [->| ->]; [apply sqlite_standard|apply mysql_standard]. }
destruct (Put_some db st Hst _ _ _ _ _ Hr Hrun1) as (l & Hl & Hr1).
rewrite <- (spec_put_absorb l items v Hl). by eapply Put_rep.
Qed.

(** Paging with a fixed count from page 1 on, as long as the offset fits its
  32 bits: as many rows as the type has, deleted ones included, whatever
  orders the engine answers the pages in; every row exactly once when the
  order stays the same, or when one page holds them all. *)
Theorem List_pages `{!NoFaults} (gs : graphStore) (db : string) (t : table) (count : Z) (ty : string)
  (n : nat) (calls : nat -> World table) :
rodb gs = Some db -> own_statements (statements gs) -> (0 < n)%nat -> Z.of_nat n <= 2 ^ 31 / 100 ->
Z.of_nat (length (rows_of ty t)) <= Z.of_nat n * list_limit (mkListRequest 1 count ty) ->
(forall p, dbs (calls p) !! db = Some t) ->
let order p := listed (S (ticks (calls p))) ty t in
let got := paged (Z.to_nat (list_limit (mkListRequest 1 count ty))) order 0 n in
(exists pages : nat -> list GraphItem, map row_item got = concat (map pages (seq 0 n)) /\
   forall p, (p < n)%nat -> exists w',
     List gs (mkListRequest (Z.of_nat p + 1) count ty) (calls p) = (Ret (pages p), w') /\ dbs w' = dbs (calls p)) /\
length got = length (rows_of ty t) /\ (forall r, r ∈ got -> r ∈ rows_of ty t) /\
((length (rows_of ty t) <= Z.to_nat (list_limit (mkListRequest 1 count ty)))%nat \/ (forall p, order p = order 0%nat) ->
 got ≡ₚ rows_of ty t).
Proof.
intros Hro Hst Hn0 Hn Hlen Ht order got. set (limit := list_limit (mkListRequest 1 count ty)) in *.
pose proof (list_limit_bounds (mkListRequest 1 count ty)) as Hlim. fold limit in Hlim.
assert (forall p, order p ≡ₚ rows_of ty t) as Hls by (intros p; apply arrange_perm).
assert (length (rows_of ty t) <= (0 + n) * Z.to_nat limit)%nat as Hlen' by nia.
split_and!.
- exists (fun p => map row_item (take (Z.to_nat limit) (drop (p * Z.to_nat limit) (order p)))). split.
  + unfold got. by rewrite paged_concat, concat_map, map_map.
  + intros p Hp. eexists. split; [apply (List_run gs db _ _ t); [done|apply Ht|]|done].
    rewrite list_offset_small by (simpl; lia).
    change (list_limit (mkListRequest (Z.of_nat p + 1) count ty)) with limit. simpl LR_Page. simpl LR_Type.
    assert (max (Z.of_nat p + 1) 1 = Z.of_nat p + 1) as -> by (unfold max; case_bool_decide; lia).
    rewrite list_statement by (done || nia). unfold window. do 3 f_equal. nia.
- unfold got. rewrite (paged_length _ _ _ Hls 0 n Hlen'). lia.
- intros r. apply (paged_elem _ _ _ Hls).
- by apply (paged_all _ _ _ Hls).
Qed.

(** C33. The window of a page stays within 32 bits: a page holds 10 to 100 rows
  whatever is asked for, the offset is a signed 32-bit number, and it is the
  start of the page exactly as long as that start is below 2^31. *)
Theorem List_window_bounds (req : ListRequest) :
- 2 ^ 31 <= LR_Page req < 2 ^ 31 ->
10 <= list_limit req <= 100 /\ - 2 ^ 31 <= list_offset req < 2 ^ 31 /\
let start := (max (LR_Page req) 1 - 1) * list_limit req in
(list_offset req = start <-> start < 2 ^ 31).
Proof.
intros Hpage. pose proof (list_limit_bounds req) as Hl. split; [done|].
assert (- 2 ^ 31 <= list_offset req < 2 ^ 31) as Ho by (unfold list_offset; apply (swrap_bounds 32); lia).
split; [done|]. intros start. split; [intros <-; lia|]. intros Hs. unfold start, list_offset.
assert (0 <= max (LR_Page req) 1 - 1 < 2 ^ 31) as Hp.
{ unfold max. change (2 ^ 31) with 2147483648 in *. case_bool_decide; lia. }
rewrite (swrap_small 32 (max (LR_Page req) 1 - 1)) by (change (2 ^ (32 - 1)) with (2 ^ 31); lia).
apply swrap_small; [lia|]. change (2 ^ (32 - 1)) with (2 ^ 31). unfold start in Hs. nia.
Qed.

(** Past 2^31 rows the 32-bit offset wraps to a negative number: SQLite
  then lists the first page again, MySQL and Postgres refuse the query. *)
Theorem List_offset_overflow `{!NoFaults} (db : string) (t : table) (ty : string) (w : World table) :
dbs w !! db = Some t ->
let page req st := fst (List (sql_store db st) req w) in
let far := mkListRequest 214748366 10 ty in
list_offset far < 0 /\
page far sqliteStatements = page (mkListRequest 1 10 ty) sqliteStatements /\
page far mysqlStatements = Fail (ErrBackend 2) /\ page far postgresStatements = Fail (ErrBackend 2).
Proof.
intros Ht page far. split; [by vm_compute|]. split.
- unfold page. rewrite !(List_run _ db _ w t (window 10 0 (listed (S (ticks w)) ty t))); [done|done|done|..].
  all: done.
- unfold page, List, handle, bind, tick, run_query, lift, ret. simpl. rewrite !no_faults_all. simpl.
  by rewrite Ht.
Qed.

(** Deleted rows stay in the listing: [Delete] of an item leaves it among
  the rows that [List] pages through, whatever the dialect. *)
Theorem List_lists_deleted `{!NoFaults} (db : string) (st : Statements) (w w' : World table)
  (i : GraphItem) (t : table) :
own_statements st -> dbs w !! db = Some t -> is_Some (t !! row_key i) ->
(length (rows_of (GraphItemType i) (deleteGraphData (now (ticks w)) (row_key i) t)) <= 10)%nat ->
Delete (sql_store db st) [i] w = (Ret tt, w') ->
exists items w'' c,
  List (sql_store db st) (mkListRequest 1 10 (GraphItemType i)) w' = (Ret items, w'') /\
  t !! row_key i = Some c /\
  mkGraphItem (GraphItemType i) (K1 i) (K2 i) [] (encoding c) (to_bytes (graph_item_data c)) ∈ items.
Proof.
intros Hst Ht [c Hc] Hlen Hrun. unfold sql_store in Hrun. rewrite Delete_write in Hrun.
apply write_tx_Ret in Hrun as (t0 & Ht0 & ->); [|done]. rewrite Ht in Ht0. injection Ht0 as <-.
assert (DeleteGraphData st = deleteGraphData) as Hdel by (by destruct Hst as [->|[->| ->]]).
cbn [fold_left]. unfold delete_stmt. rewrite Hdel.
set (t' := deleteGraphData _ _ _) in *.
eexists _, _, c. split; [|split; [done|]].
- eapply (List_run _ db); [done|simpl; by rewrite lookup_partial_alter_eq|].
  rewrite list_statement; [done|done|by vm_compute].
- apply list_elem_of_fmap.
  exists (row_key i, set_deleted (now (ticks w)) c). split.
  + unfold row_item, row_key, g_type, g_k1, g_k2. simpl. by rewrite !Base64decode_encode.
  + unfold window. change (Z.to_nat (list_limit _)) with 10%nat.
    change (Z.to_nat (list_offset _)) with 0%nat. rewrite drop_0. unfold listed.
    rewrite take_ge by (by rewrite arrange_perm). rewrite arrange_perm. apply list_elem_of_filter. split; [done|].
    apply elem_of_map_to_list. unfold t', deleteGraphData. rewrite lookup_alter_eq, Hc. done.
Qed.

(** On Postgres a deleted item cannot be put back: the insert updates the
  row and leaves its deletion date, where the other two dialects clear it. *)
Theorem postgres_Put_stays_deleted `{!NoFaults} (db : string) (w : World table)
  (i : GraphItem) (t : table) (c : GraphCell) (stamp : Z) :
dbs w !! db = Some t -> t !! row_key i = Some c -> date_deleted c = Some stamp ->
let put_leaves st deleted := exists w' t' c',
  Put (sql_store db st) [i] w = (Ret tt, w') /\ dbs w' !! db = Some t' /\
  t' !! row_key i = Some c' /\ graph_item_data c' = of_bytes (GraphItemData i) /\
  date_deleted c' = deleted in
put_leaves postgresStatements (Some stamp) /\
put_leaves sqliteStatements None /\ put_leaves mysqlStatements None.
Proof.
intros Ht Hc Hd put_leaves.
assert (forall st deleted, (exists c', put_stmt st (now (ticks w)) i t !! row_key i = Some c' /\
    graph_item_data c' = of_bytes (GraphItemData i) /\ date_deleted c' = deleted) ->
  put_leaves st deleted) as Hput.
{ intros st deleted (c' & Hc' & Hg & Hdel). unfold put_leaves, sql_store. rewrite Put_write.
  unfold write_tx, bind, tick, begin_tx, commit_tx, ret. simpl. rewrite no_faults_all. simpl.
  rewrite Ht. simpl. eexists _, _, c'. split_and!; [done| |done..].
  simpl. by rewrite lookup_partial_alter_eq. }
split_and!; apply Hput; unfold put_stmt; simpl.
- unfold postgres_insertGraphData. rewrite Hc, lookup_insert_eq. by eexists.
- unfold sqlite_insertGraphData. rewrite lookup_insert_eq. by eexists.
- unfold mysql_insertGraphData. rewrite Hc, lookup_insert_eq. by eexists.
Qed.

Lemma NewGraphStoreFor_run `{!NoFaults} (name driver addr roaddr db ro : string)
  (st : Statements) (w : World table) :
ResolveDriverName name = Ret driver -> DefaultStatementsFor driver = Some st ->
addr <> ""%string -> sql_open driver addr = Ret db ->
(if decide (roaddr = ""%string) then Ret db else sql_open driver roaddr) = Ret ro ->
exists w', NewGraphStoreFor name addr roaddr w = (Ret (mkGraphStore (Some db) (Some ro) st), w') /\
  dbs w' = <[db := default ∅ (dbs w !! db)]> (dbs w) /\
  (dbs w !! db = None -> sql_rep db w' ∅).
Proof.
intros Hname Hst Haddr Hopen Hro. unfold NewGraphStoreFor, bind, lift.
rewrite Hname, decide_False, Hopen by done. cbn [ret].
assert (CreateGraphDataTable st = createGraphDataTable) as Hc by (by eapply default_create).
case_decide as Hr; [injection Hro as ->|rewrite Hro]; cbn [ret]; rewrite Hst; by apply NewSQLGraphStore_run.
Qed.

(** Opening a store on a read-write address creates the table where there
  is none and keeps the rows of one that is there; reads go to the
  read-only address when there is one. *)
Theorem NewGraphStoreFor_read_write `{!NoFaults} (name driver addr roaddr db ro : string)
  (st : Statements) (w : World table) :
ResolveDriverName name = Ret driver -> DefaultStatementsFor driver = Some st ->
addr <> ""%string -> sql_open driver addr = Ret db ->
(if decide (roaddr = ""%string) then Ret db else sql_open driver roaddr) = Ret ro ->
exists w', NewGraphStoreFor name addr roaddr w = (Ret (mkGraphStore (Some db) (Some ro) st), w') /\
  dbs w' = <[db := default ∅ (dbs w !! db)]> (dbs w) /\
  (dbs w !! db = None -> sql_rep db w' ∅).
Proof. apply NewGraphStoreFor_run. Qed.

(** With a read-only address alone the store opens without writing, and
  refuses every write with [ErrUnsupported] before touching a database. *)
Theorem NewGraphStoreFor_read_only (name driver roaddr ro : string) (st : Statements) (w : World table) :
ResolveDriverName name = Ret driver -> DefaultStatementsFor driver = Some st ->
roaddr <> ""%string -> sql_open driver roaddr = Ret ro ->
let gs := mkGraphStore None (Some ro) st in
NewGraphStoreFor name "" roaddr w = (Ret gs, w) /\
forall items w', Put gs items w' = (Fail ErrUnsupported, w') /\
                 Delete gs items w' = (Fail ErrUnsupported, w').
Proof.
intros Hname Hst Haddr Hopen gs. split; [|done]. unfold NewGraphStoreFor, bind, lift.
rewrite Hname, decide_True by done. cbn [ret].
rewrite decide_False by done. rewrite Hopen. cbn [ret]. by rewrite Hst.
Qed.

(** Opening fails, with the world unchanged, for a driver that is not
  one of mysql, sqlite and postgres, and when both addresses are empty. *)
Theorem NewGraphStoreFor_refuses (name addr roaddr : string) (w : World table) :
(name ∉ ["mysql"; "sqlite"; "postgres"]%string \/ addr = ""%string /\ roaddr = ""%string) ->
exists e, NewGraphStoreFor name addr roaddr w = (Fail e, w).
Proof.
intros Hbad. unfold NewGraphStoreFor, bind, lift, fail.
destruct (ResolveDriverName name) as [driver|e|] eqn:Hname; [|eauto|].
- destruct Hbad as [Hbad|[-> ->]]; [|simpl; eauto]. exfalso. apply Hbad.
  unfold ResolveDriverName in Hname. rewrite !elem_of_cons. repeat case_decide; tauto || done.
- exfalso. unfold ResolveDriverName in Hname. by repeat case_decide.
Qed.

(** A result set that breaks off is not noticed: when the engine fails
  after [n] rows, the find returns the first [n] pairs with a nil error. *)
Theorem find_cut_short (db : string) (st : Statements) (w : World table) (t : table) (req : FindRequest)
  (n : nat) :
dbs w !! db = Some t -> FR_Keys req <> [] -> FR_EdgeTypes req <> [] -> FR_NodeTypes req <> [] ->
faults (ticks w) = mkFaults None (fun _ => None) None None (fun _ => None) (Some n) ->
exists w', FindUpstream (sql_store db st) req w =
  (Ret (map (fun g => mkPair (row_edge g.2) (row_item g.1))
     (take n (SelectGraphDataUpstreamDependencies st (S (ticks w)) (map Base64encode (FR_Keys req))
                (FR_EdgeTypes req) (FR_NodeTypes req) t))), w') /\ dbs w' = dbs w.
Proof.
intros Ht Hk He Hn Hf. unfold FindUpstream, bind, lift, handle, tick, run_query, ret.
rewrite (proj2 (sqlx_In_spec _)).
- simpl. rewrite Hf, Ht. simpl. unfold readGraphItemPairs, read_rows, fetched. simpl.
  rewrite scan_rows_ok by done. eauto.
- rewrite !elem_of_cons, elem_of_nil. intros [Heq|[Heq|[Heq|[]]]]; try congruence.
  symmetry in Heq. by apply fmap_nil_inv in Heq.
Qed.
End Theorems.

(** ** On a SQLite store *)

#[local] Existing Instance quiet_engine.
#[local] Existing Instance quiet_no_faults.

Definition demo_item : GraphItem :=
  mkGraphItem "module" [Byte.x01] [Byte.x01] [] GraphItemEncoding_JSON [Byte.x7b; Byte.x7d].


(** An engine whose first call fails in its first statement. *)
Definition flaky_engine : SqlEngine :=
  plain_engine (fun n => match n with
    | O => mkFaults None (fun i => match i with O => Some (ErrBackend 7) | S _ => None end)
             None None (fun _ => None) None
    | S _ => no_faults end).

(** An engine whose first result set breaks off at once. *)
Definition cutting_engine : SqlEngine :=
  plain_engine (fun _ => mkFaults None (fun _ => None) None None (fun _ => None) (Some 0%nat)).

Definition demo_item2 : GraphItem :=
  mkGraphItem "module" [Byte.x02] [Byte.x02] [] GraphItemEncoding_JSON [].

Lemma Put_faults_witness :
  let gs := sql_store main_db (@sqliteStatements flaky_engine) in
  let insert t i := InsertGraphData (statements gs) (row_key i) (Encoding i)
                      (of_bytes (GraphItemData i)) 0 t in
  let put := [demo_item; demo_item2] in
  let fl := @faults flaky_engine 0 in
  exists w', dbs w' = <[main_db := fold_left insert (executed fl 0 put) ∅]> (dbs empty_world) /\
    @Put flaky_engine gs put empty_world =
      (if decide (executed fl 0 put = put) then Ret tt else Fail ErrPartialInsertion, w').
Proof.
  apply (@Put_faults flaky_engine (sql_store main_db (@sqliteStatements flaky_engine)) main_db
           [demo_item; demo_item2] empty_world ∅); done.
Defined.

Lemma Put_retry_witness :
  let put := [demo_item; demo_item2] in
  let gs := sql_store main_db (@sqliteStatements flaky_engine) in
  let w1 := (@Put flaky_engine gs put empty_world).2 in
  let w2 := (@Put flaky_engine gs put w1).2 in
  (@Put flaky_engine gs put empty_world).1 = Fail ErrPartialInsertion /\
  sql_rep main_db w2 (spec_put put ∅).
Proof.
  intros put gs w1 w2.
  assert ((@Put flaky_engine gs put empty_world).1 = Fail ErrPartialInsertion) as H1
    by (vm_compute; reflexivity).
  assert ((@Put flaky_engine gs put w1).1 = Ret tt) as H2 by (vm_compute; reflexivity).
  split; [exact H1|].
  exact (@Put_retry flaky_engine main_db (@sqliteStatements flaky_engine) put empty_world w1 w2 ∅
            (Fail ErrPartialInsertion) (or_introl eq_refl) empty_world_rep
            (run_fst _ _ _ H1) (run_fst _ _ _ H2)).
Defined.

Definition full_world : World table :=
  (Put (sql_store main_db sqliteStatements) [demo_item; demo_item2] empty_world).2.
Definition full_table : table := default ∅ (dbs full_world !! main_db).

Lemma List_pages_witness :
  let order p := listed (S (ticks full_world)) "module" full_table in
  let got := paged 10 order 0 1 in
  length got = 2%nat /\ got ≡ₚ rows_of "module" full_table.
Proof.
  destruct (List_pages (sql_store main_db postgresStatements) main_db full_table 10 "module" 1 (fun _ => full_world))
    as (_ & Hlen & _ & Hall).
  - reflexivity.
  - right. right. reflexivity.
  - lia.
  - vm_compute. discriminate.
  - vm_compute. discriminate.
  - reflexivity.
  - split; [exact Hlen|]. apply Hall. right. done.
Defined.

Lemma List_window_bounds_witness :
  let req := mkListRequest 214748366 10 "module" in
  10 <= list_limit req <= 100 /\ - 2 ^ 31 <= list_offset req < 2 ^ 31 /\
  let start := (max (LR_Page req) 1 - 1) * list_limit req in
  (list_offset req = start <-> start < 2 ^ 31).
Proof. apply (List_window_bounds (mkListRequest 214748366 10 "module")). simpl. lia. Defined.

Lemma List_offset_overflow_witness :
  let page req st := fst (List (sql_store main_db st) req empty_world) in
  let far := mkListRequest 214748366 10 "module" in
  list_offset far < 0 /\
  page far sqliteStatements = page (mkListRequest 1 10 "module") sqliteStatements /\
  page far mysqlStatements = Fail (ErrBackend 2) /\ page far postgresStatements = Fail (ErrBackend 2).
Proof. apply (List_offset_overflow main_db ∅ "module" empty_world). reflexivity. Defined.

Definition deleted_world : World table :=
  (Delete (sql_store main_db sqliteStatements) [demo_item] full_world).2.

Lemma List_lists_deleted_witness : exists items w'' c,
  List (sql_store main_db sqliteStatements) (mkListRequest 1 10 "module") deleted_world = (Ret items, w'') /\
  full_table !! row_key demo_item = Some c /\
  mkGraphItem "module" [Byte.x01] [Byte.x01] [] (encoding c) (to_bytes (graph_item_data c)) ∈ items.
Proof.
  assert ((Delete (sql_store main_db sqliteStatements) [demo_item] full_world).1 = Ret tt) as H1
    by (vm_compute; reflexivity).
  refine (List_lists_deleted main_db sqliteStatements full_world deleted_world demo_item full_table
            _ _ _ _ (run_fst _ _ _ H1)).
  - left. reflexivity.
  - apply computed_Some. vm_compute. reflexivity.
  - apply computed_is_Some. vm_compute. reflexivity.
  - apply Nat.leb_le. vm_compute. reflexivity.
Defined.

Lemma postgres_Put_stays_deleted_witness :
  let t : table := {[ row_key demo_item := mkCell GraphItemEncoding_JSON "old" 0 (Some 5) ]} in
  let put_leaves st deleted := exists w' t' c',
    Put (sql_store main_db st) [demo_item] (mkWorld {[ main_db := t ]} 0) = (Ret tt, w') /\
    dbs w' !! main_db = Some t' /\ t' !! row_key demo_item = Some c' /\
    graph_item_data c' = of_bytes (GraphItemData demo_item) /\ date_deleted c' = deleted in
  put_leaves postgresStatements (Some 5) /\
  put_leaves sqliteStatements None /\ put_leaves mysqlStatements None.
Proof.
  apply (postgres_Put_stays_deleted main_db
    (mkWorld {[ main_db := {[ row_key demo_item := mkCell GraphItemEncoding_JSON "old" 0 (Some 5) ]} ]} 0)
    demo_item {[ row_key demo_item := mkCell GraphItemEncoding_JSON "old" 0 (Some 5) ]}
    (mkCell GraphItemEncoding_JSON "old" 0 (Some 5)) 5); reflexivity.
Defined.

Lemma NewGraphStoreFor_read_write_witness :
  exists w', NewGraphStoreFor "postgres" "a" "b" (mkWorld ∅ 0) =
      (Ret (mkGraphStore (Some "a"%string) (Some "b"%string) postgresStatements), w') /\
    dbs w' = <["a"%string := ∅]> ∅ /\ (@None table = None -> sql_rep "a" w' ∅).
Proof.
  refine (NewGraphStoreFor_read_write "postgres" "pgx" "a" "b" "a" "b" postgresStatements
            (mkWorld ∅ 0) _ _ _ _ _); done.
Defined.

Lemma NewGraphStoreFor_read_only_witness :
  let gs := mkGraphStore None (Some "b"%string) mysqlStatements in
  NewGraphStoreFor "mysql" "" "b" empty_world = (Ret gs, empty_world) /\
  forall items w', Put gs items w' = (Fail ErrUnsupported, w') /\
                   Delete gs items w' = (Fail ErrUnsupported, w').
Proof.
  refine (NewGraphStoreFor_read_only "mysql" "mysql" "b" "b" mysqlStatements empty_world _ _ _ _); done.
Defined.

Lemma NewGraphStoreFor_refuses_witness :
  exists e, NewGraphStoreFor "sqlite3" "a" "b" empty_world = (Fail e, empty_world).
Proof.
  refine (NewGraphStoreFor_refuses "sqlite3" "a" "b" empty_world _). left.
  rewrite !elem_of_cons, elem_of_nil. intros [?|[?|[?|[]]]]; discriminate.
Defined.

Lemma find_cut_short_witness :
  exists w', @FindUpstream cutting_engine (sql_store main_db (@sqliteStatements cutting_engine))
               (mkFindRequest [[Byte.x01]] ["depends"%string] ["module"%string]) full_world = (Ret [], w') /\
             dbs w' = dbs full_world.
Proof.
  refine (@find_cut_short cutting_engine main_db (@sqliteStatements cutting_engine) full_world full_table
    (mkFindRequest [[Byte.x01]] ["depends"%string] ["module"%string]) 0 _ _ _ _ _); done.
Defined.
