(* ===== verification/StoreBetaThms.v ===== *)
(** * What the generalized store guarantees

    The theorems about conversions, the SQL driver, paging and neighbours of
    the v1beta store, with their instances on concrete databases. *)

From S2P Require Import Prelude GoCodec Sql StoreBeta StoreBetaSpec Instances.

Local Open Scope Z_scope.

(** ** Reading a listing *)

Definition node_of (item : GraphData) : option Node :=
  match ConvertGraphData item with Ret (inl n) => Some n | _ => None end.
Definition edge_of (item : GraphData) : option Edge :=
  match ConvertGraphData item with Ret (inr e) => Some e | _ => None end.

Lemma server_of_omap items :
  server_of ConvertGraphData items = Ret (omap node_of items, omap edge_of items).
Proof.
  unfold server_of. assert (forall ns es, ofold (fun acc item => match ConvertGraphData item with
    | Ret (inl node) => Ret (acc.1 ++ [node], acc.2) | Ret (inr edge) => Ret (acc.1, acc.2 ++ [edge])
    | Fail _ => Ret acc | Panic why => Panic why end) (ns, es) items =
    Ret (ns ++ omap node_of items, es ++ omap edge_of items)) as Hgen; [|apply (Hgen [] [])].
  induction items as [|x items IH]; intros ns es; [by rewrite !app_nil_r|]. cbn [ofold].
  assert (omap node_of (x :: items) = option_list (node_of x) ++ omap node_of items /\
          omap edge_of (x :: items) = option_list (edge_of x) ++ omap edge_of items) as [-> ->].
  { simpl. by destruct (node_of x), (edge_of x). }
  assert (forall why, ConvertGraphData x <> Panic why) as Hnp.
  { intros why. unfold ConvertGraphData, decode, obind. repeat case_match; simplify_eq; done. }
  unfold node_of at 1, edge_of at 1.
  destruct (ConvertGraphData x) as [[n|e]|e|why]; cbn [obind option_list];
    [rewrite IH; simpl; by rewrite <- app_assoc..|apply IH|by destruct (Hnp why)].
Qed.

(** ** Page tokens *)

Definition page_token (offset : Z) : string := of_bytes (b32_encode (put_be 8 (offset mod 2 ^ 64))).

Lemma page_token_nonempty offset : page_token offset <> ""%string.
Proof.
  unfold page_token. intros Heq%(f_equal to_bytes). rewrite to_of_bytes in Heq.
  pose proof (length_b32_encode (put_be 8 (offset mod 2 ^ 64))) as Hl.
  rewrite Heq, length_put_be in Hl. simpl in Hl. lia.
Qed.

Lemma swrap64_unsigned z : 0 <= z < 2 ^ 63 -> swrap 64 z = z /\ z mod 2 ^ 64 = z.
Proof.
  intros Hz. split; [apply swrap_small; [lia|]|apply Z.mod_small; lia].
  change (2 ^ (64 - 1)) with (2 ^ 63). lia.
Qed.

Lemma paginate_first size : 0 <= size < 2 ^ 63 -> paginate "" size = Ret (0, page_token size).
Proof.
  intros Hs. unfold paginate. rewrite decide_True by done. unfold page_token.
  rewrite Z.add_0_l. by destruct (swrap64_unsigned size Hs) as [-> _].
Qed.

Lemma paginate_next offset size :
  0 <= offset -> 0 <= size -> offset + size < 2 ^ 63 ->
  paginate (page_token offset) size = Ret (offset, page_token (offset + size)).
Proof.
  intros Ho Hs Hsum. unfold paginate. rewrite decide_False by apply page_token_nonempty.
  unfold page_token at 1. rewrite to_of_bytes, b32_roundtrip. cbn [negb].
  rewrite length_put_be, decide_False by lia. rewrite take_ge by (by rewrite length_put_be).
  rewrite get_put_be. change (256 ^ Z.of_nat 8) with (2 ^ 64).
  destruct (swrap64_unsigned offset ltac:(lia)) as [Hw Hm]. rewrite !Hm, Hw.
  unfold page_token. by destruct (swrap64_unsigned (offset + size) ltac:(lia)) as [-> _].
Qed.

(** A client that follows the tokens. *)
Fixpoint list_all `{SqlEngine} (s : sqlDriver) (fuel : nat) (kind token : string) (size : Z)
    (acc : list Node * list Edge) : M (World btable) (option (list Node * list Edge)) :=
  match fuel with
  | O => ret None
  | S fuel' =>
      let! resp := @Server_List _ (sqlDriver_Driver s) (mkBetaListRequest kind token size) in
      let acc := (acc.1 ++ Nodes resp, acc.2 ++ Edges resp) in
      if decide (NextPageToken resp = ""%string) then ret (Some acc)
      else list_all s fuel' kind (NextPageToken resp) size acc
  end.

Section Paging.
Context `{SqlEngine, !NoFaults}.
Variables (s : sqlDriver) (db : string) (d : dialect) (t : btable) (kind : string) (size : Z).
Hypothesis Hro : d_rodb s = Some (Some db).
Hypothesis Hst : d_List (d_statements s) = sqliteListGraphData d.
Hypothesis Hsize : 0 < size < 2 ^ 31.

(** The rows of the kind, and their order in one call. *)
Definition kind_rows : list brow := filter (b_list_where kind) (map_to_list t).
Definition order_in (call : nat) : list brow := arrange call kind_rows.

Lemma order_length call : length (order_in call) = length kind_rows.
Proof using Type. apply Permutation_length, arrange_perm. Qed.

Lemma sqlDriver_List_page (offset : Z) (w : World btable) :
0 <= offset -> dbs w !! db = Some t ->
sqlDriver_List s kind offset size w =
  (Ret (map row_data (take (Z.to_nat size) (drop (Z.to_nat offset) (order_in (S (ticks w))))),
        bool_decide (Z.to_nat size < length kind_rows - Z.to_nat offset)%nat), mkWorld (dbs w) (S (ticks w))).
Proof using All.
intros Ho Ht. unfold sqlDriver_List, open_handle, bind, tick, run_query, lift, ret.
rewrite Hro, no_faults_all, Hst. simpl. rewrite Ht. unfold sqliteListGraphData.
assert (swrap 64 (size + 1) = size + 1) as -> by (apply swrap_small; [lia|]; change (2 ^ (64 - 1)) with (2 ^ 63); lia).
rewrite (bool_decide_eq_false_2 (offset < 0)), (bool_decide_eq_false_2 (size + 1 < 0)) by lia. simpl.
rewrite decide_False by lia. rewrite scan_rows_ok by done.
unfold b_window. rewrite bool_decide_eq_false_2 by lia. unfold fetched. simpl.
change (arrange (S (ticks w)) _) with (order_in (S (ticks w))).
do 3 f_equal.
- rewrite take_take. do 2 f_equal. lia.
- apply bool_decide_ext. rewrite length_take, length_drop, order_length. lia.
Qed.

Lemma Server_List_page (offset : Z) (token : string) (w : World btable) :
0 <= offset -> offset + size < 2 ^ 63 -> dbs w !! db = Some t ->
paginate token size = Ret (offset, page_token (offset + size)) ->
let page := map row_data (take (Z.to_nat size) (drop (Z.to_nat offset) (order_in (S (ticks w))))) in
@Server_List _ (sqlDriver_Driver s) (mkBetaListRequest kind token size) w =
  (Ret (mkBetaListResponse (if decide (Z.to_nat size < length kind_rows - Z.to_nat offset)%nat
                            then page_token (offset + size) else "")
          (omap node_of page) (omap edge_of page)), mkWorld (dbs w) (S (ticks w))).
Proof using All.
intros Ho Hsum Ht Hp page. unfold Server_List, bind, lift, ret. simpl. rewrite Hp. simpl.
rewrite (sqlDriver_List_page offset w Ho Ht), server_of_omap.
do 3 f_equal. by repeat case_decide; case_bool_decide.
Qed.

(** From page [p] on, asked in call [k + p]. *)
Lemma list_all_from (k fuel : nat) :
forall (p : nat) (token : string) (acc : list Node * list Edge) (w : World btable),
let offset := Z.of_nat p * size in
Z.of_nat (length kind_rows) + size < 2 ^ 63 -> offset <= Z.of_nat (length kind_rows) ->
dbs w !! db = Some t -> ticks w = (k + p)%nat -> paginate token size = Ret (offset, page_token (offset + size)) ->
(length kind_rows - Z.to_nat offset < fuel)%nat ->
let rest := map row_data (paged (Z.to_nat size) (fun p => order_in (S (k + p))) p fuel) in
exists w', list_all s fuel kind token size acc w =
  (Ret (Some (acc.1 ++ omap node_of rest, acc.2 ++ omap edge_of rest)), w') /\ dbs w' = dbs w.
Proof using All.
assert (forall p, order_in (S (k + p)) ≡ₚ kind_rows) as Hls by (intros p; apply arrange_perm).
induction fuel as [|fuel IH]; intros p token acc w offset Hlen Hle Ht Htick Hp Hfuel; [lia|].
cbn [list_all]. unfold bind, ret.
rewrite (Server_List_page offset token w ltac:(lia) ltac:(lia) Ht Hp). simpl.
assert (Z.to_nat offset = (p * Z.to_nat size)%nat) as Ho by (unfold offset; nia). rewrite Htick, Ho in *.
destruct (decide (Z.to_nat size < length kind_rows - p * Z.to_nat size)%nat) as [Hmore|Hmore].
- rewrite decide_False by apply page_token_nonempty.
  destruct (IH (S p) (page_token (offset + size)) (acc.1 ++ omap node_of (map row_data
      (take (Z.to_nat size) (drop (p * Z.to_nat size) (order_in (S (k + p)))))), acc.2 ++ omap edge_of (map row_data
      (take (Z.to_nat size) (drop (p * Z.to_nat size) (order_in (S (k + p))))))) (mkWorld (dbs w) (S (k + p))))
    as (w2 & Hrun & Hw2); [done|nia|done|simpl; lia| |nia|].
  + replace (Z.of_nat (S p) * size) with (offset + size) by (unfold offset; lia). apply paginate_next; lia.
  + exists w2. rewrite Hrun. split; [|done]. cbn [paged fst snd]. by rewrite map_app, !omap_app, <- !app_assoc.
- rewrite decide_True by done. exists (mkWorld (dbs w) (S (k + p))). split; [|done]. cbn [paged].
  rewrite (paged_end _ _ kind_rows Hls (S p)) by nia. by rewrite app_nil_r.
Qed.
End Paging.

(** ** Theorems *)

(** C39. A node, and an edge between different keys, comes back from its row with
    its keys and its body, a nil body as an empty one, whatever the encoding;
    an edge from a key to itself does not: it comes back as a node, with its
    key and the edge's body. *)
Theorem ConvertGraphData_roundtrip (now enc : Z) (n : Node) (e : Edge) :
  ConvertGraphData (ConvertNode now n enc) = Ret (inl (stored_node n)) /\
  ConvertGraphData (ConvertEdge now e enc) =
    Ret (if decide (Edge_FromKey e = Edge_ToKey e)
         then inl (mkNode (Edge_FromKey e) (filled (Edge_Body e))) else inr (stored_edge e)).
Proof. split; [apply convert_node|apply convert_edge]. Qed.

Section Theorems.
Context `{SqlEngine}.

(** C35. The SQLite driver writes all of a batch or nothing: [Put] and [Delete]
  either succeed with every item applied in order, or fail with the
  database as it was, whatever call of the engine failed. *)
Theorem sqlDriver_atomic (s : sqlDriver) (db : string) (items : list GraphData) (w w' : World btable)
  (t : btable) (o : outcome unit) (put : bool) :
d_rwdb s = Some (Some db) -> d_statements s = SQLiteStatements -> dbs w !! db = Some t ->
(if put then sqlDriver_Put s items w else sqlDriver_Delete s items w) = (o, w') ->
let apply t i := if put then insert_row i t else delete_row i t in
(o = Ret tt /\ dbs w' = <[db := fold_left apply items t]> (dbs w)) \/
(exists e, o = Fail e /\ dbs w' = dbs w).
Proof.
intros Hdb Hst Ht Hrun apply.
assert ((if put then sqlDriver_Put s items w else sqlDriver_Delete s items w) =
        write_all (fun i t => apply t i) s items w) as Hw.
{ unfold sqlDriver_Put, sqlDriver_Delete, write_all, apply. rewrite Hdb, Hst. by destruct put. }
rewrite Hw in Hrun. by apply (write_all_atomic (fun i t => apply t i) s db items w t o w').
Qed.

(** The MySQL and PostgreSQL inserts never succeed: a [Put] of anything
  fails and leaves the database as it was. *)
Theorem sqlDriver_Put_never (s : sqlDriver) (db : string) (items : list GraphData) (w : World btable)
  (t : btable) :
d_statements s = MySQLStatements \/ d_statements s = PostgreSQLStatements ->
d_rwdb s = Some (Some db) -> dbs w !! db = Some t -> items <> [] ->
exists e w', sqlDriver_Put s items w = (Fail e, w') /\ dbs w' = dbs w.
Proof.
intros Hst Hdb Ht Hne. unfold sqlDriver_Put, open_handle, bind, tick, begin_tx, lift, ret. rewrite Hdb.
destruct (f_begin _) as [e|]; [eauto|]. simpl. rewrite Ht.
destruct items as [|i items]; [done|]. simpl. unfold exec_stmt, obind.
destruct (f_exec _ 0) as [e|]; [eauto|].
destruct Hst as [Hst|Hst]; rewrite Hst; simpl; eauto.
Qed.

(** C34. On an engine whose calls do not fail, following the page tokens from
  the empty one, with any page size of at least 1, ends with as many rows as there are live rows of the kind, all of
  them such rows, whatever orders the engine answers the pages in.  It lists
  every one exactly once when one page holds them all, or when the engine
  keeps to one order, which no statement asks it to. *)
Theorem Server_List_pages `{!NoFaults} (s : sqlDriver) (db : string) (d : dialect) (t : btable)
  (kind : string) (size : Z) (w : World btable) (fuel : nat) :
d_rodb s = Some (Some db) -> d_List (d_statements s) = sqliteListGraphData d ->
0 < size < 2 ^ 31 -> Z.of_nat (length (kind_rows t kind)) < 2 ^ 62 -> dbs w !! db = Some t ->
(length (kind_rows t kind) < fuel)%nat ->
exists got w', list_all s fuel kind "" size ([], []) w =
  (Ret (Some (omap node_of (map row_data got), omap edge_of (map row_data got))), w') /\ dbs w' = dbs w /\
  length got = length (kind_rows t kind) /\ (forall r, r ∈ got -> r ∈ kind_rows t kind) /\
  (Z.of_nat (length (kind_rows t kind)) <= size \/
     (forall p, order_in t kind (S (ticks w + p)) = order_in t kind (S (ticks w))) ->
   got ≡ₚ kind_rows t kind).
Proof.
intros Hro Hst Hsize Hlen Ht Hfuel.
assert (forall p, order_in t kind (S (ticks w + p)) ≡ₚ kind_rows t kind) as Hls by (intros p; apply arrange_perm).
assert (length (kind_rows t kind) <= (0 + fuel) * Z.to_nat size)%nat as Henough by nia.
destruct (list_all_from s db d t kind size Hro Hst Hsize (ticks w) fuel 0 "" ([], []) w) as (w' & Hrun & Hw).
- change (2 ^ 63) with (2 ^ 62 + 2 ^ 62). lia.
- lia.
- done.
- lia.
- apply paginate_first. lia.
- lia.
- eexists _, w'. split; [exact Hrun|]. split_and!; [done|..].
  + rewrite (paged_length _ _ _ Hls); [lia|done].
  + intros r. apply (paged_elem _ _ _ Hls).
  + intros Hsame. apply (paged_all _ _ _ Hls); [lia|done|]. destruct Hsame as [?|Hsame]; [left; lia|right].
    intros p. by rewrite Hsame, Nat.add_0_r.
Qed.

(** Two requests the listing does not survive: a page token that is valid
  base32 of fewer than eight bytes panics, and a page size of zero returns
  no row and the token of the same page for ever. *)
Theorem Server_List_bad_requests `{!NoFaults} (s : sqlDriver) (db kind : string) (d : dialect)
  (t : btable) (w : World btable) :
d_rodb s = Some (Some db) -> d_List (d_statements s) = sqliteListGraphData d ->
dbs w !! db = Some t -> kind_rows t kind <> [] ->
(forall size, exists why, @Server_List _ (sqlDriver_Driver s) (mkBetaListRequest kind "AA======" size) w = (Panic why, w)) /\
exists w', @Server_List _ (sqlDriver_Driver s) (mkBetaListRequest kind "" 0) w =
           (Ret (mkBetaListResponse (page_token 0) [] []), w') /\ paginate (page_token 0) 0 = Ret (0, page_token 0).
Proof.
intros Hro Hst Ht Hne. split.
- intros size. exists "index out of range"%string. unfold Server_List, bind, lift.
  cbn [BLR_PageToken BLR_PageSize]. assert (paginate "AA======" size = Panic "index out of range") as ->; [|done].
  unfold paginate. rewrite decide_False by done.
  assert (b32_decode (to_bytes "AA======") = ([Byte.x00], true)) as -> by (vm_compute; reflexivity). done.
- unfold Server_List, bind, lift, ret. cbn [BLR_PageToken BLR_PageSize BLR_Kind].
  rewrite paginate_first by lia. simpl.
  unfold sqlDriver_List, open_handle, bind, tick, run_query, lift, ret.
  rewrite Hro, no_faults_all, Hst. simpl. rewrite Ht. unfold sqliteListGraphData. simpl.
  unfold b_window, fetched. simpl. fold (kind_rows t kind). pose proof (Permutation_length (arrange_perm (S (ticks w)) _ (kind_rows t kind))) as Hlen.
  exists (mkWorld (dbs w) (S (ticks w))). split; [|by vm_compute].
  destruct (arrange (S (ticks w)) (kind_rows t kind)); [|done]. by destruct (kind_rows t kind).
Qed.

(** With a read-only address alone, [Resolve] wraps a nil handle, so that a
  [Put] panics instead of answering [ErrUnsupported]. *)
Theorem Resolve_read_only_panics (driver name roaddr ro : string) (st : DriverStatements) (w : World btable)
  (items : list GraphData) :
driver_statements driver = Ret (name, st) -> roaddr <> ""%string -> sql_open name roaddr = Ret ro ->
exists s, Resolve driver "" roaddr w = (Ret s, w) /\ d_rodb s = Some (Some ro) /\
  exists why, sqlDriver_Put s items w = (Panic why, w).
Proof.
intros Hd Hne Hopen. eexists. split; [|split; [|]].
- unfold Resolve, bind, lift. rewrite Hd. rewrite decide_True by done. unfold ret at 1.
  rewrite decide_False by done. rewrite Hopen. unfold ret. done.
- done.
- by eexists.
Qed.
End Theorems.

(** The neighbours of rows that convert: one per node key, the first node
    of each key, each with exactly the edges whose far end it is, in the order
    of the rows; the slice index is never out of range. *)
Theorem processNeighbors_groups (keyFn : Edge -> bytes) (rows : list (GraphData * GraphData))
    (pairs : list (Node * Edge)) :
  Forall2 (fun r p => ConvertGraphData r.1 = Ret (inl p.1) /\ ConvertGraphData r.2 = Ret (inr p.2) /\
                      keyFn p.2 = Node_Key p.1) rows pairs ->
  processNeighbors (concat (map (fun r => [r.1; r.2]) rows)) keyFn = Ret (group keyFn pairs).
Proof. apply processNeighbors_group. Qed.

(** A row that does not convert breaks the grouping: when the node of a pair
    is unreadable its edge goes to the first neighbour, whoever that is, or
    the handler panics when there is none. *)
Theorem processNeighbors_unreadable (keyFn : Edge -> bytes) (bad erow nrow frow : GraphData)
    (n : Node) (e f : Edge) (err : error) :
  ConvertGraphData bad = Fail err -> ConvertGraphData erow = Ret (inr e) ->
  ConvertGraphData nrow = Ret (inl n) -> ConvertGraphData frow = Ret (inr f) ->
  keyFn f = Node_Key n -> keyFn e <> Node_Key n ->
  (exists why, processNeighbors [bad; erow] keyFn = Panic why) /\
  processNeighbors [nrow; frow; bad; erow] keyFn = Ret [mkNeighbor n [f; e]].
Proof.
  intros Hbad He Hn Hf Hkf Hke. split.
  - unfold processNeighbors, add_neighbor. cbn [ofold obind]. rewrite Hbad. cbn [obind]. rewrite He.
    rewrite lookup_empty. simpl. by eexists.
  - unfold processNeighbors, add_neighbor. cbn [ofold]. rewrite Hn. rewrite lookup_empty. cbn [obind].
    rewrite Hf, Hkf, lookup_insert_eq. cbn [obind app length]. simpl. rewrite Hbad. cbn [obind].
    rewrite He, lookup_insert_ne, lookup_empty by done. done.
Qed.

(** C9. The server over the SQLite driver implements the abstract store: [Put]
    and [Delete] write it, and [Neighbors] answers, for a node as origin or as
    destination, each live node at the other end of its live edges once, with
    exactly those edges. *)
Theorem Server_refines `{SqlEngine, !NoCut} (db : string) (w : World btable) (v : bstore) :
  bsql_rep db w v ->
  let D := sqlDriver_Driver (beta_driver db) in
  (forall ns es w', @Server_Put _ D beta_now ns es w = (Ret tt, w') ->
     bsql_rep db w' (put_entries (put_entries_of ns es) v)) /\
  (forall ns es w', @Server_Delete _ D beta_now ns es w = (Ret tt, w') ->
     bsql_rep db w' (delete_keys (delete_keys_of ns es) v)) /\
  (forall n res w', @Server_Neighbors _ D beta_now (from_request n) w = (Ret res, w') ->
     bsql_rep db w' v /\ neighbors_from v (Node_Key n) res) /\
  (forall n res w', @Server_Neighbors _ D beta_now (to_request n) w = (Ret res, w') ->
     bsql_rep db w' v /\ neighbors_to v (Node_Key n) res).
Proof.
  intros Hr D. pose (S := beta_spec db). split_and!.
  - intros ns es w'. exact (bput_spec (BetaStoreSpec := S) w v ns es w' Hr).
  - intros ns es w'. exact (bdelete_spec (BetaStoreSpec := S) w v ns es w' Hr).
  - intros n res w' Hrun. split; [exact (Server_Neighbors_frame db _ w w' _ v Hr Hrun)|].
    exact (Server_from db w w' v n res Hr Hrun).
  - intros n res w' Hrun. split; [exact (Server_Neighbors_frame db _ w w' _ v Hr Hrun)|].
    exact (Server_to db w w' v n res Hr Hrun).
Qed.

(** ** On concrete databases *)

#[local] Existing Instance quiet_engine.
#[local] Existing Instance quiet_no_faults.

Definition node_a : Node := mkNode [Byte.x61] (Some (mkAny "module" [Byte.x01])).
Definition node_b : Node := mkNode [Byte.x62] (Some (mkAny "module" [Byte.x02; Byte.xff])).
Definition edge_ab : Edge := mkEdge [Byte.x61] [Byte.x62] [Byte.x7a] (Some (mkAny "depends" [])).

Definition empty_beta : World btable := mkWorld {[ main_db := ∅ ]} 0.

Lemma empty_beta_rep : bsql_rep main_db empty_beta ∅.
Proof. exists ∅. split; [apply lookup_singleton_eq|apply btable_rep_empty]. Qed.

Definition beta_items : list GraphData :=
  [ConvertNode 7 node_a EncodingProtocolBuffers; ConvertNode 7 node_b EncodingProtocolBuffers;
   ConvertEdge 7 edge_ab EncodingProtocolBuffers].

Lemma sqlDriver_atomic_witness :
  let w' := (sqlDriver_Put (beta_driver main_db) beta_items empty_beta).2 in
  (Ret tt = Ret tt /\ dbs w' = <[main_db := fold_left (fun t i => insert_row i t) beta_items ∅]> (dbs empty_beta)) \/
  (exists e, Ret tt = Fail e /\ dbs w' = dbs empty_beta).
Proof.
  assert ((sqlDriver_Put (beta_driver main_db) beta_items empty_beta).1 = Ret tt) as H1
    by (vm_compute; reflexivity).
  exact (sqlDriver_atomic (beta_driver main_db) main_db beta_items empty_beta _ ∅ (Ret tt) true
           eq_refl eq_refl eq_refl (run_fst _ _ _ H1)).
Defined.

Lemma sqlDriver_Put_never_witness : exists e w',
  sqlDriver_Put (mkSqlDriver (Some (Some main_db)) (Some (Some main_db)) MySQLStatements) beta_items empty_beta =
    (Fail e, w') /\ dbs w' = dbs empty_beta.
Proof.
  apply (sqlDriver_Put_never (mkSqlDriver (Some (Some main_db)) (Some (Some main_db)) MySQLStatements)
           main_db beta_items empty_beta ∅); [left; reflexivity|reflexivity|reflexivity|discriminate].
Defined.

Definition beta_world : World btable := (sqlDriver_Put (beta_driver main_db) beta_items empty_beta).2.
Definition beta_table : btable := default ∅ (dbs beta_world !! main_db).

Lemma beta_world_table : dbs beta_world !! main_db = Some beta_table.
Proof. apply computed_Some. vm_compute. reflexivity. Qed.

Lemma Server_List_pages_witness : exists got w',
  list_all (beta_driver main_db) 3 "module" "" 1 ([], []) beta_world =
    (Ret (Some (omap node_of (map row_data got), omap edge_of (map row_data got))), w') /\
  length got = 2%nat /\ got ≡ₚ kind_rows beta_table "module".
Proof.
  destruct (Server_List_pages (beta_driver main_db) main_db SQLite beta_table "module" 1 beta_world 3
            eq_refl eq_refl) as (got & w' & Hrun & _ & Hlen & _ & Hall).
  - lia.
  - vm_compute. reflexivity.
  - exact beta_world_table.
  - apply Nat.ltb_lt. vm_compute. reflexivity.
  - exists got, w'. split; [exact Hrun|]. split; [rewrite Hlen; vm_compute; reflexivity|apply Hall; right; done].
Defined.

(** An engine that turns the order around from one call to the next: two pages
    of one row show the same row, and the other is missing. *)
Definition turning_list {A} (call : nat) (l : list A) : list A := if Nat.even call then l else reverse l.

Definition turning_engine : SqlEngine.
Proof.
  refine {| arrange := fun call A => @turning_list A call; sqlx_In := first_empty; sql_open := fun _ a => Ret a;
            now := fun n => Z.of_nat n; faults := fun _ => no_faults |}.
  - intros call A l. unfold turning_list. case_match; [done|apply reverse_Permutation].
  - intros args. unfold first_empty. case_decide; naive_solver.
Defined.

Example Server_List_misses : exists n,
  fst (@list_all turning_engine (@beta_driver turning_engine main_db) 3 "module" "" 1 ([], []) beta_world) = Ret (Some ([n; n], [])) /\
  length (kind_rows beta_table "module") = 2%nat /\ NoDup (kind_rows beta_table "module").
Proof. eexists. split; [vm_compute; reflexivity|]. split; [vm_compute; reflexivity|]. apply NoDup_filter, NoDup_map_to_list. Qed.

Lemma Server_List_bad_requests_witness :
  (forall size, exists why, @Server_List _ (sqlDriver_Driver (beta_driver main_db))
     (mkBetaListRequest "module" "AA======" size) beta_world = (Panic why, beta_world)) /\
  exists w', @Server_List _ (sqlDriver_Driver (beta_driver main_db)) (mkBetaListRequest "module" "" 0) beta_world =
             (Ret (mkBetaListResponse (page_token 0) [] []), w') /\ paginate (page_token 0) 0 = Ret (0, page_token 0).
Proof.
  refine (Server_List_bad_requests (beta_driver main_db) main_db "module" SQLite beta_table beta_world
            eq_refl eq_refl beta_world_table _).
  intros Heq%(f_equal length). vm_compute in Heq. discriminate.
Defined.

Lemma Resolve_read_only_panics_witness : exists s,
  Resolve "sqlite" "" "ro" empty_beta = (Ret s, empty_beta) /\ d_rodb s = Some (Some "ro"%string) /\
  exists why, sqlDriver_Put s beta_items empty_beta = (Panic why, empty_beta).
Proof.
  refine (Resolve_read_only_panics "sqlite" "sqlite3" "ro" "ro" SQLiteStatements empty_beta beta_items
            eq_refl _ eq_refl). discriminate.
Defined.

Lemma processNeighbors_groups_witness :
  processNeighbors (concat (map (fun r => [r.1; r.2])
    [(ConvertNode 7 node_b EncodingProtocolBuffers, ConvertEdge 7 edge_ab EncodingProtocolBuffers)])) Edge_ToKey =
  Ret (group Edge_ToKey [(node_b, edge_ab)]).
Proof.
  apply processNeighbors_groups. constructor; [|constructor]. split; [|split]; vm_compute; reflexivity.
Defined.

Lemma processNeighbors_unreadable_witness :
  let bad := mkGraphData "" "x" "x" "" "module" EncodingProtocolBuffers "!" None 0 in
  let erow := ConvertEdge 7 edge_ab EncodingProtocolBuffers in
  let nrow := ConvertNode 7 node_a EncodingProtocolBuffers in
  let f := mkEdge [Byte.x62] [Byte.x61] [] (Some (mkAny "depends" [])) in
  (exists why, processNeighbors [bad; erow] Edge_ToKey = Panic why) /\
  processNeighbors [nrow; ConvertEdge 7 f EncodingProtocolBuffers; bad; erow] Edge_ToKey =
    Ret [mkNeighbor node_a [f; edge_ab]].
Proof.
  apply (processNeighbors_unreadable Edge_ToKey
    (mkGraphData "" "x" "x" "" "module" EncodingProtocolBuffers "!" None 0)
    (ConvertEdge 7 edge_ab EncodingProtocolBuffers) (ConvertNode 7 node_a EncodingProtocolBuffers)
    (ConvertEdge 7 (mkEdge [Byte.x62] [Byte.x61] [] (Some (mkAny "depends" []))) EncodingProtocolBuffers)
    node_a edge_ab (mkEdge [Byte.x62] [Byte.x61] [] (Some (mkAny "depends" [])))
    (ErrText "illegal base64 data")); try (vm_compute; reflexivity). discriminate.
Defined.

Lemma Server_refines_witness :
  let D := sqlDriver_Driver (beta_driver main_db) in
  (forall ns es w', @Server_Put _ D beta_now ns es empty_beta = (Ret tt, w') ->
     bsql_rep main_db w' (put_entries (put_entries_of ns es) ∅)) /\
  (forall ns es w', @Server_Delete _ D beta_now ns es empty_beta = (Ret tt, w') ->
     bsql_rep main_db w' (delete_keys (delete_keys_of ns es) ∅)) /\
  (forall n res w', @Server_Neighbors _ D beta_now (from_request n) empty_beta = (Ret res, w') ->
     bsql_rep main_db w' ∅ /\ neighbors_from ∅ (Node_Key n) res) /\
  (forall n res w', @Server_Neighbors _ D beta_now (to_request n) empty_beta = (Ret res, w') ->
     bsql_rep main_db w' ∅ /\ neighbors_to ∅ (Node_Key n) res).
Proof. exact (Server_refines main_db empty_beta ∅ empty_beta_rep). Defined.
