(* ===== verification/KeysThms.v ===== *)
(** * What keys and item encoding guarantee

    The theorems about keys.go, encode.go and decode.go, with their instances
    on concrete messages. *)

From S2P Require Import Prelude GoJson GoJsonSpec GoCodec GoHash Api SchemaJson GraphSpec StoreAlpha KeysAlpha Instances.

(** What is hashed determines the names: two modules, or two sources,
    whose names hold no [---] (nor end in a dash that could begin one) feed
    the hash the same bytes only when the names are equal. *)
Theorem key_preimage_injective (vars1 vars2 : list string) :
  Forall plain_name vars1 -> Forall plain_name vars2 ->
  key_preimage vars1 = key_preimage vars2 -> vars1 = vars2.
Proof. apply key_preimage_inj. Qed.

Lemma key_preimage_injective_witness :
  ["go"; "github.com"; "depscloud/api"]%string = ["go"; "github.com"; "depscloud/api"]%string.
Proof.
  apply (key_preimage_injective ["go"; "github.com"; "depscloud/api"] ["go"; "github.com"; "depscloud/api"]);
    repeat constructor.
Defined.

(** With other names the framing is ambiguous: two modules of one language
    with different organizations and module names, in plain ASCII, have the
    same key, because the separator and the checksum of a field can be
    written inside a field. *)
Theorem keyForModule_collides :
  exists m1 m2 : Module_,
    Module_Organization m1 <> Module_Organization m2 /\ Module_Module m1 <> Module_Module m2 /\
    keyForModule m1 = keyForModule m2.
Proof.
  exists (mkModule "go" "hlzv" "rmqdqxfbhp``pp---ou.ixuen" ""),
         (mkModule "go" "hlzv---tszjrmqdqxfbhp``pp" "xuen" "").
  split; [done|]. split; [done|]. unfold keyForModule, key. f_equal; vm_compute; reflexivity.
Qed.

(** The index key of an item stands for its primary key: items of the four
    types share a readable key exactly when type and keys agree. *)
Theorem readableKey_injective (i1 i2 : GraphItem) :
  GraphItemType i1 ∈ [SourceType; ManagesType; ModuleType; DependsType] ->
  GraphItemType i2 ∈ [SourceType; ManagesType; ModuleType; DependsType] ->
  readableKey i1 = readableKey i2 <-> item_key i1 = item_key i2.
Proof.
  assert (forall t, t ∈ [SourceType; ManagesType; ModuleType; DependsType] -> no_dash (to_bytes t)) as Hd.
  { intros t. rewrite !elem_of_cons, elem_of_nil. intros [->|[->|[->|[->|[]]]]]; repeat constructor; done. }
  intros H1 H2. apply readableKey_inj; auto.
Qed.

Definition demo_edge (k3 : bytes) : GraphItem :=
  mkGraphItem DependsType [Byte.x01] [Byte.x02; Byte.xff] k3 GraphItemEncoding_JSON [].

Lemma readableKey_injective_witness :
  readableKey (demo_edge []) = readableKey (demo_edge [Byte.x00]) <->
  item_key (demo_edge []) = item_key (demo_edge [Byte.x00]).
Proof. apply readableKey_injective; simpl; right; right; right; left. Defined.

(** [Encode] of a message whose strings are valid UTF-8 yields a JSON item
    of its type with the message's keys, and [Decode] gives the message back
    with no error. *)
Theorem Encode_Decode `{JsonCodec, !JsonCodecOk} (m : schema_msg) :
  Forall valid_text (msg_strings m) ->
  exists i, Encode (IVal m) = Ret i /\ Decode i = (Some m, None) /\
    item_key i = match m with
                 | VSource s => (SourceType, keyForSource (Some s), keyForSource (Some s), [])
                 | VModule x => (ModuleType, keyForModule x, keyForModule x, [])
                 | VManages _ => (ManagesType, [], [], [])
                 | VDepends _ => (DependsType, [], [], [])
                 end.
Proof.
  intros Hv. unfold Encode. destruct (json_marshal_total m) as [data Hd].
  pose proof (json_roundtrip m data Hv Hd) as Hrt.
  destruct m; simpl in Hrt |- *; rewrite Hd; eexists; split_and!; try done;
    unfold Decode; simpl; by rewrite Hrt.
Qed.

#[local] Existing Instance json_codec.
#[local] Existing Instance json_codec_ok.

Lemma Encode_Decode_witness :
  exists i, Encode (IVal (VDepends (mkDepends "go" "v1" ["a"; "b"]%string "main"))) = Ret i /\
    Decode i = (Some (VDepends (mkDepends "go" "v1" ["a"; "b"]%string "main")), None) /\
    item_key i = (DependsType, [], [], []).
Proof. apply (Encode_Decode (VDepends (mkDepends "go" "v1" ["a"; "b"]%string "main"))). repeat constructor. Defined.

(** Decoding never panics, but what it answers with its error dropped does:
    an item of an unknown type or of another encoding has no message, and the
    type assertion of every service panics on it. *)
Theorem Decode_unreadable `{JsonCodec} (i : GraphItem) :
  GraphItemType i ∉ [SourceType; ManagesType; ModuleType; DependsType] \/
  Encoding i <> GraphItemEncoding_JSON ->
  (exists e, Decode i = (None, Some e)) /\
  (exists why, as_source i = Panic why) /\ (exists why, as_manages i = Panic why) /\
  (exists why, as_module i = Panic why) /\ (exists why, as_depends i = Panic why).
Proof.
  intros Hbad. assert (exists e, Decode i = (None, Some e)) as [e He].
  { unfold Decode. destruct (kind_of_type (GraphItemType i)) as [k|] eqn:Hk; [|eauto].
    destruct Hbad as [Hbad|Hbad]; [|rewrite decide_False by done; eauto].
    exfalso. apply Hbad. unfold kind_of_type in Hk. rewrite !elem_of_cons.
    repeat case_decide; tauto || done. }
  unfold as_source, as_manages, as_module, as_depends. rewrite He. eauto 10.
Qed.

Lemma Decode_unreadable_witness :
  let i := mkGraphItem "gitter" [] [] [] GraphItemEncoding_JSON [] in
  (exists e, Decode i = (None, Some e)) /\
  (exists why, as_source i = Panic why) /\ (exists why, as_manages i = Panic why) /\
  (exists why, as_module i = Panic why) /\ (exists why, as_depends i = Panic why).
Proof.
  apply (Decode_unreadable (mkGraphItem "gitter" [] [] [] GraphItemEncoding_JSON [])). left.
  rewrite !elem_of_cons, elem_of_nil. intros [?|[?|[?|[?|[]]]]]; discriminate.
Defined.

(** C38. With [encoding/json] itself: a message of valid UTF-8 is stored as an
    object of the fields that are not empty, and [Decode] gives it back. *)
Theorem Encode_Decode_json `{SchemaTags} (m : schema_msg) :
  Forall valid_string (msg_strings m) ->
  exists i, @Encode go_json (IVal m) = Ret i /\ @Decode go_json i = (Some m, None) /\
    parse_json (GraphItemData i) =
      Some (JObject (map member_json (written (zip (tags (kind_of m)) (msg_fields m))))).
Proof.
  intros Hv. unfold Encode, Decode. destruct (encode_keys (IVal m)) as [[ty k]|] eqn:Hk; [|by destruct m].
  cbn [json_marshal go_json Marshal]. eexists. split; [reflexivity|]. cbn [GraphItemType Encoding GraphItemData]. split.
  - assert (kind_of_type ty = Some (kind_of m)) as -> by (destruct m; by injection Hk as <- _).
    rewrite decide_True by done. cbn [json_unmarshal go_json]. by rewrite Marshal_Unmarshal.
  - apply parse_object, Forall_forall. intros x [Hin _]%elem_of_written. revert x Hin.
    apply Forall_forall, valid_members; [apply tags_valid|by apply msg_fields_valid].
Qed.

Lemma Encode_Decode_json_witness :
  let m := VDepends (mkDepends "go" "<v2 & é" ["a"; ""]%string "") in
  exists i, @Encode (@go_json proto_schema_tags) (IVal m) = Ret i /\
    @Decode (@go_json proto_schema_tags) i = (Some m, None).
Proof.
  destruct (@Encode_Decode_json proto_schema_tags (VDepends (mkDepends "go" "<v2 & é" ["a"; ""]%string "")))
    as (i & Hi & Hd & _); [repeat constructor|]. by exists i.
Defined.

(** An item whose data is not JSON, or is JSON but not an object, is decoded
    with an error as the empty message; the services drop the error. *)
Theorem Decode_damaged `{SchemaTags} (i : GraphItem) (k : schema_kind) :
  kind_of_type (GraphItemType i) = Some k -> Encoding i = GraphItemEncoding_JSON ->
  parse_json (GraphItemData i) = None \/
    (exists v, parse_json (GraphItemData i) = Some v /\ v <> JNull /\ forall ms, v <> JObject ms) ->
  exists e, @Decode go_json i = (Some (zero_msg k), Some e).
Proof.
  intros Hk He Hbad. unfold Decode. rewrite Hk, decide_True by done. cbn [json_unmarshal go_json].
  assert (read_struct (tags k) (msg_fields (zero_msg k)) (GraphItemData i) = (msg_fields (zero_msg k), false)) as Hr.
  { unfold read_struct. destruct Hbad as [->|(v & -> & Hn & Ho)]; [done|].
    destruct v; try done; by destruct (Ho l). }
  unfold Unmarshal. rewrite Hr. exists (ErrBackend 3). by destruct k.
Qed.

Lemma Decode_damaged_witness :
  exists e, @Decode (@go_json proto_schema_tags)
    (mkGraphItem ModuleType [] [] [] GraphItemEncoding_JSON (to_bytes "{oops")) = (Some (zero_msg KModule), Some e).
Proof. apply Decode_damaged; [reflexivity|reflexivity|left; reflexivity]. Defined.
