(* ===== verification/TrackThms.v ===== *)
(** * What tracking a source guarantees

    The theorems about [Track], over any graph store that meets its contract,
    and their instances on a concrete SQLite store. *)

From S2P Require Import Prelude GoCodec GoHash Api GraphSpec Sql StoreAlpha StoreAlphaSpec.
From S2P Require Import KeysAlpha TrackAlpha TrackAlphaProofs Instances TrackInvariant Demo.

Section Theorems.
Context `{JsonCodec, !JsonCodecOk} {W : Type} `{GraphStoreSpec W} `{MapRange}.

(** C1. A call of [Track] that returns has changed the graph as [tracked]
  says: every declared item is live with its data, every edge the source
  owned and no longer declares is gone, and no other key has changed. *)
Theorem Track_correct (req : SourceRequest) (w : W) (v : astore) (w' : W) (b : bool) :
rep w v -> Track req w = (Ret b, w') ->
b = true /\ exists v', rep w' v' /\ tracked req v v'.
Proof.
intros Hr Hrun. split; [|by eapply Track_run].
unfold Track, on_error, bind, ret in Hrun. case_all; congruence.
Qed.

(** C28. On a store whose calls succeed, [Track] returns, whatever the graph
  holds, unless the request has dependencies but no source. *)
Theorem Track_returns `{!GraphStoreTotal W} (req : SourceRequest) (w : W) (v : astore) :
rep w v -> safe_request req ->
exists w' v', Track req w = (Ret true, w') /\ rep w' v' /\ tracked req v v'.
Proof.
intros Hr Hs. destruct (Track_total req w v Hr Hs) as [w' Hrun].
destruct (Track_run _ _ _ _ _ Hr Hrun) as (_ & v' & Hr' & Ht). eauto.
Qed.

(** A request with dependencies and no source panics before anything is
  written. *)
Theorem Track_nil_source `{!GraphStoreTotal W} (req : SourceRequest) (w : W) (v : astore) :
rep w v -> ~ safe_request req ->
exists why w', Track req w = (Panic why, w') /\ rep w' v.
Proof.
intros Hr Hs. destruct (getCurrent_total (SR_Source req) w v Hr) as (cur & w1 & Hcur).
destruct (getCurrent_spec _ _ _ _ _ Hr Hcur) as (Hr1 & _).
destruct (getProposed_panic req Hs) as [why Hp]. exists why, w1.
unfold Track, on_error, bind, lift, ret. by rewrite Hcur, Hp.
Qed.

(** C4. [Track] keeps the graph well linked: an edge never points at a module
  that is not there, and a depends edge never outlives the manages edge
  of the source that put it. *)
Theorem Track_keeps_linked (req : SourceRequest) (w : W) (v : astore) (w' : W) (b : bool) :
rep w v -> well_linked v -> no_collision req -> Track req w = (Ret b, w') ->
exists v', rep w' v' /\ well_linked v'.
Proof.
intros Hr Hwl Hnc Hrun. destruct (Track_run _ _ _ _ _ Hr Hrun) as (_ & v' & Hr' & Ht).
exists v'. split; [done|]. by eapply tracked_linked.
Qed.

(** C2. After [Track], the edges of the source are those its manifests
  declare, none more and none less. *)
Theorem Track_exact (req : SourceRequest) (w : W) (v : astore) (w' : W) (b : bool) :
rep w v -> well_linked v -> no_collision req -> Track req w = (Ret b, w') ->
let sk := keyForSource (SR_Source req) in
exists v', rep w' v' /\
  (forall m (k3 : bytes), manages_edge v' sk m k3 <-> sk <> m /\ k3 = [] /\ declares_manages req sk m) /\
  (forall m n, depends_edge v' m n sk <-> m <> n /\ declares_depends req m n sk).
Proof.
intros Hr Hwl Hnc Hrun. destruct (Track_run _ _ _ _ _ Hr Hrun) as (_ & v' & Hr' & Ht).
exists v'. split_and!; [done| |].
- intros m k3. by apply (tracked_manages _ _ _ Ht).
- intros m n. by apply (tracked_depends _ _ _ Ht).
Qed.

(** Tracking a source again with the same manifests leaves the graph as
  the first time left it. *)
Theorem Track_idempotent (req : SourceRequest) (w1 w2 w3 : W) (v1 : astore) (b2 b3 : bool) :
rep w1 v1 -> well_linked v1 -> no_collision req ->
Track req w1 = (Ret b2, w2) -> Track req w2 = (Ret b3, w3) ->
exists v2, rep w2 v2 /\ rep w3 v2 /\ tracked req v1 v2.
Proof.
intros Hr Hwl Hnc Hrun1 Hrun2. destruct (Track_run _ _ _ _ _ Hr Hrun1) as (_ & v2 & Hr2 & Ht1).
destruct (Track_run _ _ _ _ _ Hr2 Hrun2) as (_ & v3 & Hr3 & Ht2).
rewrite (tracked_again _ _ _ _ Hnc Hwl Ht1 Ht2) in Hr3. eauto.
Qed.
End Theorems.

(** C37. Any error of the store while the graph is read becomes
    [ErrModuleNotFound], while edges are deleted [ErrPartialDeletion], and
    then nothing is put; while items are put [ErrPartialInsertion].  [Track]
    fails with no other error. *)
Theorem Track_errors `{JsonCodec, !JsonCodecOk} {W} `{GraphStoreOps W} `{MapRange}
    (req : SourceRequest) (w w' : W) (e : error) :
  Track req w = (Fail e, w') ->
  (e = ErrModuleNotFound /\ exists e0, getCurrent (SR_Source req) w = (Fail e0, w')) \/
  exists cur w1 prop, getCurrent (SR_Source req) w = (Ret cur, w1) /\ getProposed req = Ret prop /\
    ((e = ErrPartialDeletion /\ exists e0, gs_Delete (to_delete cur prop) w1 = (Fail e0, w')) \/
     (e = ErrPartialInsertion /\ exists w2 e0, gs_Delete (to_delete cur prop) w1 = (Ret tt, w2) /\
        gs_Put (to_put prop) w2 = (Fail e0, w'))).
Proof.
  unfold Track, on_error, bind, lift, ret.
  destruct (getCurrent (SR_Source req) w) as [[cur|e1|] w1] eqn:Hcur; intros Hrun; simplify_eq; [|eauto].
  right. destruct (decide (has_dependencies req = false \/ is_Some (SR_Source req))) as [Hs|Hs]; cycle 1.
  { destruct (getProposed_panic req) as [why Hp]; [unfold safe_request; tauto|by rewrite Hp in Hrun]. }
  rewrite (getProposed_spec req) in Hrun |- * by (unfold safe_request; tauto).
  exists cur, w1, (add_all (proposed_items req) ∅). split_and!; [done|done|].
  destruct (gs_Delete _ w1) as [[[]|e1|] w2] eqn:Hd; simplify_eq; [|by left; eauto].
  destruct (gs_Put _ w2) as [[[]|e2|] w3] eqn:Hp; simplify_eq. right. split; [done|].
  exists w2, e2. done.
Qed.

(** ** On a SQLite store *)

#[local] Existing Instance quiet_engine.
#[local] Existing Instance quiet_no_faults.
#[local] Existing Instance map_order.
#[local] Existing Instance json_codec.
#[local] Existing Instance json_codec_ok.
#[local] Existing Instance demo_ops.
#[local] Existing Instance demo_spec.
#[local] Existing Instance demo_total.

Lemma Track_correct_witness :
  true = true /\ exists v', rep world1 v' /\ tracked demo_request ∅ v'.
Proof. exact (Track_correct demo_request empty_world ∅ world1 true empty_world_rep run_world1). Defined.

Lemma Track_returns_witness :
  exists w' v', Track demo_request empty_world = (Ret true, w') /\ rep w' v' /\
                tracked demo_request ∅ v'.
Proof. exact (Track_returns demo_request empty_world ∅ empty_world_rep demo_safe). Defined.

Lemma Track_nil_source_witness :
  exists why w', Track demo_orphan empty_world = (Panic why, w') /\ rep w' ∅.
Proof. exact (Track_nil_source demo_orphan empty_world ∅ empty_world_rep demo_orphan_unsafe). Defined.

Lemma Track_keeps_linked_witness : exists v', rep world1 v' /\ well_linked v'.
Proof.
  exact (Track_keeps_linked demo_request empty_world ∅ world1 true empty_world_rep
           well_linked_empty demo_no_collision run_world1).
Defined.

Lemma Track_exact_witness :
  let sk := keyForSource (SR_Source demo_request) in
  exists v', rep world1 v' /\
    (forall m (k3 : bytes), manages_edge v' sk m k3 <->
       sk <> m /\ k3 = [] /\ declares_manages demo_request sk m) /\
    (forall m n, depends_edge v' m n sk <-> m <> n /\ declares_depends demo_request m n sk).
Proof.
  exact (Track_exact demo_request empty_world ∅ world1 true empty_world_rep
           well_linked_empty demo_no_collision run_world1).
Defined.

Lemma Track_idempotent_witness :
  exists v2, rep world1 v2 /\ rep world2 v2 /\ tracked demo_request ∅ v2.
Proof.
  exact (Track_idempotent demo_request empty_world world1 world2 ∅ true true empty_world_rep
           well_linked_empty demo_no_collision run_world1 run_world2).
Defined.

(** A store whose database has no table fails every call. *)
Lemma Track_errors_witness :
  let w := mkWorld ∅ 0 in
  exists w' : World table, Track demo_request w = (Fail ErrModuleNotFound, w') /\
  ((ErrModuleNotFound = ErrModuleNotFound /\
    exists e0, getCurrent (SR_Source demo_request) w = (Fail e0, w')) \/
   exists cur w1 prop, getCurrent (SR_Source demo_request) w = (Ret cur, w1) /\
    getProposed demo_request = Ret prop /\
    ((ErrModuleNotFound = ErrPartialDeletion /\
      exists e0, gs_Delete (to_delete cur prop) w1 = (Fail e0, w')) \/
     (ErrModuleNotFound = ErrPartialInsertion /\
      exists w2 e0, gs_Delete (to_delete cur prop) w1 = (Ret tt, w2) /\
        gs_Put (to_put prop) w2 = (Fail e0, w')))).
Proof.
  set (w := mkWorld ∅ 0). exists (Track demo_request w).2.
  assert (Track demo_request w = (Fail ErrModuleNotFound, (Track demo_request w).2)) as Hrun.
  { assert ((Track demo_request w).1 = Fail ErrModuleNotFound) as <- by (vm_compute; reflexivity).
    apply surjective_pairing. }
  split; [exact Hrun|]. exact (Track_errors demo_request w _ ErrModuleNotFound Hrun).
Defined.
