(* ===== verification/ConcurrentThms.v ===== *)
(** * What tracking sources at the same time guarantees

    However the calls of several [Track]s interleave, the graph they leave is
    one that tracking the sources one after the other leaves, and they end. *)

From S2P Require Import Prelude GoCodec GoHash Api GraphSpec Sql StoreAlpha StoreAlphaSpec.
From S2P Require Import KeysAlpha TrackAlpha Concurrent TrackAlphaProofs Instances TrackInvariant ConcurrentTrack ConcurrentFailures Demo.

Section Theorems.
Context `{JsonCodec, !JsonCodecOk} `{MapRange} {W : Type} `{GraphStoreSpec W}.
Context (reqs : list SourceRequest) (v0 : astore) (Hok : compatible reqs) (Hlinked : well_linked v0).

Notation handlers := (map track_handler reqs).

(** ** Results of a run *)

Lemma returned_finished s sts order v vs :
length (histories s) = length reqs -> going reqs v0 s sts order v vs -> all_returned handlers s (Ret true) ->
forall i, i < length reqs -> exists ps dss, sts !! i = Some (Finished ps dss).
Proof.
intros Hlen (_ & Hcon & Hall) Hret i Hi.
destruct (lookup_lt_is_Some_2 reqs i Hi) as [req Hreq].
destruct (lookup_lt_is_Some_2 (histories s) i ltac:(lia)) as [h Hh].
destruct (lookup_lt_is_Some_2 sts i) as [st Hst]; [by rewrite (con_length _ _ _ _ _ _ Hcon)|].
assert (next_call (track_handler req) h = inr (Ret true)) as Hn.
{ apply (Hret i); [by rewrite list_lookup_fmap, Hreq|done]. }
pose proof (stands_next _ _ _ (compatible_safe _ Hok _ _ Hreq) (Hall _ _ _ _ Hreq Hh Hst)) as Hnext.
destruct (stage_call req st); [congruence|]. destruct Hnext as (o & Ho & Hfin).
rewrite Hn in Ho. simplify_eq. destruct (proj1 Hfin eq_refl) as (ps & dss & ->). eauto.
Qed.

Lemma returned_not_failed (s : served W) sts :
all_stand reqs sts (histories s) -> length (histories s) = length reqs -> length sts = length reqs ->
all_returned handlers s (Ret true) -> Failed ∉ sts.
Proof.
intros Hall Hlen Hsts Hret (i & Hi)%list_elem_of_lookup.
destruct (lookup_lt_is_Some_2 reqs i) as [req Hreq]; [rewrite <- Hsts; by eapply lookup_lt_Some|].
destruct (lookup_lt_is_Some_2 (histories s) i) as [h Hh]; [rewrite Hlen; by eapply lookup_lt_Some|].
destruct (Hall _ _ _ _ Hreq Hh Hi) as (o & Ho & Hne). apply Hne.
specialize (Hret i (track_handler req) h). rewrite list_lookup_fmap, Hreq, Ho in Hret.
by specialize (Hret eq_refl Hh) as [= ->].
Qed.

Lemma serial_snoc order req v1 v3 :
serial (order ++ [req]) v1 v3 -> exists v2, serial order v1 v2 /\ tracked req v2 v3.
Proof.
intros Hs. inversion Hs as [? Hn|order' req' ? v2 ? Hs' Ht Heq]; [by destruct order|].
apply app_inj_tail in Heq as [-> ->]. eauto.
Qed.

(** After a serial execution each source has the edges it declares. *)
Lemma serial_exact order vs i req k :
NoDup order -> serial (in_order reqs order) v0 vs -> i ∈ order -> reqs !! i = Some req ->
own (keyForSource (SR_Source req)) k -> is_Some (vs !! k) <-> declared req k.
Proof.
intros Hnd Hser Hi Hreq Hk. revert vs Hnd Hser Hi. induction order as [|j order IH] using rev_ind; [by intros ? ? ? ?%elem_of_nil|].
intros vs (Hnd & Hdis & _)%NoDup_app Hser [Hi|Hi]%elem_of_app.
- destruct (reqs !! j) as [req'|] eqn:Hreq'; cycle 1.
  { assert (in_order reqs (order ++ [j]) = in_order reqs order) as Heq.
    { unfold in_order. rewrite omap_app. simpl. by rewrite Hreq', app_nil_r. }
    rewrite Heq in Hser. by apply IH. }
  rewrite (in_order_snoc _ _ _ _ Hreq') in Hser. apply serial_snoc in Hser as (v2 & Hser & Ht).
  rewrite <- (IH v2) by done. f_equiv.
  eapply tracked_apart; [|eapply (compatible_apart _ Hok i j); [done..|]|exact Ht|done].
  + eapply serial_linked; [|exact Hlinked|exact Hser]. by apply con_no_collision.
  + intros ->. apply (Hdis j Hi). by left.
- apply list_elem_of_singleton in Hi as ->. rewrite (in_order_snoc _ _ _ _ Hreq) in Hser.
  apply serial_snoc in Hser as (v2 & Hser & Ht).
  assert (well_linked v2) as Hwl.
  { eapply serial_linked; [|exact Hlinked|exact Hser]. by apply con_no_collision. }
  rewrite (proj1 (tracked_lookup _ _ _ Hwl) Ht). unfold declared. split.
  + intros [x Hx]. destruct (last_item k _) as [it|] eqn:Hl; [|by rewrite decide_True in Hx].
    apply last_item_Some in Hl as [Hin <-]. apply list_elem_of_fmap. eauto.
  + intros [it ->]%last_item_is_Some. by eexists.
Qed.

(** What a run of which every call answers true leaves. *)
Lemma serializable (w : W) (s : served W) :
rep w v0 -> rtc (serve_step handlers) (serve_start handlers w) s -> all_returned handlers s (Ret true) ->
exists order v, order ≡ₚ reqs /\ rep (store_world s) v /\ serial order v0 v /\ well_linked v /\
  forall req k, req ∈ reqs -> own (keyForSource (SR_Source req)) k -> is_Some (v !! k) <-> declared req k.
Proof.
intros Hr Hs Hret. destruct (system_reachable _ _ Hok Hlinked _ _ Hr Hs) as (sts & Hlen & Hsts & Hstand & Hgo).
destruct (Hgo (returned_not_failed _ _ Hstand Hlen Hsts Hret)) as (order & v & vs & Hgoing).
pose proof Hgoing as (Hr' & Hcon & _).
pose proof (returned_finished _ _ _ _ _ Hlen Hgoing Hret) as Hfin.
assert (v = vs) as ->.
{ apply map_eq. intros k. rewrite (con_store _ _ _ _ _ _ Hcon), decide_False; [done|].
  intros (i & req & ps & dss & Hst & Hreq & _)%deleting_spec.
  destruct (Hfin i) as (? & ? & Hst'); [by eapply lookup_lt_Some|]. congruence. }
assert (forall i, i ∈ order <-> i < length reqs) as Hall.
{ intros i. rewrite (con_order _ _ _ _ _ _ Hcon). split; [|apply Hfin].
  intros (ps & dss & Hst%lookup_lt_Some). by rewrite (con_length _ _ _ _ _ _ Hcon) in Hst. }
pose proof (con_distinct _ _ _ _ _ _ Hcon) as Hnd. pose proof (con_serial _ _ _ _ _ _ Hcon) as Hser.
exists (in_order reqs order), vs. split_and!; [by apply in_order_all|done|done|by eapply con_vs_linked|].
intros req k (i & Hreq)%list_elem_of_lookup Hk. apply (serial_exact order vs i); [done|done| |done|done].
apply Hall. by eapply lookup_lt_Some.
Qed.

(** C5. Tracking different sources at the same time is serializable, if none of
  the requests reports another's source as the origin of a module: if every
  call answers true, then whatever the interleaving of their reads and
  writes the graph is the one left by tracking the sources one after the
  other in some order, it is well linked, and every source has exactly the
  edges it declares. *)
Theorem concurrent_Track_serializable (w : W) (s : served W) :
rep w v0 -> rtc (serve_step handlers) (serve_start handlers w) s -> all_returned handlers s (Ret true) ->
exists order v, order ≡ₚ reqs /\ rep (store_world s) v /\ serial order v0 v /\ well_linked v /\
  forall req k, req ∈ reqs -> own (keyForSource (SR_Source req)) k -> is_Some (v !! k) <-> declared req k.
Proof. apply serializable. Qed.

(** ** A store whose calls succeed *)

Context `{!GraphStoreTotal W}.

(** No request fails. *)
Lemma going_progress s sts order v vs i req st c o w' :
going reqs v0 s sts order v vs -> reqs !! i = Some req -> sts !! i = Some st ->
stage_call req st = Some c -> perform c (store_world s) = (o, w') -> stage_after st o <> Failed.
Proof.
intros (Hr & _ & _) Hreq Hi Hc Hrun.
destruct st as [|ps dss|ps dss|ps dss|]; simplify_eq/=; unfold bind, ret in Hrun.
- destruct (find_up_total _ _ (manages_request req) Hr) as (ps & w1 & Hf); [done..|].
  rewrite Hf in Hrun. by simplify_eq/=.
- destruct (ps !! length dss) as [p|] eqn:Hp; simpl in Hrun; unfold bind, ret in Hrun.
  + destruct (find_up_total _ _ (depends_request p) Hr) as (ds & w1 & Hf); [done..|].
    rewrite Hf in Hrun. simplify_eq/=. apply lookup_lt_Some in Hp. by rewrite decide_True.
  + destruct (delete_total _ _ (deleted_items req ps dss) Hr) as [w1 Hf].
    rewrite Hf in Hrun. simplify_eq/=. apply lookup_ge_None in Hp. rewrite decide_False; [done|lia].
- destruct (put_total _ _ (put_items req) Hr) as [w1 Hf]. rewrite Hf in Hrun. by simplify_eq/=.
Qed.

Definition total_inv (s : served W) : Prop := exists sts, system_inv reqs v0 s sts /\ Failed ∉ sts.

Lemma total_step s s' : serve_step handlers s s' -> total_inv s -> total_inv s'.
Proof.
intros [i Hstep] (sts & Hinv & Hno). pose proof Hinv as (_ & _ & _ & Hgo).
destruct (Hgo Hno) as (order & v & vs & Hgoing).
destruct (system_step _ _ Hok Hlinked _ _ _ _ Hstep Hinv) as (req & st & c & o & Hreq & Hi & Hc & Hrun & Hinv').
exists (<[i := stage_after st o]> sts). split; [done|]. intros [j Hj]%list_elem_of_lookup.
apply list_lookup_insert_Some in Hj as [(_ & Hf & _)|[_ Hj]].
- by eapply going_progress.
- apply Hno, list_elem_of_lookup. eauto.
Qed.

Lemma total_reachable w s : rep w v0 -> rtc (serve_step handlers) (serve_start handlers w) s -> total_inv s.
Proof.
intros Hr. apply (rtc_preserve total_inv); [intros ? ?; apply total_step|].
eexists. split; [by apply system_start|].
intros (i & Hi)%list_elem_of_lookup. rewrite list_lookup_fmap in Hi. by destruct (reqs !! i).
Qed.

(** A call that has no call to make has answered true. *)
Lemma no_call_returned (w : W) (s : served W) i req h o :
rep w v0 -> rtc (serve_step handlers) (serve_start handlers w) s ->
reqs !! i = Some req -> histories s !! i = Some h -> next_call (track_handler req) h = inr o -> o = Ret true.
Proof.
intros Hr Hs Hreq Hh Ho. destruct (total_reachable w s Hr Hs) as (sts & (Hlen & Hsts & Hall & _) & Hno).
destruct (lookup_lt_is_Some_2 sts i) as [st Hi]; [rewrite Hsts; by eapply lookup_lt_Some|].
pose proof (stands_next _ _ _ (compatible_safe _ Hok _ _ Hreq) (Hall _ _ _ _ Hreq Hh Hi)) as Hnext.
destruct (stage_call req st) as [c|] eqn:Hc; [congruence|].
destruct Hnext as (o' & Ho' & Hfin). assert (o' = o) as -> by congruence. apply Hfin.
destruct st as [|ps dss|ps dss|ps dss|]; try done; [eauto|].
exfalso. apply Hno, list_elem_of_lookup. eauto.
Qed.

Lemma stuck_returned (w : W) (s : served W) :
rep w v0 -> rtc (serve_step handlers) (serve_start handlers w) s -> nf (serve_step handlers) s ->
all_returned handlers s (Ret true).
Proof.
intros Hr Hs Hnf i handler h Hhandler Hh.
pose proof Hhandler as Hlook. rewrite list_lookup_fmap in Hhandler. destruct (reqs !! i) as [req|] eqn:Hreq; simplify_eq/=.
destruct (next_call (track_handler req) h) as [c|o] eqn:Hn.
- exfalso. apply Hnf. destruct s as [w1 hs], (perform c w1) as [o w2] eqn:Hrun.
  eexists _, i. by eapply serve_call.
- f_equal. by eapply no_call_returned.
Qed.

(** On a store whose calls succeed, no run of several [Track]s goes on for
  ever, and one that cannot go on is one in which every call has answered
  true. *)
Theorem concurrent_Track_returns (w : W) :
rep w v0 ->
sn (serve_step handlers) (serve_start handlers w) /\
forall s, rtc (serve_step handlers) (serve_start handlers w) s -> nf (serve_step handlers) s ->
  all_returned handlers s (Ret true).
Proof. intros Hr. split; [apply Tracks_end, (compatible_safe _ Hok)|]. intros s. by apply stuck_returned. Qed.

(** So some run returns. *)
Lemma concurrent_Track_run (w : W) : rep w v0 ->
exists s, rtc (serve_step handlers) (serve_start handlers w) s /\ nf (serve_step handlers) s.
Proof.
intros Hr. apply sn_wn, Tracks_end, (compatible_safe _ Hok).
Qed.
End Theorems.

(** C14. Whatever fails: any number of [Track]s, of any sources, end in every
  interleaving, and at every moment a key of the graph holds what it held at
  the start, or what one of the requests declares, or nothing; and nothing
  only if it was an edge, of a source being tracked or of none, that this
  request does not declare.  So no module is lost and no edge of another
  source is touched. *)
Theorem concurrent_Track_confined `{JsonCodec, !JsonCodecOk} `{MapRange} {W : Type} `{GraphStorePartial W}
  (reqs : list SourceRequest) (v0 : astore) (w : W) (s : served W) :
let handlers := map track_handler reqs in
(forall req, req ∈ reqs -> safe_request req) -> rep w v0 -> rtc (serve_step handlers) (serve_start handlers w) s ->
sn (serve_step handlers) s /\
exists v, rep (store_world s) v /\ forall k,
  v !! k = v0 !! k \/
  (exists req i, req ∈ reqs /\ i ∈ proposed_items req /\ item_key i = k /\ v !! k = Some (item_val i)) \/
  (v !! k = None /\ exists req, req ∈ reqs /\ may_own (keyForSource (SR_Source req)) k /\ ~ declared req k).
Proof.
intros handlers Hsafe Hr Hs. assert (forall i req, reqs !! i = Some req -> safe_request req) as Hsafe'.
{ intros i req Hi. apply Hsafe, list_elem_of_lookup. eauto. }
split.
- eapply (rtc_preserve (sn (serve_step handlers))); [intros s1 s2 Hstep Hsn; by apply Hsn| |exact Hs].
  by apply Tracks_end.
- destruct (failing_reachable reqs v0 Hsafe' w s Hr Hs) as (sts & v & Hr' & _ & _ & _ & Hv). by exists v.
Qed.

(** ** On a SQLite store *)

#[local] Existing Instance quiet_engine.
#[local] Existing Instance quiet_no_faults.
#[local] Existing Instance map_order.
#[local] Existing Instance json_codec.
#[local] Existing Instance json_codec_ok.
#[local] Existing Instance demo_ops.
#[local] Existing Instance demo_spec.
#[local] Existing Instance demo_total.

(** A repository whose module depends on the one of [demo_request]. *)
Definition other_request : SourceRequest :=
  mkSourceRequest (Some (mkSource "git@c" "repository" "main"))
    [mkManagementFile "go" "vgo" "org" "app" "" "1" "" [mkDependency "org" "mod" "" "v1" []]].

Definition demo_pair : list SourceRequest := [demo_request; other_request].

(** Distinct keys are compared by evaluating their first bytes. *)
Ltac keys_differ :=
  let Heq := fresh in intros Heq%(f_equal (fun l : bytes => nth 0 l Byte.x00)); vm_compute in Heq; discriminate Heq.

Lemma demo_sources_differ : keyForSource (SR_Source demo_request) <> keyForSource (SR_Source other_request).
Proof. keys_differ. Qed.

Lemma demo_discovered_differs :
  keyForSource (discovered (mkManagementFile "go" "vgo" "org" "mod" "" "1" "git@b"
    [mkDependency "org" "dep" "" "v1" ["direct"%string]])) <> keyForSource (SR_Source other_request).
Proof. keys_differ. Qed.

Lemma demo_apart : apart demo_request other_request.
Proof.
  split; [exact demo_sources_differ|]. intros mf Hmf Hu. exfalso.
  apply list_elem_of_singleton in Hmf. apply Hu. by rewrite Hmf.
Qed.

Lemma other_apart : apart other_request demo_request.
Proof.
  split; [exact (not_eq_sym demo_sources_differ)|]. intros mf Hmf Hu.
  apply list_elem_of_singleton in Hmf. rewrite Hmf. exact demo_discovered_differs.
Qed.

Lemma other_no_collision : no_collision other_request.
Proof. repeat constructor. keys_differ. Qed.

Lemma demo_compatible : compatible demo_pair.
Proof.
  split.
  - intros [|[|i]] req Hreq; [..|discriminate Hreq]; injection Hreq as <-; left; by eexists.
  - intros [|[|i]] req Hreq; [..|discriminate Hreq]; injection Hreq as <-;
      [exact demo_no_collision|exact other_no_collision].
  - intros [|[|i]] [|[|j]] req1 req2 Hi Hj Hne; try discriminate Hi; try discriminate Hj;
      injection Hi as <-; injection Hj as <-; try (by exfalso; apply Hne);
      [exact demo_apart|exact other_apart].
Qed.

Lemma concurrent_Track_returns_witness : exists s : served (World table),
  rtc (serve_step (map track_handler demo_pair)) (serve_start (map track_handler demo_pair) empty_world) s /\
  all_returned (map track_handler demo_pair) s (Ret true).
Proof.
  assert (rep empty_world ∅) as Hr by exact empty_world_rep.
  destruct (concurrent_Track_returns demo_pair ∅ demo_compatible well_linked_empty empty_world Hr)
    as [_ Hret].
  destruct (concurrent_Track_run demo_pair ∅ demo_compatible empty_world Hr)
    as (s & Hs & Hnf).
  exists s. split; [done|]. by apply Hret.
Defined.

Lemma concurrent_Track_serializable_witness : exists (s : served (World table)) order v,
  all_returned (map track_handler demo_pair) s (Ret true) /\ order ≡ₚ demo_pair /\
  rep (store_world s) v /\ serial order ∅ v /\ well_linked v /\
  forall req k, req ∈ demo_pair -> own (keyForSource (SR_Source req)) k -> is_Some (v !! k) <-> declared req k.
Proof.
  assert (rep empty_world ∅) as Hr by exact empty_world_rep.
  destruct (concurrent_Track_run demo_pair ∅ demo_compatible empty_world Hr)
    as (s & Hs & Hnf).
  assert (all_returned (map track_handler demo_pair) s (Ret true)) as Hret by
    exact (stuck_returned demo_pair ∅ demo_compatible well_linked_empty empty_world s Hr Hs Hnf).
  destruct (concurrent_Track_serializable demo_pair ∅ demo_compatible well_linked_empty empty_world s
    Hr Hs Hret) as (order & v & Hres).
  by exists s, order, v.
Defined.

(** ** On a store whose writes are cut short *)

(** The second statement of every other transaction fails. *)
Definition stumbling_engine : SqlEngine :=
  plain_engine (fun n => mkFaults None (fun i => if Nat.even n && (i =? 1) then Some (ErrBackend 7) else None)
                           None None (fun _ => None) None).
#[local] Existing Instance stumbling_engine.
Definition stumbling_no_cut : @NoCut stumbling_engine.
Proof. intros n. reflexivity. Defined.
#[local] Existing Instance stumbling_no_cut.

Definition stumbling_ops : GraphStoreOps (World table) := sql_ops (sql_store main_db sqliteStatements).
#[local] Existing Instance stumbling_ops.
Definition stumbling_spec : GraphStoreSpec (World table) := sql_spec main_db sqliteStatements sqlite_standard.
#[local] Existing Instance stumbling_spec.
Definition stumbling_partial : GraphStorePartial (World table) :=
  sql_partial main_db sqliteStatements sqlite_standard.
#[local] Existing Instance stumbling_partial.

(** The same source twice, at the same time. *)
Lemma concurrent_Track_confined_witness :
  let handlers := map track_handler [demo_request; demo_request] in
  exists (s : served (World table)) v, nf (serve_step handlers) s /\ rep (store_world s) v /\
    forall k, v !! k = (∅ : astore) !! k \/
      (exists req i, req ∈ [demo_request; demo_request] /\ i ∈ proposed_items req /\ item_key i = k /\
         v !! k = Some (item_val i)) \/
      (v !! k = None /\ exists req, req ∈ [demo_request; demo_request] /\
         may_own (keyForSource (SR_Source req)) k /\ ~ declared req k).
Proof.
  intros handlers. assert (rep empty_world ∅) as Hr by exact empty_world_rep.
  assert (forall req, req ∈ [demo_request; demo_request] -> safe_request req) as Hsafe.
  { intros req [<-|[<-|[]]]%list_elem_of_In; exact demo_safe. }
  destruct (concurrent_Track_confined [demo_request; demo_request] ∅ empty_world
    (serve_start handlers empty_world) Hsafe Hr (rtc_refl _ _)) as [Hsn _].
  destruct (sn_wn _ Hsn) as (s & Hs & Hnf).
  destruct (concurrent_Track_confined [demo_request; demo_request] ∅ empty_world s Hsafe Hr Hs) as [_ (v & Hv & Hk)].
  by exists s, v.
Defined.
