(* ===== verification/QueryThms.v ===== *)
(** * What the queries guarantee

    The theorems about the query services, and about querying a graph that
    [Track] has written. *)

From S2P Require Import Prelude GoCodec GoHash Api GraphSpec Sql StoreAlpha StoreAlphaSpec.
From S2P Require Import KeysAlpha QueryAlpha TrackAlpha TrackAlphaProofs Instances TrackInvariant.
From S2P Require Import QuerySpec Demo.

Section Theorems.
Context `{JsonCodec, !JsonCodecOk} {W : Type} `{GraphStoreTotal W} `{MapRange}.

(** C31. On a graph whose items decode, [ListDependencies] answers the modules
  at the other end of the live depends edges out of the module of the
  request, and [ListDependents] those of the edges into it; neither
  changes the graph. *)
Theorem dependency_queries (w : W) (v : astore) (req : DependencyRequest) :
rep w v -> decodable v ->
(exists l w', ListDependencies req w = (Ret l, w') /\ rep w' v /\
   forall d, d ∈ l <-> dependency_of v (keyForDependencyRequest req) d) /\
(exists l w', ListDependents req w = (Ret l, w') /\ rep w' v /\
   forall d, d ∈ l <-> dependent_of v (keyForDependencyRequest req) d).
Proof.
intros Hr Hdec. split; [by apply ListDependencies_run|by apply ListDependents_run].
Qed.

(** [ListSources] answers the sources that manage the module,
  [ListManaged] the modules the source manages. *)
Theorem module_queries (w : W) (v : astore) (m : Module_) (s : option Source) :
rep w v -> decodable v ->
(exists l w', ListSources m w = (Ret l, w') /\ rep w' v /\
   forall d, d ∈ l <-> source_of v (keyForModule m) d) /\
(exists l w', ListManaged s w = (Ret l, w') /\ rep w' v /\
   forall d, d ∈ l <-> managed_by v (keyForSource s) d).
Proof. intros Hr Hdec. split; [by apply ListSources_run|by apply ListManaged_run]. Qed.

(** The two dependency queries are each other's converse: a module that
  is in the graph finds itself among the dependents of each of its
  dependencies, with the same edge. *)
Theorem dependencies_converse (w : W) (v : astore) (m : Module_) (name : string)
  (l : list Dependency) (w' : W) (d : Dependency) :
rep w v -> decodable v -> module_at v (keyForModule m) m ->
ListDependencies (mkDependencyRequest (Module_Language m) (Module_Organization m)
                    (Module_Module m) name) w = (Ret l, w') ->
d ∈ l ->
let n := Dependency_Module d in
exists l' w'', ListDependents (mkDependencyRequest (Module_Language n) (Module_Organization n)
                                 (Module_Module n) (Module_Name n)) w' = (Ret l', w'') /\
  mkDep m (Dependency_Depends d) ∈ l'.
Proof.
intros Hr Hdec Hm Hrun Hd n.
destruct (ListDependencies_run w v (mkDependencyRequest (Module_Language m)
  (Module_Organization m) (Module_Module m) name) Hr Hdec) as (l0 & w0 & Hrun0 & Hr0 & Hl0).
rewrite Hrun in Hrun0. simplify_eq. apply Hl0 in Hd as (Hne & Hat & Hdep).
destruct (ListDependents_run w0 v (mkDependencyRequest (Module_Language n)
  (Module_Organization n) (Module_Module n) (Module_Name n)) Hr0 Hdec)
  as (l' & w'' & Hrun' & _ & Hl').
exists l', w''. split; [done|]. by apply Hl'.
Qed.

(** C32. [Track] leaves a graph whose items decode, so that no query panics
  on it. *)
Theorem Track_decodable (req : SourceRequest) (w : W) (v : astore) (w' : W) (b : bool) :
rep w v -> decodable v -> valid_request req -> Track req w = (Ret b, w') ->
exists v', rep w' v' /\ decodable v'.
Proof.
intros Hr Hdec Hv Hrun. destruct (Track_run _ _ _ _ _ Hr Hrun) as (_ & v' & Hr' & Ht).
exists v'. split; [done|]. by eapply tracked_decodable.
Qed.

(** The keys [ListDependencies] answers are the ends of the live edges. *)
Lemma dependency_keys (v : astore) (m n : bytes) : decodable v ->
(exists a, dependency_of v m a /\ keyForModule (Dependency_Module a) = n) <-> exists k3, depends_edge v m n k3.
Proof using Type.
intros Hdec. unfold dependency_of. split.
- intros (a & (Hne & (c & Hc & _) & k3 & ce & He & _) & <-). exists k3. split_and!; [done|by eexists|].
  exists []. by eexists.
- intros (k3 & Hne & [ce He] & n3 & cn & Hn).
  destruct (decodable_module v Hdec n ((ModuleType, n, n, n3), cn) Hn) as (mm & _ & Hat & Hk); [done..|].
  destruct (decodable_depends v Hdec _ _ _ _ He) as (dd & _ & Hdat).
  exists (mkDep mm dd). simpl. rewrite <- Hk. split_and!; [done..| |done]. by exists k3.
Qed.

(** C30. Tracking then asking: the modules managed by the source are exactly those
  of its manifests, and the dependencies of any module are exactly those the
  manifests declare for it and those other sources had declared before. *)
Theorem Track_then_list (req : SourceRequest) (w : W) (v : astore) (w' : W) (b : bool) :
rep w v -> decodable v -> well_linked v -> valid_request req -> no_collision req ->
Track req w = (Ret b, w') ->
let sk := keyForSource (SR_Source req) in
(exists managed w2, ListManaged (SR_Source req) w' = (Ret managed, w2) /\
   forall key, (exists a, a ∈ managed /\ keyForModule (MM_Module a) = key) <-> declares_manages req sk key) /\
forall q, let m := keyForDependencyRequest q in
  exists deps w3, ListDependencies q w' = (Ret deps, w3) /\
    forall n, (exists a, a ∈ deps /\ keyForModule (Dependency_Module a) = n) <->
      m <> n /\ declares_depends req m n sk \/ exists k3 : bytes, k3 <> sk /\ depends_edge v m n k3.
Proof.
intros Hr Hdec Hwl Hv Hnc Hrun sk.
destruct (Track_run _ _ _ _ _ Hr Hrun) as (_ & v' & Hr' & Ht).
pose proof (tracked_decodable _ _ _ Hv Hdec Ht) as Hdec'. split.
- destruct (ListManaged_run w' v' (SR_Source req) Hr' Hdec') as (managed & w2 & Hrun2 & _ & Hman).
  exists managed, w2. split; [done|]. intros key. split.
  + intros (a & (Hne & (c & Hc & _) & (k3 & c3 & Hk3 & _))%Hman & <-).
    apply (tracked_manages _ _ _ Ht Hwl _ k3). split_and!; [done|by eexists|]. exists []. by eexists.
  + intros Hdecl. assert (keyForSource (SR_Source req) <> key) as Hne.
    { destruct Hdecl as (mf & Hmf & -> & _). unfold no_collision in Hnc. rewrite Forall_forall in Hnc. by apply Hnc. }
    destruct (proj2 (tracked_manages _ _ _ Ht Hwl key []) (conj Hne (conj eq_refl Hdecl)))
      as (_ & [ce He] & (n3 & cn & Hn)).
    destruct (decodable_module v' Hdec' key ((ModuleType, key, key, n3), cn) Hn) as (m & _ & Hat & ->); [done..|].
    destruct (decodable_manages v' Hdec' _ _ _ _ He) as (d & _ & Hdat).
    exists (mkManagedModule m d). split; [|done]. apply Hman. split_and!; [done..|]. by exists [].
- intros q m. destruct (ListDependencies_run w' v' q Hr' Hdec') as (deps & w3 & Hrun3 & _ & Hdeps).
  exists deps, w3. split; [done|]. intros n. setoid_rewrite Hdeps. rewrite (dependency_keys _ _ _ Hdec'). split.
  + intros [k3 He]. destruct (decide (k3 = sk)) as [->|Hk].
    * left. by apply (tracked_depends _ _ _ Ht Hnc Hwl).
    * right. exists k3. split; [done|]. by apply (tracked_depends_other _ _ _ Ht Hwl).
  + intros [Hd|(k3 & Hk & He)]; [exists sk; by apply (tracked_depends _ _ _ Ht Hnc Hwl)|].
    exists k3. by apply (tracked_depends_other _ _ _ Ht Hwl).
Qed.
End Theorems.

(** ** On a SQLite store *)

#[local] Existing Instance quiet_engine.
#[local] Existing Instance quiet_no_faults.
#[local] Existing Instance map_order.
#[local] Existing Instance json_codec.
#[local] Existing Instance json_codec_ok.
#[local] Existing Instance demo_ops.
#[local] Existing Instance demo_spec.
#[local] Existing Instance demo_total.

Definition demo_module : Module_ := mkModule "go" "org" "mod" "".
Definition demo_ask : DependencyRequest := mkDependencyRequest "go" "org" "mod" "".

Lemma dependency_queries_witness : exists v, rep world1 v /\
  (exists l w', ListDependencies demo_ask world1 = (Ret l, w') /\ rep w' v /\
     forall d, d ∈ l <-> dependency_of v (keyForDependencyRequest demo_ask) d) /\
  (exists l w', ListDependents demo_ask world1 = (Ret l, w') /\ rep w' v /\
     forall d, d ∈ l <-> dependent_of v (keyForDependencyRequest demo_ask) d).
Proof.
  destruct world1_decodable as (v & Hr & Hd). exists v. split; [exact Hr|].
  exact (dependency_queries world1 v demo_ask Hr Hd).
Defined.

Lemma module_queries_witness : exists v, rep world1 v /\
  (exists l w', ListSources demo_module world1 = (Ret l, w') /\ rep w' v /\
     forall d, d ∈ l <-> source_of v (keyForModule demo_module) d) /\
  (exists l w', ListManaged (SR_Source demo_request) world1 = (Ret l, w') /\ rep w' v /\
     forall d, d ∈ l <-> managed_by v (keyForSource (SR_Source demo_request)) d).
Proof.
  destruct world1_decodable as (v & Hr & Hd). exists v. split; [exact Hr|].
  exact (module_queries world1 v demo_module (SR_Source demo_request) Hr Hd).
Defined.

(** The one dependency of the module, as [world1] answers it. *)
Definition demo_dependency : Dependency :=
  mkDep (mkModule "go" "org" "dep" "") (mkDepends "go" "v1" ["direct"%string] "main").
Definition demo_answer : list Dependency := [demo_dependency].

Definition world1_asked : World table := (ListDependencies demo_ask world1).2.

Lemma run_asked : ListDependencies demo_ask world1 = (Ret demo_answer, world1_asked).
Proof.
  assert ((ListDependencies demo_ask world1).1 = Ret demo_answer) as <- by (vm_compute; reflexivity).
  apply surjective_pairing.
Qed.

Lemma demo_module_at v : tracked demo_request ∅ v -> module_at v (keyForModule demo_module) demo_module.
Proof.
  intros Ht. eexists. split.
  - eapply (tracked_put _ _ _ Ht). unfold demo_request. vm_compute. reflexivity.
  - vm_compute. reflexivity.
Qed.

Lemma dependencies_converse_witness : exists l' w'',
  ListDependents (mkDependencyRequest "go" "org" "dep" "") world1_asked = (Ret l', w'') /\
  mkDep demo_module (mkDepends "go" "v1" ["direct"%string] "main") ∈ l'.
Proof.
  destruct world1_rep as (v & Hr & Ht).
  pose proof (tracked_decodable _ _ _ demo_valid decodable_empty Ht) as Hd.
  assert (demo_dependency ∈ demo_answer) as Hin by left.
  exact (dependencies_converse world1 v demo_module "" demo_answer world1_asked demo_dependency
           Hr Hd (demo_module_at v Ht) run_asked Hin).
Defined.

Lemma Track_decodable_witness : exists v', rep world1 v' /\ decodable v'.
Proof.
  exact (Track_decodable demo_request empty_world ∅ world1 true empty_world_rep decodable_empty
           demo_valid run_world1).
Defined.

Lemma Track_then_list_witness :
  let sk := keyForSource (SR_Source demo_request) in
  (exists managed w2, ListManaged (SR_Source demo_request) world1 = (Ret managed, w2) /\
     forall key, (exists a, a ∈ managed /\ keyForModule (MM_Module a) = key) <-> declares_manages demo_request sk key) /\
  forall q, let m := keyForDependencyRequest q in
    exists deps w3, ListDependencies q world1 = (Ret deps, w3) /\
      forall n, (exists a, a ∈ deps /\ keyForModule (Dependency_Module a) = n) <->
        m <> n /\ declares_depends demo_request m n sk \/ exists k3 : bytes, k3 <> sk /\ depends_edge ∅ m n k3.
Proof.
  exact (Track_then_list demo_request empty_world ∅ world1 true empty_world_rep decodable_empty
           well_linked_empty demo_valid demo_no_collision run_world1).
Defined.
