(* ===== verification/SearchThms.v ===== *)
(** * What the searches guarantee

    The theorems about [BreadthFirstSearch], [DepthFirstSearch] and [Search],
    with their instances on a graph that [Track] has written. *)

From S2P Require Import Prelude GoCodec GoHash Api GraphSpec Sql StoreAlpha StoreAlphaSpec.
From S2P Require Import KeysAlpha QueryAlpha SearchAlpha TrackAlpha TrackAlphaProofs Instances.
From S2P Require Import TrackInvariant QuerySpec SearchSpec Demo.

Section Theorems.
Context `{JsonCodec, !JsonCodecOk} {W : Type} `{GraphStoreTotal W}.

(** C10. A breadth-first search that nothing disturbs ends, whatever cycles the
  graph has, and has then sent one response for every node reachable from
  the root and for no other, the nearer nodes first; each response holds
  the node's own dependencies (or dependents). *)
Theorem BreadthFirstSearch_complete (env : SearchEnv) (dir : direction) (d : DependencyRequest)
  (w : W) (v : astore) (fuel : nat) :
rep w v -> decodable v -> undisturbed env -> env_recv env 0 = Some (ask dir d) ->
size (dom v) < fuel ->
let root := node_key (ask dir d) in
exists s, BreadthFirstSearch env fuel (mkSearchWorld w [] 0) = (Ret Returned, s) /\
  rep (store_world s) v /\ Forall (answers dir v) (sent s) /\
  NoDup (map response_key (sent s)) /\
  (forall b, b ∈ map response_key (sent s) <-> rtc (edge dir v) root b) /\
  exists ds, Forall2 (distance dir v root) ds (map response_key (sent s)) /\ StronglySorted le ds.
Proof.
intros Hr Hdec Henv Hrecv Hfuel. by apply bfs_run.
Qed.

(** A depth-first search ends too, but what it sends is one path from the
  root without repetitions, each node found among the neighbours of the one
  before: the siblings of a visited node are dropped. *)
Theorem DepthFirstSearch_path (env : SearchEnv) (dir : direction) (d : DependencyRequest)
  (w : W) (v : astore) (fuel : nat) :
rep w v -> decodable v -> undisturbed env -> env_recv env 0 = Some (ask dir d) ->
size (dom v) < fuel ->
exists s, DepthFirstSearch env fuel (mkSearchWorld w [] 0) = (Ret Returned, s) /\
  rep (store_world s) v /\ Forall (answers dir v) (sent s) /\
  NoDup (map response_key (sent s)) /\
  head (map response_key (sent s)) = Some (node_key (ask dir d)) /\
  Sorted (edge dir v) (map response_key (sent s)).
Proof.
intros Hr Hdec Henv Hrecv Hfuel. unfold DepthFirstSearch, consumeStream.
rewrite (never_done _ Henv), Hrecv.
destruct (dfs_loop_spec env Henv dir v Hdec fuel [ask dir d] {[ keyFor (ask dir d) ]}
  (mkSearchWorld w [] 0) (ask dir d)) as (s & rs & Hrun & Hr' & Hsent & (Ha & Hhd & Hsort) & _ & Hnd).
- done.
- repeat constructor. by eexists.
- done.
- rewrite <- (keyFor_asks dir) by (by eexists). by apply elem_of_singleton.
- pose proof (unseen_bound v {[ keyFor (ask dir d) ]}). lia.
- exists s. simpl in Hsent. by rewrite Hsent.
Qed.

(** The searches follow dependencies only: a first message that asks for the
  sources of a module, the modules of a source, or nothing, is refused with
  [ErrUnimplemented] before anything is sent. *)
Theorem searches_refuse (env : SearchEnv) (req : SearchRequest) (w : W) (v : astore) (fuel : nat) :
rep w v -> decodable v -> env_done env 0 = false -> env_recv env 0 = Some req ->
DependenciesOf req = None -> DependentsOf req = None -> 0 < fuel ->
(exists s, BreadthFirstSearch env fuel (mkSearchWorld w [] 0) = (Fail ErrUnimplemented, s) /\ sent s = []) /\
(exists s, DepthFirstSearch env fuel (mkSearchWorld w [] 0) = (Fail ErrUnimplemented, s) /\ sent s = []).
Proof.
intros Hr Hdec Hd Hrecv Hof1 Hof2 Hfuel. destruct fuel as [|fuel]; [lia|].
assert (exists o w', processRequest req w = (o, w') /\
  (o = Fail ErrUnimplemented \/ exists r, o = Ret r /\ transformResponse r = Fail ErrUnimplemented)) as (o & w' & Hp & Ho).
{ unfold processRequest. rewrite Hof1, Hof2. destruct (SourcesFor req) as [m|].
  - destruct (ListSources_run w v m Hr Hdec) as (l & w1 & Hrun & _). unfold bind. rewrite Hrun.
    eexists _, w1. split; [done|]. right. by eexists.
  - destruct (ModulesFor req) as [sr|].
    + destruct (ListManaged_run w v (Some sr) Hr Hdec) as (l & w1 & Hrun & _). unfold bind. rewrite Hrun.
      eexists _, w1. split; [done|]. right. by eexists.
    + eexists _, w. split; [done|]. by left. }
unfold BreadthFirstSearch, DepthFirstSearch, consumeStream. rewrite Hd, Hrecv.
unfold bfs_loop, dfs_loop. cbn [last mfold]. unfold process_one, bind, on_store, lift. simpl. rewrite Hp.
destruct Ho as [->|(r & -> & Htr)]; [split; by eexists|]. rewrite Htr. split; by eexists.
Qed.

(** Without a first message the two searches wait forever, even when the
  context is done: the goroutine that feeds them has ended. *)
Theorem searches_block (env : SearchEnv) (s : SearchWorld W) (fuel : nat) :
env_done env 0 = true \/ env_recv env 0 = None ->
BreadthFirstSearch env fuel s = (Ret Blocked, s) /\ DepthFirstSearch env fuel s = (Ret Blocked, s).
Proof.
intros Hno. assert (consumeStream env = []) as Hs.
{ unfold consumeStream. destruct Hno as [->| ->]; [done|]. by destruct (env_done env 0). }
unfold BreadthFirstSearch, DepthFirstSearch. by rewrite Hs.
Qed.
End Theorems.

(** ** On a SQLite store *)

#[local] Existing Instance quiet_engine.
#[local] Existing Instance quiet_no_faults.
#[local] Existing Instance map_order.
#[local] Existing Instance json_codec.
#[local] Existing Instance json_codec_ok.
#[local] Existing Instance demo_ops.
#[local] Existing Instance demo_spec.
#[local] Existing Instance demo_total.

Definition demo_root : DependencyRequest := mkDependencyRequest "go" "org" "mod" "".
Definition calm (first : option SearchRequest) : SearchEnv :=
  mkEnv (fun n => match n with O => first | S _ => None end) (fun _ => false) (fun _ => None).

Lemma calm_undisturbed first : undisturbed (calm first).
Proof. done. Qed.

Lemma BreadthFirstSearch_complete_witness : exists v, rep world1 v /\
  exists s, BreadthFirstSearch (calm (Some (ask Upward demo_root))) (S (size (dom v)))
              (mkSearchWorld world1 [] 0) = (Ret Returned, s) /\
    rep (store_world s) v /\ Forall (answers Upward v) (sent s) /\
    NoDup (map response_key (sent s)) /\
    (forall b, b ∈ map response_key (sent s) <->
               rtc (edge Upward v) (node_key (ask Upward demo_root)) b) /\
    exists ds, Forall2 (distance Upward v (node_key (ask Upward demo_root))) ds
                       (map response_key (sent s)) /\ StronglySorted le ds.
Proof.
  destruct world1_decodable as (v & Hr & Hd). exists v. split; [exact Hr|].
  exact (BreadthFirstSearch_complete (calm (Some (ask Upward demo_root))) Upward demo_root world1 v
           (S (size (dom v))) Hr Hd (calm_undisturbed _) eq_refl (Nat.lt_succ_diag_r _)).
Defined.

Lemma DepthFirstSearch_path_witness : exists v, rep world1 v /\
  exists s, DepthFirstSearch (calm (Some (ask Downward demo_root))) (S (size (dom v)))
              (mkSearchWorld world1 [] 0) = (Ret Returned, s) /\
    rep (store_world s) v /\ Forall (answers Downward v) (sent s) /\
    NoDup (map response_key (sent s)) /\
    head (map response_key (sent s)) = Some (node_key (ask Downward demo_root)) /\
    Sorted (edge Downward v) (map response_key (sent s)).
Proof.
  destruct world1_decodable as (v & Hr & Hd). exists v. split; [exact Hr|].
  exact (DepthFirstSearch_path (calm (Some (ask Downward demo_root))) Downward demo_root world1 v
           (S (size (dom v))) Hr Hd (calm_undisturbed _) eq_refl (Nat.lt_succ_diag_r _)).
Defined.

Definition demo_sources_for : SearchRequest :=
  mkSearchRequest false None None (Some (mkModule "go" "org" "mod" "")) None.

Lemma searches_refuse_witness :
  (exists s, BreadthFirstSearch (calm (Some demo_sources_for)) 1 (mkSearchWorld world1 [] 0) =
             (Fail ErrUnimplemented, s) /\ sent s = []) /\
  (exists s, DepthFirstSearch (calm (Some demo_sources_for)) 1 (mkSearchWorld world1 [] 0) =
             (Fail ErrUnimplemented, s) /\ sent s = []).
Proof.
  destruct world1_decodable as (v & Hr & Hd).
  exact (searches_refuse (calm (Some demo_sources_for)) demo_sources_for world1 v 1 Hr Hd
           eq_refl eq_refl eq_refl eq_refl (Nat.lt_succ_diag_r 0)).
Defined.

Lemma searches_block_witness :
  BreadthFirstSearch (calm None) 5 (mkSearchWorld world1 [] 0) = (Ret Blocked, mkSearchWorld world1 [] 0) /\
  DepthFirstSearch (calm None) 5 (mkSearchWorld world1 [] 0) = (Ret Blocked, mkSearchWorld world1 [] 0).
Proof. exact (searches_block (calm None) (mkSearchWorld world1 [] 0) 5 (or_intror eq_refl)). Defined.

(** Two dependencies of one module. *)
Definition fork_request : SourceRequest :=
  mkSourceRequest (Some (mkSource "git@a" "repository" "main"))
    [mkManagementFile "go" "vgo" "org" "mod" "" "1" ""
       [mkDependency "org" "left" "" "v1" []; mkDependency "org" "right" "" "v1" []]].

(** On a module with two dependencies the breadth-first search sends three
    responses and the depth-first search two: one of the dependencies is
    never visited. *)
Theorem DepthFirstSearch_drops_siblings :
  let w := (Track fork_request empty_world).2 in
  let env := calm (Some (ask Upward demo_root)) in
  let run search := search env 10 (mkSearchWorld w [] 0) in
  let visited search := map (fun r => from_option Module_Module ""
    (from_option (fun d => Some (mkModule (DR_Language d) (DR_Organization d) (DR_Module d) "")) None
       (DependenciesOf (Request r)))) (sent (run search).2) in
  (run BreadthFirstSearch).1 = Ret Returned /\ (run DepthFirstSearch).1 = Ret Returned /\
  length (visited BreadthFirstSearch) = 3 /\
  "left"%string ∈ visited BreadthFirstSearch /\ "right"%string ∈ visited BreadthFirstSearch /\
  length (visited DepthFirstSearch) = 2.
Proof.
  cbv zeta. split_and!; try (vm_compute; reflexivity).
  - apply (bool_decide_unpack _). vm_compute. exact I.
  - apply (bool_decide_unpack _). vm_compute. exact I.
Qed.
