(* ===== verification/ManifestThms.v ===== *)
(** * What storing manifests guarantees

    The theorems about manifeststorageservice.go, against any store and any
    stream that meet their contracts, with instances over the SQL server. *)

From S2P Require Import Prelude GoCodec GoHash Sql StoreBeta StoreBetaSpec KeysAlpha ManifestBeta.
From S2P Require Import ManifestBetaSpec Instances.

Section Runs.
Context `{ProtoCodec, MapRange} {W : Type} `{TraverseSpec W}.
Implicit Types (v : bstore) (w : W).

(** The three calls of a run, and where it can end. *)
Lemma Store_run request w v o w' :
brep w v -> sha_keyed v -> (forall why, o <> Panic why) -> Store request w = (o, w') ->
(exists e, o = Fail e /\ beta_GetProposed request = Fail e /\ w' = w) \/
exists ns es source, beta_GetProposed request = Ret (ns, es, source) /\
  ((o = Fail (ErrInternal "failed to retrieve stored data") /\ brep w' v) \/
   (o = Fail (ErrInternal "failed to update proposal") /\ brep w' v) \/
   (o = Fail (ErrInternal "failed to remove outdated edges") /\
      brep w' (put_entries (put_entries_of ns es) v)) \/
   (o = Ret tt /\ exists v', brep w' v' /\ sha_keyed v' /\
      stored_as request (put_entries_of ns es) v v')).
Proof.
intros Hr Hv Hpanic. unfold Store, bind at 1, lift.
destruct (beta_GetProposed request) as [[[ns es] source]|e|why] eqn:Hp;
  [|by intros [= <- <-]; left; exists e|intros [= <- <-]; by destruct (Hpanic why)].
intros Hrun. right. exists ns, es, source. split; [done|]. revert Hrun. unfold on_error, bind, ret.
destruct (GetStored source w) as [o1 w1] eqn:Hg. apply (GetStored_spec _ _ v) in Hg as [Hr1 Hk]; [|done].
destruct o1 as [[nodes stored]|e|why];
  [|intros [= <- <-]; by left|intros [= <- <-]; by destruct (Hpanic why)].
specialize (Hk nodes stored eq_refl).
destruct (bs_Put ns es w1) as [o2 w2] eqn:Hput. destruct o2 as [[]|e|why].
- pose proof (bput_spec _ _ _ _ _ Hr1 Hput) as Hr2.
  destruct (bs_Delete [] (outdated es stored) w2) as [o3 w3] eqn:Hdel. destruct o3 as [[]|e|why].
  + intros [= <- <-]. do 3 right. split; [done|].
    pose proof (stored_as_put _ _ _ _ _ _ Hv Hp Hk) as Hst. eexists. split_and!; [|by eapply stored_sha_keyed|exact Hst].
    exact (bdelete_spec _ _ _ _ _ Hr2 Hdel).
  + intros [= <- <-]. right. right. left. split; [done|]. by eapply bdelete_fail.
  + intros [= <- <-]. by destruct (Hpanic why).
- intros [= <- <-]. right. left. split; [done|]. by eapply bput_fail.
- intros [= <- <-]. by destruct (Hpanic why).
Qed.
End Runs.

(** ** Total runs *)

Section Total.
Context `{ProtoCodec, MapRange} {W : Type} `{TraverseTotal W, !BetaStoreTotal W}.
Implicit Types (v : bstore) (w : W).

Lemma send_all_total (l : list (string * Node)) : forall w v,
brep w v -> exists w', mfold (fun _ kn => tr_send (from_request kn.2)) tt l w = (Ret tt, w').
Proof.
induction l as [|kn l IH]; intros w v Hr; simpl; [by eexists|].
destruct (tr_send_total w v (from_request kn.2) Hr) as [w1 Hs]. unfold bind. rewrite Hs.
apply (IH w1 v). by destruct (tr_send_spec _ _ _ _ _ Hr Hs).
Qed.

Lemma receive_all_total source (l : list (string * Node)) : forall c w v,
brep w v -> pending w = map (fun kn => from_request kn.2) l ->
exists c' w', mfold (receive_one source) c l w = (Ret c', w').
Proof.
induction l as [|kn l IH]; intros c w v Hr Hp; simpl; [by do 2 eexists|].
destruct (tr_recv_total w v kn.2 _ Hr Hp) as (res & w1 & Hs).
unfold bind at 1, receive_one at 1, bind, ret. rewrite Hs.
destruct (tr_recv_spec _ _ _ _ Hr Hs) as [Hr1 Hrecv].
destruct (Hrecv res kn.2 _ eq_refl Hp) as [Hp1 _]. by apply (IH _ w1 v).
Qed.

Lemma traverse_tier_total source nodes edges tier w v :
brep w v -> pending w = [] -> exists c w', traverse_tier source nodes edges tier w = (Ret c, w').
Proof.
intros Hr Hp. unfold traverse_tier, bind.
destruct (send_all_total (range_map tier) w v Hr) as [w1 Hs]. rewrite Hs.
destruct (send_all_spec _ _ _ _ _ Hr Hs) as [Hr1 Hp1]. specialize (Hp1 eq_refl).
rewrite Hp in Hp1. by apply (receive_all_total _ _ _ w1 v).
Qed.

Lemma GetStored_total source w v :
brep w v -> exists nodes edges w', GetStored source w = (Ret (nodes, edges), w').
Proof.
intros Hr. destruct (tr_open_total w v Hr) as [w0 Ho].
destruct (tr_open_spec _ _ _ _ Hr Ho) as [Hr0 Hp0]. specialize (Hp0 eq_refl).
destruct (traverse_tier_total source [source] [] {[ of_bytes (Node_Key source) := source ]} w0 v Hr0 Hp0)
  as (c1 & w1 & Ht1).
destruct (traverse_tier_spec _ _ _ _ _ v _ _ Hr0 Hp0 ltac:(by intros rk x [<- <-]%lookup_singleton_Some) Ht1)
  as [Hr1 Hc1].
destruct (Hc1 c1 eq_refl) as (Hp1 & _ & _ & _).
destruct (traverse_tier_total source (c_nodes c1) (c_edges c1) (c_next c1) w1 v Hr1 Hp1) as (c2 & w2 & Ht2).
unfold GetStored, deferred, bind, ret. rewrite Ho, Ht1, Ht2. eauto.
Qed.
End Total.

(** ** The theorems *)

Section Theorems.
Context `{ProtoCodec, MapRange} {W : Type} `{TraverseSpec W}.

(** C3. A successful [Store] makes the graph hold the manifest: every node and
  edge the request declares is live with the last value given for it; of
  the edges held for its source, out of it or out of a module adjacent to
  it, those no longer declared are gone; every other entry is untouched. *)
Theorem Store_correct (request : StoreRequest) (w : W) (v : bstore) (w' : W) :
brep w v -> sha_keyed v -> Store request w = (Ret tt, w') ->
exists ns es source v', beta_GetProposed request = Ret (ns, es, source) /\
  brep w' v' /\ sha_keyed v' /\ stored_as request (put_entries_of ns es) v v' /\
  forall k, last_value k (put_entries_of ns es) <> None <-> declares request k.
Proof.
intros Hr Hv Hrun.
apply (Store_run _ _ v) in Hrun as [(e & [=] & _)|(ns & es & source & Hp & Hend)]; [|done..].
destruct Hend as [[[=] _]|[[[=] _]|[[[=] _]|(_ & v' & Hr' & Hv' & Hst)]]].
exists ns, es, source, v'. split_and!; [done..|]. intros k.
rewrite <- (proposed_entries _ _ _ _ k Hp), last_value_None.
destruct (decide (k ∈ map fst (put_entries_of ns es))); tauto.
Qed.

(** C36. A failed [Store] says which call failed, and each leaves its own graph.
  When the request has no proposal nothing is called; "failed to retrieve stored
  data" is the traversal, and leaves the graph as it was; "failed to update
  proposal" is the [Put] after a traversal that answered, and leaves it as it
  was too; "failed to remove outdated edges" is the [Delete] of the outdated
  edges after a [Put] that succeeded, and everything declared is in the graph
  and nothing has been removed. *)
Theorem Store_errors (request : StoreRequest) (w : W) (v : bstore) (e : error) (w' : W) :
brep w v -> Store request w = (Fail e, w') ->
(beta_GetProposed request = Fail e /\ w' = w) \/
exists ns es source, beta_GetProposed request = Ret (ns, es, source) /\
((e = ErrInternal "failed to retrieve stored data" /\ (exists e1, GetStored source w = (Fail e1, w')) /\ brep w' v) \/
 exists nodes stored w1, GetStored source w = (Ret (nodes, stored), w1) /\
 ((e = ErrInternal "failed to update proposal" /\ (exists e1, bs_Put ns es w1 = (Fail e1, w')) /\ brep w' v) \/
  (e = ErrInternal "failed to remove outdated edges" /\ exists w2, bs_Put ns es w1 = (Ret tt, w2) /\
   (exists e1, bs_Delete [] (outdated es stored) w2 = (Fail e1, w')) /\ brep w' (put_entries (put_entries_of ns es) v)))).
Proof.
intros Hr. unfold Store, bind at 1, lift.
destruct (beta_GetProposed request) as [[[ns es] source]|e0|why]; [|intros [= <- <-]; by left|done].
intros Hrun. right. exists ns, es, source. split; [done|]. revert Hrun. unfold on_error, bind, ret.
destruct (GetStored source w) as [[[nodes stored]|e1|why] w1] eqn:Hg;
  (apply (GetStored_spec _ _ v) in Hg as Hspec; [|done]); destruct Hspec as [Hr1 _]; [|intros [= <- <-]; left; eauto|done].
intros Hrun. right. exists nodes, stored, w1. split; [done|]. revert Hrun.
destruct (bs_Put ns es w1) as [[[]|e2|why] w2] eqn:Hput; [|intros [= <- <-]; left|done].
- pose proof (bput_spec _ _ _ _ _ Hr1 Hput) as Hr2.
  destruct (bs_Delete [] (outdated es stored) w2) as [[[]|e3|why] w3] eqn:Hdel; [done| |done].
  intros [= <- <-]. right. split; [done|]. exists w2. split_and!; [done|by eexists|by eapply bdelete_fail].
- split_and!; [done|by eexists|by eapply bput_fail].
Qed.
End Theorems.

(** When the store and the stream answer and the request can be marshalled,
    [Store] returns: no wait on the stream is left unanswered. *)
Theorem Store_returns `{ProtoCodec, MapRange} {W : Type} `{TraverseTotal W, !BetaStoreTotal W}
    (request : StoreRequest) (w : W) (v : bstore) ns es source :
  brep w v -> beta_GetProposed request = Ret (ns, es, source) ->
  exists w', Store request w = (Ret tt, w').
Proof.
  intros Hr Hp. destruct (GetStored_total source w v Hr) as (nodes & stored & w1 & Hg).
  destruct (GetStored_spec source w v _ _ Hr Hg) as [Hr1 _].
  destruct (bput_total w1 v ns es Hr1) as [w2 Hput].
  destruct (bdelete_total w2 _ [] (outdated es stored) (bput_spec _ _ _ _ _ Hr1 Hput)) as [w3 Hdel].
  exists w3. unfold Store, on_error, bind, lift, ret. by rewrite Hp, Hg, Hput, Hdel.
Qed.

(** ** Instances *)

Definition plain_proto : ProtoCodec := {|
  source_name := "cloud.deps.api.v1beta.Source";
  module_name := "cloud.deps.api.v1beta.Module";
  MarshalAny := fun m => Ret (match m with
    | MSource kind url => mkAny "Source" (put_strings [kind; url])
    | MModule language name => mkAny "Module" (put_strings [language; name])
    | MSourceModule version system => mkAny "SourceModule" (put_strings [version; system])
    | MModuleDependency ref vc scopes => mkAny "ModuleDependency" (put_strings (ref :: vc :: scopes))
    end) |}.

Definition sample_file : ManifestFile :=
  mkManifestFile "go" "vgo" "depscloud/api" "v1" "https://x" [mkFileDependency "grpc" "v2" ["direct"%string]].
Definition sample_request (files : list ManifestFile) : StoreRequest :=
  mkStoreRequest "repository" "https://github.com/depscloud/api" "main" files.
Definition fresh_stream : stream_world := (mkWorld {[ main_db := ∅ ]} 0, []).

Lemma fresh_stream_db : dbs fresh_stream.1 !! main_db = Some ∅.
Proof. apply lookup_singleton_eq. Qed.

Lemma empty_sha_keyed : sha_keyed ∅.
Proof. intros k. rewrite lookup_empty. by intros [? ?]. Qed.

(** An engine whose transactions cannot be committed. *)
Module Failing.
Definition no_commit : Faults := mkFaults None (fun _ => None) (Some (ErrBackend 9)) None (fun _ => None) None.
Definition failing_engine : SqlEngine := plain_engine (fun _ => no_commit).
Definition failing_no_cut : @NoCut failing_engine.
Proof. intros n. reflexivity. Defined.
#[local] Existing Instances failing_engine failing_no_cut plain_proto map_order.
#[local] Instance failing_store : BetaStoreOps stream_world := stream_store main_db.
#[local] Instance failing_spec : BetaStoreSpec stream_world := stream_spec main_db.
#[local] Instance failing_stream : TraverseOps stream_world := stream_ops main_db.
#[local] Instance failing_traverse : TraverseSpec stream_world := stream_traverse main_db.

Lemma Store_errors_witness :
let request := sample_request [sample_file] in
let w' := (Store request fresh_stream).2 in
(Store request fresh_stream).1 = Fail (ErrInternal "failed to update proposal") /\ brep w' ∅ /\
exists ns es source nodes stored w1 e1, beta_GetProposed request = Ret (ns, es, source) /\
  GetStored source fresh_stream = (Ret (nodes, stored), w1) /\ bs_Put ns es w1 = (Fail e1, w').
Proof.
intros request w'.
assert ((Store request fresh_stream).1 = Fail (ErrInternal "failed to update proposal")) as H1 by (vm_compute; reflexivity).
split; [exact H1|].
destruct (Store_errors request fresh_stream ∅ (ErrInternal "failed to update proposal") w')
  as [[Hp _]|(ns & es & source & Hp & [[Hx _]|(nodes & stored & w1 & Hg & [(_ & [e1 Hput] & Hr)|[Hx _]])])].
- exists ∅. split; [exact fresh_stream_db|apply btable_rep_empty].
- exact (run_fst _ _ _ H1).
- vm_compute in Hp. discriminate Hp.
- discriminate Hx.
- split; [exact Hr|]. exists ns, es, source, nodes, stored, w1, e1. split; [exact Hp|]. split; [exact Hg|exact Hput].
- discriminate Hx.
Defined.
End Failing.

#[local] Existing Instances quiet_engine plain_proto map_order.
#[local] Existing Instances quiet_no_faults.
#[local] Instance witness_store : BetaStoreOps stream_world := stream_store main_db.
#[local] Instance witness_spec : BetaStoreSpec stream_world := stream_spec main_db.
#[local] Instance witness_stream : TraverseOps stream_world := stream_ops main_db.
#[local] Instance witness_traverse : TraverseSpec stream_world := stream_traverse main_db.
#[local] Instance witness_total : BetaStoreTotal stream_world := stream_total main_db.
#[local] Instance witness_live : TraverseTotal stream_world := stream_live main_db.

Definition sample_stored : stream_world := (Store (sample_request [sample_file]) fresh_stream).2.

Lemma fresh_stream_rep : brep fresh_stream ∅.
Proof. exists ∅. split; [exact fresh_stream_db|apply btable_rep_empty]. Qed.

Lemma Store_correct_witness : exists ns es source v',
  beta_GetProposed (sample_request [sample_file]) = Ret (ns, es, source) /\ brep sample_stored v' /\
  sha_keyed v' /\ stored_as (sample_request [sample_file]) (put_entries_of ns es) ∅ v' /\
  forall k, last_value k (put_entries_of ns es) <> None <-> declares (sample_request [sample_file]) k.
Proof.
  refine (Store_correct (sample_request [sample_file]) fresh_stream ∅ sample_stored
            fresh_stream_rep empty_sha_keyed (run_fst _ _ _ _)).
  vm_compute. reflexivity.
Defined.

Lemma Store_returns_witness : exists w', Store (sample_request []) fresh_stream = (Ret tt, w').
Proof. exact (Store_returns (sample_request []) fresh_stream ∅ _ _ _ fresh_stream_rep eq_refl). Defined.
