(* ===== verification/ConcurrentStoreThms.v ===== *)
(** * What storing manifests at the same time guarantees

    Whatever the interleaving and whichever calls fail, the graph is the one of
    storing requests one after the other, up to edges that wait for their
    removal.  No run goes on for ever, and where nothing fails every request
    is stored. *)

From S2P Require Import Prelude GoCodec GoHash Sql StoreBeta StoreBetaSpec KeysAlpha ManifestBeta ManifestBetaSpec.
From S2P Require Import ConcurrentBeta CallTree ConcurrentManifest ConcurrentStore ConcurrentEnds Instances ManifestThms.

(** Requests about different sources, none reporting another's as the origin of
    a manifest; the keys of sources and those of modules are told apart. *)
Record compatible_manifests `{ProtoCodec} (sources modules : bytes -> Prop) (reqs : list StoreRequest) : Prop := {
  cm_kinds : forall k, sources k -> modules k -> False;
  cm_nonempty : forall k, sources k -> k <> [];
  cm_typed : forall i req, reqs !! i = Some req -> typed sources modules req;
  cm_separate : forall i j r1 r2, i <> j -> reqs !! i = Some r1 -> reqs !! j = Some r2 -> separate r1 r2 }.

Section Theorems.
Context `{ProtoCodec, MapRange} {W : Type} `{BetaStoreSpec W}.

(** C6. Storing different sources at the same time is serializable, if none of
  the requests reports another's source as the origin of an edge
  ([compatible_manifests]; two requests about one source may leave the edges
  of both).  At any moment of any run, failures of the store and of the
  streams included, some requests have been stored one after the other, and
  the graph differs from what that leaves only in edges their sources had at
  the start and no longer declare; once every call has answered without an
  error it does not differ, the order is one of all requests, and every
  source has exactly the edges it declares. *)
Theorem concurrent_Store_serializable (sources modules : bytes -> Prop) (reqs : list StoreRequest) (v0 : bstore)
  (w : W) (s : beta_served W) :
let handlers := map store_handler reqs in
compatible_manifests sources modules reqs -> linked_manifests sources modules v0 -> sha_keyed v0 -> brep w v0 ->
rtc (beta_serve_step handlers) (beta_start handlers w) s ->
exists order v vs, brep (beta_world s) v /\ NoDup order /\ stored_serially (in_order reqs order) v0 vs /\
  linked_manifests sources modules v /\ linked_manifests sources modules vs /\
  (forall k, v !! k = vs !! k \/ (vs !! k = None /\ exists req, req ∈ in_order reqs order /\
     own_key (source_key req) k /\ is_Some (v0 !! k) /\ ~ declares req k)) /\
  (all_stored handlers s (Ret tt) -> v = vs /\ in_order reqs order ≡ₚ reqs /\
     forall req k, req ∈ reqs -> own_key (source_key req) k -> is_Some (v !! k) <-> declares req k).
Proof.
intros handlers [Hkinds Hnonempty Htyped Hsep] Hlinked Hsha Hr Hs.
destruct (stores_reachable _ _ Hkinds Hnonempty reqs v0 Htyped Hsep Hlinked Hsha w s Hr Hs) as (order & v & vs & Hr' & Htg & Hall).
exists order, v, vs. pose proof Htg as [Hlen Hnd Hord Hser Hlv Hlvs Hsame Hown Howns].
split_and!; [done|done|done|done|done| |].
- intros k. destruct (Hsame k) as [?|(Hn & i & req & Hi & Hf & [Ho Hl] & Hd)]; [by left|]. right. split; [done|].
  exists req. split_and!; [|done..]. apply elem_of_in_order. exists i. split; [apply Hord; eauto|done].
- intros Hret.
  assert (forall i req, reqs !! i = Some req -> map flags_of (sessions s) !! i = Some (true, true)) as Hfl.
  { intros i req Hi. destruct (lookup_lt_is_Some_2 (map flags_of (sessions s)) i) as [f Hf];
      [rewrite Hlen; by eapply lookup_lt_Some|]. rewrite list_lookup_fmap in Hf |- *.
    destruct (sessions s !! i) as [ses|] eqn:Hses; [|done]. simpl in *. f_equal.
    assert (handlers !! i = Some (store_handler req)) as Hh by (unfold handlers; by rewrite list_lookup_fmap, Hi).
    pose proof (next_store_call _ _ Hkinds Hnonempty reqs v0 Htyped Hlinked Hsha i req _ Hi (proj1 (Hall _ _ _ Hi Hses))) as Hnext.
    rewrite (Hret i _ ses Hh Hses) in Hnext. unfold flags_of. by destruct Hnext as [-> ->]. }
  assert (v = vs) as ->.
  { apply map_eq. intros k. destruct (Hsame k) as [?|(_ & i & req & Hi & Hf & _)]; [done|]. rewrite (Hfl i req Hi) in Hf. done. }
  split; [done|]. split.
  + apply in_order_all; [done|]. intros i. rewrite Hord. split.
    * intros [d Hd%lookup_lt_Some]. by rewrite <- Hlen.
    * intros [req Hi]%lookup_lt_is_Some. exists true. by eapply Hfl.
  + intros req k (i & Hi)%list_elem_of_lookup Ho. apply (Howns i req true); [done|by apply (Hfl i req)|done].
Qed.
End Theorems.

Section Returns.
Context `{ProtoCodec, MapRange} {W : Type} `{BetaStoreTotal W}.

(** C27. Storing ends.  No run of any requests goes on for ever, whichever calls
  fail and however the streams are scheduled; and when the manifests have
  coordinates and no call fails, no run gets stuck before every request has
  returned without an error: a handler that receives has an answer coming. *)
Theorem concurrent_Store_returns (reqs : list StoreRequest) (w : W) (v : bstore) :
let handlers := map store_handler reqs in
brep w v -> (forall req, req ∈ reqs -> exists ns es src, beta_GetProposed req = Ret (ns, es, src)) ->
sn (beta_serve_step handlers) (beta_start handlers w) /\
forall s, rtc (flow_step reqs) (beta_start handlers w) s ->
  all_stored handlers s (Ret tt) \/ exists s', flow_step reqs s s'.
Proof.
intros handlers Hr Hp. split; [apply stores_end|]. intros s Hs. apply flow_progress.
eapply (rtc_preserve (flow_inv reqs)); [|by eapply flow_start|exact Hs]. intros s1 s2. apply flow_keeps.
Qed.
End Returns.

(** ** An execution *)

(** The next call of a handler, when nothing of its stream fails. *)
Definition advance_call {W} `{BetaStoreOps W} (handler : M beta_replay unit) (i : nat) (ses : session)
    (s : beta_served W) : option (beta_served W) :=
  match next_beta_call handler (trace ses) with
  | inr _ => None
  | inl c =>
      let put w o un res live := Some (mkBetaServed w (<[i := mkSession (trace ses ++ [(c, o)]) un res live]> (sessions s))) in
      match store_call_of c with
      | Some m => match m (beta_world s) with
                  | (Panic _, _) => None
                  | (o, w') => put w' o (unanswered ses) (unreceived ses) (answering ses)
                  end
      | None =>
          match c, unreceived ses with
          | BOpen, _ => put (beta_world s) (Ret BDone) [] [] true
          | BSend req, res => put (beta_world s) (Ret BDone) (unanswered ses ++ [req]) res (answering ses)
          | BRecv, res :: rest => put (beta_world s) (Ret (BAnswer res)) (unanswered ses) rest (answering ses)
          | BCancel, _ => put (beta_world s) (Ret BDone) [] [] false
          | _, _ => None
          end
      end
  end.

(** What session [i] does next: the store answers what it can first. *)
Definition advance {W} `{BetaStoreOps W} (handlers : list (M beta_replay unit)) (i : nat) (s : beta_served W) :
    option (beta_served W) :=
  handler ← handlers !! i; ses ← sessions s !! i;
  match answering ses, unanswered ses with
  | true, req :: rest =>
      match bs_Neighbors req (beta_world s) with
      | (Ret res, w') =>
          Some (mkBetaServed w' (<[i := mkSession (trace ses) rest (unreceived ses ++ [res]) true]> (sessions s)))
      | _ => None
      end
  | _, _ => advance_call handler i ses s
  end.

Lemma advance_call_step {W} `{BetaStoreOps W} handlers handler i ses (s s' : beta_served W) :
  handlers !! i = Some handler -> sessions s !! i = Some ses ->
  advance_call handler i ses s = Some s' -> beta_serve_by handlers i s s'.
Proof.
  destruct s as [w ss]. intros Hh Hi. unfold advance_call. cbn [sessions beta_world] in *.
  destruct (next_beta_call handler (trace ses)) as [c|] eqn:Hn; [|done].
  destruct (store_call_of c) as [m|] eqn:Hm.
  - destruct (m w) as [[r|e|why] w'] eqn:Hrun; [intros [= <-]; by eapply beta_stores..|done].
  - destruct c as [| | | |r| |]; try done.
    + intros [= <-]. eapply beta_streams; [done..|constructor].
    + intros [= <-]. eapply beta_streams; [done..|constructor].
    + destruct (unreceived ses) as [|res rest] eqn:Hres; [done|]. intros [= <-]. eapply beta_streams; [done..|by constructor].
    + intros [= <-]. eapply beta_streams; [done..|constructor].
Qed.

Lemma advance_step {W} `{BetaStoreOps W} handlers i (s s' : beta_served W) :
  advance handlers i s = Some s' -> beta_serve_by handlers i s s'.
Proof.
  unfold advance. destruct (handlers !! i) as [handler|] eqn:Hh; [|done].
  destruct (sessions s !! i) as [ses|] eqn:Hi; [|done]. cbn [mbind option_bind].
  pose proof (advance_call_step handlers handler i ses s s' Hh Hi) as Hcall.
  destruct (answering ses) eqn:Ha; [|exact Hcall]. destruct (unanswered ses) as [|req rest] eqn:Hu; [exact Hcall|].
  destruct s as [w ss]. cbn [sessions beta_world] in *.
  destruct (bs_Neighbors req w) as [[res| |] w'] eqn:Hrun; [|done..]. intros [= <-]. by eapply beta_answers.
Qed.

Fixpoint advance_all {W} `{BetaStoreOps W} (handlers : list (M beta_replay unit)) (schedule : list nat)
    (s : beta_served W) : option (beta_served W) :=
  match schedule with [] => Some s | i :: rest => s' ← advance handlers i s; advance_all handlers rest s' end.

Lemma advance_all_steps {W} `{BetaStoreOps W} handlers schedule : forall s s' : beta_served W,
  advance_all handlers schedule s = Some s' -> rtc (beta_serve_step handlers) s s'.
Proof.
  induction schedule as [|i schedule IH]; intros s s'; simpl; [by intros [= <-]; constructor|].
  destruct (advance handlers i s) as [s1|] eqn:Ha; [|done]. simpl. intros Hs.
  eapply rtc_l; [exists i; by apply advance_step|by apply IH].
Qed.

#[local] Existing Instances quiet_engine quiet_no_faults plain_proto map_order.
#[local] Instance shared_store : BetaStoreOps (World btable) := beta_ops main_db.
#[local] Instance shared_spec : BetaStoreSpec (World btable) := beta_spec main_db.

(** Two sources whose manifests name the same modules. *)
Definition other_request : StoreRequest :=
  mkStoreRequest "repository" "https://github.com/depscloud/deps" "main" [sample_file].
Definition both_requests : list StoreRequest := [sample_request [sample_file]; other_request].
Definition sample_sources : list bytes :=
  [source_key (sample_request [sample_file]); source_key other_request; reported_key sample_file].
Definition sample_modules : list bytes :=
  [module_key sample_file; dependency_key sample_file (mkFileDependency "grpc" "v2" ["direct"%string])].

Lemma sample_keys_differ :
  source_key (sample_request [sample_file]) <> source_key other_request /\
  reported_key sample_file <> source_key (sample_request [sample_file]) /\
  reported_key sample_file <> source_key other_request.
Proof. split; [|split]; apply (bool_decide_unpack _); vm_compute; exact I. Qed.

#[local] Opaque generateKey.

Lemma both_compatible : compatible_manifests (fun k => k ∈ sample_sources) (fun k => k ∈ sample_modules) both_requests.
Proof.
  assert (Forall (fun k => k ∉ sample_modules /\ k <> []) sample_sources) as Hall.
  { apply (bool_decide_unpack _). vm_compute. exact I. }
  rewrite Forall_forall in Hall. split.
  - intros k Hs Hm. by destruct (Hall k Hs).
  - intros k Hs. by destruct (Hall k Hs).
  - intros [|[|i]] req; [intros [= <-]..|done]; split.
    + by left.
    + intros mf ->%list_elem_of_singleton. split_and!; [by right; right; left|by left|].
      intros d ->%list_elem_of_singleton. by right; left.
    + by right; left.
    + intros mf ->%list_elem_of_singleton. split_and!; [by right; right; left|by left|].
      intros d ->%list_elem_of_singleton. by right; left.
  - intros [|[|i]] [|[|j]] r1 r2; try done; intros _ [= <-] [= <-]; split.
    + exact (proj1 sample_keys_differ).
    + intros mf ->%list_elem_of_singleton. exact (proj1 (proj2 sample_keys_differ)).
    + exact (not_eq_sym (proj1 sample_keys_differ)).
    + intros mf ->%list_elem_of_singleton. exact (proj2 (proj2 sample_keys_differ)).
Qed.

(** They take turns. *)
Definition both_handlers : list (M beta_replay unit) := map store_handler both_requests.
Definition both_turns : list nat := concat (replicate 7 [0; 1]).
Definition both_start : beta_served (World btable) := beta_start both_handlers (mkWorld {[ main_db := ∅ ]} 0).
Definition both_stored : option (beta_served (World btable)) := advance_all both_handlers both_turns both_start.

(** Every handler of a state has returned without an error. *)
Definition returned_all {A} (handlers : list (M beta_replay A)) (ss : list session) : bool :=
  forallb (fun p => match next_beta_call p.1 (trace p.2) with inr (Ret _) => true | _ => false end) (zip handlers ss).

Lemma returned_all_stored {W} (handlers : list (M beta_replay unit)) (s : beta_served W) :
  returned_all handlers (sessions s) = true -> all_stored handlers s (Ret tt).
Proof.
  unfold returned_all. intros Hall i handler ses Hh Hi. rewrite forallb_forall in Hall.
  specialize (Hall (handler, ses)). simpl in Hall. destruct (next_beta_call handler (trace ses)) as [c|[[]|e|why]]; [|done|..];
    (discriminate Hall; apply list_elem_of_In, list_elem_of_lookup; exists i; apply lookup_zip_with_Some; eauto).
Qed.

Lemma concurrent_Store_serializable_witness : exists s order v,
  rtc (beta_serve_step both_handlers) both_start s /\ all_stored both_handlers s (Ret tt) /\
  brep (beta_world s) v /\ in_order both_requests order ≡ₚ both_requests /\
  stored_serially (in_order both_requests order) ∅ v /\
  forall req k, req ∈ both_requests -> own_key (source_key req) k -> is_Some (v !! k) <-> declares req k.
Proof.
  assert (match both_stored with Some s => returned_all both_handlers (sessions s) | None => false end = true) as Hb
    by (vm_compute; reflexivity).
  destruct both_stored as [s|] eqn:Hs; [|discriminate Hb].
  pose proof (returned_all_stored both_handlers s Hb) as Hret.
  apply advance_all_steps in Hs.
  destruct (concurrent_Store_serializable _ _ both_requests ∅ (mkWorld {[ main_db := ∅ ]} 0) s both_compatible)
    as (order & v & vs & Hr & _ & Hser & _ & _ & _ & Hend).
  - split; intros a b e; rewrite lookup_empty; by intros [? ?].
  - exact empty_sha_keyed.
  - exists ∅. split; [apply lookup_singleton_eq|apply btable_rep_empty].
  - exact Hs.
  - destruct (Hend Hret) as (-> & Hp & Hown). exists s, order, vs. split_and!; assumption.
Defined.

#[local] Instance shared_total : BetaStoreTotal (World btable) := beta_total main_db.

Definition waits_first (s : beta_served (World btable)) : bool :=
  match sessions s !! 0 with
  | Some ses => match next_beta_call (store_handler (sample_request [sample_file])) (trace ses) with inl _ => true | inr _ => false end
  | None => false
  end.

(** What the first of them does when it is alone at the start, and the run goes on. *)
Lemma concurrent_Store_returns_witness :
  sn (beta_serve_step both_handlers) both_start /\
  exists s s', advance both_handlers 0 both_start = Some s /\ flow_step both_requests both_start s /\ flow_step both_requests s s'.
Proof.
  destruct (concurrent_Store_returns both_requests (mkWorld {[ main_db := ∅ ]} 0) ∅) as [Hends Hgoes].
  - exists ∅. split; [apply lookup_singleton_eq|apply btable_rep_empty].
  - intros req [i Hi]%list_elem_of_lookup. destruct i as [|[|i]]; [injection Hi as <-..|done]; do 3 eexists; reflexivity.
  - split; [exact Hends|].
    destruct (advance both_handlers 0 both_start) as [s|] eqn:Ha; [|discriminate Ha].
    assert (flow_step both_requests both_start s) as Hs.
    { split; [exists 0; by apply advance_step|]. injection Ha as <-.
      intros [|[|i]] ses; [intros [= <-]..|done]; [|constructor]. constructor; [by eexists|constructor]. }
    exists s. destruct (Hgoes s (rtc_once _ _ Hs)) as [Hall|[s' Hs']]; [|by exists s'].
    exfalso. assert (match advance both_handlers 0 both_start with Some s1 => waits_first s1 | None => false end = true) as Hw
      by (vm_compute; reflexivity).
    rewrite Ha in Hw. unfold waits_first in Hw. destruct (sessions s !! 0) as [ses|] eqn:Hi; [|discriminate Hw].
    rewrite (Hall 0 _ ses (eq_refl : both_handlers !! 0 = Some (store_handler (sample_request [sample_file]))) Hi) in Hw.
    discriminate Hw.
Defined.
