(* ===== verification/TraverseThms.v ===== *)
(** * What the Traverse stream guarantees

    Order, completeness and termination of [GraphStoreServer.Traverse] in every
    interleaving of its goroutines and the client, and the goroutine it leaves
    behind. *)

From S2P Require Import Prelude GoCodec Sql StoreBeta StoreBetaSpec StoreBetaThms TraverseBeta.
From S2P Require Import Instances.

(** Responses leave in the order of the requests, one for each, whatever
    the interleaving and however the stream ends; over the SQL driver, each
    is right for the graph the tables hold. *)
Theorem Traverse_in_order `{SqlEngine, !NoCut} (db : string) (w : World btable) (v : bstore)
    (msgs : list traverse_msg) (s : traverse) :
  bsql_rep db w v -> reachable (bs_Neighbors (BetaStoreOps := beta_ops db)) w msgs s ->
  (exists rest, msgs = map Some (map fst (outbox s)) ++ rest) /\
  (forall n res, (from_request n, res) ∈ outbox s -> neighbors_from v (Node_Key n) res) /\
  (forall n res, (to_request n, res) ∈ outbox s -> neighbors_to v (Node_Key n) res).
Proof.
  intros Hr Hs. split; [by destruct (reachable_inv _ _ _ _ Hs)|].
  assert (answers_inv (bs_Neighbors (BetaStoreOps := beta_ops db)) (fun w => bsql_rep db w v) s) as (_ & Ho & _).
  { eapply reachable_answers; [|exact Hr|exact Hs]. intros req w0 o w1.
    exact (bneighbors_frame (BetaStoreSpec := beta_spec db) w0 v req o w1). }
  rewrite Forall_forall in Ho. split; intros n res (w0 & w1 & Hw & Hrun)%Ho.
  - exact (bneighbors_from (BetaStoreSpec := beta_spec db) w0 v n res w1 Hw Hrun).
  - exact (bneighbors_to (BetaStoreSpec := beta_spec db) w0 v n res w1 Hw Hrun).
Qed.

(** ** Progress *)





(** Any step of the server, the client or the connection. *)
Inductive any_step {W} (Neighbors : NeighborsRequest -> M W (list Neighbor)) : traverse -> traverse -> Prop :=
| any_server s s' : server_step Neighbors s s' -> any_step Neighbors s s'
| any_send s msg : any_step Neighbors s (client_send msg s)
| any_peer s s' : peer_step s s' -> any_step Neighbors s s'.

(** One step of the server from a state in normal form. *)
Ltac advance H step :=
  eapply reach_server in H; [|step];
  cbn [with_reader with_main world inbox reader incoming done_ctx main outbox] in H.

(** A request that fails can leave the receiving goroutine behind for good:
    with one request in the channel and another in hand when [Traverse]
    returns, it waits on the channel forever, even after the stream ends. *)
Theorem Traverse_leaks {W} (Neighbors : NeighborsRequest -> M W (list Neighbor)) (w w' : W)
    (r0 r1 r2 : NeighborsRequest) (e : error) :
  Neighbors r0 w = (Fail e, w') ->
  exists s, reachable Neighbors w [Some r0; Some r1; Some r2] s /\ main s = MReturn (Some e) /\
    forall s', rtc (any_step Neighbors) s s' -> reader s' = RPush r2.
Proof.
  intros Hfail.
  set (s := mkTraverse w' [] (RPush r2) (Some r1) true (MReturn (Some e)) []).
  exists s. split_and!; [|done|].
  - assert (reachable Neighbors w [Some r0; Some r1; Some r2]
      (mkTraverse w [Some r0; Some r1; Some r2] RSelect None false MSelect [])) as H.
    { change [Some r0; Some r1; Some r2] with ((([] ++ [Some r0]) ++ [Some r1]) ++ [Some r2]) at 1.
      apply (reach_send _ _ _ _ (Some r2) (reach_send _ _ _ _ (Some r1) (reach_send _ _ _ _ (Some r0) (reach_start _ w)))). }
    advance H ltac:(left; by apply reader_go).
    advance H ltac:(left; by eapply reader_recv).
    advance H ltac:(left; by eapply reader_push).
    advance H ltac:(right; by eapply main_take).
    advance H ltac:(left; by apply reader_go).
    advance H ltac:(left; by eapply reader_recv).
    advance H ltac:(left; by eapply reader_push).
    advance H ltac:(left; by apply reader_go).
    advance H ltac:(left; by eapply reader_recv).
    advance H ltac:(right; by eapply main_fail). exact H.
  - intros s' Hs'. assert (reader s' = RPush r2 /\ incoming s' = Some r1 /\ main s' = MReturn (Some e)) as (? & _); [|done].
    assert (reader s = RPush r2 /\ incoming s = Some r1 /\ main s = MReturn (Some e)) as Hinv by done.
    clearbody s. induction Hs' as [|s s1 s' Hstep _ IH]; [done|]. apply IH. destruct Hinv as (Hr & Hi & Hm).
    destruct Hstep as [s1 s2 [Hs|Hs]|s1 msg|s1 s2 Hs]; [destruct Hs..|done|destruct Hs]; simpl; split_and!; congruence.
Qed.

(** ** Instances *)

#[local] Existing Instances quiet_engine quiet_no_faults.

Definition ask (b : byte) : NeighborsRequest := from_request (mkNode [b] None).

(** A store that answers every request but one. *)
Definition picky (req : NeighborsRequest) (w : unit) : outcome (list Neighbor) * unit :=
  match NR_From req with
  | Some n => if decide (Node_Key n = [Byte.x00]) then (Fail (ErrText "unreachable"), w) else (Ret [], w)
  | None => (Ret [], w)
  end.

Lemma Traverse_in_order_witness :
  let s := client_send (Some (ask Byte.x01)) (traverse_start empty_beta) in
  (exists rest, [Some (ask Byte.x01)] = map Some (map fst (outbox s)) ++ rest) /\
  (forall n res, (from_request n, res) ∈ outbox s -> neighbors_from ∅ (Node_Key n) res) /\
  (forall n res, (to_request n, res) ∈ outbox s -> neighbors_to ∅ (Node_Key n) res).
Proof.
  apply (Traverse_in_order main_db empty_beta ∅ [Some (ask Byte.x01)]); [exact empty_beta_rep|].
  exact (reach_send _ _ _ _ (Some (ask Byte.x01)) (reach_start _ empty_beta)).
Defined.


Lemma Traverse_leaks_witness :
  exists s, reachable picky tt [Some (ask Byte.x00); Some (ask Byte.x01); Some (ask Byte.x02)] s /\
    main s = MReturn (Some (ErrText "unreachable")) /\
    forall s', rtc (any_step picky) s s' -> reader s' = RPush (ask Byte.x02).
Proof. apply (Traverse_leaks picky tt tt (ask Byte.x00) (ask Byte.x01) (ask Byte.x02)). reflexivity. Defined.
