(* ===== verification/TopologyThms.v ===== *)
(** * What the topology command guarantees

    The theorems about topology.go and common.go of the command line client,
    with their instances. *)

From Stdlib Require Import Ascii.
From S2P Require Import Prelude GoCodec Api GraphSpec StoreAlpha KeysAlpha QueryAlpha SearchAlpha.
From S2P Require Import Topology TopologySpec.

(** A client that answers to the end of the stream. *)
Definition serves (client : SearchClient) : Prop :=
  sc_open client = None /\ sc_send client = None /\ sc_end client = None.

Definition rows_of (client : SearchClient) : list (string * list string) :=
  omap row_of (sc_responses client).

(** Every response names its module, each module once: what the breadth-first
    search sends. *)
Definition one_row_each (client : SearchClient) : Prop :=
  length (rows_of client) = length (sc_responses client) /\ NoDup (rows_of client).*1.

#[local] Arguments row_of : simpl never.

Lemma omap_row_cons r rs :
  omap row_of (r :: rs) = match row_of r with Some row => row :: omap row_of rs | None => omap row_of rs end.
Proof. reflexivity. Qed.

Lemma receive_total rs : length (omap row_of rs) = length rs -> forall t, exists t', ofold receive t rs = Ret t'.
Proof.
  assert (forall l, length (omap row_of l) <= length l) as Hle.
  { intros l. induction l as [|r l IH]; [done|]. rewrite omap_row_cons. destruct (row_of r); cbn [length]; lia. }
  induction rs as [|r rs IH]; intros Hlen t; [by eexists|].
  specialize (Hle rs). rewrite omap_row_cons in Hlen.
  destruct (row_of r) as [row|] eqn:Hrow; cbn [length] in Hlen; [|lia].
  unfold row_of in Hrow. cbn [ofold]. unfold receive at 1.
  destruct (source_of r) as [[source items]|]; [|done]. cbn [obind]. apply IH. lia.
Qed.

Lemma topology_run_tiers client request root :
  serves client -> one_row_each client -> root_key request = Ret root ->
  exists t tiers t',
    topology client request = Ret (Some (map (map (fun n => nodes t !! n)) tiers)) /\
    reads t (mentioned (rows_of client)) (parent (rows_of client)) /\
    head tiers = Some [root] /\ tiered (rows_of client) root tiers /\
    peeling (rows_of client) root (nodes t) (concat tiers) [] t'.
Proof.
  intros (Ho & Hs & He) [Hlen Hnd] Hroot.
  destruct (receive_total _ Hlen empty_topo) as [t Ht].
  destruct (receive_all _ _ Ht) as (rows & <- & _ & Hr & Hedges). fold (rows_of client) in *.
  specialize (Hedges Hnd). pose proof Hr as [Hn Hc Hps Hcl Hk].
  set (t0 := mkTopo (delete root (counter t)) (delete root (nodes t)) (edges t)).
  assert (peeling (rows_of client) root (nodes t) (concat []) [root] t0) as Hp.
  { split; simpl.
    - intros n. rewrite lookup_delete_is_Some, Hc, list_elem_of_singleton. naive_solver.
    - intros n ps [_ Hl]%lookup_delete_Some p. rewrite (Hps _ _ Hl), elem_of_nil. tauto.
    - intros n [_ Hl]%lookup_delete_Some p Hp. by apply (Hps _ _ Hl), elem_of_empty in Hp.
    - by intros k _.
    - intros n [? _]%lookup_delete_is_Some. by rewrite lookup_delete_ne.
    - apply NoDup_singleton.
    - by apply list_elem_of_singleton. }
  destruct (peel_tiers_spec (rows_of client) root (nodes t) Hnd (S (S (size (nodes t)))) [] [root] t0)
    as (tiers & t' & Hrun & [rest Hpre] & Hp' & Ht'); [done|exact Hp| | |].
  - intros [|j] M N HM HN; simpl in *; [done|]. by destruct j.
  - assert (dom (counter t0) ⊆ dom (nodes t)) as Hsub%subseteq_size.
    { intros n. rewrite !elem_of_dom, Hn, <- Hc. simpl. by intros [_ ?]%lookup_delete_is_Some. }
    rewrite (size_dom (nodes t)) in Hsub. lia.
  - exists t, tiers, t'. split_and!; [|done|by rewrite Hpre|done|done].
    unfold topology. rewrite Ho, Hs. simpl. rewrite Ht. simpl. rewrite He, Hroot. simpl.
    simpl in Hrun. by rewrite Hrun.
Qed.

(** C13. The topology of a module lists, tier by tier, the root and then every
    module whose parents are all listed, each exactly once and one tier after
    the last of its parents; no module is listed before one it is reached
    through, and the modules shown are those named in the responses. *)
Theorem topology_tiers (client : SearchClient) (request : SearchRequest) (root : string) :
  serves client -> one_row_each client -> root_key request = Ret root ->
  exists tiers (module_at : string -> option Module_),
    topology client request = Ret (Some (map (map module_at) tiers)) /\
    head tiers = Some [root] /\ NoDup (concat tiers) /\ tiered (rows_of client) root tiers /\
    (forall n, n ∈ concat tiers <-> emitted (rows_of client) root n) /\
    (forall n, is_Some (module_at n) <-> mentioned (rows_of client) n) /\
    (forall n m, module_at n = Some m -> topology_key m = n).
Proof.
  intros Hs Hrows Hroot.
  destruct (topology_run_tiers client request root Hs Hrows Hroot) as (t & tiers & t' & Hrun & Hr & Hhd & Ht & Hp).
  exists tiers, (fun n => nodes t !! n). destruct Hr as [Hn Hc Hps Hcl Hk]. split_and!; [done|done| |done| |done|done].
  - pose proof (p_distinct _ _ _ _ _ _ Hp) as Hnd. by rewrite app_nil_r in Hnd.
  - intros n. by eapply peeled_emitted.
Qed.

(** The modules listed, as an inductive set, and their records. *)
Lemma topology_run_emitted (client : SearchClient) (request : SearchRequest) (root : string) :
  serves client -> one_row_each client -> root_key request = Ret root ->
  exists tiers module_at, topology client request = Ret (Some (map (map module_at) tiers)) /\
    NoDup (concat tiers) /\ (forall n, n ∈ concat tiers <-> emitted (rows_of client) root n) /\
    (forall n, mentioned (rows_of client) n -> exists m, module_at n = Some m /\ topology_key m = n).
Proof.
  intros Hs Hrows Hroot.
  destruct (topology_run_tiers client request root Hs Hrows Hroot) as (t & tiers & t' & Hrun & Hr & Hhd & Ht & Hp).
  exists tiers, (fun n => nodes t !! n). split_and!; [done| |by intros n; eapply peeled_emitted|].
  - pose proof (p_distinct _ _ _ _ _ _ Hp) as Hnd. by rewrite app_nil_r in Hnd.
  - destruct Hr as [Hn _ _ _ Hk]. intros n [m Hm]%Hn. exists m. split; [done|by apply Hk].
Qed.

(** The topology of an acyclic graph, by induction along its edges. *)
Lemma emitted_complete (rows : list (string * list string)) (root n : string) :
  (forall n, mentioned rows n -> Acc (parent rows) n) ->
  (forall n, mentioned rows n -> rtc (parent rows) root n) ->
  emitted rows root n <-> n = root \/ mentioned rows n.
Proof.
  intros Hacc Hreach. split.
  - intros [|x p _ Hpx _]; [by left|]. right. right. by exists p.
  - intros [->|Hm]; [constructor|]. pose proof (Hacc n Hm) as Hn.
    induction Hn as [x _ IH]. destruct (decide (x = root)) as [->|Hne]; [constructor|].
    destruct (rtc_inv_r _ _ (Hreach x Hm)) as [->|(p & _ & Hpx)]; [done|].
    apply (emitted_child _ _ x p Hne Hpx). intros q Hq. apply (IH q Hq).
    destruct Hq as (deps & Hq & _). left. apply list_elem_of_fmap. by exists (q, deps).
Qed.

(** C22. When the modules reached from the root have no dependency cycle, the
    topology leaves none of them out. *)
Theorem topology_complete (client : SearchClient) (request : SearchRequest) (root : string) (rank : string -> nat) :
  serves client -> one_row_each client -> root_key request = Ret root ->
  (forall p n, parent (rows_of client) p n -> rank p < rank n) ->
  (forall n, mentioned (rows_of client) n -> rtc (parent (rows_of client)) root n) ->
  exists tiers module_at, topology client request = Ret (Some (map (map module_at) tiers)) /\
    NoDup (concat tiers) /\ forall n, n ∈ concat tiers <-> n = root \/ mentioned (rows_of client) n.
Proof.
  intros Hs Hrows Hroot Hrank Hreach.
  destruct (topology_run_emitted client request root Hs Hrows Hroot) as (tiers & module_at & Hrun & Hnd & Hall & _).
  exists tiers, module_at. split_and!; [done..|]. intros n. rewrite Hall. apply emitted_complete; [|done].
  intros x _. apply (wf_projected lt rank Hrank Nat.lt_wf_0).
Qed.

(** Modules that wait for each other are left out without an error: a set of
    modules each with a parent in the set, not containing the root, never
    appears, nor does any of its members' dependencies that has no other way. *)
Theorem topology_drops_cycles (client : SearchClient) (request : SearchRequest) (root : string)
    (C : string -> Prop) :
  serves client -> one_row_each client -> root_key request = Ret root ->
  ~ C root -> (forall n, C n -> exists p, C p /\ parent (rows_of client) p n) ->
  exists tiers module_at, topology client request = Ret (Some (map (map module_at) tiers)) /\
    forall n, C n -> n ∉ concat tiers.
Proof.
  intros Hs Hrows Hroot HC Hpar.
  destruct (topology_run_tiers client request root Hs Hrows Hroot) as (t & tiers & t' & Hrun & Hr & Hhd & Ht & Hp).
  exists tiers, (fun n => nodes t !! n). split; [done|]. intros n HCn.
  rewrite (peeled_emitted _ _ _ _ _ n Hhd Ht Hp). intros He. revert HCn.
  induction He as [|n p _ _ _ IH]; [done|]. intros (q & HCq & Hq)%Hpar. by apply (IH q).
Qed.

(** ** Names *)

Lemma split_at_append c x y : split_at c x = None -> split_at c (x +:+ String c y) = Some (x, y).
Proof.
  induction x as [|a x IH]; simpl; intros Hs; [by rewrite decide_True|].
  destruct (decide (a = c)); [done|]. destruct (split_at c x) as [[? ?]|]; [done|]. by rewrite IH.
Qed.

Lemma split_all_nonempty fuel c s : split_all fuel c s <> [].
Proof. destruct fuel; simpl; [done|]. by destruct (split_at c s) as [[? ?]|]. Qed.

(** A name always splits into an organization and a module, whatever the
    language, so that the two fields can be read; and splitting undoes
    writing [organization/module]. *)
Theorem parseName_roundtrip (language organization module : string) :
  (forall name, 2 <= length (parseName language name)) /\
  (split_at "/" organization = None ->
   (language ∉ ["java"; "node"; "js"]%string ->
      parseName language (organization +:+ String "/" module) = [organization; module]) /\
   (language ∈ ["node"; "js"]%string ->
      parseName language (String "@" (organization +:+ String "/" module)) = [organization; module])).
Proof.
  assert (forall l : list string, l <> [] -> 2 <= length (match l with [x] => ["_"%string; x] | _ => l end)) as Hlen.
  { intros [|x [|y l]]; simpl; [done|lia|lia]. }
  split; [|intros Hs; split].
  - intros name. unfold parseName. apply Hlen.
    repeat case_decide; [apply split_all_nonempty|..]; unfold split_two; by destruct (split_at _ _) as [[? ?]|].
  - rewrite !not_elem_of_cons. intros (H1 & H2 & H3 & _). unfold parseName.
    rewrite !decide_False by done. unfold split_two. by rewrite split_at_append.
  - intros Hl. assert (language <> "java"%string) as Hj.
    { intros ->. by rewrite !elem_of_cons, elem_of_nil in Hl; destruct Hl as [|[|]]. }
    unfold parseName. rewrite decide_False by done.
    assert (split_two "/" (drop_at (String "@" (organization +:+ String "/" module))) = [organization; module]) as ->.
    { assert (forall s, drop_at (String "@" s) = s) as -> by (intros s; reflexivity).
      unfold split_two. by rewrite split_at_append. }
    rewrite !elem_of_cons, elem_of_nil in Hl. destruct Hl as [->|[->|[]]]; done.
Qed.

(** ** Instances *)

Definition named (m : string) : DependencyRequest := mkDependencyRequest "go" "o" m "".
Definition on (m : string) : Dependency := mkDep (mkModule "go" "o" m "") (mkDepends "" "" [] "").
Definition answer (m : string) (ms : list string) : SearchResponse :=
  mkSearchResponse (dependencies_request (named m)) None (Some (map on ms)) None None.

(** A diamond, [r -> a, b -> c], and a cycle [x, y] below [c]. *)
Definition diamond : list SearchResponse :=
  [answer "r" ["a"; "b"]; answer "a" ["c"]; answer "b" ["c"]; answer "c" []].
Definition cyclic : list SearchResponse :=
  [answer "r" ["c"]; answer "c" ["x"]; answer "x" ["y"]; answer "y" ["x"]].
Definition client_of (rs : list SearchResponse) : SearchClient := mkSearchClient None None rs None.

Example diamond_tiers :
  topology (client_of diamond) (dependencies_request (named "r")) =
  Ret (Some (map (map (fun m => Some (mkModule "go" "o" m ""))) [["r"]; ["a"; "b"]; ["c"]]))%string.
Proof. vm_compute. reflexivity. Qed.

Example cyclic_tiers :
  topology (client_of cyclic) (dependencies_request (named "r")) =
  Ret (Some (map (map (fun m => Some (mkModule "go" "o" m ""))) [["r"]; ["c"]]))%string.
Proof. vm_compute. reflexivity. Qed.

Definition at_ (m : string) : string := "go|o|" +:+ m.

Lemma parent_pairs rows p n :
  parent rows p n <-> (p, n) ∈ concat (map (fun r => map (pair r.1) r.2) rows).
Proof.
  rewrite elem_of_concat_map. unfold parent. split.
  - intros (deps & Hr & Hn). exists (p, deps). split; [done|]. apply list_elem_of_fmap. by exists n.
  - intros ([q deps] & Hr & (m & [= -> ->] & Hm)%list_elem_of_fmap). by exists deps.
Qed.

Lemma client_serves rs : serves (client_of rs).
Proof. done. Qed.

Lemma diamond_rows : one_row_each (client_of diamond).
Proof. split; [reflexivity|]. apply (bool_decide_unpack _). vm_compute. exact I. Qed.
Lemma cyclic_rows : one_row_each (client_of cyclic).
Proof. split; [reflexivity|]. apply (bool_decide_unpack _). vm_compute. exact I. Qed.

Lemma topology_tiers_witness : exists tiers (module_at : string -> option Module_),
  topology (client_of diamond) (dependencies_request (named "r")) = Ret (Some (map (map module_at) tiers)) /\
  head tiers = Some [at_ "r"] /\ NoDup (concat tiers) /\ tiered (rows_of (client_of diamond)) (at_ "r") tiers /\
  (forall n, n ∈ concat tiers <-> emitted (rows_of (client_of diamond)) (at_ "r") n) /\
  (forall n, is_Some (module_at n) <-> mentioned (rows_of (client_of diamond)) n) /\
  (forall n m, module_at n = Some m -> topology_key m = n).
Proof.
  exact (topology_tiers (client_of diamond) (dependencies_request (named "r")) (at_ "r")
           (client_serves _) diamond_rows eq_refl).
Defined.

Definition depth (n : string) : nat :=
  if decide (n = at_ "r") then 0 else if decide (n = at_ "c") then 2 else 1.

Lemma diamond_depth p n : parent (rows_of (client_of diamond)) p n -> depth p < depth n.
Proof.
  rewrite parent_pairs. revert p n. cut (Forall (fun e => depth e.1 < depth e.2)
    (concat (map (fun r => map (pair r.1) r.2) (rows_of (client_of diamond))))).
  - rewrite Forall_forall. intros Hall p n Hin. exact (Hall (p, n) Hin).
  - apply (bool_decide_unpack _). vm_compute. exact I.
Qed.

Lemma diamond_edge p n :
  bool_decide ((p, n) ∈ concat (map (fun r => map (pair r.1) r.2) (rows_of (client_of diamond)))) = true ->
  parent (rows_of (client_of diamond)) p n.
Proof. intros He%bool_decide_eq_true. by apply parent_pairs. Qed.

Lemma diamond_reach n :
  mentioned (rows_of (client_of diamond)) n -> rtc (parent (rows_of (client_of diamond))) (at_ "r") n.
Proof.
  intros Hn. assert (n ∈ [at_ "r"; at_ "a"; at_ "b"; at_ "c"]) as Hin.
  { destruct Hn as [Hn|[p Hn]]; [exact Hn|]. apply parent_pairs in Hn.
    assert (n ∈ (concat (map (fun r => map (pair r.1) r.2) (rows_of (client_of diamond)))).*2) as Hn'
      by (apply list_elem_of_fmap; by exists (p, n)).
    change (n ∈ [at_ "a"; at_ "b"; at_ "c"; at_ "c"]) in Hn'. rewrite !elem_of_cons in *. tauto. }
  rewrite !elem_of_cons, elem_of_nil in Hin. destruct Hin as [->|[->|[->|[->|[]]]]].
  - apply rtc_refl.
  - apply rtc_once, diamond_edge. vm_compute. reflexivity.
  - apply rtc_once, diamond_edge. vm_compute. reflexivity.
  - apply rtc_l with (at_ "a"); [|apply rtc_once]; apply diamond_edge; vm_compute; reflexivity.
Qed.

Lemma topology_complete_witness : exists tiers module_at,
  topology (client_of diamond) (dependencies_request (named "r")) = Ret (Some (map (map module_at) tiers)) /\
  NoDup (concat tiers) /\
  forall n, n ∈ concat tiers <-> n = at_ "r" \/ mentioned (rows_of (client_of diamond)) n.
Proof.
  exact (topology_complete (client_of diamond) (dependencies_request (named "r")) (at_ "r") depth
           (client_serves _) diamond_rows eq_refl diamond_depth diamond_reach).
Defined.

Lemma topology_drops_cycles_witness : exists tiers module_at,
  topology (client_of cyclic) (dependencies_request (named "r")) = Ret (Some (map (map module_at) tiers)) /\
  forall n, (n = at_ "x" \/ n = at_ "y") -> n ∉ concat tiers.
Proof.
  apply (topology_drops_cycles (client_of cyclic) (dependencies_request (named "r")) (at_ "r")
           (fun n => n = at_ "x" \/ n = at_ "y") (client_serves _) cyclic_rows eq_refl).
  - intros [Heq|Heq]; discriminate.
  - intros n [->| ->]; [exists (at_ "y")|exists (at_ "x")]; (split; [tauto|]);
      apply parent_pairs; apply (bool_decide_unpack _); vm_compute; exact I.
Defined.

Lemma parseName_roundtrip_witness :
  (forall name, 2 <= length (parseName "go" name)) /\
  parseName "go" ("github.com" +:+ String "/" "depscloud/api") = ["github.com"; "depscloud/api"]%string.
Proof.
  destruct (parseName_roundtrip "go" "github.com" "depscloud/api") as [Hlen Hsplit]. split; [exact Hlen|].
  destruct (Hsplit eq_refl) as [Hgo _]. apply Hgo. apply (bool_decide_unpack _). vm_compute. exact I.
Defined.
