(* ===== verification/RemotesThms.v ===== *)
(** * What the remotes list

    The page loops against the paging contract of the hosting services, and
    the repositories each remote returns. *)

From S2P Require Import Prelude Remotes Instances.

Local Open Scope Z_scope.

Section Paging.
Context {W : Type} (Inv : W -> Prop).

(** The pages a service has for one listing: it answers [ps] in order, naming
    the next page, and then ends, or fails when [cut]. *)
Definition paged {A} (fetch : Z -> M W (list A * Z)) (ps : list (list A)) (cut : bool) : Prop :=
  (ps = [] -> cut = true) /\
  (forall i p w, ps !! i = Some p -> Inv w -> exists w', Inv w' /\
     fetch (Z.of_nat (S i)) w =
       (Ret (p, if bool_decide (S i < length ps)%nat || cut then Z.of_nat (S (S i)) else 0), w')) /\
  (cut = true -> forall w, Inv w -> exists e w', Inv w' /\ fetch (Z.of_nat (S (length ps))) w = (Fail e, w')).

(** A loop that goes on as long as there is a next page. *)
Definition follows (more : Z -> bool) : Prop := more 0 = false /\ forall i, more (Z.of_nat (S i)) = true.

Lemma pages_from {A} more (fetch : Z -> M W (list A * Z)) ps cut : paged fetch ps cut -> follows more ->
  forall n i fuel acc w, n = (length ps - i)%nat -> (i <= length ps)%nat -> (i = length ps -> cut = true) ->
  (n < fuel)%nat -> Inv w ->
  exists w', Inv w' /\ pages fuel more fetch (Z.of_nat (S i)) acc w = (Ret (Some (acc ++ concat (drop i ps))), w').
Proof.
  intros (Hne & Hpage & Hcut) [Hstop Hgo]. induction n as [|n IH]; intros i fuel acc w Hn Hi Hend Hfuel Hw.
  - assert (i = length ps) as -> by lia. destruct fuel as [|fuel]; [lia|].
    destruct (Hcut (Hend eq_refl) w Hw) as (e & w' & Hw' & Hf). exists w'. split; [done|].
    cbn [pages]. rewrite Hgo. cbn [negb]. rewrite Hf, drop_all. simpl. by rewrite app_nil_r.
  - destruct (lookup_lt_is_Some_2 ps i) as [p Hp]; [lia|]. destruct fuel as [|fuel]; [lia|].
    destruct (Hpage i p w Hp Hw) as (w1 & Hw1 & Hf). cbn [pages]. rewrite Hgo. cbn [negb]. rewrite Hf.
    rewrite (drop_S ps p i Hp). cbn [concat]. rewrite app_assoc.
    destruct (bool_decide (S i < length ps)%nat || cut) eqn:Hnext.
    + apply (IH (S i)); [lia|lia| |lia|done]. intros Heq. rewrite bool_decide_eq_false_2 in Hnext by lia. done.
    + apply orb_false_iff in Hnext as [Hlast%bool_decide_eq_false _].
      exists w1. split; [done|]. rewrite drop_ge by lia. destruct fuel; cbn [pages]; rewrite Hstop; cbn [negb concat];
        by rewrite app_nil_r.
Qed.

Lemma pages_all {A} more (fetch : Z -> M W (list A * Z)) ps cut fuel w :
  paged fetch ps cut -> follows more -> (length ps < fuel)%nat -> Inv w ->
  exists w', Inv w' /\ pages fuel more fetch 1 [] w = (Ret (Some (concat ps)), w').
Proof.
  intros Hp Hm Hfuel Hw. apply (pages_from more fetch ps cut Hp Hm (length ps) 0 fuel []); try lia; [|done].
  intros Heq. destruct Hp as (Hne & _). apply Hne. by destruct ps.
Qed.

(** Loops over owners that each add their part. *)
Lemma each_appends {A B} (f : list B -> A -> M W (option (list B))) (part : A -> list B) (l : list A) :
  forall acc w, Inv w ->
  (forall acc x w, x ∈ l -> Inv w -> exists w', Inv w' /\ f acc x w = (Ret (Some (acc ++ part x)), w')) ->
  exists w', Inv w' /\ each f acc l w = (Ret (Some (acc ++ concat (map part l))), w').
Proof.
  induction l as [|x l IH]; intros acc w Hw Hf; simpl.
  - exists w. by rewrite app_nil_r.
  - destruct (Hf acc x w ltac:(by left) Hw) as (w1 & Hw1 & Hx).
    unfold and_then, bind. rewrite Hx. rewrite app_assoc.
    apply IH; [done|]. intros acc' y w' Hy. apply Hf. by right.
Qed.
End Paging.

Lemma follows_not_zero : follows not_zero.
Proof. split; [done|]. intros i. unfold not_zero. by rewrite bool_decide_eq_false_2 by lia. Qed.
Lemma follows_positive : follows positive.
Proof. split; [done|]. intros i. unfold positive. by rewrite bool_decide_eq_true_2 by lia. Qed.

Lemma FromSlice_lookup items : forall (s : StringSet) x,
  is_Some (fold_left (fun res item => <[item := true]> res) items s !! x) <-> is_Some (s !! x) \/ x ∈ items.
Proof.
  induction items as [|y items IH]; intros s x; simpl.
  - rewrite elem_of_nil. tauto.
  - rewrite IH, lookup_insert_is_Some', elem_of_cons. naive_solver.
Qed.

Lemma Contains_FromSlice items x : Contains (FromSlice items) x = bool_decide (x ∈ items).
Proof.
  unfold Contains. apply bool_decide_ext. unfold FromSlice. rewrite FromSlice_lookup, lookup_empty.
  split; [intros [[? [=]]|?]; done|by right].
Qed.

(** The parts of the owners that are not skipped. *)
Lemma skipped_parts {A B} (conv : A -> B) (items : string -> list A) (skip os : list string) :
  concat (map (fun o => if decide (o ∈ skip) then [] else map conv (items o)) os) =
  map conv (concat (map items (filter (fun o => o ∉ skip) os))).
Proof.
  induction os as [|o os IH]; [done|]. simpl. rewrite IH, filter_cons.
  case_decide as Hs; [by rewrite decide_False by (intros Hn; by apply Hn)|].
  rewrite decide_True by done. simpl. by rewrite map_app.
Qed.

(** ** The remotes *)

Section Lists.
Context {W : Type} (Inv : W -> Prop).

(** What one owner has: its pages, and whether the listing breaks off. *)
Notation listing A := (string -> list (list A) * bool).
Definition items_of {A} (l : listing A) (owner : string) : list A := concat (l owner).1.

Lemma github_user_run (cfg : Github) (client : GithubClient W) (orgs : listing string)
    (repos : listing hosted) (fuel : nat) acc u w :
  paged Inv (gh_orgs client u) (orgs u).1 (orgs u).2 -> paged Inv (gh_repos client u) (repos u).1 (repos u).2 ->
  (length (orgs u).1 < fuel)%nat -> (length (repos u).1 < fuel)%nat -> Inv w ->
  exists w', Inv w' /\ github_user cfg client fuel acc u w =
    (Ret (Some (acc.1 ++ items_of orgs u,
       acc.2 ++ map (to_repository (clone_config (GH_Clone cfg) (GH_Strategy cfg))) (items_of repos u))), w').
Proof.
  intros Ho Hr Hfo Hfr Hw.
  destruct (pages_all Inv not_zero _ _ _ fuel w Ho follows_not_zero Hfo Hw) as (w1 & Hw1 & Hrun1).
  destruct (pages_all Inv not_zero _ _ _ fuel w1 Hr follows_not_zero Hfr Hw1) as (w2 & Hw2 & Hrun2).
  exists w2. split; [done|]. unfold github_user, and_then, bind, ret. by rewrite Hrun1, Hrun2.
Qed.

(** The GitHub remote returns the repositories of the configured users and
    of every organization, configured or found through a user, that is not
    skipped, each with the address of the clone strategy; a listing that
    breaks off costs the pages after the failure and nothing else. *)
Theorem github_lists (cfg : Github) (client : GithubClient W) (orgs : listing string)
    (repos org_repos : listing hosted) (fuel : nat) (w : W) :
  (forall u, u ∈ GH_Users cfg -> paged Inv (gh_orgs client u) (orgs u).1 (orgs u).2 /\
     paged Inv (gh_repos client u) (repos u).1 (repos u).2 /\
     (length (orgs u).1 < fuel)%nat /\ (length (repos u).1 < fuel)%nat) ->
  (forall o, paged Inv (gh_org_repos client o) (org_repos o).1 (org_repos o).2 /\
     (length (org_repos o).1 < fuel)%nat) ->
  Inv w ->
  exists w', Inv w' /\ github_FetchRepositories cfg client fuel w =
    (Ret (Some (map (to_repository (clone_config (GH_Clone cfg) (GH_Strategy cfg)))
      (concat (map (items_of repos) (GH_Users cfg)) ++
       concat (map (items_of org_repos) (filter (fun o => o ∉ GH_SkipOrganizations cfg)
         (GH_Organizations cfg ++ concat (map (items_of orgs) (GH_Users cfg)))))))), w').
Proof.
  intros Husers Horgs Hw. set (conv := to_repository (clone_config (GH_Clone cfg) (GH_Strategy cfg))).
  assert (forall us acc w, Inv w -> (forall u, u ∈ us -> u ∈ GH_Users cfg) -> exists w', Inv w' /\
    each (github_user cfg client fuel) acc us w =
      (Ret (Some (acc.1 ++ concat (map (items_of orgs) us),
                  acc.2 ++ map conv (concat (map (items_of repos) us)))), w')) as Hall.
  { induction us as [|u us IH]; intros [os rs] w0 Hw0 Hin; simpl; [exists w0; by rewrite !app_nil_r|].
    destruct (Husers u ltac:(apply Hin; by left)) as (Ho & Hr & Hfo & Hfr).
    destruct (github_user_run cfg client orgs repos fuel (os, rs) u w0 Ho Hr Hfo Hfr Hw0) as (w1 & Hw1 & Hrun1).
    fold conv in Hrun1. cbn [fst snd] in Hrun1.
    destruct (IH (os ++ items_of orgs u, rs ++ map conv (items_of repos u)) w1 Hw1) as (w2 & Hw2 & Hrun2);
      [intros x Hx; apply Hin; by right|].
    exists w2. split; [done|]. unfold and_then, bind. rewrite Hrun1, Hrun2. cbn [fst snd].
    by rewrite map_app, <- !app_assoc. }
  destruct (Hall (GH_Users cfg) (GH_Organizations cfg, []) w Hw ltac:(done)) as (w1 & Hw1 & Hrun1).
  unfold github_FetchRepositories, and_then at 1, bind at 1. rewrite Hrun1. cbn [fst snd app].
  set (os := GH_Organizations cfg ++ _).
  destruct (each_appends Inv (github_organization cfg client fuel)
    (fun o => if decide (o ∈ GH_SkipOrganizations cfg) then [] else map conv (items_of org_repos o)) os
    (map conv (concat (map (items_of repos) (GH_Users cfg)))) w1 Hw1) as (w2 & Hw2 & Hrun2).
  { intros acc o w0 _ Hw0. unfold github_organization. rewrite Contains_FromSlice.
    case_decide as Hskip; [rewrite bool_decide_eq_true_2 by done; exists w0; by rewrite app_nil_r|].
    rewrite bool_decide_eq_false_2 by done. destruct (Horgs o) as [Hp Hfuel].
    destruct (pages_all Inv not_zero _ _ _ fuel w0 Hp follows_not_zero Hfuel Hw0) as (w3 & Hw3 & Hrun3).
    exists w3. split; [done|]. unfold and_then, bind, ret. by rewrite Hrun3. }
  exists w2. split; [done|]. by rewrite Hrun2, skipped_parts, map_app.
Qed.

(** The GitLab remote returns the projects of the configured users and of
    every group the service lists, besides the configured ones, that is not
    skipped, each group once. *)
Theorem gitlab_lists `{MapRange} (cfg : Gitlab) (client : GitlabClient W) (groups : list (list string) * bool)
    (projects group_projects : listing hosted) (fuel : nat) (w : W) :
  paged Inv (gl_groups client) groups.1 groups.2 -> (length groups.1 < fuel)%nat ->
  (forall u, u ∈ GL_Users cfg -> paged Inv (gl_user_projects client u) (projects u).1 (projects u).2 /\
     (length (projects u).1 < fuel)%nat) ->
  (forall g, paged Inv (gl_group_projects client g) (group_projects g).1 (group_projects g).2 /\
     (length (group_projects g).1 < fuel)%nat) ->
  Inv w ->
  exists gs w', NoDup gs /\
    (forall g, g ∈ gs <-> (g ∈ GL_Groups cfg \/ g ∈ concat groups.1) /\ g ∉ GL_SkipGroups cfg) /\ Inv w' /\
    gitlab_FetchRepositories cfg client fuel w =
      (Ret (Some (map (to_repository (clone_config (GL_Clone cfg) (GL_Strategy cfg)))
        (concat (map (items_of projects) (GL_Users cfg)) ++ concat (map (items_of group_projects) gs)))), w').
Proof.
  intros Hgroups Hfg Husers Hprojects Hw. set (conv := to_repository (clone_config (GL_Clone cfg) (GL_Strategy cfg))).
  destruct (pages_all Inv positive _ _ _ fuel w Hgroups follows_positive Hfg Hw) as (w1 & Hw1 & Hrun1).
  destruct (each_appends Inv (gitlab_user cfg client fuel) (fun u => map conv (items_of projects u)) (GL_Users cfg)
    [] w1 Hw1) as (w2 & Hw2 & Hrun2).
  { intros acc u w0 Hu Hw0. destruct (Husers u Hu) as [Hp Hf].
    destruct (pages_all Inv positive _ _ _ fuel w0 Hp follows_positive Hf Hw0) as (w3 & Hw3 & Hrun3).
    exists w3. split; [done|]. unfold gitlab_user, and_then, bind, ret. by rewrite Hrun3. }
  set (all := range_map (FromSlice (GL_Groups cfg ++ concat groups.1))).
  destruct (each_appends Inv (gitlab_group cfg client fuel)
    (fun g => if decide (g.1 ∈ GL_SkipGroups cfg) then [] else map conv (items_of group_projects g.1)) all
    ([] ++ concat (map (fun u => map conv (items_of projects u)) (GL_Users cfg))) w2 Hw2) as (w3 & Hw3 & Hrun3).
  { intros acc [g b] w0 _ Hw0. unfold gitlab_group. cbn [fst]. rewrite Contains_FromSlice.
    case_decide as Hskip; [rewrite bool_decide_eq_true_2 by done; exists w0; by rewrite app_nil_r|].
    rewrite bool_decide_eq_false_2 by done. destruct (Hprojects g) as [Hp Hf].
    destruct (pages_all Inv positive _ _ _ fuel w0 Hp follows_positive Hf Hw0) as (w4 & Hw4 & Hrun4).
    exists w4. split; [done|]. unfold and_then, bind, ret. by rewrite Hrun4. }
  exists (filter (fun g => g ∉ GL_SkipGroups cfg) all.*1), w3. split_and!; [| |done|].
  - apply NoDup_filter. unfold all. rewrite (fmap_Permutation fst _ _ (range_perm _ _)). apply NoDup_fst_map_to_list.
  - intros g. rewrite list_elem_of_filter. unfold all.
    assert (g ∈ (range_map (FromSlice (GL_Groups cfg ++ concat groups.1))).*1 <->
      g ∈ GL_Groups cfg ++ concat groups.1) as ->; [|rewrite elem_of_app; tauto].
    rewrite (fmap_Permutation fst _ _ (range_perm _ _)), list_elem_of_fmap. split.
    + intros ([g' b] & -> & Hg%elem_of_map_to_list). simpl.
      assert (is_Some (FromSlice (GL_Groups cfg ++ concat groups.1) !! g')) as Hs by (by eexists).
      unfold FromSlice in Hs. apply FromSlice_lookup in Hs as [[? Hs]|]; [by rewrite lookup_empty in Hs|done].
    + intros Hg. assert (is_Some (FromSlice (GL_Groups cfg ++ concat groups.1) !! g)) as [b Hb]
        by (unfold FromSlice; rewrite FromSlice_lookup; by right).
      exists (g, b). by rewrite elem_of_map_to_list.
  - unfold gitlab_FetchRepositories, and_then, bind. rewrite Hrun1. fold all. rewrite Hrun2. cbn [app] in Hrun3 |- *.
    rewrite Hrun3. do 3 f_equal. rewrite map_app. f_equal.
    + rewrite concat_map, map_map. done.
    + rewrite <- skipped_parts, map_map. done.
Qed.

(** ** Bitbucket *)

(** The pages of an owner, as converted: full ones, and a last one that is not. *)
Definition short_last (list_repos : Z -> M W json) (conf : Clone) (rrs : list (list Repository)) : Prop :=
  rrs <> [] /\ forall i rr w, rrs !! i = Some rr -> Inv w ->
    (Z.of_nat (length rr) < pageLen <-> S i = length rrs) /\
    exists j w', Inv w' /\ list_repos (Z.of_nat (S i)) w = (Ret j, w') /\ convertRepositoriesResponse j conf = Ret rr.

Lemma bitbucket_pages_from list_repos conf rrs : short_last list_repos conf rrs ->
  forall n i fuel acc w, n = (length rrs - i)%nat -> (i < length rrs)%nat -> (n <= fuel)%nat -> Inv w ->
  exists w', Inv w' /\ bitbucket_pages fuel conf list_repos (Z.of_nat (S i)) acc w =
    (Ret (Some (acc ++ concat (drop i rrs))), w').
Proof.
  intros [Hne Hpage]. induction n as [|n IH]; intros i fuel acc w Hn Hi Hfuel Hw; [lia|].
  destruct (lookup_lt_is_Some_2 rrs i Hi) as [rr Hrr]. destruct fuel as [|fuel]; [lia|].
  destruct (Hpage i rr w Hrr Hw) as (Hlast & j & w1 & Hw1 & Hrun & Hconv).
  rewrite (drop_S rrs rr i Hrr). cbn [bitbucket_pages concat]. rewrite Hrun. unfold bind, lift. rewrite Hconv.
  destruct (decide (S i = length rrs)) as [Heq|Hneq].
  - rewrite bool_decide_eq_true_2 by (by apply Hlast). exists w1. split; [done|].
    rewrite drop_ge by lia. simpl. by rewrite app_nil_r.
  - rewrite bool_decide_eq_false_2 by (by rewrite Hlast). rewrite app_assoc.
    replace (Z.of_nat (S i) + 1) with (Z.of_nat (S (S i))) by lia. apply IH; [lia|lia|lia|done].
Qed.

(** The Bitbucket remote returns the repositories on every page of the users
    and of the teams that are not skipped, as long as only the last page of an
    owner converts to fewer than ten of them. *)
Theorem bitbucket_lists (cfg : Bitbucket) (client : string -> Z -> Z -> M W json)
    (owned : string -> list (list Repository)) (fuel : nat) (w : W) :
  (forall o, short_last (fun page => client o page pageLen) (clone_config (BB_Clone cfg) (BB_Strategy cfg)) (owned o) /\
     (length (owned o) <= fuel)%nat) ->
  Inv w ->
  exists w', Inv w' /\ bitbucket_FetchRepositories cfg client fuel w =
    (Ret (Some (concat (map (fun o => concat (owned o)) (BB_Users cfg)) ++
       concat (map (fun o => concat (owned o)) (filter (fun o => o ∉ BB_SkipTeams cfg) (BB_Teams cfg))))), w').
Proof.
  intros Hown Hw.
  assert (forall skip os acc w, Inv w -> exists w', Inv w' /\
    each (bitbucket_owner cfg client (FromSlice skip) fuel) acc os w =
      (Ret (Some (acc ++ concat (map (fun o => if decide (o ∈ skip) then [] else map id (concat (owned o))) os))), w')) as Hall.
  { intros skip os acc w0 Hw0. apply (each_appends Inv); [done|]. intros acc' o w1 _ Hw1. unfold bitbucket_owner.
    rewrite Contains_FromSlice. case_decide; [rewrite bool_decide_eq_true_2 by done; exists w1; by rewrite app_nil_r|].
    rewrite bool_decide_eq_false_2 by done. destruct (Hown o) as [Hs Hf]. rewrite map_id.
    apply (bitbucket_pages_from _ _ _ Hs (length (owned o)) 0 fuel); [lia| |lia|done].
    destruct Hs as [Hne _]. destruct (owned o); [done|simpl; lia]. }
  destruct (Hall [] (BB_Users cfg) [] w Hw) as (w1 & Hw1 & Hrun1).
  destruct (Hall (BB_SkipTeams cfg) (BB_Teams cfg) (concat (map (fun o => concat (owned o)) (BB_Users cfg))) w1 Hw1)
    as (w2 & Hw2 & Hrun2).
  assert (filter (fun o => o ∉ []) (BB_Users cfg) = BB_Users cfg) as Hno.
  { clear. induction (BB_Users cfg) as [|o os IH]; [done|]. rewrite filter_cons.
    rewrite decide_True by (apply not_elem_of_nil). by rewrite IH. }
  rewrite skipped_parts, map_id in Hrun1, Hrun2. rewrite Hno in Hrun1. exists w2. split; [done|].
  unfold bitbucket_FetchRepositories, and_then, bind. change (∅ : StringSet) with (FromSlice []). by rewrite Hrun1.
Qed.

(** When the service keeps refusing the listing of a user, the Bitbucket
    remote asks for one page after the other and never returns. *)
Theorem bitbucket_stalls (cfg : Bitbucket) (client : string -> Z -> Z -> M W json) (user : string) (users : list string) :
  BB_Users cfg = user :: users ->
  (forall page w, Inv w -> exists e w', Inv w' /\ client user page pageLen w = (Fail e, w')) ->
  forall fuel w, Inv w -> exists w', bitbucket_FetchRepositories cfg client fuel w = (Ret None, w').
Proof.
  intros Husers Hfail fuel w Hw.
  assert (forall f page acc w, Inv w -> exists w', bitbucket_pages f (clone_config (BB_Clone cfg) (BB_Strategy cfg))
    (fun page => client user page pageLen) page acc w = (Ret None, w')) as Hstall.
  { induction f as [|f IH]; intros page acc w0 Hw0; simpl; [by eexists|].
    destruct (Hfail page w0 Hw0) as (e & w1 & Hw1 & Hrun). rewrite Hrun. by apply IH. }
  destruct (Hstall fuel 1 [] w Hw) as [w' Hrun]. exists w'.
  unfold bitbucket_FetchRepositories, and_then at 1, bind at 1. rewrite Husers. cbn [each].
  unfold and_then at 1, bind at 1, bitbucket_owner at 1.
  assert (Contains ∅ user = false) as -> by done. by rewrite Hrun.
Qed.

(** The composite returns what the remotes that answer return, in their
    order, and leaves out the ones that fail. *)
Theorem composite_collects (remotes : list (Remote (W := W))) (answers : list (option (list Repository)))
    (fuel : nat) (w : W) :
  Forall2 (fun r answer => forall w, Inv w -> exists w', Inv w' /\
     match answer with
     | Some l => r fuel w = (Ret (Some l), w')
     | None => exists e, r fuel w = (Fail e, w')
     end) remotes answers ->
  Inv w ->
  exists w', Inv w' /\
    composite_FetchRepositories remotes fuel w = (Ret (Some (concat (map (default []) answers))), w').
Proof.
  intros Hr Hinv. unfold composite_FetchRepositories.
  cut (forall acc w, Inv w -> exists w', Inv w' /\ each (composite_one fuel) acc remotes w =
    (Ret (Some (acc ++ concat (map (default []) answers))), w')); [intros Hall; exact (Hall [] w Hinv)|].
  clear w Hinv. induction Hr as [|r answer rs answers Hr _ IH]; intros acc w Hw; simpl; [exists w; by rewrite app_nil_r|].
  destruct (Hr w Hw) as (w1 & Hw1 & Ha). unfold and_then at 1, bind at 1, composite_one at 1.
  destruct answer as [l|]; simpl.
  - rewrite Ha, app_assoc. by apply IH.
  - destruct Ha as [e ->]. by apply IH.
Qed.
End Lists.

(** ** Instances *)

(** A service with fixed pages; an owner it does not know has none. *)
Definition serve_pages {A} (l : list (list A) * bool) (page : Z) : M unit (list A * Z) := fun w =>
  match l.1 !! Z.to_nat (page - 1) with
  | Some p => (Ret (p, if bool_decide (page < Z.of_nat (length l.1)) || l.2 then page + 1 else 0), w)
  | None => (Fail (ErrText "404"), w)
  end.

Lemma serve_pages_paged {A} (l : list (list A) * bool) :
  (l.1 = [] -> l.2 = true) -> paged (fun _ => True) (serve_pages l) l.1 l.2.
Proof.
  intros Hne. split; [done|]. split.
  - intros i p w Hp _. exists w. split; [done|]. unfold serve_pages.
    replace (Z.to_nat (Z.of_nat (S i) - 1)) with i by lia. rewrite Hp.
    rewrite (bool_decide_ext (Z.of_nat (S i) < Z.of_nat (length l.1)) (S i < length l.1)%nat) by lia.
    destruct (_ || _); do 3 f_equal. lia.
  - intros _ w _. exists (ErrText "404"), w. split; [done|]. unfold serve_pages.
    by rewrite (proj2 (lookup_ge_None l.1 _)) by lia.
Qed.

Definition fixed {A} (known : list (string * (list (list A) * bool))) (owner : string) : list (list A) * bool :=
  match find (fun e => bool_decide (e.1 = owner)) known with Some e => e.2 | None => ([], true) end.

Definition both (name : string) : hosted := mkHosted ("https://" +:+ name) ("git@" +:+ name).
Definition sample_orgs := fixed [("ann", ([["acme"; "spam"]], false))]%string.
Definition sample_repos := fixed [("ann", ([[both "a1"]; [both "a2"]], false))]%string.
Definition sample_org_repos := fixed [("acme", ([[both "c1"]], true)); ("spam", ([[both "s"]], false))]%string.
Definition sample_github : GithubClient unit :=
  mkGithubClient unit (fun o => serve_pages (sample_orgs o)) (fun o => serve_pages (sample_repos o))
    (fun o => serve_pages (sample_org_repos o)).
Definition sample_cfg : Github :=
  mkGithub "" "" ["ann"%string] [] CloneStrategy_HTTP None ["spam"%string] None.

Lemma sample_bound {A} (known : list (string * (list (list A) * bool))) o :
  Forall (fun e => length e.2.1 <= 2)%nat known -> (length (fixed known o).1 < 3)%nat.
Proof.
  intros Hall. unfold fixed. destruct (find _ known) as [e|] eqn:He; [|simpl; lia].
  apply find_some in He as [Hin _]. rewrite Forall_forall in Hall. apply list_elem_of_In in Hin. apply Hall in Hin. lia.
Qed.

Lemma sample_nonempty {A} (known : list (string * (list (list A) * bool))) o :
  Forall (fun e => e.2.1 <> []) known -> (fixed known o).1 = [] -> (fixed known o).2 = true.
Proof.
  intros Hall. unfold fixed. destruct (find _ known) as [e|] eqn:He; [|done].
  apply find_some in He as [Hin _]. rewrite Forall_forall in Hall. apply list_elem_of_In in Hin. by apply Hall in Hin.
Qed.

Lemma github_lists_witness : exists w', True /\ github_FetchRepositories sample_cfg sample_github 3%nat tt =
  (Ret (Some [mkRepository "https://a1" (Some (mkClone CloneStrategy_HTTP None None));
              mkRepository "https://a2" (Some (mkClone CloneStrategy_HTTP None None));
              mkRepository "https://c1" (Some (mkClone CloneStrategy_HTTP None None))]), w').
Proof.
  refine (github_lists (fun _ => True) sample_cfg sample_github sample_orgs sample_repos sample_org_repos 3%nat tt _ _ I).
  - intros u _. split_and!; [apply serve_pages_paged, sample_nonempty|apply serve_pages_paged, sample_nonempty|
      apply sample_bound|apply sample_bound]; repeat constructor; simpl; (lia || discriminate).
  - intros o. split; [apply serve_pages_paged, sample_nonempty|apply sample_bound];
      repeat constructor; simpl; (lia || discriminate).
Defined.

Definition sample_gitlab : GitlabClient unit :=
  mkGitlabClient unit (serve_pages ([["public"; "core"]], false)%string) (fun o => serve_pages (sample_repos o))
    (fun o => serve_pages (sample_org_repos o)).

#[local] Existing Instance map_order.

Lemma gitlab_lists_witness : exists gs w', NoDup gs /\
  (forall g, g ∈ gs <-> (g ∈ ["core"] \/ g ∈ ["public"; "core"]) /\ g ∉ ["public"])%string /\ True /\
  gitlab_FetchRepositories (mkGitlab "" ["ann"] ["core"] CloneStrategy_SSH None ["public"] None)%string sample_gitlab 3%nat tt =
    (Ret (Some (map (to_repository (mkClone CloneStrategy_SSH None None))
       (concat (map (items_of sample_repos) ["ann"%string]) ++ concat (map (items_of sample_org_repos) gs)))), w').
Proof.
  refine (gitlab_lists (fun _ => True) (mkGitlab "" ["ann"] ["core"] CloneStrategy_SSH None ["public"] None)%string
    sample_gitlab ([["public"; "core"]], false)%string sample_repos sample_org_repos 3%nat tt _ _ _ _ I).
  - apply serve_pages_paged. discriminate.
  - simpl. lia.
  - intros u _. split; [apply serve_pages_paged, sample_nonempty|apply sample_bound];
      repeat constructor; simpl; (lia || discriminate).
  - intros o. split; [apply serve_pages_paged, sample_nonempty|apply sample_bound];
      repeat constructor; simpl; (lia || discriminate).
Defined.

(** One repository with both links. *)
Definition bb_page : json :=
  JObj [("values", JArr [JObj [("links", JObj [("clone", JArr
    [JObj [("name", JStr "https"); ("href", JStr "https://b")]; JObj [("name", JStr "ssh"); ("href", JStr "git@b")]])])]])]%string.
Definition sample_bitbucket (owner : string) (page len : Z) : M unit json := ret bb_page.
Definition bb_cfg (users : list string) : Bitbucket := mkBitbucket users ["team"; "old"]%string CloneStrategy_SSH None ["old"%string] None.

Lemma bitbucket_lists_witness : exists w', True /\
  bitbucket_FetchRepositories (bb_cfg ["ann"%string]) sample_bitbucket 1%nat tt =
  (Ret (Some [mkRepository "git@b" (Some (mkClone CloneStrategy_SSH None None));
              mkRepository "git@b" (Some (mkClone CloneStrategy_SSH None None))]), w').
Proof.
  refine (bitbucket_lists (fun _ => True) (bb_cfg ["ann"%string]) sample_bitbucket
    (fun _ => [[mkRepository "git@b" (Some (mkClone CloneStrategy_SSH None None))]]) 1%nat tt _ I).
  intros o. split; [|done]. split; [done|]. intros [|i] rr w Hrr _; [|by destruct i].
  injection Hrr as <-. split; [done|]. exists bb_page, w. by split_and!.
Defined.

Lemma bitbucket_stalls_witness : exists w',
  bitbucket_FetchRepositories (bb_cfg ["ann"%string]) (fun _ _ _ => fail (ErrText "401")) 1000%nat tt = (Ret None, w').
Proof.
  apply (bitbucket_stalls (fun _ => True) (bb_cfg ["ann"%string]) (fun _ _ _ => fail (ErrText "401")) "ann" [] eq_refl);
    [|done]. intros page w _. by exists (ErrText "401"), w.
Defined.

Lemma composite_collects_witness : exists w', True /\
  composite_FetchRepositories [(fun _ => fail (ErrText "down")); static_FetchRepositories (mkStatic ["x"%string] None)]
    5%nat tt = (Ret (Some [mkRepository "x" None]), w').
Proof.
  refine (composite_collects (fun _ => True)
    [(fun _ => fail (ErrText "down")); static_FetchRepositories (mkStatic ["x"%string] None)]
    [None; Some [mkRepository "x" None]] 5%nat tt _ I).
  constructor; [|constructor; [|constructor]]; intros w _; exists w; split; [done| |done|done].
  by exists (ErrText "down").
Defined.
