(* ===== verification/ConsumerThms.v ===== *)
(** * What consuming a repository guarantees

    The walk over the clone, the report to the tracker, and the worker pool. *)

From S2P Require Import Prelude Api Remotes Consumer.

(** ** The walk *)

Section Walk.
Variable t : tree.

Definition is_dir (p : path) : Prop := exists entries, resolve t p = Some (Dir entries).
Definition is_file (p : path) : Prop :=
  (exists contents, resolve t p = Some (File contents)) \/ (exists opens, resolve t p = Some (Link opens)).

Lemma is_file_IsDir p : is_file p <-> exists u, resolve t p = Some u /\ IsDir u = false.
Proof.
  unfold is_file. split; [intros [[c ->]|[f ->]]; by eexists|].
  intros ([c|es|f] & -> & Hu); [left|done|right]; by eexists.
Qed.

(** No directory has two entries of one name. *)
Definition proper : Prop := forall p entries, resolve t p = Some (Dir entries) -> NoDup entries.*1.

Lemma resolve_app u p q : resolve u (p ++ q) = resolve u p ≫= fun u' => resolve u' q.
Proof.
  revert u. induction p as [|n p IH]; intros u; simpl; [done|].
  destruct u as [c|entries|f]; [done| |done]. by destruct (entry n entries).
Qed.

Lemma entry_Some n entries u : NoDup entries.*1 -> entry n entries = Some u <-> (n, u) ∈ entries.
Proof.
  induction entries as [|[m v] es IH]; simpl; intros Hnd; [by rewrite elem_of_nil|].
  apply NoDup_cons in Hnd as [Hm Hnd]. rewrite elem_of_cons. case_decide as Hnm.
  - split; [intros [= ->]; left; by subst|]. intros [[= -> ->]|Hin]; [done|]. subst m.
    exfalso. apply Hm. apply list_elem_of_fmap. by exists (n, u).
  - rewrite IH by done. split; [by right|]. by intros [[= -> ->]|?].
Qed.

Definition subdirs (p : path) : list path :=
  map (fun f => p ++ [f.1]) (filter (fun f : string * bool => f.2 = true) (ReadDir t p)).
Definition subfiles (p : path) : list path :=
  map (fun f => p ++ [f.1]) (filter (fun f : string * bool => f.2 <> true) (ReadDir t p)).

Lemma visit_run acc p : visit t acc p = (acc.1 ++ subdirs p, acc.2 ++ subfiles p).
Proof.
  unfold visit, subdirs, subfiles. revert acc. induction (ReadDir t p) as [|[n b] fs IH]; intros [ds ps].
  - by rewrite !app_nil_r.
  - cbn [fold_left fst snd]. rewrite IH, !filter_cons. cbn [fst snd]. destruct b.
    + rewrite decide_True, decide_False by (done || by intros []). simpl. by rewrite <- app_assoc.
    + rewrite decide_False, decide_True by done. simpl. by rewrite <- app_assoc.
Qed.

Lemma visit_all queue : forall acc,
  fold_left (visit t) queue acc = (acc.1 ++ concat (map subdirs queue), acc.2 ++ concat (map subfiles queue)).
Proof.
  induction queue as [|p queue IH]; intros [ds ps]; simpl; [by rewrite !app_nil_r|].
  rewrite visit_run, IH. simpl. by rewrite <- !app_assoc.
Qed.

Hypothesis Hproper : proper.

Lemma elem_of_ReadDir p n b :
  (n, b) ∈ ReadDir t p <-> exists u, resolve t (p ++ [n]) = Some u /\ b = IsDir u.
Proof.
  assert (forall r : option tree, r = None -> (n, b) ∈ ([] : list (string * bool)) <->
    exists u, r = Some u /\ b = IsDir u) as Hnone by (intros r ->; rewrite elem_of_nil; naive_solver).
  unfold ReadDir. rewrite resolve_app. destruct (resolve t p) as [[c|entries|f]|] eqn:Hp; simpl;
    [by apply Hnone| |by apply Hnone|by apply Hnone].
  - rewrite list_elem_of_fmap. pose proof (fun u => entry_Some n entries u (Hproper p entries Hp)) as He. split.
    + intros ([m u] & [= -> ->] & Hin). exists u. apply He in Hin. by rewrite Hin.
    + intros (u & Hu & ->). destruct (entry n entries) as [u'|] eqn:Hn; [|done]. simplify_eq.
      exists (n, u). split; [done|]. by apply He.
Qed.

Lemma elem_of_subdirs p q : q ∈ subdirs p <-> (exists n, q = p ++ [n]) /\ is_dir q.
Proof.
  unfold subdirs, is_dir. rewrite list_elem_of_fmap. setoid_rewrite list_elem_of_filter. split.
  - intros ([n b] & -> & Hb & Hin). simpl in *. subst b. split; [by exists n|].
    apply elem_of_ReadDir in Hin as (u & Hu & Heq). destruct u as [|entries|]; [done| |done]. by exists entries.
  - intros ((n & ->) & entries & He). exists (n, true). split_and!; [done|done|].
    apply elem_of_ReadDir. by exists (Dir entries).
Qed.

Lemma elem_of_subfiles p q : q ∈ subfiles p <-> (exists n, q = p ++ [n]) /\ is_file q.
Proof.
  unfold subfiles. rewrite is_file_IsDir, list_elem_of_fmap. setoid_rewrite list_elem_of_filter. split.
  - intros ([n b] & -> & Hb & Hin). simpl in *. split; [by exists n|].
    apply elem_of_ReadDir in Hin as (u & Hu & ->). exists u. split; [done|]. by destruct (IsDir u).
  - intros ((n & ->) & u & Hu & Hd). exists (n, false). split_and!; [done|done|].
    apply elem_of_ReadDir. by exists u.
Qed.

Lemma NoDup_children (P : string * bool -> Prop) `{!forall f, Decision (P f)} p :
  NoDup (map (fun f => p ++ [f.1]) (filter P (ReadDir t p))).
Proof.
  assert (NoDup (ReadDir t p).*1) as Hnd.
  { unfold ReadDir. destruct (resolve t p) as [[c|entries|f]|] eqn:Hp; [constructor| |constructor..].
    rewrite <- list_fmap_compose. exact (Hproper p entries Hp). }
  induction (ReadDir t p) as [|f fs IH]; [constructor|]. apply NoDup_cons in Hnd as [Hf Hnd].
  rewrite filter_cons. case_decide; [|by apply IH]. simpl. constructor; [|by apply IH].
  intros (g & Heq & [_ Hg]%list_elem_of_filter)%list_elem_of_fmap. apply app_inj_tail in Heq as [_ Heq].
  apply Hf. rewrite Heq. by apply list_elem_of_fmap_2.
Qed.

Lemma NoDup_level (children : path -> list path) queue :
  (forall p, NoDup (children p)) -> (forall p q, q ∈ children p -> exists n, q = p ++ [n]) ->
  NoDup queue -> NoDup (concat (map children queue)).
Proof.
  intros Hnd Hshape. induction 1 as [|p queue Hp _ IH]; simpl; [constructor|].
  apply NoDup_app. split_and!; [done| |done]. intros q Hq (p' & Hp' & Hq')%elem_of_concat_map.
  apply Hshape in Hq as [n ->]. apply Hshape in Hq' as [n' Heq]. by apply app_inj_tail in Heq as [-> _].
Qed.

(** What has been found before the [n]-th level. *)
Definition level (n : nat) (queue paths : list path) : Prop :=
  NoDup queue /\ (forall p, p ∈ queue <-> length p = n /\ is_dir p) /\
  NoDup paths /\ (forall p, p ∈ paths <-> length p <= n /\ is_file p).

Lemma child_parent p n u : resolve t (p ++ [n]) = Some u -> is_dir p.
Proof. unfold is_dir. rewrite resolve_app. destruct (resolve t p) as [[c|entries|f]|]; simpl; by eauto. Qed.
Lemma file_parent p n : is_file (p ++ [n]) -> is_dir p.
Proof. intros [[c Hc]|[f Hf]]; by eapply child_parent. Qed.
Lemma dir_parent p n : is_dir (p ++ [n]) -> is_dir p.
Proof. intros [es Hes]. by eapply child_parent. Qed.

Lemma level_step n queue paths : level n queue paths ->
  level (S n) (concat (map subdirs queue)) (paths ++ concat (map subfiles queue)).
Proof.
  intros (Hndq & Hq & Hndp & Hp).
  assert (forall p, p ∈ concat (map subfiles queue) <-> length p = S n /\ is_file p) as Hf.
  { intros p. rewrite elem_of_concat_map. setoid_rewrite elem_of_subfiles. setoid_rewrite Hq. split.
    - intros (q & (Hlen & _) & (m & ->) & Hfile). rewrite length_app. simpl. split; [lia|done].
    - intros [Hlen Hfile]. destruct (exists_last (l := p)) as (q & m & ->); [by intros ->|].
      rewrite length_app in Hlen. simpl in Hlen. exists q. split_and!; [lia|by eapply file_parent|by exists m|done]. }
  split_and!.
  - apply NoDup_level; [intros p; apply NoDup_children|by intros p q [? _]%elem_of_subdirs|done].
  - intros p. rewrite elem_of_concat_map. setoid_rewrite elem_of_subdirs. setoid_rewrite Hq. split.
    + intros (q & (Hlen & _) & (m & ->) & Hd). rewrite length_app. simpl. split; [lia|done].
    + intros [Hlen Hd]. destruct (exists_last (l := p)) as (q & m & ->); [by intros ->|].
      rewrite length_app in Hlen. simpl in Hlen. exists q. split_and!; [lia|by eapply dir_parent|by exists m|done].
  - apply NoDup_app. split_and!; [done| |].
    + intros p [Hlen _]%Hp [Hlen' _]%Hf. lia.
    + apply NoDup_level; [intros p; apply NoDup_children|by intros p q [? _]%elem_of_subfiles|done].
  - intros p. rewrite elem_of_app, Hp, Hf. split; [intros [[? ?]|[? ?]]; split; try done; lia|].
    intros [Hlen Hfile]. destruct (decide (length p = S n)); [by right|left; split; [lia|done]].
Qed.

Lemma entry_height n entries u : entry n entries = Some u -> height u < height (Dir entries).
Proof.
  induction entries as [|[m v] es IH]; simpl; [done|]. case_decide; [intros [= ->]; lia|].
  intros Hu%IH. simpl in Hu. lia.
Qed.

Lemma dir_height p : forall u entries, resolve u p = Some (Dir entries) -> length p < height u.
Proof.
  induction p as [|n p IH]; intros u entries; simpl; [intros [= ->]; simpl; lia|].
  destruct u as [c|es|f]; [done| |done]. destruct (entry n es) as [u'|] eqn:Hn; [|done].
  intros Hu%IH. apply entry_height in Hn. lia.
Qed.

Lemma walk_levels fuel : forall n queue paths,
  level n queue paths -> height t <= n + fuel -> exists paths',
    walk fuel t queue paths = Some paths' /\ NoDup paths' /\ forall p, p ∈ paths' <-> is_file p.
Proof.
  assert (forall n paths, level n [] paths -> forall p, p ∈ paths <-> is_file p) as Hdone.
  { intros n paths (_ & Hq & _ & Hp) p. rewrite Hp. split; [tauto|]. intros Hf. split; [|done].
    destruct (decide (length p <= n)) as [|Hlen]; [done|exfalso].
    assert (forall q r, p = q ++ r -> r <> [] -> is_dir q) as Hpre.
    { intros q r. revert q. induction r as [|m r IH]; [done|]. intros q Heq _. destruct r as [|m' r].
      - rewrite Heq in Hf. by eapply file_parent.
      - apply (dir_parent q m), IH; [by rewrite <- app_assoc|done]. }
    assert (take n p ∈ @nil path) as Hin%elem_of_nil; [|done]. apply Hq. split; [rewrite length_take; lia|].
    apply (Hpre _ (drop n p)); [by rewrite take_drop|]. intros Hnil%(f_equal length).
    rewrite length_drop in Hnil. simpl in Hnil. lia. }
  induction fuel as [|fuel IH]; intros n queue paths Hl Hfuel.
  - destruct queue as [|q queue].
    + exists paths. split_and!; [done|by destruct Hl as (_ & _ & ? & _)|by eapply Hdone].
    + destruct Hl as (_ & Hq & _). destruct (proj1 (Hq q) ltac:(by left)) as [Hlen [es He%dir_height]]. lia.
  - destruct queue as [|q queue].
    + exists paths. split_and!; [by destruct fuel|by destruct Hl as (_ & _ & ? & _)|by eapply Hdone].
    + cbn [walk]. rewrite visit_all. apply (IH (S n)); [by apply level_step|lia].
Qed.
End Walk.

(** A file is read as it is stored. *)
Lemma read_stored (p : path) : forall t contents, resolve t p = Some (File contents) -> read_file t p = Some contents.
Proof.
  induction p as [|n p IH]; intros [c|es|f] contents; simpl; try done; [by intros [= ->]|].
  destruct (entry n es) as [u|]; [apply IH|done].
Qed.

(** C21. The walk over a clone finds every file and every symbolic link of it
    exactly once, and nothing else: it goes through all directories, follows
    no link, and always ends.  Each of the files can be read. *)
Theorem walk_complete (t : tree) (entries : list (string * tree)) :
  t = Dir entries -> proper t ->
  (exists paths, walk (S (height t)) t [[]] [] = Some paths /\ NoDup paths /\
    forall p, p ∈ paths <-> (exists contents, resolve t p = Some (File contents)) \/
                            (exists opens, resolve t p = Some (Link opens))) /\
  (forall p contents, resolve t p = Some (File contents) -> read_file t p = Some contents).
Proof.
  intros Ht Hp. split; [|intros p; apply read_stored]. apply (walk_levels t Hp (S (height t)) 0); [|lia]. split_and!.
  - apply NoDup_singleton.
  - intros p. rewrite list_elem_of_singleton, length_zero_iff_nil. unfold is_dir. split; [|tauto].
    intros ->. split; [done|]. exists entries. by rewrite Ht.
  - constructor.
  - intros p. rewrite elem_of_nil. split; [done|]. intros [Hlen Hf]. destruct p; [|simpl in Hlen; lia].
    unfold is_file in Hf. rewrite Ht in Hf. by destruct Hf as [[? [=]]|[? [=]]].
Qed.

(** ** The report *)

Lemma contents_lookup t matched : forall (acc : gmap path string) p c,
  fold_left (add_contents t) matched acc !! p = Some c <->
  (p ∈ matched /\ read_file t p = Some c) \/ (acc !! p = Some c /\ (p ∈ matched -> read_file t p = None)).
Proof.
  induction matched as [|m matched IH]; intros acc p c; simpl.
  - rewrite elem_of_nil. tauto.
  - rewrite IH, elem_of_cons. unfold add_contents. destruct (decide (p = m)) as [->|Hne].
    + destruct (read_file t m) as [d|]; [rewrite lookup_insert_eq|].
      * split; [intros [[? ?]|[? _]]; left; split; auto|]. intros [[_ ?]|[_ Hno]]; [|by discriminate Hno; left].
        destruct (decide (m ∈ matched)); [by left|right]. by split.
      * split; [intros [[_ [=]]|[? _]]; by right|]. intros [[_ [=]]|[? _]]. by right.
    + assert ((match read_file t m with Some data => <[m:=data]> acc | None => acc end) !! p = acc !! p) as ->
        by (destruct (read_file t m); [by rewrite lookup_insert_ne|done]).
      tauto.
Qed.

(** Clones have a directory as root, with distinct names in each directory. *)
Definition clones_well (o : oracle) : Prop :=
  forall url a t head, o_clone o url a = Some (t, head) -> (exists entries, t = Dir entries) /\ proper t.

(** Everything up to [Track] worked out: the files of the clone [t] were
    walked, matched and read, and the extraction answered [files]. *)
Definition reported (o : oracle) (configured : bool) (r : Repository) (request : SourceRequest) : Prop :=
  exists dir a t head paths matched (contents : gmap path string) files,
    o_tempdir o = Some dir /\ o_chroot o = true /\ clone_auth o configured r = Some a /\
    o_clone o (RepositoryURL r) a = Some (t, head) /\
    walk (S (height t)) t [[]] [] = Some paths /\ o_match o paths = Some matched /\
    contents = fold_left (add_contents t) matched ∅ /\ o_extract o (RepositoryURL r) contents = Some files /\
    request = mkSourceRequest (Some (mkSource (RepositoryURL r) "repository" (default ""%string head))) files.

Definition is_track (e : event) : bool := match e with ETrack _ => true | _ => false end.

(** Only the end of a report can be a [Track]. *)
Lemma report_tracks o url t head request :
  ETrack request ∈ report o url t head <->
  exists paths matched (contents : gmap path string) files,
    walk (S (height t)) t [[]] [] = Some paths /\ o_match o paths = Some matched /\
    contents = fold_left (add_contents t) matched ∅ /\ o_extract o url contents = Some files /\
    request = mkSourceRequest (Some (mkSource url "repository" (default ""%string head))) files.
Proof.
  unfold report. destruct (walk _ t [[]] []) as [paths|] eqn:Hw;
    [|rewrite elem_of_nil; split; [done|by intros (? & ? & ? & ? & [=] & _)]].
  rewrite elem_of_cons. destruct (o_match o paths) as [matched|] eqn:Hm.
  - rewrite elem_of_cons. destruct (o_extract o url _) as [files|] eqn:He.
    + rewrite list_elem_of_singleton. split.
      * intros [[=]|[[=]|[= ->]]]. exists paths, matched, (fold_left (add_contents t) matched ∅), files. by split_and!.
      * intros (p & m & c & f & Hp & Hm' & -> & He' & ->). simplify_eq. right. right. congruence.
    + rewrite elem_of_nil. split; [intros [Hx|[Hx|[]]]; discriminate|].
      intros (p & m & c & f & Hp & Hm' & -> & He' & _). by simplify_eq.
  - rewrite elem_of_nil. split; [intros [Hx|[]]; discriminate|].
    intros (p & m & c & f & Hp & Hm' & _). by simplify_eq.
Qed.

Lemma report_one_track o url t head : length (filter (fun e => is_track e = true) (report o url t head)) <= 1.
Proof.
  unfold report. destruct (walk _ t [[]] []) as [paths|]; [|simpl; lia].
  destruct (o_match o paths) as [matched|]; [|simpl; lia].
  destruct (o_extract o url _) as [files|]; simpl; lia.
Qed.

Lemma Consume_reported (o : oracle) (configured : bool) (r : Repository) :
  forall request, ETrack request ∈ Consume o configured r <-> reported o configured r request.
Proof.
  assert (forall (l : list event) dir e, ETrack e ∈ l ++ [ERemoveAll dir] <-> ETrack e ∈ l) as Hlast.
  { intros l dir e. rewrite elem_of_app, list_elem_of_singleton. split; [intros [?|[=]]; done|by left]. }
  assert (forall request, ~ ETrack request ∈ [ETempDir]) as Hno by (by intros request [=]%list_elem_of_singleton).
  unfold reported, Consume.
  intros request. rewrite elem_of_cons. destruct (o_tempdir o) as [dir|] eqn:Hd.
  2: { rewrite elem_of_nil. split; [intros [Hx|[]]; discriminate|by intros (? & ? & ? & ? & ? & ? & ? & ? & [=] & _)]. }
  rewrite Hlast. destruct (o_chroot o) eqn:Hch.
  2: { rewrite elem_of_nil. split; [intros [Hx|[]]; discriminate|].
       by intros (? & ? & ? & ? & ? & ? & ? & ? & _ & [=] & _). }
  destruct (clone_auth o configured r) as [a|] eqn:Ha.
  2: { rewrite elem_of_nil. split; [intros [Hx|[]]; discriminate|].
       by intros (? & ? & ? & ? & ? & ? & ? & ? & _ & _ & [=] & _). }
  rewrite elem_of_cons. destruct (o_clone o (RepositoryURL r) a) as [[t head]|] eqn:Hc.
  2: { rewrite elem_of_nil. split; [intros [Hx|[Hx|[]]]; discriminate|].
       intros (? & ? & ? & ? & ? & ? & ? & ? & _ & _ & [= <-] & Hc' & _). congruence. }
  rewrite report_tracks. split.
  + intros [[=]|[[=]|(paths & matched & contents & files & H)]].
    exists dir, a, t, head, paths, matched, contents, files.
    by destruct H as (? & ? & ? & ? & ?); split_and!.
  + intros (dir' & a' & t' & head' & paths & matched & contents & files & _ & _ & [= <-] & Hc' & H).
    rewrite Hc in Hc'. injection Hc' as <- <-. right. right. by exists paths, matched, contents, files.
Qed.

Lemma Consume_one_track (o : oracle) (configured : bool) (r : Repository) :
  length (filter (fun e => is_track e = true) (Consume o configured r)) <= 1.
Proof.
  unfold Consume.
  rewrite filter_cons, decide_False by done. destruct (o_tempdir o) as [dir|]; [|simpl; lia].
  rewrite filter_app, length_app. assert (filter (fun e => is_track e = true) [ERemoveAll dir] = []) as -> by done.
  destruct (o_chroot o); [|simpl; lia]. destruct (clone_auth o configured r) as [a|]; [|simpl; lia].
  rewrite filter_cons, decide_False by done.
  destruct (o_clone o (RepositoryURL r) a) as [[t head]|]; [|simpl; lia].
  pose proof (report_one_track o (RepositoryURL r) t head). simpl. lia.
Qed.

(** C20. Consuming a repository tracks it exactly when the clone, the matching
    and the extraction all succeed, at most once, for the repository's URL and
    head, with what was extracted from exactly the matched files that can be
    read; whatever happens, the scratch directory is removed last. *)
Theorem Consume_tracks (o : oracle) (configured : bool) (r : Repository) :
  (forall request, ETrack request ∈ Consume o configured r <-> reported o configured r request) /\
  (forall t matched p c, (fold_left (add_contents t) matched ∅ : gmap path string) !! p = Some c <->
     p ∈ matched /\ read_file t p = Some c) /\
  length (filter (fun e => is_track e = true) (Consume o configured r)) <= 1 /\
  (forall dir, o_tempdir o = Some dir -> last (Consume o configured r) = Some (ERemoveAll dir)).
Proof.
  split_and!.
  - apply Consume_reported.
  - intros t matched p c. rewrite contents_lookup, lookup_empty. naive_solver.
  - apply Consume_one_track.
  - intros dir Hd. unfold Consume. rewrite Hd, app_comm_cons. apply last_snoc.
Qed.

(** A repository listed with the default clone configuration of the GitHub,
    GitLab and Bitbucket remotes is cloned without credentials: the key given
    to the indexer is used for no such repository, only where the clone
    configuration is missing altogether. *)
Theorem configured_key_ignored (o : oracle) (repo : hosted) (strategy : CloneStrategy) (url : string) :
  clone_auth o true (to_repository (clone_config None strategy) repo) = Some None /\
  clone_auth o true (mkRepository url None) = Some (Some Configured).
Proof. done. Qed.

(** ** The worker pool *)

Section Pool.
Context {A : Type}.
Implicit Types s : pool (A := A).

Definition busy s : list A := omap id (workers s).

(** Every repository is somewhere, and the wait group counts those not done. *)
Record pool_inv (n : nat) (repositories : list A) s : Prop := mkPoolInv {
  pool_all : unfed s ++ channel s ++ busy s ++ consumed s ≡ₚ repositories;
  pool_wg : wg s + length (consumed s) = length repositories;
  pool_workers : length (workers s) = n;
  pool_room : length (channel s) <= n;
  pool_returned : returned s = true -> wg s = 0 }.

Lemma busy_insert ws i (x : option A) old : ws !! i = Some old ->
  omap id (<[i := x]> ws) ++ option_list old ≡ₚ omap id ws ++ option_list x.
Proof.
  revert i. induction ws as [|w ws IH]; intros [|i] Hi; simpl in *; simplify_eq.
  - destruct old as [o|], x as [y|]; simpl; rewrite ?app_nil_r; try done;
      rewrite <- ?Permutation_cons_append; try done. apply perm_swap.
  - specialize (IH i Hi). destruct w as [y|]; simpl; [by rewrite IH|done].
Qed.

Lemma pool_start_inv n repositories : pool_inv n repositories (pool_start n repositories).
Proof.
  split; simpl; [|lia|by rewrite length_replicate|lia|done].
  assert (busy (pool_start n repositories) = []) as ->; [|by rewrite !app_nil_r].
  unfold busy. simpl. by induction n.
Qed.

Lemma pool_step_inv n repositories s s' : pool_inv n repositories s -> pool_step s s' -> pool_inv n repositories s'.
Proof.
  intros [Hall Hwg Hws Hroom Hret] Hstep.
  destruct Hstep as [r rs ch ws k d Hlt|i r rs ch ws k d rt Hi|i r rs ch ws k d rt Hi|ch ws d];
    unfold busy in *; simpl in *; split; unfold busy; simpl; try done.
  - rewrite <- Hall, <- !app_assoc. simpl. by rewrite <- (Permutation_middle ch), <- (Permutation_middle rs).
  - rewrite length_app. simpl. lia.
  - rewrite <- Hall. pose proof (busy_insert ws i (Some r) None Hi) as Hb. simpl in Hb. rewrite app_nil_r in Hb.
    rewrite Hb. simpl. rewrite <- !app_assoc. simpl. f_equiv. rewrite <- Permutation_middle.
    by rewrite <- Permutation_middle.
  - by rewrite length_insert.
  - lia.
  - rewrite <- Hall. pose proof (busy_insert ws i None (Some r) Hi) as Hb. simpl in Hb. rewrite app_nil_r in Hb.
    rewrite <- Hb, <- !app_assoc. simpl. do 3 f_equiv.
    symmetry. apply Permutation_cons_append.
  - rewrite length_app. simpl. lia.
  - by rewrite length_insert.
  - intros Hr. specialize (Hret Hr). lia.
Qed.

Lemma pool_reachable n repositories s :
  rtc pool_step (pool_start n repositories) s -> pool_inv n repositories s.
Proof.
  intros Hrun. pose proof (pool_start_inv n repositories) as Hinv.
  induction Hrun as [|s s1 s' Hs _ IH]; [done|]. apply IH. by eapply pool_step_inv.
Qed.

Definition pool_work s : nat :=
  3 * length (unfed s) + 2 * length (channel s) + length (busy s) + (if returned s then 0 else 1).

Lemma pool_step_work s s' : pool_step s s' -> pool_work s' < pool_work s.
Proof.
  unfold pool_work, busy. intros [r rs ch ws k d _|i r rs ch ws k d rt Hi|i r rs ch ws k d rt Hi|ch ws d]; simpl.
  - rewrite length_app. simpl. lia.
  - pose proof (Permutation_length (busy_insert ws i (Some r) None Hi)) as Hb. rewrite !length_app in Hb. simpl in Hb. lia.
  - pose proof (Permutation_length (busy_insert ws i None (Some r) Hi)) as Hb. rewrite !length_app in Hb. simpl in Hb. lia.
  - lia.
Qed.

Lemma busy_or_idle (ws : list (option A)) : ws <> [] ->
  (exists i r, ws !! i = Some (Some r)) \/ ws !! 0 = Some None /\ omap id ws = [].
Proof.
  induction ws as [|[r|] ws IH]; intros Hne; [done|left; by exists 0, r|].
  destruct (decide (ws = [])) as [->|Hws]; [by right|].
  destruct (IH Hws) as [(i & r & Hi)|[_ Hb]]; [left; by exists (S i), r|by right].
Qed.

Lemma pool_run (n : nat) (repositories : list A) (s : pool) :
  0 < n -> rtc pool_step (pool_start n repositories) s ->
  (returned s = true -> consumed s ≡ₚ repositories) /\
  (returned s = false -> exists s', pool_step s s') /\
  (forall k s', nsteps pool_step k s s' -> k <= pool_work s).
Proof.
  intros Hn Hrun. apply pool_reachable in Hrun as [Hall Hwg Hws Hroom Hret]. split_and!.
  - intros Hr. specialize (Hret Hr). apply Permutation_length in Hall as Hlen. rewrite !length_app in Hlen.
    destruct (unfed s); [|simpl in *; lia]. destruct (channel s); [|simpl in *; lia].
    destruct (busy s); [done|simpl in *; lia].
  - intros Hr. destruct s as [rs ch ws k d rt]. unfold busy in Hall. simpl in *. subst rt.
    destruct (busy_or_idle ws) as [(i & r & Hi)|[Hi Hb]]; [intros ->; simpl in *; lia| |].
    + destruct k as [|k]; [|eexists; by eapply pool_done].
      apply Permutation_length in Hall. rewrite !length_app in Hall.
      assert (0 < length (omap id ws)); [|lia].
      pose proof (Permutation_length (busy_insert ws i None (Some r) Hi)) as Hb. rewrite !length_app in Hb. simpl in Hb. lia.
    + destruct ch as [|r ch]; [|eexists; by eapply pool_take].
      destruct rs as [|r rs]; [|eexists; apply pool_feed; simpl; lia].
      rewrite Hb in Hall. simpl in Hall. apply Permutation_length in Hall.
      assert (k = 0) as -> by lia. eexists. apply pool_return.
  - intros k s' Hsteps. clear -Hsteps. induction Hsteps as [|k s s1 s' Hs _ IH]; [lia|].
    apply pool_step_work in Hs. lia.
Qed.

(** C15. With at least one worker the indexer comes to an end in every
    interleaving of its goroutines: it never gets stuck before [wg.Wait]
    returns, it takes a bounded number of steps, and when it returns every
    repository has been consumed, each exactly once. *)
Theorem pool_consumes_all (n : nat) (repositories : list A) (s : pool) :
  0 < n -> rtc pool_step (pool_start n repositories) s ->
  (returned s = true -> consumed s ≡ₚ repositories) /\
  (returned s = false -> exists s', pool_step s s') /\
  (forall k s', nsteps pool_step k s s' -> k <= pool_work s).
Proof. apply pool_run. Qed.

(** With no worker the first repository is never handed over. *)
Theorem pool_without_workers (r : A) (repositories : list A) (s : pool) :
  ~ pool_step (pool_start 0 (r :: repositories)) s.
Proof. inversion 1; subst; simpl in *; [lia|by rewrite lookup_nil in *]. Qed.
End Pool.

(** ** Instances *)

(** One link to a file, one to a directory, one to nothing. *)
Definition sample_entries : list (string * tree) :=
  [("go.mod", File "module x");
   ("web", Dir [("package.json", File "{}"); ("src", Dir []); ("lost.json", Link (fun _ => None))]);
   ("app", Link (fun p => if decide (p = ["package.json"]) then Some "{}" else None));
   ("pom.xml", Link (fun p => if decide (p = []) then Some "<project/>" else None))]%string.
Definition sample_tree : tree := Dir sample_entries.

Fixpoint proper_bool (t : tree) : bool :=
  match t with
  | File _ | Link _ => true
  | Dir entries => bool_decide (NoDup entries.*1) && forallb (fun e => proper_bool e.2) entries
  end.

Lemma proper_bool_spec p : forall t entries,
  proper_bool t = true -> resolve t p = Some (Dir entries) -> NoDup entries.*1.
Proof.
  induction p as [|n p IH]; intros t entries; simpl.
  - intros Ht [= ->]. simpl in Ht. apply andb_true_iff in Ht as [Hnd _]. by apply bool_decide_eq_true in Hnd.
  - destruct t as [c|es|f]; [done| |done]. simpl. intros [_ Hall]%andb_true_iff.
    destruct (entry n es) as [u|] eqn:Hu; [|done]. apply IH. rewrite forallb_forall in Hall.
    revert Hu. induction es as [|[m v] es IHes]; simpl; [done|]. case_decide.
    + intros [= <-]. apply (Hall (m, v)). by left.
    + intros Hu. apply IHes; [|done]. intros x Hx. apply Hall. by right.
Qed.

Lemma walk_complete_witness :
  (exists paths, walk (S (height sample_tree)) sample_tree [[]] [] = Some paths /\
    NoDup paths /\ forall p, p ∈ paths <-> (exists contents, resolve sample_tree p = Some (File contents)) \/
                                           (exists opens, resolve sample_tree p = Some (Link opens))) /\
  (forall p contents, resolve sample_tree p = Some (File contents) -> read_file sample_tree p = Some contents).
Proof.
  apply (walk_complete sample_tree sample_entries eq_refl).
  intros p entries. apply proper_bool_spec. vm_compute. reflexivity.
Defined.

Example sample_walk : walk (S (height sample_tree)) sample_tree [[]] [] =
  Some [["go.mod"]; ["app"]; ["pom.xml"]; ["web"; "package.json"]; ["web"; "lost.json"]]%string.
Proof. vm_compute. reflexivity. Qed.

(** Two workers, three repositories, the first taken by the second worker. *)
Lemma pool_consumes_all_witness :
  let s := mkPool [3] [2] [None; Some 1] 3 [] false in
  (returned s = true -> consumed s ≡ₚ [1; 2; 3]) /\ (returned s = false -> exists s', pool_step s s') /\
  (forall k s', nsteps pool_step k s s' -> k <= pool_work s).
Proof.
  apply (pool_consumes_all 2 [1; 2; 3] (mkPool [3] [2] [None; Some 1] 3 [] false)); [lia|].
  apply rtc_l with (mkPool [2; 3] [1] [None; None] 3 [] false); [by apply (pool_feed 1 [2; 3] []); simpl; lia|].
  apply rtc_l with (mkPool [2; 3] [] [None; Some 1] 3 [] false); [by apply (pool_take 1 1 [2; 3] [])|].
  apply rtc_once. by apply (pool_feed 2 [3] []); simpl; lia.
Defined.

(** A matched link is reported with what it leads to; one that cannot be read
    is left out. *)
Example sample_events :
  let o := mkOracle (Some "/tmp/dis1"%string) true (fun _ _ _ => true)
             (fun _ _ => Some (sample_tree, Some "refs/heads/main"%string))
             (fun paths => Some (filter (fun p => p <> ["web"; "package.json"]%string) paths)) (fun _ _ => Some []) in
  let paths := [["go.mod"]; ["app"]; ["pom.xml"]; ["web"; "package.json"]; ["web"; "lost.json"]]%string in
  Consume o false (mkRepository "https://x" None) =
  [ETempDir; EClone "https://x" None; EMatch paths;
   EExtract "https://x" {[ ["go.mod"] := "module x"; ["pom.xml"] := "<project/>" ]};
   ETrack (mkSourceRequest (Some (mkSource "https://x" "repository" "refs/heads/main")) []);
   ERemoveAll "/tmp/dis1"]%string.
Proof. vm_compute. reflexivity. Qed.
