(* ===== verification/GatewayThms.v ===== *)
(** * What the gateway guarantees

    The theorems about the proxied streams, and about a search that goes
    through the gateway to the tracker. *)

From S2P Require Import Prelude GoCodec GoHash Api GraphSpec Sql StoreAlpha StoreAlphaSpec.
From S2P Require Import KeysAlpha QueryAlpha SearchAlpha TrackAlpha TrackAlphaProofs Instances.
From S2P Require Import TrackInvariant QuerySpec SearchSpec Demo Services Gateway.

(** ** One loop *)

Section Relay.
Context {A : Type}.

Definition in_hand (r : relay A) : list A := match at_ r with AtSend msg => [msg] | _ => [] end.

(** What a loop has done with the messages that [arrived]: [stoppable] says
  whether its context may be done. *)
Record relay_ok (arrived : list A) (stoppable : Prop) (r : relay A) : Prop := {
  relay_prefix : moved r `prefix_of` arrived;
  relay_running : is_stopped r = false -> arrived = moved r ++ in_hand r ++ queue r;
  relay_ended : at_ r = Stopped None -> stoppable \/ (closed r = true /\ moved r = arrived) }.

(** The steps the loop can still take. *)
Definition relay_work (r : relay A) : nat :=
3 * length (queue r) +
match at_ r with AtSelect => 2 | AtRecv => 1 | AtSend _ => 3 | Stopped _ => 0 end.

Lemma relay_start_ok P : relay_ok [] P relay_start.
Proof. by split. Qed.

Lemma relay_step_ok arrived (P : Prop) fault done r r' :
relay_ok arrived P r -> (done = true -> P) -> relay_step fault done r = Some r' ->
relay_ok arrived P r'.
Proof.
intros [Hpre Hrun Hend] Hdone. destruct r as [at0 q c m]. unfold relay_step, is_stopped, in_hand in *. simpl in *.
destruct at0 as [| |msg|err]; [| | |done].
- intros [= <-]. destruct done; split; simpl; try done. intros _. by left; apply Hdone.
- destruct fault as [err|]; [intros [= <-]; by split|]. destruct q as [|msg rest].
  + destruct c; [|done]. intros [= <-]. split; simpl; try done. intros _. right.
    split; [done|]. rewrite (Hrun eq_refl). by rewrite app_nil_r.
  + intros [= <-]. by split.
- destruct fault as [err|]; intros [= <-]; split; simpl; try done.
  + rewrite (Hrun eq_refl). exists q. by rewrite <- app_assoc.
  + intros _. rewrite (Hrun eq_refl). by rewrite <- app_assoc.
Qed.

Lemma relay_arrive_ok arrived (P : Prop) msg r r' :
relay_ok arrived P r -> relay_arrive msg r = Some r' -> relay_ok (arrived ++ [msg]) P r'.
Proof.
intros [Hpre Hrun Hend]. unfold relay_arrive. destruct (closed r) eqn:Hc; [done|]. intros [= <-].
split; simpl.
- etrans; [done|]. by eexists.
- intros Hs. rewrite (Hrun Hs) at 1. unfold in_hand. simpl. by rewrite <- !app_assoc.
- intros Hs. destruct (Hend Hs) as [?|[? _]]; [by left|congruence].
Qed.

Lemma relay_close_ok arrived (P : Prop) r r' :
relay_ok arrived P r -> relay_close r = Some r' -> relay_ok arrived P r'.
Proof.
intros [Hpre Hrun Hend]. unfold relay_close. destruct (closed r) eqn:Hc; [done|]. intros [= <-].
split; [done|done|]. simpl. intros Hs. destruct (Hend Hs) as [?|[? _]]; [by left|congruence].
Qed.

Lemma relay_ok_weaken arrived (P Q : Prop) r : (P -> Q) -> relay_ok arrived P r -> relay_ok arrived Q r.
Proof. intros HPQ [Hpre Hrun Hend]. split; [done|done|]. intros Hs. destruct (Hend Hs); tauto. Qed.

Lemma relay_step_work fault done r r' : relay_step fault done r = Some r' -> relay_work r' < relay_work r.
Proof.
destruct r as [[| |msg|err] q c m]; unfold relay_step, relay_work; simpl; [| | |done].
- intros [= <-]. destruct done; simpl; lia.
- destruct fault; [intros [= <-]; simpl; lia|]. destruct q as [|msg rest].
  + destruct c; [|done]. intros [= <-]. simpl. lia.
  + intros [= <-]. simpl. lia.
- destruct fault; intros [= <-]; simpl; lia.
Qed.

Lemma relay_arrive_work msg r r' : relay_arrive msg r = Some r' -> relay_work r' = 3 + relay_work r.
Proof.
unfold relay_arrive, relay_work. destruct (closed r); [done|]. intros [= <-]. simpl. rewrite length_app. simpl. lia.
Qed.

Lemma relay_close_work (r r' : relay A) : relay_close r = Some r' -> relay_work r' = relay_work r.
Proof. unfold relay_close. destruct (closed r); [done|]. by intros [= <-]. Qed.

(** When a loop cannot go on it has returned, or waits for a message. *)
Lemma relay_stuck (d : bool) (r : relay A) :
relay_step None d r = None -> is_stopped r = true \/ (at_ r = AtRecv /\ queue r = [] /\ closed r = false).
Proof.
destruct r as [[| |msg|err] q c m]; unfold relay_step, is_stopped; simpl; [done| |done|by left].
destruct q; [|done]. destruct c; [done|]. by right.
Qed.

Lemma relay_stuck_all arrived P (d : bool) (r : relay A) :
relay_ok arrived P r -> relay_step None d r = None -> is_stopped r = false ->
moved r = arrived /\ closed r = false.
Proof.
intros [_ Hrun _] [Hs|(Hat & Hq & Hc)]%relay_stuck Hns; [congruence|].
rewrite (Hrun Hns). unfold in_hand. rewrite Hat, Hq. by rewrite app_nil_r.
Qed.
End Relay.

(** ** Runs of the proxy *)

Section Runs.
Context {Req Resp : Type}.
Notation event := (process_event Req Resp).
Notation state := (process_state Req Resp).

Lemma process_run_snoc (events : list event) (e : event) (s : state) :
process_run (events ++ [e]) s = s' ← process_run events s; process e s'.
Proof.
revert s. induction events as [|e' events IH]; intros s; simpl.
- by destruct (process e s).
- by destruct (process e' s).
Qed.

(** An invariant of runs, which may speak of the events so far. *)
Lemma process_run_ind (P : list event -> state -> Prop) (start : state) :
P [] start ->
(forall events e s s', P events s -> process e s = Some s' -> P (events ++ [e]) s') ->
forall events s, process_run events start = Some s -> P events s.
Proof.
intros Hstart Hstep events. induction events as [|e events IH] using rev_ind; intros s.
- by intros [= <-].
- rewrite process_run_snoc. intros (s1 & Hrun & He)%bind_Some. eauto.
Qed.

Record process_inv (events : list event) (s : state) : Prop := {
  inv_receiver : relay_ok (requests_of events) (done s = true) (receiver s);
  inv_forwarder : relay_ok (responses_of events) (Context_done ∈ events) (forwarder s);
  inv_done : done s = true -> Context_done ∈ events \/ is_stopped (forwarder s) = true;
  inv_stopped : is_stopped (forwarder s) = true -> done s = true;
  inv_closed : closed (forwarder s) = true <-> Service_returns ∈ events;
  inv_error : forall err, at_ (forwarder s) = Stopped (Some err) -> Forwarder_runs (Some err) ∈ events;
  inv_lost : forall err, at_ (receiver s) = Stopped (Some err) -> Receiver_runs (Some err) ∈ events;
  inv_work : steps_of events + relay_work (receiver s) + relay_work (forwarder s) <=
             3 * (length (requests_of events) + length (responses_of events)) + 4 }.

Lemma requests_of_snoc (events : list event) e :
requests_of (events ++ [e]) = requests_of events ++ requests_of [e].
Proof. apply omap_app. Qed.
Lemma responses_of_snoc (events : list event) e :
responses_of (events ++ [e]) = responses_of events ++ responses_of [e].
Proof. apply omap_app. Qed.
Lemma steps_of_snoc (events : list event) e : steps_of (events ++ [e]) = steps_of events + steps_of [e].
Proof. unfold steps_of. by rewrite filter_app, length_app. Qed.

Lemma process_start_inv : process_inv [] process_start.
Proof.
split; try apply relay_start_ok; simpl; try done. by rewrite elem_of_nil.
Qed.

Lemma relay_step_running {A} fault d (r r' : relay A) :
relay_step fault d r = Some r' -> is_stopped r = false.
Proof. destruct r as [[| | |] q c m]; by unfold is_stopped. Qed.

Lemma relay_step_closed {A} fault d (r r' : relay A) :
relay_step fault d r = Some r' -> closed r' = closed r.
Proof.
destruct r as [[| | |] q c m]; unfold relay_step; simpl; intros Hs; case_all; done.
Qed.

Lemma relay_step_error {A} fault d (r r' : relay A) err :
relay_step fault d r = Some r' -> at_ r' = Stopped (Some err) -> fault = Some err.
Proof.
destruct r as [[| | |] q c m]; unfold relay_step; simpl; intros Hs He; case_all; simpl in *; congruence.
Qed.

Lemma relay_arrive_frame {A} (msg : A) r r' :
relay_arrive msg r = Some r' -> at_ r' = at_ r /\ is_stopped r' = is_stopped r /\ closed r' = closed r.
Proof. unfold relay_arrive. destruct r as [? ? [] ?]; [done|]. by intros [= <-]. Qed.

Lemma relay_close_frame {A} (r r' : relay A) :
relay_close r = Some r' -> at_ r' = at_ r /\ is_stopped r' = is_stopped r /\ closed r' = true.
Proof. unfold relay_close. destruct r as [? ? [] ?]; [done|]. by intros [= <-]. Qed.

(** What a step does to each loop, and to the context. *)
Definition receiver_event (e : event) (d : bool) (r : relay Req) : option (relay Req) :=
match e with
| Request_arrives req => relay_arrive req r
| Caller_closes => relay_close r
| Receiver_runs fault => relay_step fault d r
| _ => Some r
end.
Definition forwarder_event (e : event) (d : bool) (r : relay Resp) : option (relay Resp) :=
match e with
| Response_arrives resp => relay_arrive resp r
| Service_returns => relay_close r
| Forwarder_runs fault => relay_step fault d r
| _ => Some r
end.

Definition ends_context (e : event) : bool := match e with Context_done => true | _ => false end.

Lemma process_split (e : event) (s s' : state) :
(is_stopped (forwarder s) = true -> done s = true) -> process e s = Some s' ->
receiver_event e (done s) (receiver s) = Some (receiver s') /\
forwarder_event e (done s) (forwarder s) = Some (forwarder s') /\
done s' = done s || is_stopped (forwarder s') || ends_context e.
Proof.
intros Hd. destruct s as [rc fw d]. simpl in *.
assert (d = d || is_stopped fw || false) as Hsame.
{ destruct d; [done|]. destruct (is_stopped fw); [by rewrite Hd|done]. }
destruct e as [req| |resp| | |fault|fault]; simpl; try (intros (x & Hx & ->)%fmap_Some; simpl);
  rewrite ?Hx, ?orb_false_r in *; try done.
intros [= <-]. simpl. by rewrite orb_true_r.
Qed.

Lemma receiver_event_ok (events : list event) (e : event) d P r r' :
relay_ok (requests_of events) P r -> (d = true -> P) -> receiver_event e d r = Some r' ->
relay_ok (requests_of (events ++ [e])) P r'.
Proof.
intros Hok Hd. rewrite requests_of_snoc. destruct e; simpl; rewrite ?app_nil_r;
  [apply (relay_arrive_ok _ _ _ _ _ Hok)|apply (relay_close_ok _ _ _ _ Hok)| | | |apply (relay_step_ok _ _ _ _ _ _ Hok Hd)|].
all: by intros [= <-].
Qed.

Lemma forwarder_event_ok (events : list event) (e : event) d P r r' :
relay_ok (responses_of events) P r -> (d = true -> is_stopped r = false -> P) ->
forwarder_event e d r = Some r' -> relay_ok (responses_of (events ++ [e])) P r'.
Proof.
intros Hok Hd. rewrite responses_of_snoc. destruct e as [| |resp| | |fault|fault]; simpl; rewrite ?app_nil_r;
  [..|intros Hs; eapply (relay_step_ok _ _ _ _ _ _ Hok); [|done]; intros ->; by eapply Hd, relay_step_running].
3: apply (relay_arrive_ok _ _ _ _ _ Hok).
3: apply (relay_close_ok _ _ _ _ Hok).
all: by intros [= <-].
Qed.

Lemma forwarder_event_closed (e : event) d r r' :
forwarder_event e d r = Some r' -> closed r' = true <-> closed r = true \/ e = Service_returns.
Proof.
destruct e as [| |resp| | |fault|fault]; simpl; try by (intros [= <-]; naive_solver).
- intros (_ & _ & ->)%relay_arrive_frame. naive_solver.
- intros (_ & _ & ->)%relay_close_frame. tauto.
- intros ->%relay_step_closed. naive_solver.
Qed.

Lemma forwarder_event_stopped (e : event) d r r' :
forwarder_event e d r = Some r' -> is_stopped r = true -> is_stopped r' = true.
Proof.
destruct e as [| |resp| | |fault|fault]; simpl; try by intros [= <-].
- by intros (_ & -> & _)%relay_arrive_frame.
- by intros (_ & -> & _)%relay_close_frame.
- intros ->%relay_step_running. done.
Qed.

Lemma forwarder_event_error (e : event) d r r' err :
forwarder_event e d r = Some r' -> at_ r' = Stopped (Some err) ->
at_ r = Stopped (Some err) \/ e = Forwarder_runs (Some err).
Proof.
destruct e as [| |resp| | |fault|fault]; simpl; try by (intros [= <-]; left).
- intros (-> & _)%relay_arrive_frame. by left.
- intros (-> & _)%relay_close_frame. by left.
- intros Hs He. right. by rewrite (relay_step_error _ _ _ _ _ Hs He).
Qed.

Lemma receiver_event_error (e : event) d r r' err :
receiver_event e d r = Some r' -> at_ r' = Stopped (Some err) ->
at_ r = Stopped (Some err) \/ e = Receiver_runs (Some err).
Proof.
destruct e as [req| | | | |fault|fault]; simpl; try by (intros [= <-]; left).
- intros (-> & _)%relay_arrive_frame. by left.
- intros (-> & _)%relay_close_frame. by left.
- intros Hs He. right. by rewrite (relay_step_error _ _ _ _ _ Hs He).
Qed.

Lemma event_work (e : event) d rc rc' fw fw' :
receiver_event e d rc = Some rc' -> forwarder_event e d fw = Some fw' ->
steps_of [e] + relay_work rc' + relay_work fw' <=
relay_work rc + relay_work fw + 3 * (length (requests_of [e]) + length (responses_of [e])).
Proof.
destruct e as [req| |resp| | |fault|fault]; simpl; intros Hr Hf; simplify_eq;
  first [apply relay_arrive_work in Hr|apply relay_arrive_work in Hf|apply relay_close_work in Hr
        |apply relay_close_work in Hf|apply relay_step_work in Hr|apply relay_step_work in Hf|idtac];
  unfold steps_of; simpl; lia.
Qed.

Lemma process_step_inv (events : list event) (e : event) (s s' : state) :
process_inv events s -> process e s = Some s' -> process_inv (events ++ [e]) s'.
Proof.
intros [Hr Hf Hd Hst Hc He Hl Hw] (Hr' & Hf' & Hdone)%process_split; [|done].
assert (forall P : Prop, P \/ e = Context_done -> P \/ ends_context e = true) as Hends by (intros P [?| ->]; auto).
assert (done s = true -> is_stopped (forwarder s) = false -> Context_done ∈ events) as Hrunning.
{ intros Hd1 Hns. destruct (Hd Hd1); [done|congruence]. }
split.
- apply (receiver_event_ok _ _ (done s) _ (receiver s)); [|by rewrite Hdone; intros ->|done].
  eapply relay_ok_weaken, Hr. by rewrite Hdone; intros ->.
- apply (forwarder_event_ok _ _ (done s) _ (forwarder s)); [| |done].
  + eapply relay_ok_weaken, Hf. intros. by apply elem_of_app; left.
  + intros. apply elem_of_app; left. auto.
- rewrite Hdone, !orb_true_iff, elem_of_app. intros [[Hd1|?]|Hx]; [|tauto|].
  + destruct (is_stopped (forwarder s)) eqn:Hs; [|left; left; auto].
    right. by eapply forwarder_event_stopped.
  + left. right. destruct e; try done. by left.
- intros Hs. rewrite Hdone, Hs. by rewrite orb_true_r.
- rewrite elem_of_app, list_elem_of_singleton, (forwarder_event_closed _ _ _ _ Hf'), Hc. naive_solver.
- intros err Herr. rewrite elem_of_app, list_elem_of_singleton.
  destruct (forwarder_event_error _ _ _ _ _ Hf' Herr); [left; by apply He|by right].
- intros err Herr. rewrite elem_of_app, list_elem_of_singleton.
  destruct (receiver_event_error _ _ _ _ _ Hr' Herr); [left; by apply Hl|by right].
- pose proof (event_work _ _ _ _ _ _ Hr' Hf'). rewrite requests_of_snoc, responses_of_snoc, steps_of_snoc, !length_app.
  lia.
Qed.

Lemma process_run_inv (events : list event) (s : state) :
process_run events process_start = Some s -> process_inv events s.
Proof. apply (process_run_ind process_inv); [apply process_start_inv|apply process_step_inv]. Qed.
End Runs.

(** ** The proxy in any surroundings *)

Section Theorems.
Context {Req Resp : Type}.

(** C18. Whatever the two streams and the scheduler do, requests and responses
  arrive on the other side in order, once, and without invention; [process]
  returns nil only when the caller's context ended or when the service
  returned and all it sent has been delivered; it returns an error only when
  a call on one of its streams failed with it. *)
Theorem process_relays (events : list (process_event Req Resp)) (s : process_state Req Resp) :
process_run events process_start = Some s ->
moved (receiver s) `prefix_of` requests_of events /\
moved (forwarder s) `prefix_of` responses_of events /\
(at_ (forwarder s) = Stopped None ->
   Context_done ∈ events \/
   (Service_returns ∈ events /\ moved (forwarder s) = responses_of events)) /\
(forall err, at_ (forwarder s) = Stopped (Some err) -> Forwarder_runs (Some err) ∈ events).
Proof.
intros [[Hr _ _] [Hf _ Hend] _ _ Hc He _ _]%process_run_inv. split_and!; [done..| |done].
intros Hs. destruct (Hend Hs) as [?|[Hcl ?]]; [by left|]. right. by rewrite <- Hc.
Qed.

(** C19. The proxy does a bounded number of steps, three for each message and four
  to end; when no call fails and it cannot go on, it has delivered every
  response, has returned exactly if the service has, and otherwise has
  handed on every request. *)
Theorem process_finishes (events : list (process_event Req Resp)) (s : process_state Req Resp) :
process_run events process_start = Some s ->
steps_of events <= 3 * (length (requests_of events) + length (responses_of events)) + 4 /\
(Forall faultless events ->
 process (Receiver_runs None) s = None -> process (Forwarder_runs None) s = None ->
 moved (forwarder s) = responses_of events /\
 (at_ (forwarder s) = Stopped None <-> Service_returns ∈ events) /\
 (Service_returns ∉ events -> moved (receiver s) = requests_of events)).
Proof.
intros [Hr Hf Hd Hst Hc He Hl Hw]%process_run_inv. split; [lia|].
intros Hquiet Hrs Hfs. rewrite Forall_forall in Hquiet.
assert (forall e, ~ faultless e -> e ∉ events) as Hno by (intros e Hn Hin; by apply Hn, Hquiet).
destruct s as [rc fw d]. simpl in *. apply fmap_None in Hrs, Hfs.
destruct (is_stopped fw) eqn:Hstop.
- unfold is_stopped in Hstop. destruct (at_ fw) as [| | |[err|]] eqn:Hat; try done.
  { exfalso. apply (Hno (Forwarder_runs (Some err)) (fun F => F)). by apply He. }
  destruct Hf as [_ _ Hend]. destruct (Hend Hat) as [Hx|[Hcl Hm]].
  { exfalso. exact (Hno Context_done (fun F => F) Hx). }
  split_and!; [done|by rewrite <- Hc|]. intros Hn. exfalso. by apply Hn, Hc.
- destruct (relay_stuck_all _ _ _ _ Hf Hfs Hstop) as [Hm Hcl].
  assert (d = false) as ->.
  { destruct d; [|done]. destruct (Hd eq_refl) as [Hx|?]; [|congruence]. exfalso. exact (Hno Context_done (fun F => F) Hx). }
  split_and!; [done| |].
  + rewrite <- Hc, Hcl. split; [|done]. intros Hat. unfold is_stopped in Hstop. by rewrite Hat in Hstop.
  + intros _. destruct (is_stopped rc) eqn:Hrstop; [|by eapply relay_stuck_all].
    unfold is_stopped in Hrstop. destruct (at_ rc) as [| | |[err|]] eqn:Hat; try done.
    { exfalso. apply (Hno (Receiver_runs (Some err)) (fun F => F)). by apply Hl. }
    destruct Hr as [_ _ Hend]. by destruct (Hend Hat) as [?|[_ ?]].
Qed.
End Theorems.

(** ** Sessions *)

Section Sessions.
Context {Req Resp : Type} (serve : Req -> list Resp).
Notation session := (process_state Req Resp * service_at Resp)%type.

(** A session whose first request is [req0]. *)
Definition session_inv (req0 : Req) (rest : list Req) (sigma : session) : Prop :=
let '(s, st) := sigma in
exists answered,
  relay_ok (req0 :: rest) (done s = true) (receiver s) /\
  (forall err, at_ (receiver s) <> Stopped (Some err)) /\
  relay_ok answered False (forwarder s) /\
  (forall err, at_ (forwarder s) <> Stopped (Some err)) /\
  (done s = true -> is_stopped (forwarder s) = true) /\
  match st with
  | Awaiting => answered = [] /\ closed (forwarder s) = false
  | Answering todo => serve req0 = answered ++ todo /\ closed (forwarder s) = false
  | Answered => answered = serve req0 /\ closed (forwarder s) = true
  end.

Lemma relay_step_no_error {A} d (r r' : relay A) err :
relay_step None d r = Some r' -> at_ r' <> Stopped (Some err).
Proof. intros Hs He. by pose proof (relay_step_error _ _ _ _ _ Hs He). Qed.

Lemma session_start_inv req0 rest half_closed :
session_inv req0 rest (session_start (req0 :: rest) half_closed).
Proof.
exists []. split_and!; [|done|apply relay_start_ok|done..]. split; [by apply prefix_nil|done|done].
Qed.

Lemma session_step_inv req0 rest (s s' : session) :
session_inv req0 rest s -> session_step serve s s' -> session_inv req0 rest s'.
Proof.
intros Hinv Hstep. destruct Hstep as [p p' st Hp|p p' st Hp|p req l Hm|p p' resp todo Hp|p p' Hp];
  destruct Hinv as (answered & Hr & Hre & Hf & Hfe & Hd & Hst); simpl in *.
- apply fmap_Some in Hp as (r' & Hs & ->). exists answered. simpl. split_and!; try done.
  + by eapply relay_step_ok.
  + intros err. by eapply relay_step_no_error.
- apply fmap_Some in Hp as (r' & Hs & ->). exists answered. simpl. pose proof (relay_step_running _ _ _ _ Hs) as Hrun.
  assert (done p = false) as Hnd by (destruct (done p); [rewrite Hd in Hrun; done|done]).
  rewrite Hnd in *. simpl. split_and!; try done.
  + by eapply relay_ok_weaken, Hr.
  + eapply (relay_step_ok answered False None false); done.
  + intros err. by eapply relay_step_no_error.
  + destruct st; by rewrite (relay_step_closed _ _ _ _ Hs).
- exists answered. destruct Hst as [-> Hc]. split_and!; try done. simpl.
  assert (req = req0) as ->; [|done]. destruct (relay_prefix _ _ _ Hr) as [l' Hl].
  rewrite Hm in Hl. by injection Hl.
- apply fmap_Some in Hp as (r' & Hs & ->). destruct (relay_arrive_frame _ _ _ Hs) as (Ha & Hb & Hc).
  exists (answered ++ [resp]). simpl. rewrite Ha, Hb, Hc, <- app_assoc. split_and!; try done; try tauto.
  + eapply relay_ok_weaken, Hr. by intros ->.
  + by eapply relay_arrive_ok.
  + intros [?|?]%orb_true_iff; auto.
- apply fmap_Some in Hp as (r' & Hs & ->). destruct (relay_close_frame _ _ Hs) as (Ha & Hb & Hc).
  exists answered. simpl. rewrite Ha, Hb, Hc. split_and!; try done.
  + eapply relay_ok_weaken, Hr. by intros ->.
  + by eapply relay_close_ok.
  + intros [?|?]%orb_true_iff; auto.
  + destruct Hst as [-> _]. by rewrite app_nil_r.
Qed.

Lemma session_inv_reachable req0 rest half_closed (s : session) :
rtc (session_step serve) (session_start (req0 :: rest) half_closed) s -> session_inv req0 rest s.
Proof.
intros Hrtc. assert (forall s1 s2, rtc (session_step serve) s1 s2 -> session_inv req0 rest s1 ->
  session_inv req0 rest s2) as H.
{ intros s1 s2. induction 1; [done|]. eauto using session_step_inv. }
by eapply H, session_start_inv.
Qed.

(** The steps left in a session. *)
Definition session_work (req0 : Req) (sigma : session) : nat :=
relay_work (receiver sigma.1) + relay_work (forwarder sigma.1) +
match sigma.2 with
| Awaiting => 4 * length (serve req0) + 2
| Answering todo => 4 * length todo + 1
| Answered => 0
end.

Lemma session_step_work req0 rest (s s' : session) :
session_inv req0 rest s -> session_step serve s s' -> session_work req0 s' < session_work req0 s.
Proof.
intros Hinv Hstep. destruct Hstep as [p p' st Hp|p p' st Hp|p req l Hm|p p' resp todo Hp|p p' Hp];
  unfold session_work; simpl in *.
- apply fmap_Some in Hp as (r' & Hs & ->). apply relay_step_work in Hs. simpl. lia.
- apply fmap_Some in Hp as (r' & Hs & ->). apply relay_step_work in Hs. simpl. lia.
- destruct Hinv as (answered & Hr & _). destruct (relay_prefix _ _ _ Hr) as [l' Hl].
  rewrite Hm in Hl. injection Hl as <- _. lia.
- apply fmap_Some in Hp as (r' & Hs & ->). apply relay_arrive_work in Hs. simpl. lia.
- apply fmap_Some in Hp as (r' & Hs & ->). apply relay_close_work in Hs. simpl. lia.
Qed.

Lemma session_stuck req0 rest (s : session) :
session_inv req0 rest s -> (forall s', ~ session_step serve s s') ->
at_ (forwarder s.1) = Stopped None /\ moved (forwarder s.1) = serve req0.
Proof.
destruct s as [[rc fw d] st]. intros (answered & Hr & Hre & Hf & Hfe & Hd & Hst) Hstuck. simpl in *.
assert (relay_step None d rc = None) as Hrs.
{ destruct (relay_step None d rc) as [r'|] eqn:Hs; [|done]. exfalso.
  apply (Hstuck (mkProcess r' fw d, st)). apply session_receiver. simpl. by rewrite Hs. }
assert (relay_step None d fw = None) as Hfs.
{ destruct (relay_step None d fw) as [r'|] eqn:Hs; [|done]. exfalso.
  eapply (Hstuck (mkProcess rc r' _, st)). apply session_forwarder. simpl. by rewrite Hs. }
assert (is_stopped fw = true -> at_ fw = Stopped None) as Hnil.
{ unfold is_stopped. destruct (at_ fw) as [| | |[err|]] eqn:Hat; try done. by destruct (Hfe err). }
destruct st as [|[|resp todo]|].
- destruct Hst as [-> Hc]. exfalso. assert (is_stopped fw = false) as Hns.
  { destruct (is_stopped fw) eqn:Hs; [|done]. destruct (relay_ended _ _ _ Hf (Hnil eq_refl)) as [[]|[? _]]; congruence. }
  assert (d = false) as -> by (destruct d; [rewrite Hd in Hns; done|done]).
  assert (moved rc = req0 :: rest) as Hm.
  { destruct (is_stopped rc) eqn:Hs; [|by eapply relay_stuck_all].
    unfold is_stopped in Hs. destruct (at_ rc) as [| | |[err|]] eqn:Hat; try done; [by destruct (Hre err)|].
    by destruct (relay_ended _ _ _ Hr Hat) as [?|[_ ?]]. }
  by eapply (Hstuck (_, Answering (serve req0))), session_accept.
- destruct Hst as [_ Hc]. exfalso. eapply (Hstuck (_, Answered)), session_return. simpl.
  unfold relay_close. by rewrite Hc.
- destruct Hst as [_ Hc]. exfalso. eapply (Hstuck (_, Answering todo)), (session_answer _ _ _ resp). simpl.
  unfold relay_arrive. by rewrite Hc.
- destruct Hst as [-> Hc]. destruct (is_stopped fw) eqn:Hs.
  + split; [by apply Hnil|]. by destruct (relay_ended _ _ _ Hf (Hnil eq_refl)) as [?|[_ ?]].
  + destruct (relay_stuck_all _ _ _ _ Hf Hfs Hs). congruence.
Qed.

(** A scheduler: the step a session takes next, if there is one. *)
Definition session_next (sigma : session) : option session :=
let '(p, st) := sigma in
match process (Receiver_runs None) p, process (Forwarder_runs None) p, st with
| Some p', _, _ | None, Some p', _ => Some (p', st)
| None, None, Awaiting =>
    match moved (receiver p) with req :: _ => Some (p, Answering (serve req)) | [] => None end
| None, None, Answering (resp :: todo) => (fun p' => (p', Answering todo)) <$> process (Response_arrives resp) p
| None, None, Answering [] => (fun p' => (p', Answered)) <$> process Service_returns p
| None, None, Answered => None
end.

Lemma session_next_step (s s' : session) : session_next s = Some s' -> session_step serve s s'.
Proof.
destruct s as [p st]. unfold session_next.
destruct (process (Receiver_runs None) p) eqn:Hr; [intros [= <-]; by apply session_receiver|].
destruct (process (Forwarder_runs None) p) eqn:Hf; [intros [= <-]; by apply session_forwarder|].
destruct st as [|[|resp todo]|]; [| | |done].
- destruct (moved (receiver p)) eqn:Hm; [done|]. intros [= <-]. by eapply session_accept.
- intros (p' & Hp & ->)%fmap_Some. by apply session_return.
- intros (p' & Hp & ->)%fmap_Some. by apply session_answer.
Qed.

Lemma session_next_stuck (s s' : session) : session_next s = None -> ~ session_step serve s s'.
Proof.
intros Hn Hs. unfold session_next in Hn.
destruct Hs as [p p' st Hp|p p' st Hp|p req l Hm|p p' resp todo Hp|p p' Hp]; rewrite ?Hp in Hn; case_all; done.
Qed.

(** Every session comes to rest. *)
Lemma session_rests req0 rest half_closed : exists s,
rtc (session_step serve) (session_start (req0 :: rest) half_closed) s /\
forall s', ~ session_step serve s s'.
Proof.
assert (forall n s, session_inv req0 rest s -> session_work req0 s < n ->
  exists s2, rtc (session_step serve) s s2 /\ forall s', ~ session_step serve s2 s') as H.
{ intros n. induction n as [|n IH]; intros s Hinv Hw; [lia|].
  destruct (session_next s) as [s1|] eqn:Hn; [|exists s; split; [done|intros s'; by apply session_next_stuck]].
  apply session_next_step in Hn. pose proof (session_step_work _ _ _ _ Hinv Hn).
  destruct (IH s1 (session_step_inv _ _ _ _ Hinv Hn)) as (s2 & Hs2 & Hst); [lia|].
  exists s2. split; [by econstructor|done]. }
eapply H; [apply session_start_inv|by apply Nat.lt_succ_diag_r].
Qed.

Lemma session_bounded req0 rest n (s s' : session) :
session_inv req0 rest s -> nsteps (session_step serve) n s s' -> n <= session_work req0 s.
Proof.
intros Hinv Hn. induction Hn as [|n s1 s2 s3 Hstep _ IH]; [lia|].
pose proof (session_step_work _ _ _ _ Hinv Hstep).
specialize (IH (session_step_inv _ _ _ _ Hinv Hstep)). lia.
Qed.
End Sessions.

(** What every run of a session has: a bound on its steps, a prefix of the
    answer at every moment, and it goes on until the whole answer is there. *)
Lemma session_run {Req Resp : Type} (serve : Req -> list Resp) (req : Req) (rest : list Req)
  (half_closed : bool) (n : nat) (s : process_state Req Resp * service_at Resp) :
  nsteps (session_step serve) n (session_start (req :: rest) half_closed) s ->
  n <= 3 * length rest + 4 * length (serve req) + 9 /\
  moved (forwarder s.1) `prefix_of` serve req /\
  ((exists s', session_step serve s s') \/
   (at_ (forwarder s.1) = Stopped None /\ moved (forwarder s.1) = serve req)).
Proof.
  intros Hn. pose proof (session_start_inv serve req rest half_closed) as Hstart.
  pose proof (session_inv_reachable serve _ _ _ _ (rtc_nsteps_2 _ _ _ Hn)) as Hinv. split_and!.
  - pose proof (session_bounded _ _ _ _ _ _ Hstart Hn) as Hb. unfold session_work, relay_work in Hb.
    simpl in Hb. lia.
  - destruct s as [p st]. destruct Hinv as (answered & _ & _ & Hf & _ & _ & Hst). simpl.
    etrans; [apply Hf|]. destruct st; [destruct Hst as [-> _]; apply prefix_nil| |by destruct Hst as [-> _]].
    destruct Hst as [-> _]. by eexists.
  - destruct (session_next serve s) as [s'|] eqn:Hnext; [left; exists s'; by apply session_next_step|right].
    eapply session_stuck; [done|]. intros s'. by apply session_next_stuck.
Qed.

(** ** Searches through the gateway *)

Section Search.
Context `{JsonCodec, !JsonCodecOk} {W : Type} `{GraphStoreTotal W}.

(** What the tracker sees of a session: the request the gateway handed on. *)
Definition tracker_env (req : SearchRequest) : SearchEnv :=
mkEnv (fun n => match n with O => Some req | S _ => None end) (fun _ => false) (fun _ => None).

(** What it sends in answer. *)
Definition serve_bfs (fuel : nat) (w : W) (req : SearchRequest) : list SearchResponse :=
sent (BreadthFirstSearch (tracker_env req) fuel (mkSearchWorld w [] 0)).2.

(** C16. The gateway is transparent to a session: in every interleaving of the
  caller, the two loops and the service, a session that has a first request
  takes a bounded number of steps, delivers at every moment a prefix of the
  service's answer to it, and where it cannot go on [process] has returned
  nil and all of the answer is delivered. *)
Theorem session_transparent {Req Resp : Type} (serve : Req -> list Resp) (req : Req) (rest : list Req)
  (half_closed : bool) (n : nat) (s : process_state Req Resp * service_at Resp) :
nsteps (session_step serve) n (session_start (req :: rest) half_closed) s ->
n <= 3 * length rest + 4 * length (serve req) + 9 /\
moved (forwarder s.1) `prefix_of` serve req /\
((forall s', ~ session_step serve s s') ->
   at_ (forwarder s.1) = Stopped None /\ moved (forwarder s.1) = serve req).
Proof.
intros Hn. destruct (session_run _ _ _ _ _ _ Hn) as (Hbound & Hprefix & Hend). split_and!; [done..|].
intros Hstuck. destruct Hend as [[s' Hs]|Hend]; [by destruct (Hstuck s')|done].
Qed.

(** The service's answer: one response for every reachable module. *)
Lemma serve_bfs_answers (dir : direction) (d : DependencyRequest) (w : W) (v : astore) (fuel : nat) :
rep w v -> decodable v -> size (dom v) < fuel ->
let root := node_key (ask dir d) in
let sent := serve_bfs fuel w (ask dir d) in
Forall (answers dir v) sent /\ NoDup (map response_key sent) /\
(forall b, b ∈ map response_key sent <-> rtc (edge dir v) root b) /\
exists ds, Forall2 (distance dir v root) ds (map response_key sent) /\ StronglySorted le ds.
Proof.
intros Hr Hdec Hfuel root. unfold serve_bfs.
assert (undisturbed (tracker_env (ask dir d))) as Henv by done.
destruct (bfs_run (tracker_env (ask dir d)) Henv dir v Hdec d w fuel Hr eq_refl Hfuel)
  as (sw & -> & _ & Hall). done.
Qed.

(** The part of it a caller holds in the middle of a session. *)
Lemma answers_prefix (dir : direction) (v : astore) (root : bytes) (part whole : list SearchResponse) :
part `prefix_of` whole ->
Forall (answers dir v) whole -> NoDup (map response_key whole) ->
(exists ds, Forall2 (distance dir v root) ds (map response_key whole) /\ StronglySorted le ds) ->
Forall (answers dir v) part /\ NoDup (map response_key part) /\
exists ds, Forall2 (distance dir v root) ds (map response_key part) /\ StronglySorted le ds.
Proof.
intros [l ->] [Ha _]%Forall_app Hnd (ds & Hds & Hsort). rewrite map_app in Hnd, Hds.
apply NoDup_app in Hnd as [Hnd _]. apply Forall2_app_inv_r in Hds as (ds1 & ds2 & Hds & _ & ->).
apply StronglySorted_app in Hsort as (_ & Hsort & _). eauto.
Qed.

(** There are no more responses than modules in the graph, and the one asked
  about. *)
Lemma answers_bound (dir : direction) (v : astore) (root : bytes) (keys : list bytes) :
NoDup keys -> (forall b, b ∈ keys -> rtc (edge dir v) root b) -> length keys <= S (size (dom v)).
Proof.
intros Hnd Hall. rewrite <- (size_list_to_set (C := gset bytes) keys Hnd).
transitivity (size ({[ root ]} ∪ node_keys v)).
- apply subseteq_size. intros b Hb%elem_of_list_to_set%Hall%rtc_inv_r.
  destruct Hb as [->|(a & _ & He)]; [set_solver|]. apply edge_node in He. set_solver.
- rewrite size_union_alt, size_singleton. pose proof (node_keys_bound v).
  assert (size (node_keys v ∖ {[ root ]}) <= size (node_keys v)) by (apply subseteq_size; set_solver). lia.
Qed.

(** C12. A breadth-first search asked of the gateway is answered as the tracker
  answers it, in whatever order the caller, the two loops and the tracker
  run, if nobody cancels and no call of the store or of a stream fails.  Every run of the session is shorter than a bound given by the graph
  and the caller's further messages; at every moment the caller holds
  answers of the tracker, to no request twice, about modules reachable from
  the one it asked about, the nearer first; and either the session goes on,
  or [process] has returned nil and there is one response for every module
  reachable from the one asked about. *)
Theorem gateway_BreadthFirstSearch (dir : direction) (d : DependencyRequest) (rest : list SearchRequest)
  (half_closed : bool) (w : W) (v : astore) (fuel n : nat)
  (s : process_state SearchRequest SearchResponse * service_at SearchResponse) :
rep w v -> decodable v -> size (dom v) < fuel ->
nsteps (session_step (serve_bfs fuel w)) n (session_start (ask dir d :: rest) half_closed) s ->
let root := node_key (ask dir d) in
let received := moved (forwarder s.1) in
n <= 3 * length rest + 4 * size (dom v) + 13 /\
Forall (answers dir v) received /\ NoDup (map response_key received) /\
(forall b, b ∈ map response_key received -> rtc (edge dir v) root b) /\
(exists ds, Forall2 (distance dir v root) ds (map response_key received) /\ StronglySorted le ds) /\
((exists s', session_step (serve_bfs fuel w) s s') \/
 (at_ (forwarder s.1) = Stopped None /\
  forall b, rtc (edge dir v) root b -> b ∈ map response_key received)).
Proof.
intros Hr Hdec Hfuel Hn root received.
destruct (serve_bfs_answers dir d w v fuel Hr Hdec Hfuel) as (Ha & Hnd & Hreach & Hds).
destruct (session_run _ _ _ _ _ _ Hn) as (Hbound & Hprefix & Hend).
destruct (answers_prefix _ _ _ _ _ Hprefix Ha Hnd Hds) as (Ha' & Hnd' & Hds'). split_and!; [|done|done| |done|].
- pose proof (answers_bound dir v root _ Hnd (fun b Hb => proj1 (Hreach b) Hb)) as Hlen.
  rewrite length_map in Hlen. lia.
- intros b Hb. apply Hreach. destruct Hprefix as [l ->]. rewrite map_app. apply elem_of_app. by left.
- destruct Hend as [Hgo|[Hret Hm]]; [by left|right]. split; [done|]. unfold received. rewrite Hm.
  intros b. apply Hreach.
Qed.

(** A caller that closes its side without a request leaves the session
  waiting for good: the goroutine has returned without closing the stream to
  the service, which waits for its first request. *)
Theorem session_without_request (serve : SearchRequest -> list SearchResponse) :
exists s, rtc (session_step serve) (session_start [] true) s /\
  (forall s', ~ session_step serve s s') /\
  is_stopped (receiver s.1) = true /\ at_ (forwarder s.1) = AtRecv.
Proof.
exists (mkProcess (mkRelay (Stopped None) [] true []) (mkRelay AtRecv [] false []) false, Awaiting).
split_and!; [|intros s' Hs; inversion Hs; subst; simpl in *; done|done|done].
eapply (rtc_l _ _ (mkProcess (mkRelay AtRecv [] true []) relay_start false, Awaiting));
  [by apply session_receiver|].
eapply (rtc_l _ _ (mkProcess (mkRelay (Stopped None) [] true []) relay_start false, Awaiting));
  [by apply session_receiver|].
apply rtc_once. by apply session_forwarder.
Qed.
End Search.

(** ** On concrete sessions *)

Definition demo_events : list (process_event nat nat) :=
  [Request_arrives 7; Receiver_runs None; Receiver_runs None; Receiver_runs None;
   Forwarder_runs None; Response_arrives 8; Forwarder_runs None; Response_arrives 9;
   Forwarder_runs None; Service_returns; Forwarder_runs None; Forwarder_runs None; Forwarder_runs None;
   Forwarder_runs None; Forwarder_runs None; Receiver_runs None].
Definition demo_end : process_state nat nat :=
  mkProcess (mkRelay (Stopped None) [] false [7]) (mkRelay (Stopped None) [] true [8; 9]) true.

Example demo_run : process_run demo_events process_start = Some demo_end.
Proof. reflexivity. Qed.

Lemma process_relays_witness :
  moved (receiver demo_end) `prefix_of` requests_of demo_events /\
  moved (forwarder demo_end) `prefix_of` responses_of demo_events /\
  (at_ (forwarder demo_end) = Stopped None ->
     Context_done ∈ demo_events \/
     (Service_returns ∈ demo_events /\ moved (forwarder demo_end) = responses_of demo_events)) /\
  (forall err, at_ (forwarder demo_end) = Stopped (Some err) -> Forwarder_runs (Some err) ∈ demo_events).
Proof. apply (process_relays demo_events demo_end). reflexivity. Defined.

Lemma process_finishes_witness :
  steps_of demo_events <= 3 * (length (requests_of demo_events) + length (responses_of demo_events)) + 4 /\
  (Forall faultless demo_events ->
   process (Receiver_runs None) demo_end = None -> process (Forwarder_runs None) demo_end = None ->
   moved (forwarder demo_end) = responses_of demo_events /\
   (at_ (forwarder demo_end) = Stopped None <-> Service_returns ∈ demo_events) /\
   (Service_returns ∉ demo_events -> moved (receiver demo_end) = requests_of demo_events)).
Proof. apply (process_finishes demo_events demo_end). reflexivity. Defined.

Definition twice (n : nat) : list nat := [n; n].

Lemma session_transparent_witness : exists n s,
  nsteps (session_step twice) n (session_start [5; 6] true) s /\
  n <= 3 * 1 + 4 * 2 + 9 /\ moved (forwarder s.1) `prefix_of` [5; 5] /\
  ((forall s', ~ session_step twice s s') ->
     at_ (forwarder s.1) = Stopped None /\ moved (forwarder s.1) = [5; 5]).
Proof.
  destruct (session_rests twice 5 [6] true) as (s & (n & Hn)%rtc_nsteps & _).
  exists n, s. split; [exact Hn|]. exact (session_transparent twice 5 [6] true n s Hn).
Defined.

(** On the graph of a SQLite store that [Track] has written. *)
#[local] Existing Instance quiet_engine.
#[local] Existing Instance quiet_no_faults.
#[local] Existing Instance map_order.
#[local] Existing Instance json_codec.
#[local] Existing Instance json_codec_ok.
#[local] Existing Instance demo_ops.
#[local] Existing Instance demo_spec.
#[local] Existing Instance demo_total.

Definition demo_wanted : DependencyRequest := mkDependencyRequest "go" "org" "mod" "".

Lemma gateway_BreadthFirstSearch_witness : exists v n s,
  let root := node_key (ask Upward demo_wanted) in
  let received := moved (forwarder s.1) in
  nsteps (session_step (serve_bfs (S (size (dom v))) world1)) n (session_start [ask Upward demo_wanted] true) s /\
  (forall s', ~ session_step (serve_bfs (S (size (dom v))) world1) s s') /\
  n <= 3 * 0 + 4 * size (dom v) + 13 /\
  Forall (answers Upward v) received /\ NoDup (map response_key received) /\
  (forall b, b ∈ map response_key received -> rtc (edge Upward v) root b) /\
  (exists ds, Forall2 (distance Upward v root) ds (map response_key received) /\ StronglySorted le ds) /\
  ((exists s', session_step (serve_bfs (S (size (dom v))) world1) s s') \/
   (at_ (forwarder s.1) = Stopped None /\
    forall b, rtc (edge Upward v) root b -> b ∈ map response_key received)).
Proof.
  destruct world1_decodable as (v & Hr & Hd).
  destruct (session_rests (serve_bfs (S (size (dom v))) world1) (ask Upward demo_wanted) [] true)
    as (s & (n & Hn)%rtc_nsteps & Hst).
  exists v, n, s. split; [exact Hn|]. split; [exact Hst|].
  exact (gateway_BreadthFirstSearch Upward demo_wanted [] true world1 v (S (size (dom v))) n s Hr Hd
           (Nat.lt_succ_diag_r _) Hn).
Defined.
