(* ===== verification/ServersThms.v ===== *)
(** * What the programs guarantee before they serve

    The theorems about configuration (ClientConfig.v, IndexerConfig.v), about
    the servers' TLS, health and shutdown (Mux.v) and about starting the
    programs (Mains.v). *)

From S2P Require Import Prelude GoUrl GoCodec Api GraphSpec Sql StoreAlpha StoreAlphaSpec KeysAlpha.
From S2P Require Import StoreBeta StoreBetaSpec QueryAlpha Services Gateway Remotes Consumer IndexerConfig.
From S2P Require Import ClientConfig Mux Mains Instances StoreThms StoreBetaThms ConsumerThms.

Local Open Scope string_scope.

(** ** Flags *)

Section Flags.
Context (given : Given).

Definition string_of_flag (names env : list string) (def : string) : string :=
default def (given_string given names env).
Definition bool_of_flag (names env : list string) (def : bool) : bool :=
default def (given_bool given names env).
Definition int_of_flag (names env : list string) (def : Z) : Z := default def (given_int given names env).

(** A service's configuration as the flags with its prefix give it. *)
Definition service_config (lower upper address : string) : Config :=
let str name env def := string_of_flag [lower +:+ name] [upper +:+ env] def in
mkConfig (str "-address" "_ADDRESS" address) (str "-service-config" "_SERVICE_CONFIG" DefaultServiceConfig)
  (str "-lb" "_LBPOLICY" DefaultLoadBalancer) (bool_of_flag [lower +:+ "-tls"] [upper +:+ "_TLS"] false)
  (mkTLS (str "-cert" "_CERT_PATH" "") (str "-key" "_KEY_PATH" "") (str "-ca" "_CA_PATH" "")).
Definition server_tls : TLSConfig :=
mkTLS (string_of_flag ["tls-cert"] ["TLS_CERT_PATH"] "") (string_of_flag ["tls-key"] ["TLS_KEY_PATH"] "")
  (string_of_flag ["tls-ca"] ["TLS_CA_PATH"] "").

(** Every field of the configurations of the three programs is what its own
  flag is given, or its default: no flag writes the field of another. *)
Theorem programs_configured :
configure given tracker_flags tracker_defaults =
  mkTrackerConfig
    (mkPorts (int_of_flag ["http-port"] ["HTTP_PORT"] 8080) (int_of_flag ["grpc-port"; "port"] ["GRPC_PORT"] 8090))
    (string_of_flag ["storage-driver"] ["STORAGE_DRIVER"] "sqlite")
    (string_of_flag ["storage-address"] ["STORAGE_ADDRESS"] "file::memory:?cache=shared")
    (string_of_flag ["storage-readonly-address"] ["STORAGE_READ_ONLY_ADDRESS"] "") server_tls /\
configure given gateway_flags gateway_defaults =
  mkGatewayConfig
    (mkPorts (int_of_flag ["http-port"; "port"] ["HTTP_PORT"] 8080) (int_of_flag ["grpc-port"] ["GRPC_PORT"] 8090))
    server_tls (service_config "extractor" "EXTRACTOR" "extractor:8090")
    (service_config "tracker" "TRACKER" "tracker:8090") /\
configure given indexer_flags indexer_defaults =
  mkIndexerConfig (int_of_flag ["workers"] ["WORKERS"] 5) (string_of_flag ["config"] ["CONFIG_PATH"] "")
    (string_of_flag ["ssh-user"] ["SSH_USER"] "git") (string_of_flag ["ssh-keypath"] ["SSH_KEYPATH"] "")
    (service_config "extractor" "EXTRACTOR" "extractor:8090")
    (service_config "tracker" "TRACKER" "tracker:8090").
Proof. split_and!; reflexivity. Qed.
End Flags.

(** No two flags of a program share a name or an environment variable. *)
Theorem flags_distinct :
  (NoDup (concat (map flag_names tracker_flags)) /\ NoDup (concat (map flag_env tracker_flags))) /\
  (NoDup (concat (map flag_names gateway_flags)) /\ NoDup (concat (map flag_env gateway_flags))) /\
  (NoDup (concat (map flag_names indexer_flags)) /\ NoDup (concat (map flag_env indexer_flags))).
Proof. split_and!; apply (bool_decide_unpack _); vm_compute; exact I. Qed.

(** ** TLS *)

Section Tls.
Context `{TlsFiles}.

(** C40. A server speaks plain text unless it is given a certificate and a key.
  With both it either refuses to start or asks every client for a
  certificate, and then accepts exactly the clients whose certificate comes
  from the file of its CA: without that file it accepts none. *)
Theorem server_tls_accepts (cfg : TLSConfig) (r : outcome (option tls_config)) :
mux_LoadTLSConfig (Some cfg) = r ->
(CertPath cfg = "" \/ KeyPath cfg = "" -> r = Ret None) /\
(CertPath cfg <> "" -> KeyPath cfg <> "" -> r <> Ret None) /\
forall c, r = Ret (Some c) ->
  LoadX509KeyPair (CertPath cfg) (KeyPath cfg) = Ret (default "" (head (Certificates c))) /\
  ClientAuth c = RequireAndVerifyClientCert /\
  forall issuer, accepts_client c issuer <->
    CAPath cfg <> "" /\ exists pem, ReadFile (CAPath cfg) = Ret pem /\ issuer ∈ pem_certificates pem.
Proof.
intros <-. unfold mux_LoadTLSConfig, nonempty.
destruct (decide (CertPath cfg = "")) as [Hc|Hc];
  [rewrite (bool_decide_eq_false_2 (CertPath cfg <> "")) by tauto; split_and!; [done|tauto|done]|].
destruct (decide (KeyPath cfg = "")) as [Hk|Hk];
  [rewrite (bool_decide_eq_false_2 (KeyPath cfg <> "")) by tauto;
   rewrite orb_true_r; split_and!; [done|tauto|done]|].
rewrite !(bool_decide_eq_true_2 (_ <> "")) by done. simpl.
destruct (LoadX509KeyPair _ _) as [pair|e|s]; simpl; [|split_and!; [tauto|done|done]..].
assert (forall (m : outcome (list string)) (P : list string -> Prop),
  (forall pool, m = Ret pool -> P pool) ->
  let r := (let? certPool := m in Ret (Some (mkTlsConfig [pair] None (Some certPool) RequireAndVerifyClientCert))) in
  (CertPath cfg = "" \/ KeyPath cfg = "" -> r = Ret None) /\
  (CertPath cfg <> "" -> KeyPath cfg <> "" -> r <> Ret None) /\
  forall c, r = Ret (Some c) -> exists pool, P pool /\ c = mkTlsConfig [pair] None (Some pool) RequireAndVerifyClientCert) as Hload.
{ intros m P HP r. subst r. destruct m as [pool| |]; simpl; split_and!; try tauto; try done.
  intros c [= <-]. eauto. }
destruct (decide (CAPath cfg = "")) as [Ha|Ha].
- rewrite (bool_decide_eq_false_2 (CAPath cfg <> "")) by tauto.
  destruct (Hload (Ret []) (fun pool => pool = []) ltac:(by intros pool [= <-])) as (H1 & H2 & H3).
  split_and!; [exact H1|exact H2|]. intros c Hr. destruct (H3 c Hr) as (pool & -> & ->).
  split_and!; [done|done|]. intros issuer. unfold accepts_client. simpl. rewrite elem_of_nil. tauto.
- rewrite (bool_decide_eq_true_2 (CAPath cfg <> "")) by done.
  destruct (Hload (pool_of_file (CAPath cfg)) (fun pool => exists pem, ReadFile (CAPath cfg) = Ret pem /\
    pool = pem_certificates pem)) as (H1 & H2 & H3).
  { unfold pool_of_file, obind. intros pool. destruct (ReadFile _) as [pem| |]; [|done..].
    intros Hp. exists pem. split; [done|]. destruct (pem_certificates pem); by simplify_eq. }
  split_and!; [exact H1|exact H2|]. intros c Hr. destruct (H3 c Hr) as (pool & (pem & Hpem & ->) & ->).
  split_and!; [done|done|]. intros issuer. unfold accepts_client. simpl. split.
  + intros Hi. split; [done|]. eauto.
  + intros (_ & pem' & Hpem' & Hi). rewrite Hpem in Hpem'. by injection Hpem' as ->.
Qed.

(** A client's CA file has no influence on the servers it trusts: whatever is
  configured, a connection that is dialed with TLS trusts exactly the issuers
  in the system's pool.  (The pool of the file goes to [ClientCAs], which
  only a server reads.) *)
Theorem client_ignores_ca (cfg : Config) (addr : string) (options : list DialOption) (c : tls_config)
  (issuer : string) :
Connect cfg = Ret (addr, options) -> WithTransportCredentials (Some c) ∈ options ->
trusts_server c issuer <-> exists pool, SystemCertPool = Ret pool /\ issuer ∈ pool.
Proof.
unfold Connect. destruct (TLS cfg || nonempty _).
- destruct (LoadTLSConfig (Some (Config_TLS cfg))) as [t| |] eqn:Hload; unfold obind; [|done..]. intros [= _ <-].
  intros Hin. assert (t = Some c) as ->.
  { repeat (apply elem_of_cons in Hin as [?|Hin]; [by simplify_eq|]). by apply elem_of_nil in Hin. }
  assert (RootCAs c = None) as Hroot; [|unfold trusts_server; by rewrite Hroot].
  unfold LoadTLSConfig, obind in Hload. case_all; done.
- intros [= _ <-] Hin. exfalso.
  repeat (apply elem_of_cons in Hin as [?|Hin]; [by simplify_eq|]). by apply elem_of_nil in Hin.
Qed.
End Tls.

(** ** Health and shutdown *)

(** The last report about the whole system. *)
Definition last_overall (reports : list Report) : option State :=
  last (omap (fun r => match Report_Check r with None => Some (Report_State r) | Some _ => None end) reports).

(** The serving status is NOT_SERVING exactly when the last report about the
  whole system says outage; before the first one it is SERVING. *)
Theorem registerHealth_status (reports : list Report) :
  registerHealth reports = NOT_SERVING <-> last_overall reports = Some Outage.
Proof.
  unfold registerHealth, last_overall.
  induction reports as [|r reports IH] using rev_ind; [done|].
  rewrite fold_left_app, omap_app. simpl. unfold on_report at 1.
  destruct r as [[name|] st]; simpl; [by rewrite app_nil_r|].
  rewrite last_snoc. case_decide; naive_solver.
Qed.

(** A second signal that comes before the goroutine waits again is lost: the
  server then only stops gracefully. *)
Theorem second_signal_lost :
  fold_left on_stop [Signal; Signal; Advance] Running_ = Graceful /\
  fold_left on_stop [Signal; Advance; Signal; Advance] Running_ = Stopped_.
Proof. done. Qed.

(** ** Responses *)

Lemma prefix_app (p s : string) : String.prefix p (p +:+ s) = true.
Proof. induction p as [|a p IH]; simpl; [by destruct s|]. by destruct (Ascii.ascii_dec a a). Qed.

Lemma substring_app (p s : string) : String.substring (String.length p) (String.length s) (p +:+ s) = s.
Proof.
  induction p as [|a p IH]; simpl; [|exact IH].
  induction s as [|a s IH]; simpl; [done|]. exact (f_equal (String a) IH).
Qed.

Lemma TrimPrefix_app (p s : string) : TrimPrefix (p +:+ s) p = s.
Proof.
  unfold TrimPrefix, HasPrefix. rewrite prefix_app, length_string_app.
  replace (String.length p + String.length s - String.length p)%nat with (String.length s) by lia.
  apply substring_app.
Qed.


(** The version document is sent with its content type; the swagger handler
  sets the content type of an asset after the header has been sent, so that
  every asset goes out without one. *)
Theorem content_types (v : Version) (names : option string)
  (asset : string -> option string) (name text : string) :
  (sent_status (registerVersion v new_response) = Some (200%Z, {["Content-Type" := "application/json"]}) /\
     marshal_version v = Some (body (registerVersion v new_response))) /\
  (name <> "" -> asset name = Some text ->
     sent_status (swagger_handler names asset ("/swagger/" +:+ name)) = Some (200%Z, ∅) /\
     body (swagger_handler names asset ("/swagger/" +:+ name)) = text).
Proof.
  split.
  - done.
  - intros Hne Ha. unfold swagger_handler.
    assert (TrimPrefix ("/swagger/" +:+ name) "/swagger/" = name) as ->.
    { by apply TrimPrefix_app. }
    rewrite decide_False by (by destruct name). rewrite Ha. done.
Qed.

(** ** What the server answers *)

(** A server of [Serve] answers its version whatever wraps its handlers, as
  long as CORS and h2c hand a request on, having set header fields at most. *)
Theorem version_served (h : Handlers) (httpServer : Handler) (v : Version) (request : HttpRequest)
  (fields : gmap string string) :
  (forall inner writer, h2c_NewHandler h inner request writer = inner request writer) ->
  (forall inner, cors_Handler h inner request new_response = inner request (mkResponse fields None "")) ->
  Path request = "/version" ->
  let answer := h2cMux h httpServer v request new_response in
  sent_status answer = Some (200%Z, <["Content-Type" := "application/json"]> fields) /\
  marshal_version v = Some (body answer).
Proof.
  intros Hh2c Hcors Hpath answer. unfold answer, h2cMux. rewrite Hh2c, Hcors. unfold httpMux, route.
  rewrite Hpath. done.
Qed.

(** A gRPC request reaches the gRPC server whatever its path, unless the path
  is one of the four fixed ones; and the metrics of net/http never see it. *)
Theorem grpc_unmonitored (h h' : Handlers) (httpServer : Handler) (v : Version) (request : HttpRequest)
    (writer : ResponseWriter) :
  route request = GrpcHandler -> grpcServer_ServeHTTP h = grpcServer_ServeHTTP h' ->
  ProtoMajor request = 2%Z /\ HasPrefix (ContentType request) "application/grpc" = true /\
  Path request ∉ ["/healthz"; "/health"; "/metrics"; "/version"] /\
  httpMux h httpServer v request writer = httpMux h' (fun _ w => w) v request writer.
Proof.
  intros Hr Heq. unfold httpMux. rewrite Hr, Heq. unfold route in Hr.
  repeat case_decide; try done. destruct (bool_decide (ProtoMajor request = 2%Z)) eqn:Hb, (HasPrefix _ _) eqn:Hp; try done.
  apply bool_decide_eq_true in Hb. split_and!; [done..| |done]. set_solver.
Qed.

(** A handler of the program that panics is answered with an error: recovery
  stands inside the metrics, so they count the call like any other. *)
Theorem panics_answered {W A : Type} (prometheus recovery : Interceptor W) (call : M W A) (w : W) :
  (forall B (m : M W B) w, (forall why, (m w).1 <> Panic why) -> (prometheus B m w).1 = (m w).1) ->
  (forall B (m : M W B) w, match (m w).1 with
                           | Panic why => exists e, (recovery B m w).1 = Fail e
                           | o => (recovery B m w).1 = o
                           end) ->
  match (call w).1 with
  | Panic _ => exists e, (DefaultServers prometheus recovery A call w).1 = Fail e
  | o => (DefaultServers prometheus recovery A call w).1 = o
  end.
Proof.
  intros Hprom Hrec. unfold DefaultServers. simpl. specialize (Hrec A call w).
  rewrite Hprom; [done|]. intros why. destruct (call w).1; [congruence..|]. destruct Hrec as [e ->]. done.
Qed.

(** ** Starting the tracker *)

Section Tracker.
Context `{SqlEngine, !NoFaults} `{TlsFiles} (net : Network).

Lemma Resolve_run (name bname addr db : string) (st : DriverStatements) (w : World btable) :
driver_statements name = Ret (bname, st) -> addr <> "" -> sql_open bname addr = Ret db ->
exists w', Resolve name addr "" w = (Ret (mkSqlDriver (Some (Some db)) (Some (Some db)) st), w') /\
  dbs w' !! db = Some (default ∅ (dbs w !! db)).
Proof.
intros Hname Haddr Hopen.
assert (exists w', auto_migrate db w = (Ret tt, w') /\ dbs w' !! db = Some (default ∅ (dbs w !! db))) as (w' & Hm & Hdb).
{ unfold auto_migrate, bind, tick, lift. rewrite no_faults_all. eexists. split; [done|]. simpl.
  by rewrite lookup_partial_alter_eq. }
exists w'. split; [|done]. unfold Resolve, bind, lift. rewrite Hname, decide_False, Hopen by done.
unfold ret. by rewrite Hm.
Qed.

Lemma driver_statements_list (name bname : string) (st : DriverStatements) :
driver_statements name = Ret (bname, st) -> exists d, d_List st = sqliteListGraphData d.
Proof.
unfold driver_statements. intros Hs. repeat case_decide; simplify_eq; eauto.
Qed.

Lemma NewGraphStoreFor_fresh (name driver addr db : string) (w : World table) :
ResolveDriverName name = Ret driver -> addr <> "" -> sql_open driver addr = Ret db ->
exists st w', own_statements st /\
  NewGraphStoreFor name addr "" w = (Ret (mkGraphStore (Some db) (Some db) st), w') /\
  dbs w' !! db = Some (default ∅ (dbs w !! db)) /\ (dbs w !! db = None -> sql_rep db w' ∅).
Proof.
intros Hname Haddr Hopen.
assert (exists st, DefaultStatementsFor driver = Some st /\ own_statements st) as (st & Hst & Hown).
{ unfold ResolveDriverName in Hname. unfold own_statements. repeat case_decide; simplify_eq; eexists; (split; [reflexivity|tauto]). }
destruct (NewGraphStoreFor_run name driver addr "" db db st w Hname Hst Haddr Hopen) as (w' & Hrun & Hdbs & Hrep).
{ by rewrite decide_True. }
exists st, w'. split_and!; [done..| |done]. by rewrite Hdbs, lookup_insert_eq.
Qed.

(** The reads of the health checks. *)
Definition v1beta_read (drv : sqlDriver) (req : BetaListRequest) : M TrackerWorld unit :=
on_beta (discard (@Server_List _ (sqlDriver_Driver drv) req)).
Definition v1alpha_read (gs : graphStore) (req : ListRequest) : M TrackerWorld unit :=
on_alpha (discard (List gs req)).

(** C25. On an engine without faults a tracker with a driver both stores know and
  one address starts: both stores are on the database of the address, its
  tables exist and keep what they held (a new v1alpha table is the empty
  store), and every health check answers OK, now and whenever the tables
  are there. *)
Theorem startGraphStore_healthy (name bname driver addr db : string) (st : DriverStatements) (w : TrackerWorld) :
driver_statements name = Ret (bname, st) -> ResolveDriverName name = Ret driver ->
addr <> "" -> sql_open bname addr = Ret db -> sql_open driver addr = Ret db ->
listen net sockAddr None = None ->
exists drv gs w', startGraphStore net name addr "" w = (Ret (drv, gs), w') /\
  d_rwdb drv = Some (Some db) /\ rwdb gs = Some db /\
  dbs (beta w') !! db = Some (default ∅ (dbs (beta w) !! db)) /\
  dbs (alpha w') !! db = Some (default ∅ (dbs (alpha w) !! db)) /\
  (dbs (alpha w) !! db = None -> sql_rep db (alpha w') ∅) /\
  forall c w1, c ∈ tracker_Checks (v1beta_read drv) (v1alpha_read gs) ->
    is_Some (dbs (beta w1) !! db) -> is_Some (dbs (alpha w1) !! db) -> (run_check c w1).1 = Mux.OK.
Proof.
intros Hb Ha Hne Hob Hoa Hlisten.
destruct (Resolve_run name bname addr db st (beta w) Hb Hne Hob) as (wb & Hrb & Hdb).
destruct (NewGraphStoreFor_fresh name driver addr db (alpha w) Ha Hne Hoa) as (sta & wa & Hown & Hra & Hda & Hrep).
eexists _, _, (mkTrackerWorld wa wb). split.
{ unfold startGraphStore, bind, on_beta, on_alpha. rewrite Hrb. simpl. rewrite Hra. simpl. by rewrite Hlisten. }
split_and!; [done..|]. intros c w1 Hc [tb Htb] [ta Hta].
apply elem_of_cons in Hc as [->|Hc%list_elem_of_singleton].
- destruct (driver_statements_list _ _ _ Hb) as [d Hd].
  pose proof (Server_List_page (mkSqlDriver (Some (Some db)) (Some (Some db)) st) db d tb SourceType 1
    eq_refl Hd ltac:(lia) 0 "" (beta w1) ltac:(lia) ltac:(lia) Htb) as Hrun.
  rewrite paginate_first in Hrun by lia. specialize (Hrun eq_refl).
  unfold run_check, v1beta_read, on_beta, discard, bind. simpl. by rewrite Hrun.
- subst c. unfold run_check, v1alpha_read, on_alpha, discard, bind. simpl.
  erewrite (List_run _ db); [done|done|done|]. apply list_statement; [done|]. by vm_compute.
Qed.

(** The v1beta store also answers to driver names the v1alpha store does not
  know: with those the tracker creates the v1beta table and then refuses to
  start. *)
Theorem startGraphStore_aliases (name bname addr db : string) (st : DriverStatements) (w : TrackerWorld) :
name ∈ ["sqlite3"; "postgresql"; "pgx"] -> addr <> "" ->
driver_statements name = Ret (bname, st) -> sql_open bname addr = Ret db ->
exists e w', startGraphStore net name addr "" w = (Fail e, w') /\ alpha w' = alpha w /\
  dbs (beta w') !! db = Some (default ∅ (dbs (beta w) !! db)).
Proof.
intros Hname Hne Hb Hob. destruct (Resolve_run name bname addr db st (beta w) Hb Hne Hob) as (wb & Hrb & Hdb).
assert (exists e, ResolveDriverName name = Fail e) as [e He].
{ unfold ResolveDriverName. exists (ErrText (name +:+ " not supported, specify one of the supported systems; mysql/postgres/sqlite")).
  rewrite !elem_of_cons in Hname. destruct Hname as [->|[->|[->|Hx]]]; [done..|by apply elem_of_nil in Hx]. }
exists e, (mkTrackerWorld (alpha w) wb). split; [|done].
unfold startGraphStore, bind, on_beta, on_alpha. rewrite Hrb. unfold NewGraphStoreFor, bind, lift. by rewrite He.
Qed.
End Tracker.

(** ** Starting the indexer *)

Section Load.
Context `{ConfigFormats (list Account)} (read_file : string -> outcome string).

(** The table of parsers, read off. *)
Definition parser_of (ext : string) : option (Parser (Configuration := list Account)) :=
if decide (ext = ".json") then Some jsn
else if decide (ext = ".yaml" \/ ext = ".yml") then Some yml
else if decide (ext = ".protobin" \/ ext = ".bin") then Some protobin
else if decide (ext = ".prototxt" \/ ext = ".txt") then Some prototxt
else None.

Lemma parser_lookup ext : defaultParserIndex !! ext = parser_of ext.
Proof.
unfold parser_of. repeat case_decide; destruct_or?; subst; try reflexivity.
unfold defaultParserIndex. rewrite !lookup_insert_ne by (intros <-; tauto). apply lookup_empty.
Qed.

(** A configuration is loaded exactly when its file is read and the parser
  its extension names accepts the text: JSON, YAML by way of JSON, binary
  or textual protobuf; any other extension is refused. *)
Theorem Load_parses (url body : string) (c : list Account) :
read_file url = Ret body ->
Load read_file url = Ret c <->
  (Ext url = ".json" /\ jsonpb_Unmarshal body = Ret c) \/
  (Ext url ∈ [".yaml"; ".yml"] /\ exists j, YAMLToJSON (Configuration := list Account) body = Ret j /\ jsonpb_Unmarshal j = Ret c) \/
  (Ext url ∈ [".protobin"; ".bin"] /\ proto_Unmarshal body = Ret c) \/
  (Ext url ∈ [".prototxt"; ".txt"] /\ proto_UnmarshalText body = Ret c).
Proof.
intros Hread. unfold Load. rewrite Hread.
assert (forall (m : outcome (list Account)), match m with Ret config => Ret config
  | Fail e => Fail (wrap "failed to parse body of file" e) | Panic why => Panic why end = Ret c <-> m = Ret c) as Hm
  by (by intros [?|?|?]).
assert (forall b : string, yml b = Ret c <-> exists j, YAMLToJSON (Configuration := list Account) b = Ret j /\ jsonpb_Unmarshal j = Ret c) as Hy.
{ intros b. unfold yml, jsn, obind. destruct (YAMLToJSON b); naive_solver. }
rewrite parser_lookup, !elem_of_cons, !elem_of_nil. unfold parser_of. generalize (Ext url). intros ext.
repeat case_decide; rewrite ?Hm, ?Hy; unfold jsn, protobin, prototxt; naive_solver.
Qed.

End Load.

Section Indexer.
Context `{TlsFiles} {W : Type} `{Hosting W} `{MapRange} `{ConfigFormats (list Account)}.
Context (read_file : string -> outcome string) (public_keys : string -> string -> outcome unit).

(** What it has read when it gets to its workers. *)
Lemma indexer_starts (fuel : nat) (cfg : indexerConfig) (w w' : W) (configured : bool)
  (start : pool (A := Repository)) :
indexer_action read_file public_keys fuel cfg w = (Ret (Some (configured, start)), w') ->
exists accounts remote repositories,
  Load read_file (configPath cfg) = Ret accounts /\ ParseConfig accounts = Ret remote /\
  remote fuel w = (Ret (Some repositories), w') /\ configured = nonempty (sshKeyPath cfg) /\
  start = pool_start (Z.to_nat (workers_ cfg)) repositories.
Proof.
unfold indexer_action, bind, lift, ret, fail, panic.
destruct (Connect (indexer_extractor cfg)); [|done..]. destruct (Connect (indexer_tracker cfg)); [|done..].
destruct (nonempty (configPath cfg)); [|done].
destruct (Load read_file (configPath cfg)) as [accounts| |] eqn:Hload; [|done..].
destruct (ParseConfig accounts) as [remote| |] eqn:Hparse; [|done..].
intros Hrun. exists accounts, remote. destruct (nonempty (sshKeyPath cfg)).
- destruct (public_keys _ _); [|done..]. destruct (remote fuel w) as [[[resp|]| |] w1]; [|done..].
  case_bool_decide; [done|]. simplify_eq. eauto 10.
- destruct (remote fuel w) as [[[resp|]| |] w1]; [|done..]. case_bool_decide; [done|]. simplify_eq. eauto 10.
Qed.

(** An indexer that gets to its workers has both connections configured, a
  configuration that parses and names only remotes it can build, and the
  repositories they answered; with a worker it then ends in every
  interleaving, with each of them consumed exactly once. *)
Theorem indexer_consumes (fuel : nat) (cfg : indexerConfig) (w w' : W) (configured : bool)
  (start : pool (A := Repository)) :
indexer_action read_file public_keys fuel cfg w = (Ret (Some (configured, start)), w') ->
exists accounts remote repositories,
  Load read_file (configPath cfg) = Ret accounts /\ ParseConfig accounts = Ret remote /\
  remote fuel w = (Ret (Some repositories), w') /\ configured = nonempty (sshKeyPath cfg) /\
  ((0 < workers_ cfg)%Z -> forall s, rtc pool_step start s ->
     (returned s = true -> consumed s ≡ₚ repositories) /\
     (returned s = false -> exists s', pool_step s s') /\
     (forall k s', nsteps pool_step k s s' -> k <= pool_work s)).
Proof.
intros (accounts & remote & repositories & Hload & Hparse & Hrem & Hcfg & ->)%indexer_starts.
exists accounts, remote, repositories. split_and!; [done..|]. intros Hw s Hs. eapply pool_run; [|exact Hs]. lia.
Qed.
End Indexer.

(** ** Instances *)

Definition demo_files : TlsFiles := {|
  LoadX509KeyPair cert key := Ret cert; ReadFile path := Ret path;
  pem_certificates pem := [pem]; SystemCertPool := Ret ["public"] |}.
#[local] Existing Instance demo_files.

Lemma server_tls_accepts_witness : exists c,
  mux_LoadTLSConfig (Some (mkTLS "cert" "key" "ours")) = Ret (Some c) /\
  accepts_client c "ours" /\ ~ accepts_client c "theirs".
Proof.
  eexists. split; [reflexivity|].
  destruct (server_tls_accepts (mkTLS "cert" "key" "ours") _ eq_refl) as (_ & _ & Hacc).
  destruct (Hacc _ eq_refl) as (_ & _ & Ha). rewrite !Ha. split.
  - split; [done|]. exists "ours". split; [done|by left].
  - intros (_ & pem & Hpem & Hi). simpl in Hpem. injection Hpem as <-. simpl in Hi.
    apply list_elem_of_singleton in Hi. done.
Defined.

Lemma client_ignores_ca_witness : exists c,
  Connect (mkConfig "tracker:8090" "" "" true (mkTLS "" "" "ours")) =
    Ret ("tracker:8090", [WithDefaultServiceConfig ""; WithStreamInterceptor; WithUnaryInterceptor;
                          WithTransportCredentials (Some c)]) /\
  ~ trusts_server c "ours".
Proof.
  eexists. split; [reflexivity|].
  erewrite (client_ignores_ca (mkConfig "tracker:8090" "" "" true (mkTLS "" "" "ours"))); [|reflexivity|by right; right; right; left].
  intros (pool & Hp & Hi). simpl in Hp. injection Hp as <-. by apply list_elem_of_singleton in Hi.
Defined.

Lemma content_types_witness :
  sent_status (registerVersion (mkVersion "1" "2" "3") new_response) = Some (200%Z, {["Content-Type" := "application/json"]}) /\
  sent_status (swagger_handler None (fun _ => Some "{}") "/swagger/x.json") = Some (200%Z, ∅).
Proof.
  destruct (content_types (mkVersion "1" "2" "3") None (fun _ => Some "{}") "x.json" "{}") as [[H1 _] H2].
  split; [exact H1|apply H2; [done|reflexivity]].
Defined.

#[local] Existing Instance quiet_engine.
#[local] Existing Instance quiet_no_faults.

Definition calm_network : Network := mkNetwork (fun _ _ => None) None.
Definition fresh_tracker : TrackerWorld := mkTrackerWorld (mkWorld ∅ 0) (mkWorld ∅ 0).

Lemma startGraphStore_healthy_witness : exists drv gs w',
  startGraphStore calm_network "sqlite" "main" "" fresh_tracker = (Ret (drv, gs), w') /\
  sql_rep "main" (alpha w') ∅ /\
  forall c, c ∈ tracker_Checks (v1beta_read drv) (v1alpha_read gs) -> (run_check c w').1 = Mux.OK.
Proof.
  destruct (startGraphStore_healthy calm_network "sqlite" "sqlite3" "sqlite3" "main" "main" SQLiteStatements
    fresh_tracker eq_refl eq_refl ltac:(done) eq_refl eq_refl eq_refl)
    as (drv & gs & w' & Hrun & _ & _ & Hb & Ha & Hrep & Hc).
  exists drv, gs, w'. split; [exact Hrun|]. split; [by apply Hrep|]. intros c Hin.
  apply (Hc c w' Hin); [rewrite Hb; by eexists|rewrite Ha; by eexists].
Defined.

Lemma startGraphStore_aliases_witness : exists e w',
  startGraphStore calm_network "pgx" "main" "" fresh_tracker = (Fail e, w') /\ alpha w' = alpha fresh_tracker /\
  dbs (beta w') !! "main" = Some ∅.
Proof.
  apply (startGraphStore_aliases calm_network "pgx" "postgres" "main" "main" PostgreSQLStatements fresh_tracker);
    [by right; right; left|done|reflexivity|reflexivity].
Defined.

(** One static account, whatever the text. *)
Definition demo_account : Account := mkAccount None None None None (Some (mkStatic ["git@a"] None)).
Definition demo_formats : ConfigFormats (list Account) := {|
  jsonpb_Unmarshal := fun text => if decide (text = "{}") then Ret [] else Ret [demo_account];
  proto_Unmarshal := fun _ => Fail (ErrBackend 1); proto_UnmarshalText := fun _ => Fail (ErrBackend 1);
  YAMLToJSON := fun text => Ret text |}.
#[local] Existing Instance demo_formats.

Lemma Load_parses_witness : Load (fun _ => Ret "accounts") "conf/deps.yaml" = Ret [demo_account].
Proof.
  apply (Load_parses (fun _ => Ret "accounts") "conf/deps.yaml" "accounts"); [reflexivity|].
  right. left. split; [by left|]. exists "accounts". split; reflexivity.
Defined.

#[local] Existing Instance map_order.

Definition no_hosting : Hosting unit := {|
  github_client := fun _ _ => Fail (ErrBackend 1); gitlab_client := fun _ _ => Fail (ErrBackend 1);
  bitbucket_client := fun _ => Fail (ErrBackend 1); http_get := fun _ w => (Fail (ErrBackend 1), w);
  json_parse := fun _ => Fail (ErrBackend 1); jee_parse := fun _ => Fail (ErrBackend 1) |}.
#[local] Existing Instance no_hosting.

Definition demo_indexer : indexerConfig :=
  mkIndexerConfig 2 "deps.json" "git" "" (service_defaults "extractor:8090") (service_defaults "tracker:8090").

Lemma indexer_consumes_witness : exists start,
  indexer_action (fun _ => Ret "accounts") (fun _ _ => Ret tt) 3 demo_indexer tt =
    (Ret (Some (false, start)), tt) /\
  forall s, rtc pool_step start s -> returned s = true -> consumed s ≡ₚ [mkRepository "git@a" None].
Proof.
  exists (pool_start 2 [mkRepository "git@a" None]).
  assert (indexer_action (fun _ => Ret "accounts") (fun _ _ => Ret tt) 3 demo_indexer tt =
    (Ret (Some (false, pool_start 2 [mkRepository "git@a" None])), tt)) as Hrun by (vm_compute; reflexivity).
  split; [exact Hrun|]. intros s Hs Hret.
  destruct (indexer_consumes (fun _ => Ret "accounts") (fun _ _ => Ret tt) 3 demo_indexer tt tt false
    (pool_start 2 [mkRepository "git@a" None]) Hrun)
    as (accounts & remote & repositories & Hl & Hp & Hr & _ & Hpool).
  vm_compute in Hl. injection Hl as <-. injection Hp as <-. injection Hr as <-.
  by apply (Hpool ltac:(done) s Hs).
Defined.
