(* ===== verification/CliThms.v ===== *)
(** * What the command line guarantees

    The theorems about the commands and clients of deps: the URIs of the REST
    client, listings over a tracker behind a gateway, the guards of the
    commands, and the choice of the client. *)

From Stdlib Require Import Ascii.
From S2P Require Import Prelude GoJson GoJsonSpec GoUrl GoUrlParse GoCodec GoHash Api GraphSpec Sql StoreAlpha StoreAlphaSpec.
From S2P Require Import KeysAlpha QueryAlpha TrackAlpha SearchAlpha Topology Services Gateway ClientConfig Mux.
From S2P Require Import Mains DepsClient DepsCli DepsMain Instances StoreThms.

Local Open Scope string_scope.

(** ** URIs *)

(** The names of the query parameters need no escape. *)
Ltac plain_params := repeat constructor; reflexivity.

(** Every URI of the REST client reads back: its query holds the fields of
  the request under their names, numbers in decimal.  The language of a
  dependency request is a path segment, but escaped for a query: it reads
  back with its spaces turned into plus signs. *)
Lemma uris_read (base : string) (d : DependencyRequest) (p : PageRequest) (m : Module_) (s : Source) :
  (exists seg q,
     dependents_uri base d = base +:+ "/v1alpha/graph/" +:+ seg +:+ "/dependents?" +:+ q /\
     dependencies_uri base d = base +:+ "/v1alpha/graph/" +:+ seg +:+ "/dependencies?" +:+ q /\
     PathUnescape seg = Some (plus_for_space (DR_Language d)) /\
     ParseQuery q = Some [("organization", DR_Organization d); ("module", DR_Module d)]) /\
  (exists q, modules_uri base p = base +:+ "/v1alpha/modules?" +:+ q /\
             sources_uri base p = base +:+ "/v1alpha/sources?" +:+ q /\
     exists page count, ParseQuery q = Some [("page", page); ("count", count)] /\
       parse_decimal page = Some (PR_Page p) /\ parse_decimal count = Some (PR_Count p)) /\
  (exists q, module_sources_uri base m = base +:+ "/v1alpha/modules/source?" +:+ q /\
     ParseQuery q = Some [("language", Module_Language m); ("organization", Module_Organization m);
                          ("module", Module_Module m)]) /\
  (exists q, managed_uri base s = base +:+ "/v1alpha/modules/managed?" +:+ q /\
     ParseQuery q = Some [("url", Source_Url s)]).
Proof.
  assert (forall k v, param k (decimal v) = k +:+ String "=" (decimal v)) as Hnum by (intros; unfold param; by rewrite decimal_plain).
  split_and!.
  - exists (QueryEscape (DR_Language d)), (query [("organization", DR_Organization d); ("module", DR_Module d)]).
    split_and!; [| |apply PathUnescape_escape|apply ParseQuery_query; [done|plain_params]].
    all: cbn [query]; unfold param; by rewrite !string_app_assoc.
  - exists (query [("page", decimal (PR_Page p)); ("count", decimal (PR_Count p))]).
    split_and!; [cbn [query]; rewrite !Hnum; by rewrite !string_app_assoc..|].
    eexists _, _. split; [apply ParseQuery_query; [done|plain_params]|]. by rewrite !parse_decimal_of.
  - exists (query [("language", Module_Language m); ("organization", Module_Organization m); ("module", Module_Module m)]).
    split; [cbn [query]; unfold param; by rewrite !string_app_assoc|apply ParseQuery_query; [done|plain_params]].
  - exists (query [("url", Source_Url s)]).
    split; [cbn [query]; unfold param; by rewrite ?string_app_assoc|apply ParseQuery_query; [done|plain_params]].
Qed.

(** ** The REST client against a server *)

(** The bodies of the REST form of the API: what a response is written as, and
    what an error is. *)
Record RestBodies := mkRestBodies {
  dependencies_body : list Dependency -> string;
  managed_sources_body : list ManagedSource -> string;
  managed_modules_body : list ManagedModule -> string;
  error_body : error -> string }.

(** How a call is answered over HTTP: a panic is caught and becomes an error; an
    error is a body too, with a status the client does not look at. *)
Definition over_http {A W} (b : RestBodies) (body : A -> string) (r : outcome A * W) : outcome string * W :=
  (Ret (match r.1 with Ret a => body a | Fail e => error_body b e | Panic why => error_body b (ErrInternal why) end), r.2).

(** What the client relies on of the server: a GET is answered by the method its
    path names, applied to what the decoded path segment and the decoded query
    hold. *)
Record RestServer {W : Type} `{Rest W} (base : string) (b : RestBodies) (deps : DependencyService W)
    (mods : ModuleService W) : Prop := {
  rest_dependents : forall seg q l o m w,
    PathUnescape seg = Some l -> l <> "" -> free_of "/" l ->
    ParseQuery q = Some [("organization", o); ("module", m)] ->
    http_Get (base +:+ "/v1alpha/graph/" +:+ seg +:+ "/dependents?" +:+ q) w =
    over_http b (dependencies_body b) (svc_ListDependents deps (mkDependencyRequest l o m "") w);
  rest_dependencies : forall seg q l o m w,
    PathUnescape seg = Some l -> l <> "" -> free_of "/" l ->
    ParseQuery q = Some [("organization", o); ("module", m)] ->
    http_Get (base +:+ "/v1alpha/graph/" +:+ seg +:+ "/dependencies?" +:+ q) w =
    over_http b (dependencies_body b) (svc_ListDependencies deps (mkDependencyRequest l o m "") w);
  rest_sources : forall q l o m w,
    ParseQuery q = Some [("language", l); ("organization", o); ("module", m)] ->
    http_Get (base +:+ "/v1alpha/modules/source?" +:+ q) w =
    over_http b (managed_sources_body b) (svc_ListSources mods (mkModule l o m "") w);
  rest_managed : forall q u w,
    ParseQuery q = Some [("url", u)] ->
    http_Get (base +:+ "/v1alpha/modules/managed?" +:+ q) w =
    over_http b (managed_modules_body b) (svc_ListManaged mods (mkSource u "" "") w) }.

(** And of jsonpb: it reads back a message whose strings are valid text, and
    refuses the body of an error, whose fields no response has. *)
Definition texts `{JsonCodec} (ms : list schema_msg) : Prop := Forall (fun m => Forall valid_text (msg_strings m)) ms.
Definition dependency_texts `{JsonCodec} (d : Dependency) : Prop := texts [VModule (Dependency_Module d); VDepends (Dependency_Depends d)].
Definition source_texts `{JsonCodec} (d : ManagedSource) : Prop := texts [VSource (MS_Source d); VManages (MS_Manages d)].
Definition module_texts `{JsonCodec} (d : ManagedModule) : Prop := texts [VModule (MM_Module d); VManages (MM_Manages d)].

Record JsonpbReads `{JsonCodec} {W : Type} `{Rest W} (b : RestBodies) : Prop := {
  jsonpb_dependencies : forall l, Forall dependency_texts l -> read_dependencies (dependencies_body b l) = Ret l;
  jsonpb_managed_sources : forall l, Forall source_texts l -> read_managed_sources (managed_sources_body b l) = Ret l;
  jsonpb_managed_modules : forall l, Forall module_texts l -> read_managed_modules (managed_modules_body b l) = Ret l;
  jsonpb_no_dependencies : forall e, exists e', read_dependencies (error_body b e) = Fail e';
  jsonpb_no_sources : forall e, exists e', read_managed_sources (error_body b e) = Fail e';
  jsonpb_no_modules : forall e, exists e', read_managed_modules (error_body b e) = Fail e' }.

(** The answer of the client beside the one of the tracker: the same when that is
    a response; when it is an error, an error, but the one of reading its body. *)
Definition answers_as {A W} (text : A -> Prop) (client tracker : outcome (list A) * W) : Prop :=
  client.2 = tracker.2 /\
  match tracker.1 with
  | Ret l => Forall text l -> client.1 = Ret l
  | Fail _ | Panic _ => exists e, client.1 = Fail e
  end.

Lemma over_http_read {A W} `{Rest W} (b : RestBodies) (text : A -> Prop) (body : list A -> string)
    (read : string -> outcome (list A)) (uri : string) (r : outcome (list A) * W) (w : W) :
  (forall l, Forall text l -> read (body l) = Ret l) -> (forall e, exists e', read (error_body b e) = Fail e') ->
  http_Get uri w = over_http b body r -> answers_as text ((let! x := http_Get uri in lift (read x)) w) r.
Proof.
  intros Hok Herr Hget. destruct r as [o w']. unfold answers_as, bind, lift. rewrite Hget. cbn. split; [done|].
  destruct o as [l|e|why]; [apply Hok|apply Herr..].
Qed.

Section RestClient.
Context `{JsonCodec} {W : Type} `{GraphStoreOps W, Rest W}.

(** C24. Over REST, whose handlers call the tracker and on a connection that
  holds, the queries leave the
  service as the tracker's own do and answer what it answers to the request
  itself, although the client sends neither the name of a module nor the kind
  and the reference of a source, as long as the language is not empty and
  holds no slash and no space.  When the tracker fails the client fails as
  well, but with the error of reading the body, since it ignores the status. *)
Theorem rest_queries (base : string) (b : RestBodies) (d : DependencyRequest) (m : Module_) (s : Source) (w : W) :
RestServer base b tracker_DependencyService tracker_ModuleService -> JsonpbReads b ->
DR_Language d <> "" -> free_of "/" (DR_Language d) -> free_of " " (DR_Language d) ->
answers_as dependency_texts (svc_ListDependents (httpDependencyService base) d w) (ListDependents d w) /\
answers_as dependency_texts (svc_ListDependencies (httpDependencyService base) d w) (ListDependencies d w) /\
answers_as source_texts (svc_ListSources (httpModuleClient base) m w) (ListSources m w) /\
answers_as module_texts (svc_ListManaged (httpModuleClient base) s w) (ListManaged (Some s) w).
Proof.
intros Hrest [Hd Hs Hm Hnd Hns Hnm] Hne Hslash Hspace.
destruct (uris_read base d (mkPageRequest 0 0) m s) as ((seg & q & Hu1 & Hu2 & Hseg & Hq) & _ & (q2 & Hu3 & Hq2) & (q3 & Hu4 & Hq3)).
assert (plus_for_space (DR_Language d) = DR_Language d) as Hplus by (by apply plus_for_space_free).
rewrite Hplus in Hseg.
simpl. unfold http_ListDependents, http_ListDependencies, http_ListSources, http_ListManaged.
rewrite Hu1, Hu2, Hu3, Hu4. split_and!.
- eapply over_http_read; [done..|]. rewrite (rest_dependents _ _ _ _ Hrest _ _ _ _ _ _ Hseg Hne Hslash Hq). by destruct d.
- eapply over_http_read; [done..|]. rewrite (rest_dependencies _ _ _ _ Hrest _ _ _ _ _ _ Hseg Hne Hslash Hq). by destruct d.
- eapply over_http_read; [done..|]. rewrite (rest_sources _ _ _ _ Hrest _ _ _ _ _ Hq2). by destruct m.
- eapply over_http_read; [done..|]. rewrite (rest_managed _ _ _ _ Hrest _ _ _ Hq3). by destruct s.
Qed.
End RestClient.

(** ** Listings *)

Local Close Scope string_scope.

Section Listing.
Context {W : Type}.

(** A listing loop over pages that are cut from orders of [all] writes what it
  gets, page after page, and ends; [Inv p] holds of the service's world before
  page [p] is asked for. *)
Lemma page_loop_pages {A} (Inv : nat -> W -> Prop) (list_page : PageRequest -> M W (list A)) (show : A -> printed)
  (ls : nat -> list A) (all : list A) (c : CliWorld W) (fuel : nat) :
(forall p, ls p ≡ₚ all) ->
(forall p w, Inv p w -> (100 * p <= length all)%nat -> exists w',
   list_page (mkPageRequest (Z.of_nat p + 1) 100) w = (Ret (take 100 (drop (p * 100) (ls p))), w') /\ Inv (S p) w') ->
(Z.of_nat (length all) < 2 ^ 31)%Z -> Inv 0 (service_world c) -> (length all < 100 * fuel)%nat ->
exists w' p, page_loop fuel list_page show 1 c =
  (Ret true, mkCliWorld w' (output c ++ map show (paged 100 ls 0 fuel))) /\ Inv p w'.
Proof.
intros Hls Hpage Hlen. change (2 ^ 31)%Z with 2147483648%Z in Hlen.
assert (forall fuel p c, Inv p (service_world c) -> (100 * p <= length all)%nat ->
  (length all < 100 * (p + fuel))%nat -> exists w' q,
  page_loop fuel list_page show (Z.of_nat p + 1) c =
    (Ret true, mkCliWorld w' (output c ++ map show (paged 100 ls p fuel))) /\ Inv q w') as Hgen.
{ clear c fuel. intros fuel. induction fuel as [|fuel IH]; intros p c Hinv Hp Hfuel; [lia|].
  cbn [page_loop]. unfold bind at 1, call at 1.
  assert (int32 (Z.of_nat p + 1) = (Z.of_nat p + 1)%Z) as ->.
  { apply swrap_small; [lia|]. change (2 ^ (32 - 1))%Z with 2147483648%Z. lia. }
  change (int32 pageSize) with 100%Z.
  destruct (Hpage p (service_world c) Hinv Hp) as (w1 & -> & Hinv1). unfold bind, write_all. cbn [service_world output].
  rewrite length_take, length_drop, (Permutation_length (Hls p)).
  case_bool_decide as Hlt; unfold pageSize in Hlt.
  - exists w1, (S p). split; [|done]. unfold ret. cbn [paged].
    by rewrite (paged_end _ _ all Hls (S p)), app_nil_r by lia.
  - assert (int64 (Z.of_nat p + 1 + 1) = (Z.of_nat (S p) + 1)%Z) as ->.
    { unfold int64. rewrite swrap_small; [lia|lia|]. change (2 ^ (64 - 1))%Z with 9223372036854775808%Z. lia. }
    destruct (IH (S p) (mkCliWorld w1 (output c ++ map show (take 100 (drop (p * 100) (ls p))))))
      as (w2 & q & Hrun & Hinv2); [done|lia|lia|].
    exists w2, q. split; [|done]. rewrite Hrun. cbn [output paged]. by rewrite map_app, <- app_assoc. }
intros Hinv Hfuel. by destruct (Hgen fuel 0%nat c Hinv) as (w' & q & Hrun & Hinv'); [lia..|exists w', q].
Qed.
End Listing.

(** What a row reads as. *)
Definition reads {A} (f : GraphItem -> outcome A) (r : row) : option A :=
  match f (row_item r) with Ret a => Some a | _ => None end.

Lemma reads_all {A} (f : GraphItem -> outcome A) (rows : list row) (l : list A) :
  omap_list f (map row_item rows) = Ret l ->
  forall rows', (forall r, r ∈ rows' -> r ∈ rows) -> omap_list f (map row_item rows') = Ret (omap (reads f) rows').
Proof.
  intros Hl rows' Hsub. apply omap_list_Ret. rewrite omap_list_Ret in Hl.
  assert (forall r, r ∈ rows -> exists a, f (row_item r) = Ret a) as Hall.
  { intros r Hr. apply Forall2_length in Hl as Hlen. apply list_elem_of_lookup in Hr as [i Hi].
    destruct (Forall2_lookup_l _ _ _ i (row_item r) Hl) as (a & _ & Ha); [|by exists a].
    change (map row_item) with (fmap (M := list) row_item). by rewrite list_lookup_fmap, Hi. }
  induction rows' as [|r rows' IH]; [constructor|]. destruct (Hall r (Hsub r ltac:(by left))) as [a Ha].
  cbn. unfold reads at 1. rewrite Ha. constructor; [done|]. apply IH. intros r' Hr'. apply Hsub. by right.
Qed.

Lemma reads_length {A} (f : GraphItem -> outcome A) (rows : list row) (l : list A) :
  omap_list f (map row_item rows) = Ret l -> omap (reads f) rows = l.
Proof. intros Hl. pose proof (reads_all f rows l Hl rows (fun _ H => H)) as Hl'. congruence. Qed.

Section Tracker.
Context `{SqlEngine, !NoFaults} `{JsonCodec} `{MapRange}.
Variables (gs : graphStore) (db : string) (t : table).
Hypothesis Hro : rodb gs = Some db.
Hypothesis Hst : own_statements (statements gs).
#[local] Instance listing_ops : GraphStoreOps (World table) := sql_ops gs.

(** The items of a type in the order of one call, and the state in which page
  [p] is asked for. *)
Definition shown {A} (ty : string) (f : GraphItem -> outcome A) (call : nat) : list A :=
omap (reads f) (listed call ty t).
Definition before (k p : nat) (w : World table) : Prop := dbs w !! db = Some t /\ ticks w = (k + p)%nat.

Lemma shown_perm {A} (ty : string) (f : GraphItem -> outcome A) (l : list A) call :
omap_list f (map row_item (rows_of ty t)) = Ret l -> shown ty f call ≡ₚ l.
Proof using Type. intros Hl. unfold shown, listed. by rewrite arrange_perm, (reads_length _ _ _ Hl). Qed.

(** A page of a type whose items all read. *)
Lemma store_page {A} (ty : string) (f : GraphItem -> outcome A) (l : list A) (k p : nat) (w : World table) :
omap_list f (map row_item (rows_of ty t)) = Ret l -> before k p w ->
(100 * p <= length l)%nat -> (Z.of_nat (length l) < 2 ^ 31 - 100)%Z ->
exists w', (let! items := gs_List (mkListRequest (Z.of_nat p + 1) 100 ty) in lift (omap_list f items)) w =
  (Ret (take 100 (drop (p * 100) (shown ty f (S (k + p))))), w') /\ before k (S p) w'.
Proof using All.
intros Hl [Ht Htick] Hp Hlen. change (2 ^ 31 - 100)%Z with 2147483548%Z in Hlen.
exists (mkWorld (dbs w) (S (ticks w))). split; [|split; [done|simpl; lia]]. rewrite <- Htick.
simpl. unfold bind. rewrite (List_run gs db _ w t (window 100 (100 * Z.of_nat p) (listed (S (ticks w)) ty t))); [|done|done|].
- unfold window, lift. replace (Z.to_nat 100) with 100%nat by lia. replace (Z.to_nat (100 * Z.of_nat p)) with (p * 100)%nat by lia.
  assert (omap_list f (map row_item (listed (S (ticks w)) ty t)) = Ret (shown ty f (S (ticks w)))) as Hall.
  { apply (reads_all f _ _ Hl). intros r. unfold listed. by rewrite arrange_perm. }
  rewrite omap_list_Ret in Hall.
  assert (omap_list f (map row_item (take 100 (drop (p * 100) (listed (S (ticks w)) ty t)))) =
    Ret (take 100 (drop (p * 100) (shown ty f (S (ticks w)))))) as Hpage; [|by rewrite Hpage].
  apply omap_list_Ret. rewrite <- firstn_map, <- skipn_map. by apply Forall2_take, Forall2_drop.
- rewrite list_offset_small by (change (2 ^ 31 / 100)%Z with 21474836%Z; simpl; lia).
  change (list_limit (mkListRequest (Z.of_nat p + 1) 100 ty)) with 100%Z. simpl LR_Page. simpl LR_Type.
  assert (StoreAlpha.max (Z.of_nat p + 1) 1 = (Z.of_nat p + 1)%Z) as -> by (unfold StoreAlpha.max; case_bool_decide; lia).
  rewrite list_statement by (done || lia). do 2 f_equal. lia.
Qed.

(** A page asked of the gateway is one listing of the store. *)
Lemma modules_page_list (req : PageRequest) (w : World table) :
modules_page (NewModuleServiceProxy tracker_ModuleService) req w =
(let! items := gs_List (mkListRequest (PR_Page req) (PR_Count req) ModuleType) in lift (omap_list as_module items)) w.
Proof using Type.
unfold modules_page. cbn [svc_ListModules NewModuleServiceProxy tracker_ModuleService].
unfold moduleService_List, bind, ret, lift. destruct (gs_List _ w) as [[items| |] w2]; [|done..].
by destruct (omap_list as_module items).
Qed.

Lemma sources_page_list (req : PageRequest) (w : World table) :
sources_page (NewSourceServiceProxy tracker_SourceService) req w =
(let! items := gs_List (mkListRequest (PR_Page req) (PR_Count req) SourceType) in lift (omap_list as_source items)) w.
Proof using Type.
unfold sources_page. cbn [svc_ListAllSources NewSourceServiceProxy tracker_SourceService].
unfold sourceService_List, bind, ret, lift. destruct (gs_List _ w) as [[items| |] w2]; [|done..].
by destruct (omap_list as_source items).
Qed.

(** What a listing command has written when it ends: as many lines as there are
  items, each of an item of the store, whatever orders the pages came in; every
  item exactly once when one page holds them all or the order stays. *)
Definition lists_all {A} (ty : string) (f : GraphItem -> outcome A) (all : list A) (k : nat) (got : list A) : Prop :=
length got = length all /\ (forall a, a ∈ got -> a ∈ all) /\
((length all <= 100)%nat \/ (forall p, listed (S (k + p)) ty t = listed (S k) ty t) -> got ≡ₚ all).

Lemma list_command {A} (ty : string) (f : GraphItem -> outcome A) (all : list A)
  (list_page : PageRequest -> M (World table) (list A)) (show : A -> printed) (fuel : nat) (c : CliWorld (World table)) :
(forall req w, list_page req w =
   (let! items := gs_List (mkListRequest (PR_Page req) (PR_Count req) ty) in lift (omap_list f items)) w) ->
omap_list f (map row_item (rows_of ty t)) = Ret all -> (Z.of_nat (length all) < 2 ^ 31 - 100)%Z ->
(length all < 100 * fuel)%nat -> dbs (service_world c) !! db = Some t ->
exists got w', page_loop fuel list_page show 1 c = (Ret true, mkCliWorld w' (output c ++ map show got)) /\
  dbs w' !! db = Some t /\ lists_all ty f all (ticks (service_world c)) got.
Proof using All.
intros Hpage Hall Hlen Hfuel Ht. set (k := ticks (service_world c)).
assert (forall p, shown ty f (S (k + p)) ≡ₚ all) as Hls by (intros p; by apply shown_perm).
destruct (page_loop_pages (before k) list_page show (fun p => shown ty f (S (k + p))) all c fuel Hls) as (w' & p & Hrun & Hdb & _).
- intros p w Hw Hp. rewrite Hpage. by apply (store_page ty f all).
- lia.
- split; [done|]. unfold k. lia.
- done.
- eexists _, w'. split; [exact Hrun|]. split; [done|]. unfold lists_all. split_and!.
  + rewrite (paged_length _ _ _ Hls); lia.
  + intros a. apply (paged_elem _ _ _ Hls).
  + intros Hsame. apply (paged_all _ _ _ Hls); [lia|lia|]. destruct Hsame as [?|Hsame]; [by left|right].
    intros q. unfold shown. by rewrite Hsame, Nat.add_0_r.
Qed.

(** C23. [deps get modules] and [deps get sources] against a gateway in front of a
  tracker on any of the three databases, no call of which fails: as long as the items of the type
  read and there are fewer than 2^31 - 100 of them, the command ends and the
  table is as it was.  It has written as many modules (sources) as the table
  has, each one of the table, after what was written before; that is every one
  exactly once when there are at most 100, or when the engine answers all
  pages in one order, which no statement asks it to. *)
Theorem listings_complete (modules : list Module_) (sources : list Source) (source : Source) (fuel : nat)
  (c : CliWorld (World table)) :
omap_list as_module (map row_item (rows_of ModuleType t)) = Ret modules ->
omap_list as_source (map row_item (rows_of SourceType t)) = Ret sources ->
(Z.of_nat (length modules) < 2 ^ 31 - 100)%Z -> (Z.of_nat (length sources) < 2 ^ 31 - 100)%Z ->
(length modules < 100 * fuel)%nat -> (length sources < 100 * fuel)%nat ->
dbs (service_world c) !! db = Some t -> Source_Url source = ""%string ->
let mods := NewModuleServiceProxy tracker_ModuleService in
let srcs := NewSourceServiceProxy tracker_SourceService in
let k := ticks (service_world c) in
(exists got w', ModulesCommand fuel mods source c = (Ret true, mkCliWorld w' (output c ++ map WriteModule got)) /\
   dbs w' !! db = Some t /\ lists_all ModuleType as_module modules k got) /\
(exists got w', SourcesCommand fuel srcs mods (mkModule "" "" "" ""%string) c =
     (Ret true, mkCliWorld w' (output c ++ map WriteSource got)) /\
   dbs w' !! db = Some t /\ lists_all SourceType as_source sources k got).
Proof using All.
intros Hm Hs Hlm Hls Hfm Hfs Ht Hurl mods srcs k. split.
- unfold ModulesCommand. rewrite decide_False by naive_solver.
  apply list_command; [apply modules_page_list|done..].
- unfold SourcesCommand. simpl. apply list_command; [apply sources_page_list|done..].
Qed.
End Tracker.

(** ** Which request a command makes *)

Local Open Scope string_scope.

(** [deps get sources] asks for the sources of a module when it has a language
  and a name or an organization and a module; it refuses other requests that
  name a language or an organization, or both a module and a name; it lists
  all sources for the rest, a module or a name alone being ignored. *)
Theorem sources_branches {W : Type} (fuel : nat) (srcs : SourceService W) (mods : ModuleService W)
    (module : Module_) (c : CliWorld W) :
  let L := Module_Language module <> "" in let O := Module_Organization module <> "" in
  let M_ := Module_Module module <> "" in let N := Module_Name module <> "" in
  (L /\ (O /\ M_ \/ N) -> SourcesCommand fuel srcs mods module c =
     (let! response := call (svc_ListSources mods (setModuleFields module)) in
      let! _ := write_all WriteManagedSource response in ret true) c) /\
  (~ (L /\ (O /\ M_ \/ N)) /\ (L \/ O \/ M_ /\ N) ->
     SourcesCommand fuel srcs mods module c = (Fail usage_error, c)) /\
  (~ L /\ ~ O /\ ~ (M_ /\ N) -> SourcesCommand fuel srcs mods module c =
     page_loop fuel (sources_page srcs) WriteSource 1 c).
Proof.
  intros L O M_ N. unfold SourcesCommand. subst L O M_ N.
  repeat case_bool_decide; simpl; split_and!; intros; try done; exfalso; tauto.
Qed.

(** The guard of [deps get dependencies] and [dependents] lets every request
  with a language through, with or without the rest. *)
Theorem guard_wants_language (req : DependencyRequest) :
  refuses_request req = true <->
  DR_Language req = "" /\ (DR_Organization req = "" \/ DR_Module req = "" \/ DR_Name req = "").
Proof.
  unfold refuses_request. rewrite andb_true_iff, !orb_true_iff, !bool_decide_eq_true. tauto.
Qed.

(** ** Flags *)

(** A module can be given by its name or by its parts: the command for direct
  neighbours asks the tracker the same question and prints the same. *)
Theorem name_is_parts `{JsonCodec} {W : Type} `{GraphStoreOps W} `{MapRange} (fuel : nat)
    (write : printed -> option error) (client : Client W) (given1 given2 : Given) (tiered : bool)
    (language name organization module : string) (cmd : get_command) (w : CliWorld W) :
  client_Dependencies client = NewDependencyServiceProxy tracker_DependencyService ->
  request_of_flags given1 = mkDependencyRequest language "" "" name ->
  request_of_flags given2 = mkDependencyRequest language organization module "" ->
  language <> "" -> name <> "" -> parsed language name = (organization, module) ->
  cmd = GetDependencies \/ cmd = GetDependents ->
  Command fuel write client given1 tiered cmd w = Command fuel write client given2 tiered cmd w.
Proof.
  intros Hc Hg1 Hg2 Hl Hn Hp [->| ->]; unfold Command; rewrite Hc, Hg1, Hg2;
    unfold DependenciesCommand, DependentsCommand, refuses_request, setRequestFields;
    cbn [DR_Language DR_Organization DR_Module DR_Name]; rewrite !(bool_decide_eq_false_2 (language = "")), decide_False, Hp by done; reflexivity.
Qed.

(** No two commands at the same place share a name or an alias, and no two
  flags of a command a name or a shorthand. *)
Theorem commands_distinct :
  NoDup (concat (map (fun c => c.1.1) get_commands)) /\ NoDup topology_names /\
  NoDup (concat (map flag_names addDependencyRequestFlags)) /\
  NoDup (concat (map flag_names addModuleFlags)) /\ NoDup (concat (map flag_names addSourceFlags)).
Proof. split_and!; apply (bool_decide_unpack _); vm_compute; exact I. Qed.

(** ** Which client a command has *)

(** Unless the protocol is gRPC, the client has no search, and the topology of
  any request that is not refused panics. *)
Theorem rest_has_no_topology `{TlsFiles} {W : Type} `{Rest W} (getenv : string -> string)
    (connect : string * list DialOption -> outcome (Client W)) :
  getenv VariableProtocol <> "" -> getenv VariableProtocol <> "grpc" ->
  exists client, DefaultClient getenv connect = Ret client /\
    forall write tiered conv req, refuses_request (setRequestFields req) = false ->
      exists why, TopologyCommand write tiered client conv req = Panic why.
Proof.
  intros Hne Hng. eexists. unfold DefaultClient, protocol, or. rewrite (decide_False (P := _ = "")), decide_False by done.
  split; [done|]. intros write tiered conv req Href. unfold TopologyCommand. simpl. rewrite Href. by eexists.
Qed.

(** The address dialed for a base URL that parses: TLS exactly for https, the
  host as it is when it has a port, else with the port of the scheme. *)
Theorem translateBaseURL_address (base scheme host : string) :
  url_Parse base = Some (scheme, host) ->
  exists tls address, translateBaseURL base = Ret (tls, address) /\
    (tls = true <-> scheme = "https") /\
    (~ free_of ":" host -> address = host) /\
    (free_of ":" host -> cut ":" address = Some (host, if tls then "443" else "80")).
Proof.
  intros Hp. unfold translateBaseURL. rewrite Hp. eexists _, _. split; [done|].
  split; [apply bool_decide_eq_true|]. unfold contains_char. split.
  - intros Hf. destruct (cut ":" host) eqn:Hcut; [done|]. exfalso. apply Hf.
    clear -Hcut. induction host as [|a host IH]; [constructor|]. simpl in Hcut. case_decide; [done|].
    constructor; [done|]. apply IH. by destruct (cut ":" host) as [[? ?]|].
  - intros Hf. rewrite (cut_none _ _ Hf). case_bool_decide; by apply cut_free.
Qed.

(** So a base URL made of a scheme and a plain host is dialed at that host, at
  the port it names or at the one of its scheme; and one that does not parse
  panics, whatever the command. *)
Theorem base_url_dialed (scheme host : list ascii) :
  scheme <> [] -> Forall (fun a => letter a = true) scheme -> plain_host host ->
  let base := string_of_list_ascii (scheme ++ list_ascii_of_string "://" ++ host) in
  let tls := bool_decide (map lower scheme = list_ascii_of_string "https") in
  translateBaseURL base = Ret (tls,
    string_of_list_ascii (if decide (":"%char ∈ host) then host
                          else (host ++ list_ascii_of_string (if tls then ":443" else ":80"))%list)).
Proof.
  intros Hne Hl Hh base tls. unfold base, translateBaseURL. cbn [list_ascii_of_string app].
  rewrite (url_Parse_plain scheme host Hne Hl Hh).
  assert (bool_decide (string_of_list_ascii (map lower scheme) = "https") = tls) as ->.
  { unfold tls. apply bool_decide_ext. split; [|by intros ->].
    intros Heq. by rewrite <- (list_ascii_of_string_of_list_ascii (map lower scheme)), Heq. }
  assert (forall l m, string_of_list_ascii (l ++ m) = string_of_list_ascii l +:+ string_of_list_ascii m) as Happ.
  { intros l m. induction l as [|a l IH]; [done|]. cbn. by rewrite IH. }
  assert (contains_char ":" (string_of_list_ascii host) = bool_decide (":"%char ∈ host)) as ->.
  { unfold contains_char. destruct (decide (":"%char ∈ host)) as [Hin|Hin].
    - rewrite bool_decide_true by done. apply list_elem_of_split in Hin as (l1 & l2 & ->).
      clear. induction l1 as [|a l1 IH]; simpl; [done|].
      destruct (decide (a = _)); [done|]. by destruct (cut ":" _) as [[? ?]|].
    - rewrite bool_decide_false by done. rewrite cut_none; [done|].
      unfold free_of. rewrite list_ascii_of_string_of_list_ascii. apply Forall_forall. by intros a Ha ->. }
  case_decide as Hc; [by rewrite bool_decide_true|]. rewrite bool_decide_false, Happ by done. by destruct tls.
Qed.

(** The version document of a server is read back by [deps debug], whatever
  the strings the build put into the version, as long as they are UTF-8. *)
Lemma decode_version_sent (v : Version) :
  valid_string (Version_Version v) -> valid_string (Version_Commit v) -> valid_string (Version_Date v) ->
  decode_version (body (registerVersion v new_response)) = Some v.
Proof.
  intros Hv Hc Hd. unfold decode_version.
  change (body (registerVersion v new_response)) with ("" +:+ of_bytes (write_object (zip version_tags (version_fields v)))).
  change ("" +:+ ?x) with x. rewrite to_of_bytes, <- (app_nil_r (write_object _)).
  pose proof (decode_written_struct version_tags (version_fields v) []) as Hr.
  change (map zero_field (version_fields v)) with (version_fields (mkVersion "" "" "")) in Hr.
  rewrite Hr; [by destruct v| |done| |].
  - apply (bool_decide_unpack _). vm_compute. exact I.
  - repeat constructor.
  - repeat constructor; done.
Qed.

(** [deps debug] prints four lines whether or not the server answers; against
  a server of this repository the third is the version the server was built
  with. *)
Theorem debug_prints {W : Type} `{Rest W} (info : SystemInfo) (version : Version) (w : W) :
  (forall uri w why w', http_Get uri w <> (Panic why, w')) ->
  exists lines w', DebugCommand info version w = (Ret lines, w') /\ length lines = 4%nat /\
    forall v w1, http_Get (BaseURL info +:+ "/version") w = (Ret (body (registerVersion v new_response)), w1) ->
      valid_string (Version_Version v) -> valid_string (Version_Commit v) -> valid_string (Version_Date v) ->
      lines !! 2%nat = Some ("Server Version: " +:+ Version_String v).
Proof.
  intros Hget. unfold DebugCommand, GetServerVersion, GetHealth, bind, lift, ret, fail.
  destruct (http_Get (_ +:+ "/version") w) as [[text|e|why] w1] eqn:H1; [| |by apply Hget in H1].
  - destruct (decode_version text) as [v|] eqn:Hv;
      (destruct (http_Get _ w1) as [[health|e2|why] w2] eqn:H2; [| |by apply Hget in H2]);
      eexists _, _; (split_and!; [done..|]); intros v' w' Heq Hd1 Hd2 Hd3;
      assert (text = body (registerVersion v' new_response)) as -> by congruence; rewrite (decode_version_sent v' Hd1 Hd2 Hd3) in Hv; by simplify_eq.
  - destruct (http_Get _ w1) as [[health|e2|why] w2] eqn:H2; [| |by apply Hget in H2]; by eexists _, _.
Qed.

(** ** The program *)

Lemma guard_refuses (req : DependencyRequest) :
  DR_Language req = "" -> DR_Name req = "" ->
  refuses_request req = true /\ refuses_request (setRequestFields req) = true.
Proof.
  intros Hl Hn. assert (setRequestFields req = req) as -> by (unfold setRequestFields; by rewrite decide_True).
  unfold refuses_request. rewrite Hl, Hn, !(bool_decide_eq_true_2 ("" = "")), !orb_true_r by done. done.
Qed.

(** When the program gets to its commands: over REST always; over gRPC when the
    base URL parses and the address it stands for is dialed. *)
Definition starts `{TlsFiles} {W : Type} (getenv : string -> string)
    (connect : string * list DialOption -> outcome (Client W)) : Prop :=
  protocol getenv <> "grpc" \/ exists tls address target client,
    translateBaseURL (baseURL getenv) = Ret (tls, address) /\
    Connect (mkConfig address DefaultServiceConfig DefaultLoadBalancer tls (mkTLS "" "" "")) = Ret target /\
    connect target = Ret client.

Lemma starts_client `{TlsFiles} {W : Type} `{Rest W} getenv (connect : string * list DialOption -> outcome (Client W)) :
  (starts getenv connect /\ exists client, DefaultClient getenv connect = Ret client) \/
  (~ starts getenv connect /\ exists why, DefaultClient getenv connect = Panic why).
Proof.
  unfold starts, DefaultClient, grpcDefaultClient. destruct (decide (protocol getenv = "grpc")) as [Hp|Hp]; [|left; eauto].
  destruct (translateBaseURL (baseURL getenv)) as [[tls address]|e|why] eqn:Ht; simpl;
    [|unfold translateBaseURL in Ht; by destruct (url_Parse _) as [[? ?]|]
     |right; split; [by intros [?|(? & ? & ? & ? & [=] & _)]|by eexists]].
  destruct (Connect _) as [target|e|why] eqn:Hc; simpl.
  - destruct (connect target) as [client|e|why] eqn:Hd; [left; split; [|by eexists]|right..].
    + right. by exists tls, address, target, client.
    + split; [|by eexists]. intros [?|(? & ? & ? & ? & Ht' & Hc' & Hd')]; [done|]. simplify_eq. congruence.
    + split; [|by eexists]. intros [?|(? & ? & ? & ? & Ht' & Hc' & Hd')]; [done|]. simplify_eq. congruence.
  - right. split; [|by eexists]. intros [?|(? & ? & ? & ? & Ht' & Hc' & _)]; [done|]. simplify_eq. congruence.
  - right. split; [|by eexists]. intros [?|(? & ? & ? & ? & Ht' & Hc' & _)]; [done|]. simplify_eq. congruence.
Qed.

(** C29. Over gRPC, a base URL that does not parse or an address that cannot be
  dialed ends every command with a panic before it prints, [deps version] and
  [deps completion] included.  Over REST, where the base URL is never looked
  at, and over gRPC otherwise, these two never fail on account of the service,
  and a request with neither language nor name ends with the usage error,
  without a call of the service or anything printed.  Over REST the topology
  of a request that is not refused panics. *)
Theorem deps_program `{TlsFiles} {W : Type} `{Rest W} (getenv : string -> string) (os arch : string)
    (version : Version) (connect : string * list DialOption -> outcome (Client W))
    (write : printed -> option error) (fuel : nat) (w : CliWorld W) :
  let main := deps_main getenv os arch version connect write fuel in
  (protocol getenv = "grpc" -> url_Parse (baseURL getenv) = None -> ~ starts getenv connect) /\
  (~ starts getenv connect -> forall command, exit_status (main command w).1 = 2%Z /\ (main command w).2 = w) /\
  (starts getenv connect ->
   main VersionCmd w = (Ret (Lines ["deps " +:+ Version_String version]), w) /\
   (forall args, let o := main (CompletionCmd args) w in o.2 = w /\
      exit_status o.1 = if decide (default "bash" (args !! 0%nat) ∈ ["bash"; "zsh"; "powershell"]) then 0%Z else 1%Z) /\
   (forall given tiered command,
      command ∈ [GetDependencies; GetDependenciesTopology; GetDependents; GetDependentsTopology] ->
      DR_Language (request_of_flags given) = "" -> DR_Name (request_of_flags given) = "" ->
      main (GetCmd given tiered command) w = (Fail usage_error, w))) /\
  (protocol getenv <> "grpc" -> forall given tiered command,
   command ∈ [GetDependenciesTopology; GetDependentsTopology] ->
   refuses_request (setRequestFields (request_of_flags given)) = false ->
   exit_status (main (GetCmd given tiered command) w).1 = 2%Z /\ (main (GetCmd given tiered command) w).2 = w).
Proof.
  intros main. unfold main, deps_main. split_and!.
  - intros Hp Hu [?|(? & ? & ? & ? & Ht & _)]; [done|]. unfold translateBaseURL in Ht. by rewrite Hu in Ht.
  - intros Hno command. destruct (starts_client getenv connect) as [[? _]|[_ [why Hc]]]; [done|]. by rewrite Hc.
  - intros Hs. destruct (starts_client getenv connect) as [[_ [client Hc]]|[? _]]; [|done]. rewrite Hc. split_and!; [done| |].
    + intros args. cbn. unfold CompletionCommand.
      assert (match args with [] => "bash" | sh :: _ => sh end = default "bash" (args !! 0%nat)) as -> by by destruct args.
      generalize (default "bash" (args !! 0%nat)). intros sh. unfold bind, lift, ret, fail.
      repeat case_decide; subst; cbn; repeat split; try done; set_solver.
    + intros given tiered command Hin Hl Hn.
      pose proof (guard_refuses _ Hl Hn) as [Hr1 Hr2].
      rewrite !elem_of_cons in Hin.
      destruct Hin as [->|[->|[->|[->|Hin]]]]; [..|by apply elem_of_nil in Hin];
        unfold bind at 1, lift at 1, deps_run, Command, print_topology, DependenciesCommand, DependentsCommand,
          TopologyCommand, topology_run; rewrite ?Hr1, ?Hr2; [done| |done|]; by destruct (client_Search client).
  - intros Hp given tiered command Hin Href. unfold DefaultClient. rewrite decide_False by done.
    rewrite !elem_of_cons in Hin. destruct Hin as [->|[->|Hin]]; [..|by apply elem_of_nil in Hin];
      unfold bind, lift, deps_run, Command, print_topology, TopologyCommand; cbn [client_Search httpDefaltClient];
      rewrite Href; done.
Qed.

(** ** Instances *)

(** A store where nothing is found, and a server that knows no path. *)
Definition empty_store : GraphStoreOps unit := {|
  gs_Put _ := ret tt; gs_Delete _ := ret tt; gs_List _ := ret []; gs_FindUpstream _ := ret [];
  gs_FindDownstream _ := ret [] |}.
Definition demo_rest : Rest unit := {|
  http_Get _ := fail (ErrText "404"); http_Post _ _ _ := fail (ErrText "404"); json_request _ := Ret "{}";
  read_dependencies _ := Ret []; read_modules _ := Ret (mkListModuleResponse 0 0 []);
  read_managed_sources _ := Ret []; read_managed_modules _ := Ret [];
  read_sources _ := Ret (mkListSourceResponse 0 0 []); read_track _ := Ret true |}.
#[local] Existing Instance json_codec.
#[local] Existing Instance map_order.

(** A store with one edge of each type, which can be out of order ([false]). *)
Definition demo_lib : Module_ := mkModule "go" "github.com" "depscloud/lib" "".
Definition demo_edge : Depends := mkDepends "go" "v1" ["direct"] "main".
Definition demo_source : Source := mkSource "git@a" "repository" "main".
Definition demo_manages : Manages := mkManages "go" "modules" "main".

Definition demo_json (ty : string) (k1 k2 : bytes) (m : schema_msg) : GraphItem :=
  mkGraphItem ty k1 k2 [] GraphItemEncoding_JSON (json_text m).
Definition pair_store : GraphStoreOps bool :=
  let found (node : GraphItem) (req : FindRequest) : M bool (list GraphItemPair) := fun up =>
    if up then (Ret [mkPair (if decide (DependsType ∈ FR_EdgeTypes req) then demo_json DependsType [] [] (VDepends demo_edge)
                             else demo_json ManagesType [] [] (VManages demo_manages))
                            (if decide (SourceType ∈ FR_NodeTypes req) then demo_json SourceType [] [] (VSource demo_source)
                             else node)], up)
    else (Fail (ErrText "database is locked"), up) in
  let lib := demo_json ModuleType [] [] (VModule demo_lib) in
  {| gs_Put _ := ret tt; gs_Delete _ := ret tt; gs_List _ := ret []; gs_FindUpstream := found lib; gs_FindDownstream := found lib |}.

(** Bodies that can be read back: the digits of a number that stands for the
    strings of the items. *)
Fixpoint bits (p : positive) : string :=
  match p with xH => "" | xO p => String "0" (bits p) | xI p => String "1" (bits p) end.
Fixpoint unbits (s : string) : option positive :=
  match s with
  | EmptyString => Some xH
  | String c s => if decide (c = "0"%char) then xO <$> unbits s else if decide (c = "1"%char) then xI <$> unbits s else None
  end.

Lemma unbits_bits p : unbits (bits p) = Some p.
Proof. induction p as [p IH|p IH|]; cbn; rewrite ?IH; done. Qed.

Definition written {A} (strings : A -> list string) (l : list A) : string := bits (encode (map strings l)).
Definition read_back {A} (item : list string -> A) (body : string) : outcome (list A) :=
  match unbits body ≫= decode with Some ll => Ret (map item ll) | None => Fail (ErrText "unknown field") end.

Lemma read_back_written {A} (strings : A -> list string) (item : list string -> A) l :
  (forall a, item (strings a) = a) -> read_back item (written strings l) = Ret l.
Proof.
  intros Hitem. unfold read_back, written. rewrite unbits_bits. simpl. rewrite decode_encode, map_map.
  f_equal. rewrite <- (map_id l) at 2. by apply map_ext.
Qed.

Definition module_strings (m : Module_) : list string := [Module_Language m; Module_Organization m; Module_Module m; Module_Name m].
Definition manages_strings (m : Manages) : list string := [Manages_Language m; Manages_System m; Manages_Version m].
Definition dependency_strings (d : Dependency) : list string :=
  let e := Dependency_Depends d in
  module_strings (Dependency_Module d) ++ [Depends_Language e; Depends_VersionConstraint e; Depends_Ref e] ++ Depends_Scopes e.
Definition strings_dependency (l : list string) : Dependency :=
  match l with
  | a :: b :: c :: d :: e :: f :: g :: scopes => mkDep (mkModule a b c d) (mkDepends e f scopes g)
  | _ => mkDep (mkModule "" "" "" "") (mkDepends "" "" [] "")
  end.
Definition managed_source_strings (s : ManagedSource) : list string :=
  let a := MS_Source s in [Source_Url a; Source_Kind a; Source_Ref a] ++ manages_strings (MS_Manages s).
Definition strings_managed_source (l : list string) : ManagedSource :=
  match l with
  | a :: b :: c :: d :: e :: f :: _ => mkManagedSource (mkSource a b c) (mkManages d e f)
  | _ => mkManagedSource (mkSource "" "" "") (mkManages "" "" "")
  end.
Definition managed_module_strings (s : ManagedModule) : list string :=
  module_strings (MM_Module s) ++ manages_strings (MM_Manages s).
Definition strings_managed_module (l : list string) : ManagedModule :=
  match l with
  | a :: b :: c :: d :: e :: f :: g :: _ => mkManagedModule (mkModule a b c d) (mkManages e f g)
  | _ => mkManagedModule (mkModule "" "" "" "") (mkManages "" "" "")
  end.

Definition demo_bodies : RestBodies := mkRestBodies (written dependency_strings) (written managed_source_strings)
  (written managed_module_strings) (fun _ => "error").

(** A server for the store. *)
#[local] Existing Instance pair_store.
Definition pair_rest : Rest bool := {|
  http_Get uri w :=
    let d := mkDependencyRequest "" "" "" "" in
    if HasPrefix uri "http://deps/v1alpha/graph" then over_http demo_bodies (dependencies_body demo_bodies) (ListDependents d w)
    else if HasPrefix uri "http://deps/v1alpha/modules/source" then
      over_http demo_bodies (managed_sources_body demo_bodies) (ListSources (mkModule "" "" "" "") w)
    else if HasPrefix uri "http://deps/v1alpha/modules/managed" then
      over_http demo_bodies (managed_modules_body demo_bodies) (ListManaged None w)
    else (Fail (ErrText "404"), w);
  http_Post _ _ _ := fail (ErrText "404"); json_request _ := Ret "{}";
  read_dependencies := read_back strings_dependency; read_modules _ := Ret (mkListModuleResponse 0 0 []);
  read_managed_sources := read_back strings_managed_source; read_managed_modules := read_back strings_managed_module;
  read_sources _ := Ret (mkListSourceResponse 0 0 []); read_track _ := Ret true |}.
#[local] Existing Instance pair_rest.

(** Its answers do not depend on the keys. *)
Lemma pair_answers (d : DependencyRequest) (m : Module_) (s : option Source) (up : bool) :
  ListDependents d up = ListDependents (mkDependencyRequest "" "" "" "") up /\
  ListDependencies d up = ListDependents (mkDependencyRequest "" "" "" "") up /\
  ListSources m up = ListSources (mkModule "" "" "" "") up /\ ListManaged s up = ListManaged None up.
Proof. by destruct up. Qed.

Lemma pair_rest_server : RestServer "http://deps" demo_bodies tracker_DependencyService tracker_ModuleService.
Proof.
  split.
  - intros seg q l o m w _ _ _ _. cbn [tracker_DependencyService svc_ListDependents].
    by rewrite (proj1 (pair_answers (mkDependencyRequest l o m "") demo_lib None w)).
  - intros seg q l o m w _ _ _ _. cbn [tracker_DependencyService svc_ListDependencies].
    by rewrite (proj1 (proj2 (pair_answers (mkDependencyRequest l o m "") demo_lib None w))).
  - intros q l o m w _. cbn [tracker_ModuleService svc_ListSources].
    by rewrite (proj1 (proj2 (proj2 (pair_answers (mkDependencyRequest l o m "") (mkModule l o m "") None w)))).
  - intros q u w _. cbn [tracker_ModuleService svc_ListManaged].
    by rewrite (proj2 (proj2 (proj2 (pair_answers (mkDependencyRequest "" "" "" "") demo_lib (Some (mkSource u "" "")) w)))).
Qed.

Lemma pair_reads : JsonpbReads demo_bodies.
Proof.
  split.
  - intros l _. apply read_back_written. by intros [[] []].
  - intros l _. apply read_back_written. by intros [[] []].
  - intros l _. apply read_back_written. by intros [[] []].
  - intros e. by eexists.
  - intros e. by eexists.
  - intros e. by eexists.
Qed.

(** It answers a dependent, a source and a module; with the store out of order
    every query fails. *)
Lemma rest_queries_witness :
  let d := mkDependencyRequest "go" "github.com" "depscloud/api" "github.com/depscloud/api" in
  svc_ListDependents (httpDependencyService "http://deps") d true = (Ret [mkDep demo_lib demo_edge], true) /\
  svc_ListSources (httpModuleClient "http://deps") (mkModule "c++" "a b" "c&d" "x") true =
    (Ret [mkManagedSource demo_source demo_manages], true) /\
  exists e, svc_ListDependents (httpDependencyService "http://deps") d false = (Fail e, false).
Proof.
  pose (d := mkDependencyRequest "go" "github.com" "depscloud/api" "github.com/depscloud/api").
  assert (DR_Language d <> "" /\ free_of "/" (DR_Language d) /\ free_of " " (DR_Language d)) as (H1 & H2 & H3).
  { split; [done|]. split; apply (bool_decide_unpack _); vm_compute; exact I. }
  destruct (rest_queries "http://deps" demo_bodies d (mkModule "c++" "a b" "c&d" "x") demo_source true
    pair_rest_server pair_reads H1 H2 H3) as ([Hw Hd] & _ & [Hw' Hs] & _).
  destruct (rest_queries "http://deps" demo_bodies d demo_lib demo_source false
    pair_rest_server pair_reads H1 H2 H3) as ([Hw'' [e He]] & _).
  assert ((ListDependents d true) = (Ret [mkDep demo_lib demo_edge], true)) as Hans by (vm_compute; reflexivity).
  assert ((ListSources (mkModule "c++" "a b" "c&d" "x") true) = (Ret [mkManagedSource demo_source demo_manages], true)) as Hans'
    by (vm_compute; reflexivity).
  rewrite Hans in Hd, Hw. rewrite Hans' in Hs, Hw'. split; [|split].
  - apply injective_projections; [apply Hd|exact Hw]. repeat constructor.
  - apply injective_projections; [apply Hs|exact Hw']. repeat constructor.
  - exists e. apply injective_projections; [exact He|exact Hw''].
Defined.

#[local] Existing Instance empty_store.
#[local] Existing Instance demo_rest.
#[local] Existing Instance quiet_engine.
#[local] Existing Instance quiet_no_faults.

(** A table with one module and one source. *)
Definition demo_items : list GraphItem :=
  [ mkGraphItem ModuleType [Byte.x01] [Byte.x01] [] GraphItemEncoding_JSON
      (json_text (VModule (mkModule "go" "github.com" "depscloud/api" "")));
    mkGraphItem SourceType [Byte.x02] [Byte.x02] [] GraphItemEncoding_JSON
      (json_text (VSource (mkSource "git@a" "repository" ""))) ].
Definition demo_table : table :=
  list_to_map (map (fun i => (row_key i, mkCell (Encoding i) (of_bytes (GraphItemData i)) 0 None)) demo_items).
Definition demo_cli : CliWorld (World table) := mkCliWorld (mkWorld {[ "main" := demo_table ]} 0) [].

Lemma listings_complete_witness :
  let mods := @NewModuleServiceProxy (World table) (@tracker_ModuleService _ _ (sql_ops (sql_store "main" sqliteStatements))) in
  exists w', ModulesCommand 1 mods (mkSource "" "" "") demo_cli =
    (Ret true, mkCliWorld w' [WriteModule (mkModule "go" "github.com" "depscloud/api" "")]).
Proof.
  destruct (listings_complete (sql_store "main" sqliteStatements) "main" demo_table eq_refl ltac:(by left)
    [mkModule "go" "github.com" "depscloud/api" ""] [mkSource "git@a" "repository" ""] (mkSource "" "" "") 1 demo_cli)
    as [(got & w' & Hrun & _ & _ & _ & Hall) _];
    [vm_compute; reflexivity|vm_compute; reflexivity|simpl; lia..|reflexivity|reflexivity|].
  assert (got = [mkModule "go" "github.com" "depscloud/api" ""]) as -> by (apply Permutation_singleton_r, Hall; left; simpl; lia).
  exists w'. exact Hrun.
Defined.

Lemma sources_branches_witness :
  SourcesCommand 1 (NewSourceServiceProxy tracker_SourceService) (NewModuleServiceProxy tracker_ModuleService)
    (mkModule "" "" "depscloud/api" "") (mkCliWorld tt []) = (Ret true, mkCliWorld tt []).
Proof.
  destruct (sources_branches 1 (NewSourceServiceProxy tracker_SourceService)
    (NewModuleServiceProxy tracker_ModuleService) (mkModule "" "" "depscloud/api" "") (mkCliWorld tt [])) as (_ & _ & Hall).
  rewrite Hall; [reflexivity|]. simpl. tauto.
Defined.

Lemma rest_has_no_topology_witness : exists client,
  (forall (files : TlsFiles), DefaultClient (W := unit) (fun _ => "http") (fun _ => Fail (ErrText "")) = Ret client) /\
  exists why, TopologyCommand (fun _ => None) false client dependencies_request (mkDependencyRequest "go" "a" "b" "") = Panic why.
Proof.
  exists (httpDefaltClient "http"). split; [reflexivity|].
  destruct (@rest_has_no_topology {| LoadX509KeyPair _ _ := Ret ""; ReadFile _ := Ret ""; pem_certificates _ := [];
    SystemCertPool := Ret [] |} unit demo_rest (fun _ => "http") (fun _ => Fail (ErrText "")))
    as (client & Hc & Hp); [done|done|].
  vm_compute in Hc. injection Hc as <-. by apply Hp.
Defined.

Lemma base_url_dialed_witness :
  translateBaseURL "http://localhost:8080" = Ret (false, "localhost:8080") /\
  translateBaseURL "HTTPS://api.deps.cloud" = Ret (true, "api.deps.cloud:443") /\
  (exists why, translateBaseURL "http://[::1" = Panic why).
Proof.
  split_and!.
  - apply (base_url_dialed (list_ascii_of_string "http") (list_ascii_of_string "localhost:8080")); [done|repeat constructor|].
    apply (plain_host_port (list_ascii_of_string "localhost") (list_ascii_of_string "8080")); repeat constructor.
  - apply (base_url_dialed (list_ascii_of_string "HTTPS") (list_ascii_of_string "api.deps.cloud")); [done|repeat constructor|].
    apply plain_host_only; repeat constructor.
  - eexists. reflexivity.
Defined.

Lemma deps_program_witness :
  let files := {| LoadX509KeyPair _ _ := Ret ""; ReadFile _ := Ret ""; pem_certificates _ := []; SystemCertPool := Ret [] |} in
  let main getenv := @deps_main files unit demo_rest getenv "linux" "amd64" (mkVersion "1" "2" "3")
                       (fun _ => Fail (ErrText "")) (fun _ => None) 1 in
  exit_status (main (fun v => if decide (v = VariableBaseURL) then "https://[::1" else "") VersionCmd (mkCliWorld tt [])).1 = 2%Z /\
  main (fun v => if decide (v = VariableBaseURL) then "https://[::1" else "http") VersionCmd (mkCliWorld tt []) =
    (Ret (Lines ["deps {version: 1, commit: 2, date: 3}"]), mkCliWorld tt []) /\
  main (fun _ => "http") (GetCmd (mkGiven (fun _ _ => None) (fun _ _ => None) (fun _ _ => None)) true GetDependents) (mkCliWorld tt []) =
    (Fail usage_error, mkCliWorld tt []).
Proof.
  intros files main.
  pose (program getenv := @deps_program files unit demo_rest getenv "linux" "amd64" (mkVersion "1" "2" "3")
    (fun _ => Fail (ErrText "")) (fun _ => None) 1 (mkCliWorld tt [])).
  split_and!.
  - destruct (program (fun v => if decide (v = VariableBaseURL) then "https://[::1" else "")) as (Hno & Hpanic & _).
    apply Hpanic, Hno; reflexivity.
  - destruct (program (fun v => if decide (v = VariableBaseURL) then "https://[::1" else "http")) as (_ & _ & Hs & _).
    by apply Hs; left.
  - destruct (program (fun _ => "http")) as (_ & _ & Hs & _).
    apply Hs; [by left|by right; right; left|done..].
Defined.

Lemma translateBaseURL_address_witness : exists tls address,
  translateBaseURL DefaultBaseURL = Ret (tls, address) /\
  (tls = true <-> "https" = "https") /\ (~ free_of ":" "api.deps.cloud" -> address = "api.deps.cloud") /\
  (free_of ":" "api.deps.cloud" -> cut ":" address = Some ("api.deps.cloud", if tls then "443" else "80")).
Proof. apply (translateBaseURL_address DefaultBaseURL "https" "api.deps.cloud"); reflexivity. Defined.

(** A server that only answers its version, of a commit with brackets. *)
Definition demo_version : Version := mkVersion "0.2.30" "<5fc1>" "2020-12-01".
Definition version_rest : Rest unit := {|
  http_Get uri := if decide (uri = "http://deps/version") then ret (body (registerVersion demo_version new_response))
                  else fail (ErrText "404");
  http_Post _ _ _ := fail (ErrText "404"); json_request _ := Ret "{}"; read_dependencies _ := Ret [];
  read_modules _ := Fail (ErrText ""); read_managed_sources _ := Ret []; read_managed_modules _ := Ret [];
  read_sources _ := Fail (ErrText ""); read_track _ := Ret true |}.

Lemma debug_prints_witness : exists lines w',
  @DebugCommand unit version_rest (GetSystemInfo (fun _ => "http://deps") "linux" "amd64") (mkVersion "1" "2" "3") tt =
    (Ret lines, w') /\ lines !! 2%nat = Some ("Server Version: " +:+ Version_String demo_version).
Proof.
  destruct (@debug_prints unit version_rest (GetSystemInfo (fun _ => "http://deps") "linux" "amd64") (mkVersion "1" "2" "3") tt)
    as (lines & w' & Hrun & _ & Hline).
  { intros uri w why w'. simpl. by destruct (decide _). }
  exists lines, w'. split; [exact Hrun|]. by eapply (Hline demo_version).
Defined.

Definition given_of (values : list (string * string)) : Given :=
  mkGiven (fun names _ => snd <$> head (filter (fun v => v.1 ∈ names) values)) (fun _ _ => None) (fun _ _ => None).

Lemma name_is_parts_witness :
  let client := mkClient (NewDependencyServiceProxy tracker_DependencyService) tracker_ModuleService
    tracker_SourceService None in
  let w := mkCliWorld tt [] in
  Command 1 (fun _ => None) client (given_of [("language", "go"); ("name", "github.com/depscloud/api")]) false
    GetDependents w =
  Command 1 (fun _ => None) client
    (given_of [("language", "go"); ("organization", "github.com"); ("module", "depscloud/api")]) false GetDependents w.
Proof.
  apply (name_is_parts 1 (fun _ => None) _ _ _ false "go" "github.com/depscloud/api" "github.com" "depscloud/api");
    [reflexivity..|done|done|reflexivity|by right].
Defined.
