(* ===== verification/IndexingThms.v ===== *)
(** * What a run of the indexer leaves in the graph

    Whatever the schedule of its workers and the interleaving of the calls
    their handlers make in the tracker, the indexer comes to an end, and the
    graph holds what the repositories declare. *)

From S2P Require Import Prelude GoCodec GoHash Api GraphSpec Sql StoreAlpha StoreAlphaSpec.
From S2P Require Import KeysAlpha TrackAlpha Concurrent TrackAlphaProofs Instances TrackInvariant.
From S2P Require Import ConcurrentTrack ConcurrentFailures Remotes Consumer Indexing ClientConfig IndexerConfig Mux Mains.
From S2P Require Import Demo ConcurrentThms ConsumerThms ServersThms.

(** ** Requests of repositories *)

Section Requests.
Context (o : oracle) (configured : bool).

Lemma omap_track_length l : length (omap track_of l) = length (filter (fun e => is_track e = true) l).
Proof.
induction l as [|e l IH]; [done|]. rewrite filter_cons. case_decide as Hd; destruct e; try done; cbn; by f_equal.
Qed.

Lemma tracked_reported r request :
tracked_request o configured r = Some request <-> reported o configured r request.
Proof.
rewrite <- Consume_reported. unfold tracked_request. pose proof (Consume_one_track o configured r) as Hone.
rewrite <- omap_track_length in Hone.
assert (ETrack request ∈ Consume o configured r <-> request ∈ omap track_of (Consume o configured r)) as ->.
{ rewrite list_elem_of_omap. split; [intros Hin; by exists (ETrack request)|]. by intros ([] & Hin & [= ->]). }
destruct (omap track_of _) as [|x [|y l]]; simpl in *; [|rewrite list_elem_of_singleton; naive_solver|lia].
rewrite elem_of_nil. naive_solver.
Qed.

Lemma requests_safe rs req : req ∈ requests o configured rs -> safe_request req.
Proof.
intros (r & _ & Hreq%tracked_reported)%elem_of_requests. left.
destruct Hreq as (dir & a & t & head & paths & matched & contents & files & _ & _ & _ & _ & _ & _ & _ & _ & ->). by eexists.
Qed.
End Requests.

(** ** Runs *)

Lemma pool_ends {A} (p : pool (A := A)) : sn pool_step p.
Proof.
remember (pool_work p) as k eqn:Hk. revert p Hk.
induction k as [k IH] using (well_founded_induction lt_wf). intros p ->. constructor.
intros p' Hstep. eapply IH; [by apply pool_step_work|done].
Qed.

Section Crawl.
Context `{JsonCodec, !JsonCodecOk} `{MapRange} {W : Type} `{GraphStoreOps W}.
Context (o : oracle) (configured : bool) (rs : list Repository) (n : nat) (Hn : 0 < n).

Notation jobs := (jobs_from o configured 0 rs).
Notation calls := (track_calls o configured rs).
Notation step := (crawl_step o configured rs).
Notation start := (crawl_start o configured rs n).

Lemma crawl_parts c c' : step c c' ->
pool_step c.1 c'.1 /\ c.2 = c'.2 \/ c.1 = c'.1 /\ serve_step calls c.2 c'.2.
Proof. intros []; simpl; [by left|right; split; [done|by eexists]|by left]. Qed.

Lemma crawl_ends (w : W) : sn step (start w).
Proof.
apply (sn_interleave pool_step (serve_step calls)); [exact crawl_parts|apply pool_ends|].
apply Tracks_end. intros i req Hi. eapply requests_safe, list_elem_of_lookup. eauto.
Qed.

Lemma crawl_pool_run w c : rtc step (start w) c -> rtc pool_step (pool_start n jobs) c.1.
Proof.
apply (rtc_project fst step pool_step (start w)). intros x y Hxy.
destruct (crawl_parts _ _ Hxy) as [[? _]|[? _]]; auto.
Qed.

Lemma crawl_serve_run w c : rtc step (start w) c -> rtc (serve_step calls) (serve_start calls w) c.2.
Proof.
apply (rtc_project snd step (serve_step calls) (start w)). intros x y Hxy.
destruct (crawl_parts _ _ Hxy) as [[_ ?]|[_ ?]]; auto.
Qed.

(** A call that has returned makes no other. *)
Lemma finished_stays s s' j : serve_step calls s s' -> finished o configured rs s j -> finished o configured rs s' j.
Proof.
destruct j as [r [k|]]; [|done]. intros [i [handler h c res w w' hs Hm Hh Hc Hrun]] (handler' & h' & res' & Hm' & Hh' & Hret).
simpl in *. exists handler', h', res'. split_and!; [done| |done]. simpl.
rewrite list_lookup_insert_ne; [done|]. intros ->. congruence.
Qed.

(** What has been consumed has been tracked. *)
Definition crawl_inv (c : pool (A := Repository * option nat) * served W) : Prop :=
forall j, j ∈ consumed c.1 -> finished o configured rs c.2 j.

Lemma crawl_reachable w c : rtc step (start w) c -> crawl_inv c.
Proof.
apply (rtc_preserve crawl_inv); [|by intros j Hj%elem_of_nil].
intros x y [p p' s Hp Heq|p s s' i r k Hi Hs|p p' s j Hp Heq Hj] Hinv j' Hj'; simpl in *.
- rewrite Heq in Hj'. by apply Hinv.
- eapply finished_stays; [by eexists|]. by apply Hinv.
- rewrite Heq in Hj'. apply elem_of_app in Hj' as [Hj'| ->%list_elem_of_singleton]; [by apply Hinv|done].
Qed.

Lemma serve_lengths w c : rtc step (start w) c -> length (histories c.2) = length calls.
Proof. intros Hc. by eapply serve_length, crawl_serve_run. Qed.

(** A worker can always go on. *)
Lemma crawl_busy w c i j : rtc step (start w) c -> workers c.1 !! i = Some (Some j) ->
finished o configured rs c.2 j \/ exists c', step c c'.
Proof.
intros Hc Hi. destruct c as [p s], j as [r [k|]]; simpl in *; [|by left].
assert ((r, Some k) ∈ jobs) as Hin.
{ destruct (pool_reachable n jobs _ (crawl_pool_run _ _ Hc)) as [Hall _ _ _ _]. rewrite <- Hall. simpl.
  rewrite !elem_of_app. right. right. left. apply list_elem_of_omap. exists (Some (r, Some k)). split; [|done].
  apply list_elem_of_lookup. eauto. }
apply jobs_numbered in Hin as (_ & _ & Hlook & [req Hreq]). rewrite Nat.sub_0_r, Hreq in Hlook.
assert (calls !! k = Some (track_handler req)) as Hcall by (unfold track_calls; by rewrite list_lookup_fmap, Hlook).
pose proof (serve_lengths _ _ Hc) as Hlen. simpl in Hlen.
destruct (lookup_lt_is_Some_2 (histories s) k) as [h Hh]; [rewrite Hlen; by eapply lookup_lt_Some|].
destruct (next_call (track_handler req) h) as [call|res] eqn:Hnext.
- right. destruct s as [w1 hs], (perform call w1) as [o1 w2] eqn:Hrun. eexists.
  eapply (crawl_call _ _ _ _ _ _ i r k); [done|]. by eapply serve_call.
- left. by exists (track_handler req), h, res.
Qed.

(** Until the pool has returned something can go on. *)
Lemma crawl_goes w c : rtc step (start w) c -> returned c.1 = false -> exists c', step c c'.
Proof.
intros Hc Hret. destruct (pool_run n jobs c.1 Hn (crawl_pool_run _ _ Hc)) as (_ & Hgo & _).
destruct (Hgo Hret) as [p' Hp]. destruct (pool_step_cases _ _ Hp) as [Heq|(i & j & Hi & Heq)].
- destruct c. eexists. by apply crawl_pool.
- destruct (crawl_busy _ _ _ _ Hc Hi) as [Hf|Hs]; [|done]. destruct c. eexists. by eapply crawl_done.
Qed.

Lemma crawl_run w : exists c, rtc step (start w) c /\ returned c.1 = true.
Proof.
assert (forall c, sn step c -> rtc step (start w) c -> exists c', rtc step (start w) c' /\ returned c'.1 = true) as Hall.
{ induction 1 as [c _ IH]. intros Hc. destruct (returned c.1) eqn:Hret; [eauto|].
  destruct (crawl_goes _ _ Hc Hret) as [c' Hstep]. eapply (IH c' Hstep), rtc_r; eauto. }
apply (Hall (start w)); [apply crawl_ends|constructor].
Qed.

(** When the pool has returned, so has every call. *)
Lemma crawl_returned w c : rtc step (start w) c -> returned c.1 = true ->
(consumed c.1).*1 ≡ₚ rs /\
forall k req h, requests o configured rs !! k = Some req -> histories c.2 !! k = Some h ->
  exists res, next_call (track_handler req) h = inr res.
Proof.
intros Hc Hret. destruct (pool_run n jobs c.1 Hn (crawl_pool_run _ _ Hc)) as (Hall & _ & _).
specialize (Hall Hret). split; [rewrite Hall; by rewrite jobs_repositories|].
intros k req h Hreq Hh. destruct (jobs_cover o configured rs 0 k) as [r Hr]; [by eapply lookup_lt_Some|].
simpl in Hr. rewrite <- Hall in Hr. destruct (crawl_reachable _ _ Hc _ Hr) as (handler & h' & res & Hm & Hh' & Hres).
unfold track_calls in Hm. rewrite list_lookup_fmap, Hreq in Hm. simplify_eq/=. eauto.
Qed.
End Crawl.

(** ** Results *)

(** C26. Whatever the tracker's store, the hosts, git and the extractor answer: an
  indexer with a worker comes to an end in every interleaving of its
  workers and of the calls their handlers make, and not before it has
  consumed every repository once and every [Track] has been answered. *)
Theorem crawl_returns `{JsonCodec, !JsonCodecOk} `{MapRange} {W : Type} `{GraphStoreOps W}
  (o : oracle) (configured : bool) (rs : list Repository) (n : nat) (w : W) :
0 < n -> sn (crawl_step o configured rs) (crawl_start o configured rs n w) /\
forall c, rtc (crawl_step o configured rs) (crawl_start o configured rs n w) c ->
  (returned c.1 = false -> exists c', crawl_step o configured rs c c') /\
  (returned c.1 = true -> (consumed c.1).*1 ≡ₚ rs /\
     forall k req h, requests o configured rs !! k = Some req -> histories c.2 !! k = Some h ->
       exists res, next_call (track_handler req) h = inr res).
Proof.
intros Hn. split; [apply crawl_ends|]. intros c Hc. split; [by eapply crawl_goes|by eapply crawl_returned].
Qed.

Section Indexes.
Context `{JsonCodec, !JsonCodecOk} `{MapRange} {W : Type} `{GraphStoreTotal W}.
Context `{TlsFiles} {Net : Type} `{Hosting Net} `{ConfigFormats (list Account)}.
Context (read_file : string -> outcome string) (public_keys : string -> string -> outcome unit).

Lemma crawl_all_true (o : oracle) (configured : bool) (rs : list Repository) (n : nat) (v0 : astore) (w : W) c :
0 < n -> compatible (requests o configured rs) -> well_linked v0 -> rep w v0 ->
rtc (crawl_step o configured rs) (crawl_start o configured rs n w) c -> returned c.1 = true ->
all_returned (track_calls o configured rs) c.2 (Ret true).
Proof.
intros Hn Hok Hwl Hr Hc Hret k handler h Hm Hh. unfold track_calls in Hm. rewrite list_lookup_fmap in Hm.
destruct (requests o configured rs !! k) as [req|] eqn:Hreq; simplify_eq/=.
destruct (crawl_returned o configured rs n Hn w c Hc Hret) as [_ Hall].
destruct (Hall _ _ _ Hreq Hh) as [res Hres]. rewrite Hres. f_equal.
eapply (no_call_returned _ _ Hok Hwl); [exact Hr| |exact Hreq|exact Hh|exact Hres].
by eapply crawl_serve_run.
Qed.

(** C7. From a configuration to the graph: an indexer that gets to its workers
  works on what its remotes answered; on a tracker whose store does not fail
  it ends in every interleaving; and when it has ended the graph is well
  linked and is the one left by tracking, in some order, the repositories
  that could be cloned and extracted, so that each of them has exactly the
  edges its manifests declare.  Their requests are about different sources,
  and none reports the source of another as the origin of a module. *)
Theorem indexer_indexes (fuel : nat) (cfg : indexerConfig) (net net' : Net) (configured : bool)
  (start : pool (A := Repository)) (o : oracle) (w : W) (v0 : astore) :
indexer_action read_file public_keys fuel cfg net = (Ret (Some (configured, start)), net') ->
(0 < workers_ cfg)%Z -> compatible (requests o configured (unfed start)) -> well_linked v0 -> rep w v0 ->
let rs := unfed start in
let begin := crawl_start o configured rs (length (workers start)) w in
(exists accounts remote, Load read_file (configPath cfg) = Ret accounts /\ ParseConfig accounts = Ret remote /\
   remote fuel net = (Ret (Some rs), net')) /\
sn (crawl_step o configured rs) begin /\
forall c, rtc (crawl_step o configured rs) begin c ->
  (returned c.1 = false -> exists c', crawl_step o configured rs c c') /\
  (returned c.1 = true -> exists order v, order ≡ₚ requests o configured rs /\ rep (store_world c.2) v /\ serial order v0 v /\ well_linked v /\
    forall r req k, r ∈ rs -> reported o configured r req -> own (keyForSource (SR_Source req)) k ->
      is_Some (v !! k) <-> declared req k).
Proof.
intros (accounts & remote & repositories & Hload & Hparse & Hrem & Hcfg & ->)%indexer_starts Hw.
cbn [unfed workers pool_start]. rewrite length_replicate. intros Hok Hwl Hr.
assert (0 < Z.to_nat (workers_ cfg)) as Hn by lia. split_and!; [eauto|apply crawl_ends|]. intros c Hc.
split; [by eapply crawl_goes|]. intros Hret.
pose proof (crawl_all_true _ _ _ _ _ _ _ Hn Hok Hwl Hr Hc Hret) as Hall.
destruct (serializable _ _ Hok Hwl w c.2 Hr (crawl_serve_run _ _ _ _ _ _ Hc) Hall)
  as (order & v & Hp & Hr' & Hser & Hwl' & Hown).
exists order, v. split_and!; [done..|]. intros r req k Hin Hrep. apply Hown.
apply elem_of_requests. exists r. split; [done|]. by apply tracked_reported.
Qed.
End Indexes.

(** ** Two programs at work *)

#[local] Existing Instance quiet_engine.
#[local] Existing Instance quiet_no_faults.
#[local] Existing Instance map_order.
#[local] Existing Instance json_codec.
#[local] Existing Instance json_codec_ok.
#[local] Existing Instance demo_ops.
#[local] Existing Instance demo_spec.
#[local] Existing Instance demo_total.
#[local] Existing Instance demo_files.
#[local] Existing Instance demo_formats.
#[local] Existing Instance no_hosting.

(** Every clone has one manifest, with the content of [demo_request]. *)
Definition demo_oracle : oracle := {|
  o_tempdir := Some "tmp"%string; o_chroot := true; o_keys := fun _ _ _ => true;
  o_clone := fun _ _ => Some (Dir [("go.mod", File "module mod")], Some "main")%string;
  o_match := fun paths => Some paths;
  o_extract := fun _ _ => Some (SR_ManagementFiles demo_request) |}.

Definition demo_repositories : list Repository := [mkRepository "git@a" None].

Lemma demo_requests : requests demo_oracle false demo_repositories = [demo_request].
Proof. reflexivity. Qed.

Lemma demo_alone : compatible (requests demo_oracle false demo_repositories).
Proof.
  rewrite demo_requests. split.
  - intros [|i] req Hreq; [|discriminate Hreq]. injection Hreq as <-. exact demo_safe.
  - intros [|i] req Hreq; [|discriminate Hreq]. injection Hreq as <-. exact demo_no_collision.
  - intros [|i] [|j] req1 req2 Hi Hj Hne; [by destruct Hne|discriminate Hj|discriminate Hi..].
Qed.

(** A store that fails every call. *)
Lemma crawl_returns_witness :
  exists c, rtc (crawl_step demo_oracle false demo_repositories)
                (crawl_start demo_oracle false demo_repositories 2 (mkWorld ∅ 0)) c /\
    returned c.1 = true /\ (consumed c.1).*1 ≡ₚ demo_repositories.
Proof.
  destruct (crawl_run demo_oracle false demo_repositories 2 ltac:(lia) (mkWorld ∅ 0)) as (c & Hc & Hret).
  destruct (crawl_returns demo_oracle false demo_repositories 2 (mkWorld ∅ 0)) as [_ Hall]; [lia|].
  destruct (Hall c Hc) as [_ Hcons]. exists c. split_and!; [exact Hc|exact Hret|apply (Hcons Hret)].
Defined.

Lemma indexer_indexes_witness : exists start c order v,
  indexer_action (fun _ => Ret "accounts"%string) (fun _ _ => Ret tt) 3 demo_indexer tt = (Ret (Some (false, start)), tt) /\
  rtc (crawl_step demo_oracle false (unfed start)) (crawl_start demo_oracle false (unfed start) 2 empty_world) c /\
  returned c.1 = true /\ order ≡ₚ [demo_request] /\ rep (store_world c.2) v /\ serial order ∅ v /\ well_linked v.
Proof.
  exists (pool_start 2 demo_repositories). assert (rep empty_world ∅) as Hr by exact empty_world_rep.
  assert (indexer_action (fun _ => Ret "accounts"%string) (fun _ _ => Ret tt) 3 demo_indexer tt =
    (Ret (Some (false, pool_start 2 demo_repositories)), tt)) as Hrun by (vm_compute; reflexivity).
  destruct (crawl_run demo_oracle false demo_repositories 2 ltac:(lia) empty_world) as (c & Hc & Hret).
  destruct (indexer_indexes _ _ _ _ _ _ _ _ demo_oracle empty_world ∅ Hrun eq_refl demo_alone well_linked_empty Hr)
    as (_ & _ & Hall).
  destruct (Hall c Hc) as [_ Hend]. destruct (Hend Hret) as (order & v & Hp & Hr' & Hser & Hwl & _).
  exists c, order, v. split_and!; [exact Hrun|exact Hc|exact Hret|exact Hp|exact Hr'|exact Hser|exact Hwl].
Defined.
