(* ===== verification/EndToEnd.v ===== *)
(** * From the graph to the terminal

    The topology command against a gateway in front of a tracker: what it
    prints is what is reachable in the graph the tracker's store holds. *)

From Stdlib Require Import Ascii.
From S2P Require Import Prelude GoUrl GoCodec GoHash Api GraphSpec Sql StoreAlpha StoreAlphaSpec.
From S2P Require Import KeysAlpha QueryAlpha SearchAlpha TrackAlpha TrackAlphaProofs Instances TrackInvariant.
From S2P Require Import QuerySpec SearchSpec Topology TopologySpec Demo Services Gateway ClientConfig.
From S2P Require Import DepsClient DepsCli TopologyThms GatewayThms.

(** ** Names and keys *)

Lemma topology_key_inj m1 m2 :
  free_of "|" (Module_Language m1) -> free_of "|" (Module_Organization m1) ->
  free_of "|" (Module_Language m2) -> free_of "|" (Module_Organization m2) ->
  topology_key m1 = topology_key m2 -> keyForModule m1 = keyForModule m2.
Proof.
  intros Hl1 Ho1 Hl2 Ho2 Heq.
  assert (forall m, free_of "|" (Module_Language m) -> free_of "|" (Module_Organization m) ->
    cut "|" (topology_key m) = Some (Module_Language m, Module_Organization m +:+ String "|" (Module_Module m)) /\
    cut "|" (Module_Organization m +:+ String "|" (Module_Module m)) =
      Some (Module_Organization m, Module_Module m)) as Hcut.
  { intros m Hl Ho. split; [|by apply cut_free]. unfold topology_key. exact (cut_free "|" _ _ Hl). }
  destruct (Hcut m1 Hl1 Ho1) as [H1 H1'], (Hcut m2 Hl2 Ho2) as [H2 H2'].
  rewrite Heq, H2 in H1. injection H1 as Hl Hrest. rewrite Hrest, H1' in H2'. injection H2' as Ho Hm.
  unfold keyForModule. by rewrite Hl, Ho, Hm.
Qed.

Lemma NoDup_map_by {A B C} (f : A -> B) (g : A -> C) l :
  (forall x y, x ∈ l -> y ∈ l -> f x = f y -> g x = g y) -> NoDup (map g l) -> NoDup (map f l).
Proof.
  induction l as [|x l IH]; intros Hfg Hnd; [constructor|]. apply NoDup_cons in Hnd as [Hx Hnd]. simpl.
  constructor.
  - intros (y & Heq & Hy)%list_elem_of_fmap. apply Hx. apply list_elem_of_fmap. exists y.
    split; [|done]. apply Hfg; [by left|by right|done].
  - apply IH; [|done]. intros a b Ha Hb. apply Hfg; by right.
Qed.

Lemma module_at_unique `{JsonCodec} v k m1 m2 : module_at v k m1 -> module_at v k m2 -> m1 = m2.
Proof. intros (c1 & Hc1 & Hm1) (c2 & Hc2 & Hm2). congruence. Qed.

(** Tiers of names whose modules are known are tiers of modules. *)
Lemma tiers_named (module_at' : string -> option Module_) tiers :
(forall n, n ∈ concat tiers -> exists m, module_at' n = Some m /\ topology_key m = n) ->
exists ms, map (map module_at') tiers = map (map Some) ms /\ map topology_key (concat ms) = concat tiers.
Proof.
intros Hall. exists (map (fun tier => omap module_at' tier) tiers).
induction tiers as [|tier tiers IH]; [done|]. cbn [map concat].
destruct IH as [-> Heq]; [intros n Hn; apply Hall; simpl; set_solver|]. rewrite map_app, Heq.
assert (map module_at' tier = map Some (omap module_at' tier) /\ map topology_key (omap module_at' tier) = tier) as [-> ->]; [|done].
assert (forall n, n ∈ tier -> exists m, module_at' n = Some m /\ topology_key m = n) as Htier.
{ intros n Hn. apply Hall. simpl. set_solver. }
clear -Htier. induction tier as [|n tier IH]; [done|].
destruct (Htier n ltac:(by left)) as (m & Hm & Hk), IH as [Heq1 Heq2]; [by intros x Hx; apply Htier; right|].
cbn. rewrite Hm. cbn. by rewrite Heq1, Heq2, Hk.
Qed.

Section Topology.
Context `{JsonCodec} (dir : direction) (v : astore) (d : DependencyRequest).

Definition root_module : Module_ := requestToModule d.
Notation root := (keyForModule root_module).

(** The modules the topology is about: the one asked for, and those of the
  graph that are reachable from it. *)
Definition reached (m : Module_) : Prop :=
m = root_module \/ (module_at v (keyForModule m) m /\ rtc (edge dir v) root (keyForModule m)).

(** Names the command tells apart: it joins language, organization and module
  with bars, and the graph knows the module asked for by its own name. *)
Record plain_names : Prop := {
  names_free : forall m, reached m -> free_of "|" (Module_Language m) /\ free_of "|" (Module_Organization m);
  names_root : forall m, module_at v root m -> topology_key m = topology_key root_module }.

(** What the command waits for: a module is printed when every module that
  leads to it is.  One on a cycle of modules that wait for each other, or
  after such a cycle, never is. *)
Inductive settled : bytes -> Prop :=
| settled_root : settled root
| settled_child k a : k <> root -> rtc (edge dir v) root a -> edge dir v a k ->
    (forall a, rtc (edge dir v) root a -> edge dir v a k -> settled a) -> settled k.

(** Without a cycle nothing waits for good. *)
Lemma settled_acyclic (rank : bytes -> nat) :
(forall a b, rtc (edge dir v) root a -> edge dir v a b -> rank a < rank b) ->
forall k, rtc (edge dir v) root k -> settled k.
Proof using.
intros Hrank. assert (forall n k, rank k < n -> rtc (edge dir v) root k -> settled k) as Hall; [|eauto].
intros n. induction n as [|n IH]; intros k Hn Hk; [lia|].
destruct (decide (k = root)) as [->|Hne]; [constructor|].
destruct (rtc_inv_r _ _ Hk) as [?|(a & Ha & He)]; [congruence|].
apply (settled_child k a Hne Ha He). intros b Hb Hbe. apply IH; [|done].
specialize (Hrank _ _ Hb Hbe). lia.
Qed.

Context (Hnames : plain_names).

Lemma reached_rtc m : reached m -> rtc (edge dir v) root (keyForModule m).
Proof using. intros [->|[_ ?]]; [constructor|done]. Qed.

Lemma name_key m1 m2 : reached m1 -> reached m2 ->
topology_key m1 = topology_key m2 <-> keyForModule m1 = keyForModule m2.
Proof using Hnames.
intros H1 H2. split.
- destruct (names_free Hnames m1 H1), (names_free Hnames m2 H2). by apply topology_key_inj.
- destruct H1 as [->|[Ha1 _]], H2 as [->|[Ha2 _]]; intros Heq; [done|..].
  + symmetry. apply (names_root Hnames). by rewrite Heq.
  + apply (names_root Hnames). by rewrite <- Heq.
  + rewrite Heq in Ha1. by rewrite (module_at_unique _ _ _ _ Ha1 Ha2).
Qed.

(** A dependency of a reached module is reached. *)
Lemma related_module k dep : related dir v k dep -> rtc (edge dir v) root k ->
reached (Dependency_Module dep) /\ edge dir v k (keyForModule (Dependency_Module dep)).
Proof using.
intros Hrel Hk. assert (edge dir v k (keyForModule (Dependency_Module dep))) as He by (by exists dep).
split; [|done]. right. split; [|by eapply rtc_r]. by destruct dir; destruct Hrel as (_ & ? & _).
Qed.

(** ** The rows of the responses *)

Context (rs : list SearchResponse).
Hypothesis Hanswers : Forall (answers dir v) rs.
Hypothesis Hnamed : Forall (fun r => r = ask dir d \/ SearchSpec.named dir v r) (map Request rs).
Hypothesis Hkeys : NoDup (map response_key rs).
Hypothesis Hreach : forall b, b ∈ map response_key rs <-> rtc (edge dir v) root b.

Notation rows := (omap row_of rs).

(** A response and its row. *)
Definition row_reads (resp : SearchResponse) (m : Module_) (l : list Dependency) : Prop :=
row_of resp = Some (topology_key m, map dependency_key l) /\ reached m /\ keyForModule m = response_key resp /\
forall dep, dep ∈ l <-> related dir v (keyForModule m) dep.

Lemma response_row resp : resp ∈ rs -> exists m l, row_reads resp m l.
Proof using Hanswers Hnamed Hreach.
intros Hin. rewrite Forall_forall in Hanswers. rewrite Forall_forall in Hnamed.
destruct (Hanswers resp Hin) as ([req Hreq] & l & Hresp & Hl).
exists (requestToModule req), l. unfold row_reads.
assert (response_key resp = keyForModule (requestToModule req)) as Hkey.
{ unfold response_key. rewrite Hreq. by destruct dir. }
split_and!; [|..|done|].
- rewrite Hresp, Hreq. by destruct dir.
- assert (rtc (edge dir v) root (keyForModule (requestToModule req))) as Hrtc.
  { rewrite <- Hkey. apply Hreach. apply list_elem_of_fmap. eauto. }
  destruct (Hnamed (Request resp)) as [Hroot|(key & dep & Hrel & Heq)].
  + apply list_elem_of_fmap. eauto.
  + left. rewrite Hreq in Hroot. unfold root_module. by destruct dir; injection Hroot as ->.
  + right. split; [|done]. assert (req = dependency_request_of dep) as -> by (rewrite Hreq in Heq; destruct dir; by injection Heq).
    destruct dep as [[]]. by destruct dir; destruct Hrel as (_ & ? & _).
- intros dep. rewrite Hl. unfold response_key in Hkey. by rewrite Hkey.
Qed.

Lemma rows_read p deps : (p, deps) ∈ rows -> exists resp m l,
resp ∈ rs /\ row_reads resp m l /\ p = topology_key m /\ deps = map dependency_key l.
Proof using Hanswers Hnamed Hreach.
intros (resp & Hin & Hrow)%list_elem_of_omap. destruct (response_row resp Hin) as (m & l & Hread).
exists resp, m, l. pose proof Hread as (Hrow' & _). rewrite Hrow in Hrow'. by simplify_eq.
Qed.

Lemma key_row k : rtc (edge dir v) root k -> exists m l,
(topology_key m, map dependency_key l) ∈ rows /\ reached m /\ keyForModule m = k /\
forall dep, dep ∈ l <-> related dir v k dep.
Proof using Hanswers Hnamed Hreach.
intros (resp & -> & Hin)%Hreach%list_elem_of_fmap. destruct (response_row resp Hin) as (m & l & Hrow & Hm & Hk & Hl).
exists m, l. split_and!; [|done|done|by rewrite <- Hk]. apply list_elem_of_omap. eauto.
Qed.

Lemma parent_edge p n m : parent rows p n -> reached m -> n = topology_key m ->
exists q, reached q /\ p = topology_key q /\ edge dir v (keyForModule q) (keyForModule m).
Proof using Hanswers Hnamed Hreach Hnames.
intros (deps & Hrow & Hn) Hm ->. destruct (rows_read _ _ Hrow) as (resp & q & l & _ & (_ & Hq & _ & Hl) & -> & ->).
apply list_elem_of_fmap in Hn as (dep & Heq & Hdep). apply Hl in Hdep.
destruct (related_module _ _ Hdep (reached_rtc _ Hq)) as [Hdm He].
exists q. split_and!; [done..|]. by rewrite (proj1 (name_key _ _ Hm Hdm) Heq).
Qed.

Lemma mentioned_reached n : mentioned rows n <-> exists m, reached m /\ n = topology_key m.
Proof using Hanswers Hnamed Hreach Hnames.
split.
- intros [Hn|(p & deps & Hrow & Hn)].
  + apply list_elem_of_fmap in Hn as ([p deps] & -> & Hrow).
    destruct (rows_read _ _ Hrow) as (resp & m & l & _ & (_ & Hm & _) & -> & _). by exists m.
  + destruct (rows_read _ _ Hrow) as (resp & m & l & _ & (_ & Hm & _ & Hl) & _ & ->).
    apply list_elem_of_fmap in Hn as (dep & -> & Hdep). apply Hl in Hdep.
    destruct (related_module _ _ Hdep (reached_rtc _ Hm)) as [Hdm _]. by exists (Dependency_Module dep).
- intros (m & Hm & ->). left. destruct (key_row _ (reached_rtc _ Hm)) as (m' & l & Hrow & Hm' & Hk & _).
  apply list_elem_of_fmap. exists (topology_key m', map dependency_key l). split; [|done].
  by apply name_key.
Qed.

Lemma edge_parent a m : rtc (edge dir v) root a -> reached m -> edge dir v a (keyForModule m) ->
exists q, reached q /\ keyForModule q = a /\ parent rows (topology_key q) (topology_key m).
Proof using Hanswers Hnamed Hreach Hnames.
intros Ha Hm (dep & Hrel & Hk). destruct (key_row a Ha) as (q & l & Hrow & Hq & Hqk & Hl).
destruct (related_module _ _ Hrel Ha) as [Hdm _]. exists q. split_and!; [done..|].
exists (map dependency_key l). split; [done|]. apply list_elem_of_fmap. exists dep. rewrite Hl.
split; [|done]. symmetry. by apply (name_key _ _ Hdm Hm).
Qed.

(** The modules that leave the command's loop are the settled ones. *)
Lemma emitted_settled n :
emitted rows (topology_key root_module) n <-> exists m, reached m /\ settled (keyForModule m) /\ n = topology_key m.
Proof using Hanswers Hnamed Hreach Hnames.
assert (reached root_module) as Hrm by (by left). split.
- induction 1 as [|n p Hne Hp _ IH]; [exists root_module; split_and!; [done|constructor|done]|].
  assert (mentioned rows n) as (m & Hm & ->)%mentioned_reached by (right; by exists p).
  exists m. split_and!; [done| |done]. destruct (parent_edge _ _ m Hp Hm eq_refl) as (q & Hq & -> & He).
  apply (settled_child _ (keyForModule q)); [|by apply reached_rtc|done|].
  + intros Hk. apply Hne. by apply (name_key _ _ Hm Hrm).
  + intros a Ha Hae. destruct (edge_parent a m Ha Hm Hae) as (q' & Hq' & <- & Hpar).
    destruct (IH _ Hpar) as (q2 & Hq2 & Hset & Heq). by rewrite (proj1 (name_key _ _ Hq' Hq2) Heq).
- intros (m & Hm & Hset & ->). remember (keyForModule m) as k eqn:Hk. revert m Hm Hk.
  induction Hset as [|k a Hne Ha He _ IH]; intros m Hm Hk.
  + rewrite (proj2 (name_key _ _ Hm Hrm)); [constructor|done].
  + subst k. destruct (edge_parent a m Ha Hm He) as (q & _ & _ & Hpar).
    apply (emitted_child _ _ _ (topology_key q)); [|done|].
    * intros Hn%(name_key _ _ Hm Hrm). done.
    * intros p Hp. destruct (parent_edge _ _ m Hp Hm eq_refl) as (q' & Hq' & -> & He').
      by apply (IH _ (reached_rtc _ Hq') He').
Qed.

Lemma rows_once : length rows = length rs /\ NoDup rows.*1.
Proof using Hanswers Hnamed Hreach Hnames Hkeys.
assert (forall l, (forall r, r ∈ l -> r ∈ rs) ->
  length (omap row_of l) = length l /\ (omap row_of l).*1 = map (fun r => default ""%string (fst <$> row_of r)) l) as Hmap.
{ induction l as [|r l IH]; intros Hl; [done|]. destruct (IH (fun x Hx => Hl x (list_elem_of_further _ _ _ Hx))) as [Hlen Heq].
  destruct (response_row r (Hl r ltac:(by left))) as (m & deps & Hrow & _).
  rewrite omap_row_cons. cbn [map]. rewrite Hrow, fmap_cons, Heq. cbn [length]. by rewrite Hlen. }
destruct (Hmap rs) as [Hlen ->]; [done|]. split; [done|].
eapply NoDup_map_by; [|exact Hkeys]. intros x y Hx Hy.
destruct (response_row x Hx) as (mx & lx & Hrx & Hmx & Hkx & _), (response_row y Hy) as (my & ly & Hry & Hmy & Hky & _).
rewrite Hrx, Hry. simpl. intros Hn%(name_key _ _ Hmx Hmy). congruence.
Qed.

(** The topology of the responses. *)
Lemma topology_of_responses :
exists tiers, topology (mkSearchClient None None rs None) (ask dir d) = Ret (Some (map (map Some) tiers)) /\
  NoDup (map topology_key (concat tiers)) /\
  forall n, n ∈ map topology_key (concat tiers) <->
    exists m, reached m /\ settled (keyForModule m) /\ n = topology_key m.
Proof using Hanswers Hnamed Hreach Hnames Hkeys.
destruct (topology_run_emitted (mkSearchClient None None rs None) (ask dir d) (topology_key root_module))
  as (tiers & module_at' & Hrun & Hnd & Hall & Hkey); [done|apply rows_once|by destruct dir|].
destruct (tiers_named module_at' tiers) as (ms & Heq & Hms).
- intros n (m & Hm & _ & Hn)%Hall%emitted_settled. apply Hkey, mentioned_reached. by exists m.
- exists ms. rewrite Hms, <- Heq. split_and!; [done..|]. intros n. by rewrite Hall, <- emitted_settled.
Qed.
End Topology.

(** ** The command against a gateway and a tracker *)

Lemma write_until_all items : write_until (fun _ => None) items = (items, None).
Proof. induction items as [|item items IH]; [done|]. simpl. by rewrite IH. Qed.

Section Command.
Context `{JsonCodec, !JsonCodecOk} {W : Type} `{GraphStoreTotal W}.

Lemma serve_bfs_named (dir : direction) (d : DependencyRequest) (w : W) (v : astore) (fuel : nat) :
rep w v -> decodable v -> size (dom v) < fuel ->
Forall (fun r => r = ask dir d \/ SearchSpec.named dir v r) (map Request (serve_bfs fuel w (ask dir d))).
Proof.
intros Hr Hdec Hfuel. assert (undisturbed (tracker_env (ask dir d))) as Henv by done.
unfold serve_bfs. destruct (BreadthFirstSearch _ _ _) as [o s] eqn:Hrun.
by eapply (bfs_named (tracker_env (ask dir d)) Henv dir v Hdec d w fuel o s).
Qed.

(** C11. What [deps get dependencies topology] (or [dependents topology]) prints
  when its search goes through the gateway to the tracker, for names that
  keep the bars of the command's keys apart and where nothing fails.  Every run of the session is
  shorter than a bound given by the graph; either it goes on, or the stream
  has ended without an error and the command prints, by tiers or flat, each
  module reachable from the one asked for exactly once and no other, except
  the modules that wait for a cycle: one is printed if and only if all the
  modules that lead to it are.  Where the graph has no cycle reachable from
  the module asked for, these are all. *)
Theorem topology_shows_graph {U : Type} (dir : direction) (req : DependencyRequest) (half_closed : bool) (w : W)
  (v : astore) (fuel n : nat)
  (s : process_state SearchRequest SearchResponse * service_at SearchResponse) (client : Client U) (by_tiers : bool) :
let d := setRequestFields req in
let root := keyForModule (root_module d) in
rep w v -> decodable v -> size (dom v) < fuel -> refuses_request d = false -> plain_names dir v d ->
nsteps (session_step (serve_bfs fuel w)) n (session_start [ask dir d] half_closed) s ->
client_Search client = Some (fun _ => mkSearchClient None None (moved (forwarder s.1)) None) ->
n <= 4 * size (dom v) + 13 /\
((exists s', session_step (serve_bfs fuel w) s s') \/
 (Gateway.at_ (forwarder s.1) = Stopped None /\
  exists tiers,
  TopologyCommand (fun _ => None) by_tiers client (ask dir) req =
    Ret (Some (topology_output by_tiers (map (map Some) tiers), None)) /\
  NoDup (map topology_key (concat tiers)) /\
  (forall name, name ∈ map topology_key (concat tiers) <->
     exists m, reached dir v d m /\ settled dir v d (keyForModule m) /\ name = topology_key m) /\
  forall rank : bytes -> nat,
    (forall a b, rtc (edge dir v) root a -> edge dir v a b -> rank a < rank b) ->
    forall m, reached dir v d m -> topology_key m ∈ map topology_key (concat tiers))).
Proof.
intros d root Hr Hdec Hfuel Href Hnames Hn Hclient.
destruct (serve_bfs_answers dir d w v fuel Hr Hdec Hfuel) as (Hans & Hnd & Hreach & _).
destruct (session_run _ _ _ _ _ _ Hn) as (Hbound & _ & Hend). split.
{ pose proof (answers_bound dir v (node_key (ask dir d)) _ Hnd (fun b Hb => proj1 (Hreach b) Hb)) as Hlen.
  rewrite length_map in Hlen. simpl in Hbound. lia. }
destruct Hend as [Hgo|[Hret Hmoved]]; [by left|right]. split; [done|].
unfold TopologyCommand. rewrite Hclient. unfold topology_run. fold d. rewrite Href, Hmoved.
destruct (topology_of_responses dir v d Hnames (serve_bfs fuel w (ask dir d)) Hans) as (tiers & Htop & Htn & Hall);
  [by eapply serve_bfs_named|done|intros b; rewrite Hreach; by destruct dir|].
exists tiers. split_and!; [|done|done|].
- rewrite Htop. cbn. by rewrite write_until_all.
- intros rank Hrank m Hm. apply Hall. exists m. split_and!; [done| |done].
  by eapply settled_acyclic, reached_rtc.
Qed.
End Command.

(** ** On a small graph *)

(** A store that is its own specification. *)
Definition spec_store : GraphStoreOps astore := {|
  gs_Put items v := (Ret tt, spec_put items v); gs_Delete items v := (Ret tt, spec_delete items v);
  gs_List _ v := (Ret [], v);
  gs_FindUpstream req v := (Ret (spec_upstream req v), v);
  gs_FindDownstream req v := (Ret (spec_downstream req v), v) |}.
#[local] Existing Instance spec_store.

Definition spec_store_spec : GraphStoreSpec astore.
Proof. refine {| rep w v := w = v |}; cbn; intros; simplify_eq; done. Defined.
#[local] Existing Instance spec_store_spec.

Definition spec_store_total : GraphStoreTotal astore.
Proof. split; cbn; intros; eauto. Defined.
#[local] Existing Instance spec_store_total.
#[local] Existing Instance json_codec.
#[local] Existing Instance json_codec_ok.

Definition app : Module_ := mkModule "go" "github.com" "depscloud/app" "".
Definition lib : Module_ := mkModule "go" "github.com" "depscloud/lib" "".
Definition uses : Depends := mkDepends "go" "v1" ["direct"%string] "main".
Definition app_key : bytes := Eval vm_compute in keyForModule app.
Definition lib_key : bytes := Eval vm_compute in keyForModule lib.

Definition json (m : schema_msg) : ival := (GraphItemEncoding_JSON, json_text m).
Definition small_graph : astore :=
  <[(ModuleType, app_key, app_key, []) := json (VModule app)]>
  (<[(ModuleType, lib_key, lib_key, []) := json (VModule lib)]>
  (<[(DependsType, app_key, lib_key, []) := json (VDepends uses)]> ∅)).

Lemma small_lookup k c : small_graph !! k = Some c ->
  (k = (ModuleType, app_key, app_key, []) /\ c = json (VModule app)) \/
  (k = (ModuleType, lib_key, lib_key, []) /\ c = json (VModule lib)) \/
  (k = (DependsType, app_key, lib_key, []) /\ c = json (VDepends uses)).
Proof.
  unfold small_graph. rewrite !lookup_insert_Some. intros [[<- <-]|[_ [[<- <-]|[_ [[<- <-]|[_ Hx]]]]]]; [tauto..|].
  by rewrite lookup_empty in Hx.
Qed.

Lemma app_reads : as_module (edge_item ((ModuleType, app_key, app_key, []), json (VModule app))) = Ret app.
Proof. vm_compute. reflexivity. Qed.
Lemma lib_reads : as_module (edge_item ((ModuleType, lib_key, lib_key, []), json (VModule lib))) = Ret lib.
Proof. vm_compute. reflexivity. Qed.

Lemma small_modules k m : module_at small_graph k m -> (k = app_key /\ m = app) \/ (k = lib_key /\ m = lib).
Proof.
  intros (c & [[Hk ->]|[[Hk ->]|[Hk ->]]]%small_lookup & Hm); [| |done].
  - injection Hk as ->. rewrite app_reads in Hm. injection Hm as <-. tauto.
  - injection Hk as ->. rewrite lib_reads in Hm. injection Hm as <-. tauto.
Qed.

Lemma small_decodable : decodable small_graph.
Proof.
  intros k c [[-> ->]|[[-> ->]|[-> ->]]]%small_lookup; split_and!; try done; intros _; eexists.
  - split; [exact app_reads|vm_compute; reflexivity].
  - split; [exact lib_reads|vm_compute; reflexivity].
  - vm_compute. reflexivity.
Qed.

Lemma small_depends a b k3 d : depends_at small_graph a b k3 d -> a = app_key /\ b = lib_key.
Proof.
  intros (c & [[Hk _]|[[Hk _]|[Hk _]]]%small_lookup & _); [done..|]. by injection Hk.
Qed.

Lemma small_edge a b : edge Upward small_graph a b -> a = app_key /\ b = lib_key.
Proof. intros (dep & (_ & _ & k3 & Hd) & <-). exact (small_depends _ _ _ _ Hd). Qed.

Definition small_rank (k : bytes) : nat := if decide (k = app_key) then 0 else 1.
Definition small_request : DependencyRequest := mkDependencyRequest "go" "" "" "github.com/depscloud/app".

Lemma app_lib_keys : app_key <> lib_key.
Proof. apply (bool_decide_unpack _). vm_compute. exact I. Qed.

Lemma small_names : plain_names Upward small_graph (setRequestFields small_request).
Proof.
  assert (forall m : Module_, m = root_module (setRequestFields small_request) \/ m = app \/ m = lib ->
    free_of "|" (Module_Language m) /\ free_of "|" (Module_Organization m)) as Hfree.
  { intros m [->|[->| ->]]; split; apply (bool_decide_unpack _); vm_compute; exact I. }
  split.
  - intros m [Hm|[Hm _]]; apply Hfree; [by left|]. apply small_modules in Hm. tauto.
  - intros m Hm. assert (keyForModule (root_module (setRequestFields small_request)) = app_key) as Hroot by (vm_compute; reflexivity).
    rewrite Hroot in Hm. apply small_modules in Hm as [[_ ->]|[Hk _]]; [vm_compute; reflexivity|].
    by destruct (app_lib_keys Hk).
Qed.

Definition small_client (s : process_state SearchRequest SearchResponse * service_at SearchResponse) : Client unit :=
  mkClient (mkDependencyService (fun _ => ret []) (fun _ => ret []))
    (mkModuleService (fun _ => fail ErrUnimplemented) (fun _ => ret []) (fun _ => ret []))
    (mkSourceService (fun _ => fail ErrUnimplemented) (fun _ => fail ErrUnimplemented))
    (Some (fun _ => mkSearchClient None None (moved (forwarder s.1)) None)).

Lemma small_ranked a b : edge Upward small_graph a b -> small_rank a < small_rank b.
Proof. intros [-> ->]%small_edge. apply Nat.ltb_lt. vm_compute. reflexivity. Qed.

(** A whole session: it is at rest, so the command prints; and without cycles
    it prints every module reached. *)
Lemma topology_shows_graph_witness : exists n (s : process_state SearchRequest SearchResponse * service_at SearchResponse) tiers,
  nsteps (session_step (serve_bfs 100 small_graph)) n
    (session_start [ask Upward (setRequestFields small_request)] true) s /\
  n <= 4 * size (dom small_graph) + 13 /\
  TopologyCommand (fun _ => None) true (small_client s) (ask Upward) small_request =
    Ret (Some (map WriteTier (map (map Some) tiers), None)) /\
  NoDup (map topology_key (concat tiers)) /\
  forall m, reached Upward small_graph (setRequestFields small_request) m ->
    topology_key m ∈ map topology_key (concat tiers).
Proof.
  destruct (session_rests (serve_bfs 100 small_graph) (ask Upward (setRequestFields small_request)) [] true)
    as (s & (n & Hn)%rtc_nsteps & Hst).
  assert (rep small_graph small_graph) as Hrep by reflexivity.
  assert (size (dom small_graph) < 100) as Hfuel by (apply Nat.ltb_lt; vm_compute; reflexivity).
  destruct (topology_shows_graph Upward small_request true small_graph small_graph 100 n s (small_client s) true
    Hrep small_decodable Hfuel ltac:(vm_compute; reflexivity) small_names Hn eq_refl)
    as (Hb & [[s' Hs]|(_ & tiers & Hrun & Hnd & _ & Hall)]); [by destruct (Hst s')|].
  exists n, s, tiers. split_and!; [exact Hn|exact Hb|exact Hrun|exact Hnd|].
  apply (Hall small_rank). intros a b _. apply small_ranked.
Defined.
